(* ===== verification/_CoqProject ===== *)
-Q . S2P
Prelude.v
Radix.v
Bits.v
RangeMap.v
ExtentRangeMap.v
BitmapRangeMap.v
RangeMapTheorems.v
BlockReader.v
StackedBlockReader.v
BlockMap.v
BlockMapPush.v
BlockMapLive.v
BlockMapTheorems.v
GoStd.v
Adaptor.v
WalIndex.v
WalFormat.v
WalWriter.v
WalLog.v
WalReader.v
WalLoad.v
WalClose.v
WalMem.v
WalTheorems.v
WalFaults.v
SparseFormat.v
SparseBuilder.v
SparseReader.v
SparseTable.v
SparseTheorems.v
SparseBuildFrom.v
WaitBarrier.v
OneRunner.v
Tracker.v
TrackerSteps.v
TrackerInv.v
TrackerReads.v
TrackerUse.v
TrackerExample.v
WriteLog.v
TrackerWriter.v
TrackerWriterInv.v
TrackerWriterExample.v
WriteLogState.v
WriteLogSync.v
DataFile.v
Storage.v
BlobStore.v
Metadata.v
Decimal.v
App.v
Device.v
DeviceInv.v
DeviceDisk.v
DeviceClose.v
DeviceRotate.v
DeviceCompact.v
DeviceReplace.v
DeviceCompaction.v
DeviceFlush.v
DeviceTheorems.v
ByteDevice.v
DeviceExample.v
Setup.v
