(* ===== verification/Prelude.v ===== *)
(** * Logblock: a verified model of a log-structured block device

    [logblock2] serves a block device whose blocks live in immutable tables and in
    append-only write logs. A write is appended to the active log. A read asks the
    logs, newest first, and then an index of all the older readers. In the
    background the index absorbs the readers that are no longer written to, and a
    compaction writes the blocks of full logs, and those that are still live in
    badly used tables, to a new table. A metadata blob lists the tables and logs;
    it is all that the device needs to be opened again, after [Close] or after a
    crash.

    ** The parts of the program and the files that model them

    Paths are under [src/internal] unless they start with [cmd].

    - Go itself: [Prelude] (machine integers, zero values, the outcome of a call:
      a result, a panic or no fuel left), [GoStd] (little-endian words, varints,
      CRC-32, files, [bufio]), [Decimal] ([strconv], [strings], [fmt] for file
      names).
    - [rangemap]: maps from 64-bit offsets to values by ranges. [RangeMap] has the
      interface as a class of operations with laws, [ExtentRangeMap] and
      [BitmapRangeMap] the two implementations, [RangeMapTheorems] what they
      promise. The libraries under them are the classes of [Radix] and [Bits].
    - [t], [readers]: [BlockReader] has the block-reader interface and its contract,
      [StackedBlockReader] the stack that reads go through.
    - [blockmap]: the index. [BlockMap] (operations), [BlockMapPush] (a push cut at
      its locked sections), [BlockMapLive] (live blocks), [BlockMapTheorems].
    - [adaptor]: [Adaptor], between byte-addressed and block-addressed readers and
      writers.
    - [sparseblock]: tables. [SparseFormat] (entries), [SparseBuilder],
      [SparseReader], [SparseTable] (a loaded table as a reader), [SparseTheorems],
      [SparseBuildFrom] ([BuildFromReader]).
    - [wal]: logs. [WalFormat], [WalIndex], [WalWriter], [WalReader], the
      specification [WalLog], the scan [WalLoad] and the closing index [WalClose],
      [WalTheorems], [WalFaults], and [WalMem] to run them.
    - [util]: [WaitBarrier], [OneRunner]; [SimpleReaderAtReader] is in [WalReader].
    - [tracker/reader.go]: [Tracker] (operations), [TrackerSteps] (interleavings),
      [TrackerInv], [TrackerReads], [TrackerUse], [TrackerExample].
      [tracker/writer.go]: [TrackerWriter], [TrackerWriterInv],
      [TrackerWriterExample].
    - [block/write_log.go]: [WriteLog], [WriteLogState], the life of a log, and
      [WriteLogSync], what its flush makes durable.
      [block/data_file.go]: [DataFile]. [storage/local]: [Storage] (the ideal
      stores), [BlobStore] (the blob writer step by step). [metadata] and
      [block/metadata.go]: [Metadata].
    - [block/block_file.go], [block/compaction.go]: [Device] (every operation),
      [DeviceInv] (the invariant, reads, writes, flushes), [DeviceDisk] (the device
      on the storage, opening), [DeviceClose], [DeviceRotate], [DeviceCompact],
      [DeviceReplace], [DeviceCompaction], [DeviceFlush] (durability),
      [DeviceTheorems], [DeviceExample].
    - [cmd/logblock/main.go] and [app/logblock]: [ByteDevice] (what the NBD server
      is given), [App] (the command line), [Setup] (the choice of the stores and
      the options of the device, with [storage/cloud]).

    The components meet at interfaces: a range map is used through [RangeMapLaws],
    a reader through [reader_ok] (a partial map from block indices to blocks) or
    [hole_reader_ok] (the same, addressed by bytes), a write log through
    [log_state], a device through [device], which relates it to the contents its
    users expect. Clients are proved against the interface and implementations
    discharge it.

    ** What the theorems show

    - The device (C1, C2, C3, C16). The steps are writes, flushes, compactions,
      closing and opening, crashes of the process between operations and at every
      state that the storage goes through during a compaction or a close, and
      losses of power between operations or during a compaction. In every reachable state a read returns
      the last write to each block, and every operation succeeds; what was flushed
      survives a loss of power, and of the later writes a prefix does; bytes read
      and written through the adaptor are the same contents.
    - Range maps (C4 to C7): both refine the partial function their operations
      describe and agree with each other.
    - Stack and index (C8 to C14): the newest reader wins in both, live blocks are
      counted right, the index stays well-formed, and a compaction that replaces
      tables changes no block.
    - Adaptors and command line (C15, C17).
    - Tables (C18, C19, C21): what was added is read back; [BuildFromReader]
      copies.
    - The blob store (C20): whatever fails or is cancelled, a blob appears at once
      and whole, as [Storage] has it.
    - Logs (C22 to C27, C37, C38): the last write is read back, a closed log is
      read back whole, a log cut anywhere gives a prefix of its writes; and where
      the code falls short of that.
    - The reader tracker (C28 to C32), with rotations, merges, compactions and
      reads interleaved: nothing but a write changes what the device shows, a read
      returns for every block a value of it during the read, a reader that was
      removed is not in use.
    - Barrier and runner (C33 to C36): waiting is long enough, and ends.
    - The writer tracker (C39, C40): a log is not closed while it is written to.

    ** How the code is modelled

    A Go integer is a [Z]; an operation that can leave its width in the states
    considered is written with its wrap-around, and where the code cannot reach
    the limits of [int64] (offsets inside a device) the arithmetic is exact.
    Pointers that the code shares, the extents of a range map, the wait groups of
    a barrier and the logs and tables of a device, live in a heap. A call returns
    a value of [outcome]: [Ret], [Panic], or [OutOfFuel] for a loop that would not
    end; the theorems give [Ret].

    Concurrent components are transition systems: a step is one section under a
    lock, or the fetch of one block by a read. The device of [Device] runs its
    operations one after the other, since what their interleavings do to the
    shared state is the subject of the two trackers; it records every state of the
    storage in [w_past], which is what a crash in the middle of an operation
    speaks of. A crash of the process finds log files as the bytes that have been
    written to them. A loss of power leaves of the active log its first bytes, at
    least those synced; blobs are synced before they are renamed and a log when a
    rotation closes it, and names of files are taken to be durable once they
    exist. A device that was opened from logs that may not have been synced is
    not assumed durable until a compaction has replaced them ([ds_durable]).

    Code that is not in the repository is a parameter with laws: the radix tree,
    the bitmaps and bit sets, the protobuf codecs (decoding gives back what was
    encoded), the truncated reader, the files of the logs (a write that does not
    fail appends its bytes, and a flush that does not fail syncs them), the cloud
    library, random numbers and the order in which Go iterates
    over a map. Every class of laws has an instance that computes, on which the
    theorems are applied.

    ** Bounds and fuel

    The theorems on the device suppose block sizes from 512 bytes to 1 MiB, as the
    code checks, fewer than 2^28 blocks (a table of them then has an index of less
    than 2^32 bytes, the width in which its reader computes the size), fewer than
    2^15 files in the metadata when an operation starts (the index has 16-bit
    reader numbers, and an operation adds files before it removes others),
    sequence numbers below 2^63, and that a free name for a new log is found within the given
    number of tries. A crash supposes that the active log does not end with the
    bytes of a footer ([wal_forged_footer] shows why), and a loss of power also
    that it does not end inside the offset field of an entry
    ([write_log_recovers]). Loops take as fuel a number
    they provably do not exceed: the length of the buffer or of the index for
    reads, the number of blocks and one for a build, the bytes of the file for the
    recovery scan; each lemma shows that the fuel is enough.

    ** Not modelled

    [storage/sources.go] only declares interfaces. Of [main.go] profiling, signals
    and the NBD server are left out; they are calls of libraries. A loss of power
    during a close, which does not sync the logs it closes, is not a step of the
    device, nor is one inside a single write to the storage other than to the
    active log. [testutil] (the
    checks that the tests of tables share), the generated protobuf code, the formatting of numbers
    for log lines ([util/bytes.go]), logging and timing are left out. Failing I/O
    is modelled in the log writer and in [BlobStore]; the device runs on the ideal
    stores of [Storage]. *)
From Stdlib Require Export ZArith Lia Sorted.
From stdpp Require Export prelude gmap relations.

(** ** Scopes and notation *)
Declare Scope go_scope.
Delimit Scope go_scope with go.
Global Open Scope go_scope.
Local Open Scope Z_scope.

(** ** Machine integers

    Every Go integer is a [Z]; an operation that can leave its width is written
    with the wrap-around of that width. *)
Definition u8 (x : Z) : Z := x mod 2 ^ 8.
Definition u16 (x : Z) : Z := x mod 2 ^ 16.
Definition u32 (x : Z) : Z := x mod 2 ^ 32.
Definition u64 (x : Z) : Z := x mod 2 ^ 64.
Definition i64 (x : Z) : Z := (x + 2 ^ 63) mod 2 ^ 64 - 2 ^ 63.

(** [a +u b] and [a -u b] are Go's [uint64] addition and subtraction. *)
Notation "a +u b" := (u64 (a + b)) (at level 50, left associativity) : go_scope.
Notation "a -u b" := (u64 (a - b)) (at level 50, left associativity) : go_scope.

(** The lemmas the components offer to [eauto with logblock]. *)
Create HintDb logblock discriminated.

Lemma u8_small x : 0 <= x < 2 ^ 8 -> u8 x = x.
Proof. apply Z.mod_small. Qed.
Lemma u16_small x : 0 <= x < 2 ^ 16 -> u16 x = x.
Proof. apply Z.mod_small. Qed.
Lemma u32_small x : 0 <= x < 2 ^ 32 -> u32 x = x.
Proof. apply Z.mod_small. Qed.
Lemma u64_small x : 0 <= x < 2 ^ 64 -> u64 x = x.
Proof. apply Z.mod_small. Qed.
Lemma i64_small x : - 2 ^ 63 <= x < 2 ^ 63 -> i64 x = x.
Proof. intros. unfold i64. rewrite Z.mod_small; lia. Qed.
Lemma u64_range x : 0 <= u64 x < 2 ^ 64.
Proof. apply Z.mod_pos_bound. lia. Qed.
Lemma u64_idemp x : u64 (u64 x) = u64 x.
Proof. apply u64_small, u64_range. Qed.

(** [wrap_small] removes every wrap-around whose argument [lia] shows to be in
    range. *)
Ltac wrap_small :=
  repeat first [ rewrite u64_small by lia | rewrite i64_small by lia
               | rewrite u32_small by lia | rewrite u16_small by lia
               | rewrite u8_small by lia ].
Tactic Notation "wrap_small" "in" hyp(H) :=
  repeat first [ rewrite u64_small in H by lia | rewrite i64_small in H by lia
               | rewrite u32_small in H by lia | rewrite u16_small in H by lia
               | rewrite u8_small in H by lia ].

(** ** Zero values

    Go declares a variable at its type's zero value ([var r RangeValue[V]]). *)
Class Zero (A : Type) := zero : A.
#[export] Instance zero_Z : Zero Z := 0.
#[export] Instance zero_bool : Zero bool := false.
#[export] Instance zero_nat : Zero nat := 0%nat.
#[export] Instance zero_option {A} : Zero (option A) := None.

(** ** Errors

    The error values the modelled code compares or returns. A function that
    returns [(x, err)] returns a pair with an [option error]; [None] is Go's
    [nil]. *)
Inductive error :=
  | EOF | ErrUnexpectedEOF | ErrInvalidSize | ErrInvalidOffset | ErrShortRead | ErrInvalidMagic
  | ErrUnsupportedVersion | ErrInvalidBlockSize | ErrUnmarshal
  | ErrNotAligned | ErrInvalidNbdPath | ErrParse | ErrInvalidSizeString
  | ErrWriteTooBig | ErrWriterClosed | ErrCorruptedLog | errInvalidIndex | ErrBufferFull
  | ErrNegativeCount | errOverflow | ErrShortWrite | ErrNoWriter | ErrWriteNotSupported
  | ErrNotExist | ErrExist | ErrInvalidOption | ErrIO.

#[export] Instance error_eq_dec : EqDecision error.
Proof. solve_decision. Defined.

(** ** Outcomes

    A Go function that can panic (explicitly, by a nil dereference or by an
    index out of range) returns an [outcome]. A loop without a structural
    measure runs on fuel, and [OutOfFuel] is not a behaviour of the code: the
    theorems show that the fuel given is enough. *)
Inductive outcome (A : Type) := Ret (a : A) | Panic | OutOfFuel.
Arguments Ret {A} _.
Arguments Panic {A}.
Arguments OutOfFuel {A}.

#[export] Instance outcome_ret : MRet outcome := @Ret.
#[export] Instance outcome_bind : MBind outcome := fun A B f m =>
  match m with Ret a => f a | Panic => Panic | OutOfFuel => OutOfFuel end.
#[export] Instance outcome_fmap : FMap outcome := fun A B f m =>
  match m with Ret a => Ret (f a) | Panic => Panic | OutOfFuel => OutOfFuel end.

(** [assert b] panics unless [b] holds. *)
Definition assert (b : bool) : outcome unit := if b then Ret () else Panic.

Definition of_option {A} (o : option A) : outcome A :=
  match o with Some a => Ret a | None => Panic end.

Lemma bind_Ret {A B} (m : outcome A) (f : A -> outcome B) b :
  (m ≫= f) = Ret b <-> exists a, m = Ret a /\ f a = Ret b.
Proof. destruct m; cbn; naive_solver. Qed.

(** ** Loops with an early exit

    [foldw f l s] is a Go callback iteration: [f] gets each item with the
    captured variables [s], and returns [false] to stop. *)
Fixpoint foldw {A S : Type} (f : A -> S -> S * bool) (l : list A) (s : S) : S :=
  match l with
  | [] => s
  | x :: l' => let '(s', continue) := f x s in
               if continue then foldw f l' s' else s'
  end.

Lemma foldw_map {A B S} (g : A -> B) (f : B -> S -> S * bool) l s :
  foldw f (g <$> l) s = foldw (fun x => f (g x)) l s.
Proof.
  revert s. induction l as [|x l IH]; intros s; [done|]. simpl.
  destruct (f (g x) s) as [s' []]; auto.
Qed.

Lemma foldw_ext {A S} (f g : A -> S -> S * bool) l s :
  (forall x s, x ∈ l -> f x s = g x s) -> foldw f l s = foldw g l s.
Proof.
  revert s. induction l as [|x l IH]; intros s Hfg; [done|]. simpl.
  rewrite Hfg by set_solver.
  destruct (g x s) as [s' []]; [|done]. apply IH. set_solver.
Qed.

(** A callback that always stops sees the first item only. *)
Lemma foldw_first {A S} (f : A -> S -> S) l s :
  foldw (fun x s => (f x s, false)) l s = match l with [] => s | x :: _ => f x s end.
Proof. by destruct l. Qed.

(** A callback that never stops is an ordinary left fold. *)
Lemma foldw_total {A S} (f : A -> S -> S) l s :
  foldw (fun x s => (f x s, true)) l s = fold_left (fun s x => f x s) l s.
Proof. revert s. by induction l as [|x l IH]; intros s; simpl. Qed.

(** A callback that collects the items. *)
Lemma foldw_collect {A} (l acc : list A) : foldw (fun x l => (l ++ [x], true)) l acc = acc ++ l.
Proof.
  revert acc. induction l as [|x l IH]; intros acc; cbn; [by rewrite app_nil_r|].
  by rewrite IH, <- app_assoc.
Qed.

(** The same loop, returning also whether it ran to the end of the list. *)
Fixpoint foldb {A S : Type} (f : A -> S -> S * bool) (l : list A) (s : S) : S * bool :=
  match l with
  | [] => (s, true)
  | x :: l' => let '(s', continue) := f x s in
               if continue then foldb f l' s' else (s', false)
  end.

Lemma foldb_foldw {A S} (f : A -> S -> S * bool) l s : (foldb f l s).1 = foldw f l s.
Proof.
  revert s. induction l as [|x l IH]; intros s; [done|]. simpl.
  by destruct (f x s) as [s' []].
Qed.

Lemma foldw_app {A S} (f : A -> S -> S * bool) l1 l2 s :
  foldw f (l1 ++ l2) s =
  let '(s', continue) := foldb f l1 s in if continue then foldw f l2 s' else s'.
Proof.
  revert s. induction l1 as [|x l1 IH]; intros s; [done|]. simpl.
  by destruct (f x s) as [s' []].
Qed.

(** ** Lists *)
Lemma filter_none {A} (P : A -> Prop) `{forall x, Decision (P x)} l :
  (forall x, x ∈ l -> ~ P x) -> filter P l = [].
Proof.
  induction l as [|x l IH]; intros Hn; [done|].
  rewrite filter_cons_False by (apply Hn; by left). apply IH. intros; apply Hn; by right.
Qed.

Lemma filter_all {A} (P : A -> Prop) `{forall x, Decision (P x)} (l : list A) :
  (forall x, x ∈ l -> P x) -> filter P l = l.
Proof.
  induction l as [|x l IH]; intros Hn; [done|].
  rewrite filter_cons_True by (apply Hn; by left). f_equal. apply IH. intros; apply Hn; by right.
Qed.

Lemma filter_ext {A} (P Q : A -> Prop) `{forall x, Decision (P x)} `{forall x, Decision (Q x)} (l : list A) :
  (forall x, x ∈ l -> P x <-> Q x) -> filter P l = filter Q l.
Proof.
  induction l as [|x l IH]; intros Hpq; [done|]. rewrite !filter_cons.
  assert (P x <-> Q x) by (apply Hpq; by left).
  rewrite IH by (intros; apply Hpq; by right). by repeat case_decide; try tauto.
Qed.

Lemma filter_fmap {A B} (f : A -> B) (P : B -> Prop) `{forall x, Decision (P x)} (l : list A) :
  filter P (f <$> l) = f <$> filter (fun x => P (f x)) l.
Proof.
  induction l as [|x l IH]; [done|]. rewrite fmap_cons, !filter_cons.
  case_decide; rewrite ?fmap_cons; by rewrite IH.
Qed.

(** ** Strongly sorted lists *)
Lemma StronglySorted_app_iff {A} (R : relation A) l1 l2 :
  StronglySorted R (l1 ++ l2) <->
  StronglySorted R l1 /\ StronglySorted R l2 /\
  (forall x y, x ∈ l1 -> y ∈ l2 -> R x y).
Proof.
  induction l1 as [|a l1 IH]; simpl.
  - split; [intros Hs; repeat split; [constructor|done|set_solver] | by intros (_ & Hs & _)].
  - split.
    + inversion 1 as [|? ? Hs Hf]; subst. apply IH in Hs as (H1 & H2 & H3).
      rewrite Forall_app in Hf. destruct Hf as [Hf1 Hf2].
      rewrite Forall_forall in Hf2.
      repeat split; [by constructor|done|].
      intros x y [->|Hx]%elem_of_cons Hy; [by apply Hf2|by apply H3].
    + intros (H1 & H2 & H3). inversion H1 as [|? ? Hs Hf]; subst.
      constructor.
      * apply IH. repeat split; auto. intros; apply H3; set_solver.
      * rewrite Forall_app. split; [done|]. rewrite Forall_forall.
        intros; apply H3; set_solver.
Qed.

Lemma StronglySorted_elem {A} (R : relation A) l x y :
  StronglySorted R l -> x ∈ l -> y ∈ l -> x = y \/ R x y \/ R y x.
Proof.
  induction 1 as [|a l Hs IH Hf]; [set_solver|].
  rewrite Forall_forall in Hf. rewrite !elem_of_cons.
  intros [->|Hx] [->|Hy]; auto.
Qed.

Lemma StronglySorted_filter {A} (R : relation A) P `{forall x, Decision (P x)} l :
  StronglySorted R l -> StronglySorted R (filter P l).
Proof.
  induction 1 as [|a l Hs IH Hf]; [constructor|].
  rewrite filter_cons. case_decide; [|done]. constructor; [done|].
  rewrite Forall_forall in *. intros x Hx%list_elem_of_filter. naive_solver.
Qed.

Lemma StronglySorted_reverse {A} (R : relation A) l :
  StronglySorted R l -> StronglySorted (flip R) (reverse l).
Proof.
  induction 1 as [|a l Hs IH Hf]; [constructor|].
  rewrite reverse_cons, StronglySorted_app_iff. repeat split; [done|repeat constructor|].
  rewrite Forall_forall in Hf. intros x y Hx Hy.
  rewrite elem_of_reverse in Hx. apply list_elem_of_singleton in Hy as ->.
  unfold flip. auto.
Qed.

Lemma StronglySorted_fmap {A B} (R : relation A) (Q : relation B) (f : A -> B) l :
  (forall x y, x ∈ l -> y ∈ l -> R x y -> Q (f x) (f y)) ->
  StronglySorted R l -> StronglySorted Q (f <$> l).
Proof.
  intros Hf Hs. induction Hs as [|a l Hs IH Ha]; simpl; constructor.
  - apply IH. intros; apply Hf; set_solver.
  - rewrite Forall_fmap. rewrite Forall_forall in *. intros x Hx. simpl.
    apply Hf; set_solver.
Qed.

(** ** State machines *)

(** Induction on the steps of a run: what holds at the start and is preserved by
    every step holds in every reachable state. *)
Lemma rtc_invariant {A} (R : relation A) (P : A -> Prop) x y :
  (forall y z, P y -> R y z -> P z) -> P x -> rtc R x y -> P y.
Proof. intros Hstep Hx Hr. induction Hr; eauto. Qed.

(** The loop that finds the first occurrence of an element of a slice and
    removes it with [slices.Delete]. *)
Fixpoint delete_first {A} `{!EqDecision A} (x : A) (l : list A) : list A :=
  match l with
  | [] => []
  | y :: l' => if bool_decide (y = x) then l' else y :: delete_first x l'
  end.

Lemma delete_first_filter {A} `{!EqDecision A} (x : A) (l : list A) :
  NoDup l -> delete_first x l = filter (fun y => y <> x) l.
Proof.
  induction 1 as [|y l Hy Hnd IH]; [done|]. cbn. case_bool_decide as Hb; subst.
  - rewrite decide_False by (by intros []). symmetry. apply filter_all. intros z Hz ->. done.
  - by rewrite decide_True, IH.
Qed.
