(* ===== verification/Radix.v ===== *)
(** * The radix-tree interface

    [internal/rangemap/extent_range_map.go] keeps its extents in a
    [radix.Tree] of the package [github.com/akmistry/go-util/radix-tree], whose
    source is not part of the repository. The tree is a class: its operations
    are the methods the repository calls and its laws their documented
    behaviour, an ordered collection with one item per key. The file ends with
    an instance on sorted lists, which shows that the laws can hold and lets
    the examples of the other files compute. *)
From S2P Require Import Prelude.
Local Open Scope Z_scope.

(** Items of type [A] are ordered by [key], the [Key() uint64] method of
    [radix.Item]. A callback gets an item and the captured variables, and
    returns the new variables and whether to continue. *)
Class RadixTree (A : Type) (key : A -> Z) (T : Type) := {
  rt_empty : T;
  rt_ascend {S : Type} : T -> (A -> S -> S * bool) -> S -> S;
  rt_descend {S : Type} : T -> (A -> S -> S * bool) -> S -> S;
  rt_ascend_ge {S : Type} : T -> Z -> (A -> S -> S * bool) -> S -> S;
  rt_descend_le {S : Type} : T -> Z -> (A -> S -> S * bool) -> S -> S;
  rt_replace_or_insert : T -> A -> T * option A;
  rt_delete : T -> A -> T * option A;
}.
Global Hint Mode RadixTree - - ! : typeclass_instances.

Definition key_lt {A} (key : A -> Z) (x y : A) : Prop := key x < key y.

(** [rt_items] is what an [Ascend] whose callback never stops would visit. *)
Class RadixTreeLaws (A : Type) (key : A -> Z) (T : Type) `{!RadixTree A key T} := {
  rt_items : T -> list A;
  rt_sorted t : StronglySorted (key_lt key) (rt_items t);
  rt_items_empty : rt_items rt_empty = [];
  rt_ascend_spec {S} t (f : A -> S -> S * bool) s :
    rt_ascend t f s = foldw f (rt_items t) s;
  rt_descend_spec {S} t (f : A -> S -> S * bool) s :
    rt_descend t f s = foldw f (reverse (rt_items t)) s;
  rt_ascend_ge_spec {S} t k (f : A -> S -> S * bool) s :
    rt_ascend_ge t k f s = foldw f (filter (fun x => k <= key x) (rt_items t)) s;
  rt_descend_le_spec {S} t k (f : A -> S -> S * bool) s :
    rt_descend_le t k f s =
    foldw f (reverse (filter (fun x => key x <= k) (rt_items t))) s;
  rt_insert_items t x y :
    y ∈ rt_items (rt_replace_or_insert t x).1 <->
    y = x \/ (y ∈ rt_items t /\ key y <> key x);
  rt_insert_old t x y :
    (rt_replace_or_insert t x).2 = Some y <-> y ∈ rt_items t /\ key y = key x;
  rt_delete_items t x y :
    y ∈ rt_items (rt_delete t x).1 <-> y ∈ rt_items t /\ key y <> key x;
  rt_delete_old t x y :
    (rt_delete t x).2 = Some y <-> y ∈ rt_items t /\ key y = key x;
}.

(** ** Consequences of the laws *)
Section consequences.
Context {A : Type} {key : A -> Z} {T : Type}
  `{!RadixTree A key T} `{!RadixTreeLaws A key T}.
Implicit Types (t : T) (x y : A) (k : Z).

Lemma rt_key_inj t x y :
  x ∈ rt_items t -> y ∈ rt_items t -> key x = key y -> x = y.
Proof.
  intros Hx Hy Hk.
  destruct (StronglySorted_elem _ _ _ _ (rt_sorted t) Hx Hy) as [?|[?|?]];
    unfold key_lt in *; [done|lia|lia].
Qed.

Lemma rt_insert_fresh t x :
  (forall y, y ∈ rt_items t -> key y <> key x) -> (rt_replace_or_insert t x).2 = None.
Proof.
  intros Hfresh. destruct (_.2) as [y|] eqn:E; [|done].
  apply rt_insert_old in E as [Hy Hk]. by destruct (Hfresh _ Hy).
Qed.

Lemma rt_delete_present t x : x ∈ rt_items t -> (rt_delete t x).2 = Some x.
Proof. intros Hx. by apply rt_delete_old. Qed.

(** The item a descending traversal from [k] meets first. *)
Lemma rt_floor t k :
  match reverse (filter (fun x => key x <= k) (rt_items t)) with
  | [] => forall y, y ∈ rt_items t -> k < key y
  | x :: _ => x ∈ rt_items t /\ key x <= k /\
              forall y, y ∈ rt_items t -> key y <= k -> key y <= key x
  end.
Proof.
  pose proof (StronglySorted_reverse _ _
    (StronglySorted_filter _ (fun x => key x <= k) _ (rt_sorted t))) as Hs.
  assert (Hin : forall y, y ∈ reverse (filter (fun x => key x <= k) (rt_items t)) <->
                          key y <= k /\ y ∈ rt_items t).
  { intros y. by rewrite elem_of_reverse, list_elem_of_filter. }
  destruct (reverse _) as [|x l] eqn:E.
  - intros y Hy. destruct (decide (k < key y)); [done|].
    assert (y ∈ @nil A) as Hn; [|set_solver]. apply Hin. split; [lia|done].
  - destruct (proj1 (Hin x)) as [? ?]; [by left|]. repeat split; [done|done|].
    intros y Hy Hk. assert (y ∈ x :: l) as [->|Hyl]%elem_of_cons by (by apply Hin); [lia|].
    inversion Hs as [|? ? _ Hf]; subst. rewrite Forall_forall in Hf.
    specialize (Hf _ Hyl). unfold flip, key_lt in Hf. lia.
Qed.

(** The item an ascending traversal from [k] meets first. *)
Lemma rt_ceiling t k :
  match filter (fun x => k <= key x) (rt_items t) with
  | [] => forall y, y ∈ rt_items t -> key y < k
  | x :: _ => x ∈ rt_items t /\ k <= key x /\
              forall y, y ∈ rt_items t -> k <= key y -> key x <= key y
  end.
Proof.
  pose proof (StronglySorted_filter _ (fun x => k <= key x) _ (rt_sorted t)) as Hs.
  assert (Hin : forall y, y ∈ filter (fun x => k <= key x) (rt_items t) <->
                          k <= key y /\ y ∈ rt_items t).
  { intros y. by rewrite list_elem_of_filter. }
  destruct (filter _ _) as [|x l] eqn:E.
  - intros y Hy. destruct (decide (key y < k)); [done|].
    assert (y ∈ @nil A) as Hn; [|set_solver]. apply Hin. split; [lia|done].
  - destruct (proj1 (Hin x)) as [? ?]; [by left|]. repeat split; [done|done|].
    intros y Hy Hk. assert (y ∈ x :: l) as [->|Hyl]%elem_of_cons by (by apply Hin); [lia|].
    inversion Hs as [|? ? _ Hf]; subst. rewrite Forall_forall in Hf.
    specialize (Hf _ Hyl). unfold key_lt in Hf. lia.
Qed.
End consequences.

(** ** An instance on sorted lists *)
Section list_tree.
Context {A : Type} (key : A -> Z).

(** The tree keeps its own proof of order, so that the laws hold of every
    value of the type. *)
Record list_tree := ListTree {
  lt_list : list A;
  lt_sorted : StronglySorted (key_lt key) lt_list;
}.

Fixpoint lt_ins (x : A) (l : list A) : list A :=
  match l with
  | [] => [x]
  | y :: l' => if decide (key x < key y) then x :: l
               else if decide (key x = key y) then x :: l' else y :: lt_ins x l'
  end.

Lemma elem_of_lt_ins x y l :
  StronglySorted (key_lt key) l ->
  y ∈ lt_ins x l <-> y = x \/ (y ∈ l /\ key y <> key x).
Proof.
  induction 1 as [|a l Hs IH Hf]; simpl; [set_solver|].
  rewrite Forall_forall in Hf. unfold key_lt in Hf.
  assert (Hne : key x <= key a -> y ∈ l -> key y <> key x).
  { intros Ha Hy. specialize (Hf _ Hy). lia. }
  repeat case_decide; rewrite ?elem_of_cons, ?IH.
  - assert (key a <> key x) by lia. intuition (subst; auto with lia).
  - assert (y = a -> key y = key x) by (by intros ->). intuition (subst; auto with lia).
  - assert (y = a -> key y <> key x) by (by intros ->; lia). tauto.
Qed.

Lemma lt_ins_sorted x l :
  StronglySorted (key_lt key) l -> StronglySorted (key_lt key) (lt_ins x l).
Proof.
  induction 1 as [|a l Hs IH Hf]; simpl; [repeat constructor|].
  pose proof Hf as Hf'. rewrite Forall_forall in Hf'. unfold key_lt in *.
  repeat case_decide; constructor; auto; try (by constructor);
    rewrite Forall_forall; intros y Hy.
  - apply elem_of_cons in Hy as [->|Hy]; [lia|]. specialize (Hf' _ Hy). lia.
  - specialize (Hf' _ Hy). lia.
  - apply elem_of_lt_ins in Hy as [->|[Hy _]]; [lia|auto|done].
Qed.

Definition lt_find (x : A) (l : list A) : option A :=
  head (filter (fun y => key y = key x) l).

Lemma lt_find_Some x y l :
  StronglySorted (key_lt key) l -> lt_find x l = Some y <-> y ∈ l /\ key y = key x.
Proof.
  intros Hs. unfold lt_find.
  assert (Hin : forall z, z ∈ filter (fun y => key y = key x) l <-> key z = key x /\ z ∈ l).
  { intros z. by rewrite list_elem_of_filter. }
  split.
  - intros Hh. apply and_comm, Hin. destruct (filter _ _); simplify_eq/=. by left.
  - intros [Hy Hk]. destruct (filter _ _) as [|z l'] eqn:E; simpl.
    + by apply (conj Hk), Hin, not_elem_of_nil in Hy.
    + destruct (proj1 (Hin z)) as [Hz Hzl]; [by left|]. f_equal.
      destruct (StronglySorted_elem _ _ _ _ Hs Hzl Hy) as [?|[?|?]];
        unfold key_lt in *; [done|lia|lia].
Qed.

Program Definition lt_insert (t : list_tree) (x : A) : list_tree :=
  ListTree (lt_ins x (lt_list t)) _.
Next Obligation. intros [l Hl] x. by apply lt_ins_sorted. Qed.

Program Definition lt_remove (t : list_tree) (x : A) : list_tree :=
  ListTree (filter (fun y => key y <> key x) (lt_list t)) _.
Next Obligation. intros [l Hl] x. by apply StronglySorted_filter. Qed.

#[export] Instance list_radix : RadixTree A key list_tree := {
  rt_empty := ListTree [] (SSorted_nil _);
  rt_ascend S t f s := foldw f (lt_list t) s;
  rt_descend S t f s := foldw f (reverse (lt_list t)) s;
  rt_ascend_ge S t k f s := foldw f (filter (fun x => k <= key x) (lt_list t)) s;
  rt_descend_le S t k f s :=
    foldw f (reverse (filter (fun x => key x <= k) (lt_list t))) s;
  rt_replace_or_insert t x := (lt_insert t x, lt_find x (lt_list t));
  rt_delete t x := (lt_remove t x, lt_find x (lt_list t));
}.

#[export] Program Instance list_radix_laws : RadixTreeLaws A key list_tree := {
  rt_items := lt_list;
}.
Next Obligation. by intros [l Hl]. Qed.
Next Obligation. done. Qed.
Next Obligation. done. Qed.
Next Obligation. done. Qed.
Next Obligation. done. Qed.
Next Obligation. done. Qed.
Next Obligation. intros [l Hl] x y. by apply elem_of_lt_ins. Qed.
Next Obligation. intros [l Hl] x y. by apply lt_find_Some. Qed.
Next Obligation.
  intros [l Hl] x y. simpl. rewrite list_elem_of_filter. naive_solver.
Qed.
Next Obligation. intros [l Hl] x y. by apply lt_find_Some. Qed.
End list_tree.
Arguments list_tree {A} key.
