(* ===== verification/Bits.v ===== *)
(** * Bit sets

    Interfaces of the two bit-set packages the repository imports:
    [github.com/akmistry/go-util/bitmap] ([Bitmap256], a fixed set of 256 bits)
    and [github.com/bits-and-blooms/bitset] ([BitSet], a growing set indexed by
    [uint]). Each is a class with the methods the repository calls, and a class
    of laws with their documented behaviour. Instances on characteristic
    functions show that the laws can hold. *)
From S2P Require Import Prelude.
Local Open Scope Z_scope.

(** [first_in P lo hi r]: [r] is the least index of [lo..hi-1] that satisfies
    [P], or is at least [hi] when there is none. *)
Definition first_in (P : Z -> bool) (lo hi r : Z) : Prop :=
  (lo <= r < hi /\ P r = true /\ forall j, lo <= j < r -> P j = false) \/
  (hi <= r /\ forall j, lo <= j < hi -> P j = false).

Class Bitmap256 (B : Type) := {
  bm_zero : B;
  bm_get : B -> Z -> bool;
  bm_set : B -> Z -> B;
  bm_empty : B -> bool;
  bm_full : B -> bool;
  bm_find_first_set : B -> Z;
  bm_find_next_set : B -> Z -> Z;
  bm_find_first_clear : B -> Z;
  bm_find_next_clear : B -> Z -> Z;
}.

Class Bitmap256Laws (B : Type) `{!Bitmap256 B} := {
  bm_get_zero i : 0 <= i < 256 -> bm_get bm_zero i = false;
  bm_get_set b i j :
    0 <= i < 256 -> 0 <= j < 256 -> bm_get (bm_set b i) j = bool_decide (i = j) || bm_get b j;
  bm_empty_spec b :
    bm_empty b = true <-> forall i, 0 <= i < 256 -> bm_get b i = false;
  bm_full_spec b :
    bm_full b = true <-> forall i, 0 <= i < 256 -> bm_get b i = true;
  bm_find_first_set_spec b : first_in (bm_get b) 0 256 (bm_find_first_set b);
  bm_find_next_set_spec b i :
    0 <= i < 256 -> first_in (bm_get b) i 256 (bm_find_next_set b i);
  bm_find_first_clear_spec b :
    first_in (fun j => negb (bm_get b j)) 0 256 (bm_find_first_clear b);
  bm_find_next_clear_spec b i :
    0 <= i < 256 -> first_in (fun j => negb (bm_get b j)) i 256 (bm_find_next_clear b i);
}.

(** [NextSet] and [NextClear] return a position and a flag; [None] is the flag
    [false]. *)
Class BitSet (BS : Type) := {
  bs_zero : BS;
  bs_new : Z -> BS;
  bs_len : BS -> Z;
  bs_test : BS -> Z -> bool;
  bs_set : BS -> Z -> BS;
  bs_clear : BS -> Z -> BS;
  bs_set_all : BS -> BS;
  bs_next_set : BS -> Z -> option Z;
  bs_next_clear : BS -> Z -> option Z;
}.

Class BitSetLaws (BS : Type) `{!BitSet BS} := {
  bs_test_zero i : bs_test bs_zero i = false;
  bs_test_new n i : bs_test (bs_new n) i = false;
  bs_len_new n : 0 <= n -> bs_len (bs_new n) = n;
  bs_test_len s i : bs_test s i = true -> 0 <= i < bs_len s;
  bs_test_set s i j :
    0 <= i -> bs_test (bs_set s i) j = bool_decide (i = j) || bs_test s j;
  bs_test_clear s i j :
    0 <= i -> bs_test (bs_clear s i) j = negb (bool_decide (i = j)) && bs_test s j;
  bs_test_set_all s i : bs_test (bs_set_all s) i = bool_decide (0 <= i < bs_len s);
  bs_next_set_Some s i j :
    0 <= i -> bs_next_set s i = Some j ->
    i <= j /\ bs_test s j = true /\ forall k, i <= k < j -> bs_test s k = false;
  bs_next_set_None s i :
    0 <= i -> bs_next_set s i = None -> forall k, i <= k -> bs_test s k = false;
  bs_next_clear_Some s i j :
    0 <= i -> bs_next_clear s i = Some j ->
    i <= j /\ bs_test s j = false /\ forall k, i <= k < j -> bs_test s k = true;
  bs_next_clear_None s i :
    0 <= i -> bs_next_clear s i = None -> forall k, i <= k < bs_len s -> bs_test s k = true;
}.

(** ** Searching an interval *)
Fixpoint search (P : Z -> bool) (lo : Z) (n : nat) : Z :=
  match n with
  | O => lo
  | S n' => if P lo then lo else search P (lo + 1) n'
  end.

Lemma search_first P lo n : first_in P lo (lo + Z.of_nat n) (search P lo n).
Proof.
  revert lo. induction n as [|n IH]; intros lo; simpl.
  - right. split; [lia|]. intros; lia.
  - destruct (P lo) eqn:HP.
    + left. repeat split; [lia|lia|done|intros; lia].
    + assert (Hlo : forall j, lo <= j -> (lo + 1 <= j -> P j = false) -> P j = false).
      { intros j Hj Hf. destruct (decide (j = lo)) as [->|]; [done|]. apply Hf; lia. }
      destruct (IH (lo + 1)) as [(Hr & HPr & Hj)|[Hr Hj]].
      * left. repeat split; [lia|lia|done|]. intros j Hjr. apply Hlo; [lia|].
        intros; apply Hj; lia.
      * right. split; [lia|]. intros j Hjr. apply Hlo; [lia|]. intros; apply Hj; lia.
Qed.

Lemma search_to_first P lo hi :
  lo <= hi -> first_in P lo hi (search P lo (Z.to_nat (hi - lo))).
Proof.
  intros. pose proof (search_first P lo (Z.to_nat (hi - lo))) as Hs.
  by replace (lo + Z.of_nat (Z.to_nat (hi - lo))) with hi in Hs by lia.
Qed.

(** ** Instances on characteristic functions *)
Definition all_in (P : Z -> bool) (lo hi : Z) : bool :=
  hi <=? search (fun j => negb (P j)) lo (Z.to_nat (hi - lo)).

Lemma all_in_spec P lo hi :
  lo <= hi -> all_in P lo hi = true <-> forall i, lo <= i < hi -> P i = true.
Proof.
  intros Hle. unfold all_in.
  destruct (search_to_first (fun j => negb (P j)) lo hi Hle) as [(Hr & HP & _)|[Hr HP]].
  - split; [lia|]. intros Hall. rewrite Hall in HP by lia. done.
  - split; [|lia]. intros _ i Hi. specialize (HP i Hi). by destruct (P i).
Qed.

#[export] Instance fun_bitmap256 : Bitmap256 (Z -> bool) := {
  bm_zero := fun _ => false;
  bm_get b i := b i;
  bm_set b i := fun j => bool_decide (i = j) || b j;
  bm_empty b := all_in (fun i => negb (b i)) 0 256;
  bm_full b := all_in b 0 256;
  bm_find_first_set b := search b 0 256;
  bm_find_next_set b i := search b i (Z.to_nat (256 - i));
  bm_find_first_clear b := search (fun j => negb (b j)) 0 256;
  bm_find_next_clear b i := search (fun j => negb (b j)) i (Z.to_nat (256 - i));
}.

#[export] Program Instance fun_bitmap256_laws : Bitmap256Laws (Z -> bool) := {}.
Next Obligation. done. Qed.
Next Obligation. done. Qed.
Next Obligation.
  intros b. simpl. rewrite all_in_spec by lia.
  by setoid_rewrite negb_true_iff.
Qed.
Next Obligation. intros b. by apply all_in_spec. Qed.
Next Obligation. intros b. apply (search_first b 0 256). Qed.
Next Obligation. intros b i Hi. simpl. apply search_to_first. lia. Qed.
Next Obligation. intros b. apply (search_first _ 0 256). Qed.
Next Obligation. intros b i Hi. simpl. apply (search_to_first _ i 256). lia. Qed.

Record fun_bits := FunBits { fb_bit : Z -> bool; fb_len : Z }.
Definition fb_test (s : fun_bits) (i : Z) : bool :=
  bool_decide (0 <= i < fb_len s) && fb_bit s i.
Definition fb_next (P : Z -> bool) (i len : Z) : option Z :=
  let r := search P i (Z.to_nat (len - i)) in if r <? len then Some r else None.

#[export] Instance fun_bitset : BitSet fun_bits := {
  bs_zero := FunBits (fun _ => false) 0;
  bs_new n := FunBits (fun _ => false) (Z.max 0 n);
  bs_len := fb_len;
  bs_test := fb_test;
  bs_set s i := FunBits (fun j => bool_decide (i = j) || fb_test s j) (Z.max (fb_len s) (i + 1));
  bs_clear s i := FunBits (fun j => negb (bool_decide (i = j)) && fb_test s j) (fb_len s);
  bs_set_all s := FunBits (fun _ => true) (fb_len s);
  bs_next_set s i := fb_next (fb_test s) i (fb_len s);
  bs_next_clear s i := fb_next (fun j => negb (fb_test s j)) i (fb_len s);
}.

Lemma fb_next_Some P i len j :
  fb_next P i len = Some j ->
  i <= j < len /\ P j = true /\ forall k, i <= k < j -> P k = false.
Proof.
  unfold fb_next. destruct (decide (i <= len)) as [Hle|].
  - destruct (search_to_first P i len Hle) as [(Hr & HP & Hk)|[Hr _]];
      case_match eqn:E; intros; simplify_eq; [naive_solver lia|lia].
  - replace (Z.to_nat (len - i)) with O by lia. simpl. case_match; [lia|done].
Qed.

Lemma fb_next_None P i len :
  fb_next P i len = None -> forall k, i <= k < len -> P k = false.
Proof.
  unfold fb_next. intros Hn k Hk.
  destruct (search_to_first P i len) as [(Hr & HP & _)|[_ Hf]]; [lia| |by apply Hf].
  case_match; [done|lia].
Qed.

Lemma fb_test_len s i : fb_test s i = true -> 0 <= i < fb_len s.
Proof. unfold fb_test. rewrite andb_true_iff, bool_decide_eq_true. tauto. Qed.

#[export] Program Instance fun_bitset_laws : BitSetLaws fun_bits := {}.
Next Obligation. intros i. cbn. unfold fb_test. cbn. by rewrite andb_false_r. Qed.
Next Obligation. intros n i. cbn. unfold fb_test. cbn. by rewrite andb_false_r. Qed.
Next Obligation. intros n Hn. cbn. lia. Qed.
Next Obligation. intros s i. apply fb_test_len. Qed.
Next Obligation.
  intros s i j Hi. cbn. unfold fb_test at 1. cbn. pose proof (fb_test_len s j).
  repeat case_bool_decide; destruct (fb_test s j); cbn; try done; subst; lia.
Qed.
Next Obligation.
  intros s i j Hi. cbn. unfold fb_test at 1. cbn. pose proof (fb_test_len s j).
  repeat case_bool_decide; destruct (fb_test s j); cbn; try done; subst; lia.
Qed.
Next Obligation. intros s i. cbn. unfold fb_test. cbn. by rewrite andb_true_r. Qed.
Next Obligation. intros s i j Hi (? & ? & ?)%fb_next_Some. naive_solver lia. Qed.
Next Obligation.
  intros s i Hi Hn k Hk. cbn in *. destruct (decide (k < fb_len s)).
  - by apply (fb_next_None _ _ _ Hn).
  - unfold fb_test. rewrite bool_decide_eq_false_2 by lia. done.
Qed.
Next Obligation.
  intros s i j Hi (? & ? & Hf)%fb_next_Some. cbn in *. rewrite <- negb_true_iff.
  repeat split; [lia|done|]. intros k Hk. by apply negb_false_iff, Hf.
Qed.
Next Obligation.
  intros s i Hi Hn k Hk. apply negb_false_iff. by apply (fb_next_None _ _ _ Hn).
Qed.
