(* ===== verification/RangeMap.v ===== *)
(** * Ranges and the range-map interface

    [internal/rangemap/range_map.go]: the types [Range] and [RangeValue], and the
    interface [RangeMap] as a class. Its laws describe a range map by its
    [view], the partial function from offsets to values that it represents; the
    two implementations ([ExtentRangeMap.v], [BitmapRangeMap.v]) discharge them
    and the clients ([BlockMap.v]) use nothing else. *)
From S2P Require Import Prelude.
Local Open Scope Z_scope.

(** ** Data *)
Record Range := MkRange { Offset : Z; Length : Z }.

Definition Range_Key (r : Range) : Z := Offset r.
Definition Range_End (r : Range) : Z := Offset r +u Length r.
Definition Range_Contains (r : Range) (off : Z) : bool :=
  (Offset r <=? off) && (off <? Offset r +u Length r).
Definition Range_Overlaps (r other : Range) : bool :=
  Range_Contains r (Offset other) || Range_Contains other (Offset r).

Record RangeValue (V : Type) := MkRangeValue { rv_range :> Range; Value : V }.
Arguments MkRangeValue {V} _ _.
Arguments rv_range {V} _.
Arguments Value {V} _.

#[export] Instance Range_eq_dec : EqDecision Range.
Proof. solve_decision. Defined.
#[export] Instance RangeValue_eq_dec `{EqDecision V} : EqDecision (RangeValue V).
Proof. solve_decision. Defined.
#[export] Instance zero_RangeValue `{Zero V} : Zero (RangeValue V) :=
  MkRangeValue (MkRange 0 0) zero.

(** ** Ranges as sets of offsets *)
Definition rend (r : Range) : Z := Offset r + Length r.
Definition in_range (k : Z) (r : Range) : Prop := Offset r <= k < rend r.
#[export] Instance in_range_dec k r : Decision (in_range k r).
Proof. unfold in_range. apply _. Defined.

(** A range the maps store: not empty, and its end does not wrap around. *)
Definition good_range (r : Range) : Prop :=
  0 <= Offset r /\ 0 < Length r /\ rend r < 2 ^ 64.
Definition before (r1 r2 : Range) : Prop := rend r1 <= Offset r2.

Lemma Range_Contains_spec (r : Range) k :
  good_range r -> Range_Contains r k = bool_decide (in_range k r).
Proof.
  unfold good_range, Range_Contains, in_range, rend. intros Hr. wrap_small.
  case_bool_decide; lia.
Qed.

Lemma Range_Overlaps_spec (r1 r2 : Range) :
  good_range r1 -> good_range r2 ->
  Range_Overlaps r1 r2 = bool_decide (Offset r1 < rend r2 /\ Offset r2 < rend r1).
Proof.
  intros H1 H2. unfold Range_Overlaps. rewrite !Range_Contains_spec by done.
  unfold good_range, in_range, rend in *. repeat case_bool_decide; simpl; lia.
Qed.

(** ** What the queries of a range map mean *)
Section specs.
Context {V : Type}.
Implicit Types (view : Z -> option V) (l : list (RangeValue V)).

(** The view after [Add(off, len, v)]. *)
Definition view_add view (off len : Z) (v : V) : Z -> option V :=
  fun k => if bool_decide (off <= k < off + len) then Some v else view k.

(** The view after [Remove(off, len)]. *)
Definition view_remove view (off len : Z) : Z -> option V :=
  fun k => if bool_decide (off <= k < off + len) then None else view k.

(** [r] is the least key at or after [off]. *)
Definition next_key_spec view (off : Z) (r : option Z) : Prop :=
  match r with
  | Some k => off <= k /\ is_Some (view k) /\ forall j, off <= j < k -> view j = None
  | None => forall j, off <= j -> view j = None
  end.

(** [r] is the least offset at or after [off] that is not a key. *)
Definition next_empty_spec view (off r : Z) : Prop :=
  off <= r /\ view r = None /\ forall j, off <= j < r -> is_Some (view j).

(** [e] is one past the greatest key, 0 when there is no key. *)
Definition end_spec view (e : Z) : Prop :=
  (e = 0 /\ forall k, 0 <= k -> view k = None) \/
  (0 < e /\ is_Some (view (e - 1)) /\ forall k, e <= k -> view k = None).

Lemma next_key_spec_ext (f g : Z -> option V) off r :
  (forall k, f k = g k) -> next_key_spec f off r <-> next_key_spec g off r.
Proof. intros Heq. destruct r; cbn; by setoid_rewrite Heq. Qed.

Lemma next_empty_spec_ext (f g : Z -> option V) off r :
  (forall k, f k = g k) -> next_empty_spec f off r <-> next_empty_spec g off r.
Proof. intros Heq. unfold next_empty_spec. by setoid_rewrite Heq. Qed.

Lemma end_spec_ext (f g : Z -> option V) e :
  (forall k, f k = g k) -> end_spec f e <-> end_spec g e.
Proof. intros Heq. unfold end_spec. by setoid_rewrite Heq. Qed.

Definition covered l (k : Z) (v : V) : Prop :=
  exists r : RangeValue V, r ∈ l /\ in_range k r /\ Value r = v.

(** [l] is the list of maximal constant ranges of [view] from [start] on, in
    order. *)
Record runs_of view (start : Z) l : Prop := {
  runs_bounds (r : RangeValue V) : r ∈ l -> start <= Offset r /\ 0 < Length r;
  runs_sorted : StronglySorted before (rv_range <$> l);
  runs_cover k v : start <= k -> view k = Some v <-> covered l k v;
  runs_maximal (r1 r2 : RangeValue V) :
    r1 ∈ l -> r2 ∈ l -> rend r1 = Offset r2 -> Value r1 <> Value r2;
}.

Lemma next_key_spec_unique view off r1 r2 :
  next_key_spec view off r1 -> next_key_spec view off r2 -> r1 = r2.
Proof.
  destruct r1 as [k1|], r2 as [k2|]; simpl; [| | |done].
  - intros (H1 & [? Hk1] & Hj1) (H2 & [? Hk2] & Hj2). f_equal.
    destruct (Z.lt_trichotomy k1 k2) as [?|[?|?]]; [|done|].
    + rewrite Hj2 in Hk1 by lia. done.
    + rewrite Hj1 in Hk2 by lia. done.
  - intros (H1 & [? Hk1] & _) Hn. rewrite Hn in Hk1 by lia. done.
  - intros Hn (H1 & [? Hk1] & _). rewrite Hn in Hk1 by lia. done.
Qed.

Lemma next_empty_spec_unique view off r1 r2 :
  next_empty_spec view off r1 -> next_empty_spec view off r2 -> r1 = r2.
Proof.
  intros (H1 & Hk1 & Hj1) (H2 & Hk2 & Hj2).
  destruct (Z.lt_trichotomy r1 r2) as [?|[?|?]]; [|done|].
  - destruct (Hj2 r1) as [? ?]; [lia|congruence].
  - destruct (Hj1 r2) as [? ?]; [lia|congruence].
Qed.

Lemma before_tail (r : RangeValue V) l (r' : RangeValue V) :
  StronglySorted before (rv_range <$> r :: l) -> r' ∈ l -> rend r <= Offset r'.
Proof.
  cbn. inversion 1 as [|? ? _ Hf]; subst. rewrite Forall_fmap, Forall_forall in Hf.
  intros Hr. by apply Hf.
Qed.

Lemma sorted_tail (r : RangeValue V) l :
  StronglySorted before (rv_range <$> r :: l) -> StronglySorted before (rv_range <$> l).
Proof. cbn. by inversion 1. Qed.

Lemma runs_tail view start (r : RangeValue V) l :
  runs_of view start (r :: l) -> runs_of view (rend r) l.
Proof.
  intros [Hb Hs Hc Hm]. split.
  - intros r' Hr'. split; [by eapply before_tail|]. by apply Hb, elem_of_cons; right.
  - by eapply sorted_tail.
  - intros k v Hk. destruct (Hb r) as [? ?]; [by left|].
    rewrite Hc by (unfold rend in *; lia). unfold covered. split.
    + intros (r' & [->|Hr']%elem_of_cons & Hin & <-); [unfold in_range in Hin; lia|]. eauto.
    + intros (r' & Hr' & Hin & <-). exists r'. rewrite elem_of_cons. eauto.
  - intros r1 r2 H1 H2. apply Hm; by apply elem_of_cons; right.
Qed.

(** The first run starts at the first key. *)
Lemma runs_head_offset view start (r : RangeValue V) l k v :
  runs_of view start (r :: l) -> start <= k -> view k = Some v -> Offset r <= k.
Proof.
  intros [Hb Hs Hc Hm] Hk Hv. apply Hc in Hv as (r' & Hr' & Hin & _); [|done].
  apply elem_of_cons in Hr' as [->|Hr']; [by destruct Hin|].
  pose proof (before_tail _ _ _ Hs Hr'). destruct (Hb r) as [? ?]; [by left|].
  unfold in_range, rend in *. lia.
Qed.

Lemma runs_head_view view start (r : RangeValue V) l k :
  runs_of view start (r :: l) -> in_range k r -> view k = Some (Value r).
Proof.
  intros [Hb Hs Hc Hm] Hk. destruct (Hb r) as [? ?]; [by left|].
  apply Hc; [unfold in_range in *; lia|]. exists r. rewrite elem_of_cons. eauto.
Qed.

(** One of two first runs with the same start cannot be shorter. *)
Lemma runs_head_length view start (r1 : RangeValue V) l1 (r2 : RangeValue V) l2 :
  runs_of view start (r1 :: l1) -> runs_of view start (r2 :: l2) ->
  Offset r1 = Offset r2 -> Value r1 = Value r2 -> Length r2 <= Length r1.
Proof.
  intros R1 R2 Ho Hv. destruct (decide (Length r1 < Length r2)); [exfalso|lia].
  destruct (runs_bounds _ _ _ R1 r1) as [? ?]; [by left|].
  assert (Hk : view (rend r1) = Some (Value r2)).
  { apply (runs_head_view _ _ _ _ _ R2). unfold in_range, rend in *. lia. }
  apply (runs_cover _ _ _ R1) in Hk as (r' & Hr' & Hin & Hval);
    [|unfold rend; lia].
  assert (Hr'' := Hr').
  apply elem_of_cons in Hr' as [->|Hr']; [unfold in_range in Hin; lia|].
  pose proof (before_tail _ _ _ (runs_sorted _ _ _ R1) Hr').
  apply (runs_maximal _ _ _ R1 r1 r'); [by left|done| |congruence].
  unfold in_range in Hin. lia.
Qed.

(** The maximal ranges of a view are unique. *)
Lemma runs_unique view start l1 l2 :
  runs_of view start l1 -> runs_of view start l2 -> l1 = l2.
Proof.
  revert start l2. induction l1 as [|r1 l1 IH]; intros start [|r2 l2] R1 R2; [done| | |].
  - pose proof (runs_bounds _ _ _ R2 r2 (list_elem_of_here _ _)) as [Hs Hl].
    pose proof (runs_head_view _ _ _ _ (Offset r2) R2) as Hv.
    apply (runs_cover _ _ _ R1) in Hv as (? & Hn & _); [set_solver|lia|].
    unfold in_range, rend. lia.
  - pose proof (runs_bounds _ _ _ R1 r1 (list_elem_of_here _ _)) as [Hs Hl].
    pose proof (runs_head_view _ _ _ _ (Offset r1) R1) as Hv.
    apply (runs_cover _ _ _ R2) in Hv as (? & Hn & _); [set_solver|lia|].
    unfold in_range, rend. lia.
  - destruct (runs_bounds _ _ _ R1 r1) as [Hs1 Hl1]; [by left|].
    destruct (runs_bounds _ _ _ R2 r2) as [Hs2 Hl2]; [by left|].
    assert (Hv1 : view (Offset r1) = Some (Value r1)).
    { apply (runs_head_view _ _ _ _ _ R1). unfold in_range, rend. lia. }
    assert (Hv2 : view (Offset r2) = Some (Value r2)).
    { apply (runs_head_view _ _ _ _ _ R2). unfold in_range, rend. lia. }
    pose proof (runs_head_offset _ _ _ _ _ _ R2 Hs1 Hv1).
    pose proof (runs_head_offset _ _ _ _ _ _ R1 Hs2 Hv2).
    assert (Ho : Offset r1 = Offset r2) by lia.
    assert (Hv : Value r1 = Value r2) by congruence.
    pose proof (runs_head_length _ _ _ _ _ _ R1 R2 Ho Hv).
    pose proof (runs_head_length _ _ _ _ _ _ R2 R1 (eq_sym Ho) (eq_sym Hv)).
    assert (r1 = r2) as <-.
    { destruct r1 as [[]], r2 as [[]]; simpl in *. repeat f_equal; [lia..|done]. }
    f_equal. eapply IH; by eapply runs_tail.
Qed.
End specs.

(** ** Lists of disjoint ranges *)
Section range_lists.
Context {V : Type} `{!EqDecision V} `{!Zero V}.
Implicit Types (l : list (RangeValue V)) (r x : RangeValue V).

Record ranges_wf l : Prop := {
  rw_good x : x ∈ l -> good_range x;
  rw_sorted : StronglySorted before (rv_range <$> l);
}.

Fixpoint rlookup l (k : Z) : option V :=
  match l with
  | [] => None
  | r :: l' => if bool_decide (in_range k r) then Some (Value r) else rlookup l' k
  end.

Lemma ranges_wf_cons r l : ranges_wf (r :: l) -> good_range r /\ ranges_wf l.
Proof.
  intros [Hg Hs]. split; [by apply Hg; left|]. split; [|by eapply sorted_tail].
  intros x Hx. by apply Hg; right.
Qed.

Lemma rlookup_covered l k v : ranges_wf l -> rlookup l k = Some v <-> covered l k v.
Proof.
  induction l as [|r l IH]; intros Hwf; simpl.
  - split; [done|]. intros (r & Hr & _). set_solver.
  - assert (Hb := fun x => before_tail r l x (rw_sorted _ Hwf)).
    assert (Hg := rw_good _ Hwf).
    apply ranges_wf_cons in Hwf as [Hr Hwf]. case_bool_decide as Hk.
    + split; [intros [= <-]; exists r; by repeat split; [left|apply Hk..]|].
      intros (x & [->|Hx]%elem_of_cons & Hin & <-); [done|].
      specialize (Hb _ Hx). unfold in_range, rend in *. lia.
    + rewrite IH by done. unfold covered. setoid_rewrite elem_of_cons. naive_solver.
Qed.

Lemma rlookup_None l k :
  ranges_wf l -> rlookup l k = None <-> forall x, x ∈ l -> ~ in_range k x.
Proof.
  intros Hwf. split.
  - intros Hn x Hx Hin. assert (rlookup l k = Some (Value x)) as Hs; [|congruence].
    apply rlookup_covered; [done|]. by exists x.
  - intros Hn. destruct (rlookup l k) as [v|] eqn:E; [|done].
    apply rlookup_covered in E as (x & Hx & Hin & _); [|done]. by destruct (Hn x).
Qed.

(** Merging neighbours that hold the same value. *)
Fixpoint coalesce r l : list (RangeValue V) :=
  match l with
  | [] => if 0 <? Length r then [r] else []
  | x :: l' =>
      if bool_decide (Value r = Value x /\ Offset x = rend r)
      then coalesce (MkRangeValue (MkRange (Offset r) (Length r + Length x)) (Value r)) l'
      else if 0 <? Length r then r :: coalesce x l' else coalesce x l'
  end.

(** The step both [Iterate] loops perform on the next range [x]: [r] is the
    range being accumulated and [s] the state of the callback [iter]. *)
Definition coalesce_step {S} (iter : RangeValue V -> S -> S * bool) x
    (st : RangeValue V * S) : (RangeValue V * S) * bool :=
  let '(r, s) := st in
  if bool_decide (Value r = Value x) && (Offset x =? Offset r +u Length r)
  then ((MkRangeValue (MkRange (Offset r) (Length r +u Length x)) (Value r), s), true)
  else if 0 <? Length r
       then let '(s', c) := iter r s in
            if c then ((x, s'), true)
            else ((MkRangeValue (MkRange (Offset r) 0) (Value r), s'), false)
       else ((x, s), true).

Definition coalesce_flush {S} (iter : RangeValue V -> S -> S * bool)
    (st : RangeValue V * S) : S :=
  let '(r, s) := st in if 0 <? Length r then (iter r s).1 else s.

Lemma ranges_wf_merge r x l :
  ranges_wf (r :: x :: l) -> Offset x = rend r ->
  ranges_wf (MkRangeValue (MkRange (Offset r) (Length r + Length x)) (Value r) :: l).
Proof.
  intros Hwf Ho. pose proof (ranges_wf_cons _ _ Hwf) as [Hr Hwf'].
  pose proof (ranges_wf_cons _ _ Hwf') as [Hx Hwf''].
  assert (Hb := fun y => before_tail x l y (rw_sorted _ Hwf')).
  split.
  - intros y [->|Hy]%elem_of_cons; [|by apply Hwf''].
    unfold good_range, rend in *; simpl in *. lia.
  - cbn. constructor; [apply Hwf''|]. rewrite Forall_fmap, Forall_forall. intros y Hy.
    specialize (Hb _ Hy). unfold before, rend in *; simpl in *. lia.
Qed.

Lemma coalesce_foldw {S} (iter : RangeValue V -> S -> S * bool) l r s :
  ranges_wf (r :: l) ->
  coalesce_flush iter (foldw (coalesce_step iter) l (r, s)) = foldw iter (coalesce r l) s.
Proof.
  revert r s. induction l as [|x l IH]; intros r s Hwf; simpl.
  - pose proof (rw_good _ Hwf r (list_elem_of_here _ _)) as Hr.
    replace (0 <? Length r) with true by (unfold good_range in Hr; lia). simpl.
    by destruct (iter r s) as [s' []].
  - pose proof (ranges_wf_cons _ _ Hwf) as [Hr Hwf'].
    pose proof (ranges_wf_cons _ _ Hwf') as [Hx _].
    unfold good_range, rend in *.
    replace (Offset r +u Length r) with (rend r) by (unfold rend; wrap_small; lia).
    replace (0 <? Length r) with true by lia.
    case_bool_decide as Hv; simpl.
    + destruct (Z.eqb_spec (Offset x) (rend r)) as [Ho|Ho].
      * rewrite bool_decide_eq_true_2 by done.
        unfold rend in Ho. rewrite u64_small by lia.
        apply IH. by apply ranges_wf_merge.
      * rewrite bool_decide_eq_false_2 by tauto. simpl.
        destruct (iter r s) as [s' []]; [by apply IH|done].
    + rewrite bool_decide_eq_false_2 by tauto. simpl.
      destruct (iter r s) as [s' []]; [by apply IH|done].
Qed.

(** Both loops start from the zero range, which is never reported. *)
Lemma coalesce_foldw_zero {S} (iter : RangeValue V -> S -> S * bool) l s :
  ranges_wf l ->
  coalesce_flush iter (foldw (coalesce_step iter) l (zero, s)) =
  foldw iter (match l with [] => [] | x :: l' => coalesce x l' end) s.
Proof.
  destruct l as [|x l]; intros Hwf; [done|]. rewrite <- coalesce_foldw by done.
  pose proof (rw_good _ Hwf x (list_elem_of_here _ _)) as Hx.
  cbn [foldw coalesce_step]. unfold zero at 1 2 3 4, zero_RangeValue; simpl.
  change (0 +u 0) with 0. case_bool_decide as Hv; simpl; [|done].
  destruct (Z.eqb_spec (Offset x) 0) as [Ho|Ho]; simpl; [|done].
  unfold good_range, rend in Hx. rewrite u64_small by lia.
  do 3 f_equal. destruct x as [[o len] v]; simpl in *. by subst.
Qed.

Lemma coalesce_head r l :
  ranges_wf (r :: l) -> exists len l', 0 < len /\
    coalesce r l = MkRangeValue (MkRange (Offset r) len) (Value r) :: l'.
Proof.
  revert r. induction l as [|x l IH]; intros r Hwf; simpl;
    pose proof (ranges_wf_cons _ _ Hwf) as [(_ & Hr & _) Hwf'];
    replace (0 <? Length r) with true by lia.
  - exists (Length r), []. by destruct r as [[]].
  - case_bool_decide as Hc.
    + destruct Hc as [_ Hc]. by apply (IH (MkRangeValue (MkRange _ _) _)), ranges_wf_merge.
    + exists (Length r), (coalesce x l). split; [lia|]. by destruct r as [[]].
Qed.

Lemma covered_cons r l k v :
  covered (r :: l) k v <-> (in_range k r /\ Value r = v) \/ covered l k v.
Proof. unfold covered. setoid_rewrite elem_of_cons. naive_solver. Qed.

Lemma coalesce_covered r l k v :
  ranges_wf (r :: l) -> covered (coalesce r l) k v <-> covered (r :: l) k v.
Proof.
  revert r. induction l as [|x l IH]; intros r Hwf; simpl;
    pose proof (ranges_wf_cons _ _ Hwf) as [Hr Hwf'];
    replace (0 <? Length r) with true by (unfold good_range in Hr; lia); [done|].
  case_bool_decide as Hc.
  - destruct Hc as [Hv Ho]. rewrite IH by (by apply ranges_wf_merge).
    rewrite !covered_cons, <- Hv.
    assert (in_range k (MkRange (Offset r) (Length r + Length x)) <->
            in_range k r \/ in_range k x) as Hin; [|simpl; tauto].
    apply ranges_wf_cons in Hwf' as [Hx _].
    unfold good_range, in_range, rend in *; simpl. lia.
  - by rewrite covered_cons, IH, <- covered_cons.
Qed.

(** Coalescing a list of disjoint ranges gives its maximal runs. *)
Lemma coalesce_shape r l :
  ranges_wf (r :: l) ->
  ranges_wf (coalesce r l) /\
  (forall y : RangeValue V, y ∈ coalesce r l -> Offset r <= Offset y) /\
  (forall y z : RangeValue V, y ∈ coalesce r l -> z ∈ coalesce r l -> rend y = Offset z -> Value y <> Value z).
Proof.
  revert r. induction l as [|x l IH]; intros r Hwf; simpl;
    pose proof (ranges_wf_cons _ _ Hwf) as [Hr Hwf'];
    replace (0 <? Length r) with true by (unfold good_range in Hr; lia).
  - split; [done|split].
    + by intros y ->%list_elem_of_singleton.
    + intros y z ->%list_elem_of_singleton ->%list_elem_of_singleton.
      unfold good_range, rend in *. lia.
  - case_bool_decide as Hc.
    + destruct Hc as [Hv Ho]. by apply (IH (MkRangeValue (MkRange _ _) _)), ranges_wf_merge.
    + destruct (IH x Hwf') as (Hw & Hb & Hm). clear IH.
      pose proof (before_tail r (x :: l) x (rw_sorted _ Hwf) (list_elem_of_here _ _)) as Hrx.
      split; [|split].
      * split; [intros y [->|Hy]%elem_of_cons; [done|by apply Hw]|].
        cbn. constructor; [apply Hw|]. rewrite Forall_fmap, Forall_forall. intros y Hy.
        specialize (Hb _ Hy). unfold before. simpl. lia.
      * intros y [->|Hy]%elem_of_cons; [done|]. specialize (Hb _ Hy).
        unfold good_range, rend in *. lia.
      * intros y z [->|Hy]%elem_of_cons [->|Hz]%elem_of_cons Hyz; [| | |by apply Hm].
        -- unfold good_range, rend in *. lia.
        -- destruct (coalesce_head _ _ Hwf') as (len & l' & Hlen & E).
           rewrite E in *. specialize (Hb _ Hz).
           apply elem_of_cons in Hz as [->|Hz]; simpl in *; [intros ?; apply Hc; auto|].
           pose proof (before_tail _ _ _ (rw_sorted _ Hw) Hz).
           unfold rend in *; simpl in *. lia.
        -- specialize (Hb _ Hy). pose proof (rw_good _ Hw _ Hy).
           unfold good_range, rend in *. lia.
Qed.

Lemma coalesce_runs l start (view : Z -> option V) :
  ranges_wf l -> (forall x, x ∈ l -> start <= Offset x) ->
  (forall k v, start <= k -> view k = Some v <-> covered l k v) ->
  runs_of view start (match l with [] => [] | x :: l' => coalesce x l' end).
Proof.
  intros Hwf Hst Hc. destruct l as [|x l].
  - split; [set_solver|constructor|done|set_solver].
  - destruct (coalesce_shape x l Hwf) as (Hw & Hb & Hm). split.
    + intros r Hr. specialize (Hb _ Hr). specialize (Hst x (list_elem_of_here _ _)).
      pose proof (rw_good _ Hw _ Hr) as (_ & ? & _). lia.
    + apply Hw.
    + intros k v Hk. by rewrite Hc, coalesce_covered.
    + done.
Qed.
End range_lists.

(** ** The interface [RangeMap]

    A result [(x, ok bool)] is an option. [rm_new] is the map the constructor
    (or the zero value) gives. *)
Class RangeMap (V M : Type) := {
  rm_new : M;
  rm_Begin : M -> outcome (option Z);
  rm_End : M -> outcome Z;
  rm_Add : M -> Z -> Z -> V -> outcome M;
  rm_Get : M -> Z -> outcome (option V);
  rm_NextKey : M -> Z -> outcome (option Z);
  rm_NextEmpty : M -> Z -> outcome Z;
  rm_Iterate {S : Type} : M -> Z -> (RangeValue V -> S -> S * bool) -> S -> outcome S;
}.

(** What an implementation promises for the offsets below [rm_limit]. *)
Class RangeMapLaws (V M : Type) `{!RangeMap V M} := {
  rm_limit : Z;
  rm_wf : M -> Prop;
  rm_view : M -> Z -> option V;
  rm_limit_range : 2 ^ 63 <= rm_limit <= 2 ^ 64;
  rm_view_range m k : rm_wf m -> is_Some (rm_view m k) -> 0 <= k < rm_limit;
  rm_new_wf : rm_wf rm_new;
  rm_new_view k : rm_view rm_new k = None;
  rm_Begin_ok m :
    rm_wf m -> exists r, rm_Begin m = Ret r /\ next_key_spec (rm_view m) 0 r;
  rm_End_ok m : rm_wf m -> exists e, rm_End m = Ret e /\ end_spec (rm_view m) e;
  rm_Add_ok m off len v :
    rm_wf m -> 0 <= off -> 0 <= len -> off + len < rm_limit ->
    exists m', rm_Add m off len v = Ret m' /\ rm_wf m' /\
               forall k, rm_view m' k = view_add (rm_view m) off len v k;
  rm_Get_ok m off : rm_wf m -> 0 <= off < 2 ^ 64 -> rm_Get m off = Ret (rm_view m off);
  rm_NextKey_ok m off :
    rm_wf m -> 0 <= off < 2 ^ 64 ->
    exists r, rm_NextKey m off = Ret r /\ next_key_spec (rm_view m) off r;
  rm_NextEmpty_ok m off :
    rm_wf m -> 0 <= off < 2 ^ 64 ->
    exists r, rm_NextEmpty m off = Ret r /\ next_empty_spec (rm_view m) off r;
  rm_Iterate_ok m start :
    rm_wf m -> 0 <= start < 2 ^ 64 ->
    exists l, runs_of (rm_view m) start l /\
      forall S (iter : RangeValue V -> S -> S * bool) s,
        rm_Iterate m start iter s = Ret (foldw iter l s);
}.
