(* ===== verification/ExtentRangeMap.v ===== *)
(** * The extent range map

    [internal/rangemap/extent_range_map.go]: a range map that keeps one item per
    extent in a radix tree. The tree holds pointers to [RangeValue]s and
    [Remove] shortens an extent by writing through its pointer, so the model has
    a heap: an item of the tree is a pointer together with the offset its
    [Key()] reads, which is never assigned after the item is built. *)
From S2P Require Import Prelude Radix RangeMap.
Local Open Scope Z_scope.

Record item := Item { it_key : Z; it_ptr : positive }.

#[export] Instance item_eq_dec : EqDecision item.
Proof. solve_decision. Defined.

Section extent_range_map.
Context {V : Type} `{!EqDecision V} `{!Zero V}.
Context {T : Type} `{!RadixTree item it_key T}.

Abbreviation heap := (gmap positive (RangeValue V)).

Record ExtentRangeMap := MkExtentRangeMap { erm_tree : T; erm_heap : heap }.

Definition erm_zero : ExtentRangeMap := MkExtentRangeMap rt_empty ∅.

(** [*ie]. The well-formedness invariant makes every item's pointer valid, so
    that the default is never read. *)
Definition deref (h : heap) (ie : item) : RangeValue V := default zero (h !! it_ptr ie).

(** [&RangeValue[V]{...}] *)
Definition alloc (h : heap) (rv : RangeValue V) : item * heap :=
  let p := fresh (dom h) in (Item (Offset rv) p, <[p := rv]> h).

Definition erm_Begin (m : ExtentRangeMap) : option Z :=
  rt_ascend (erm_tree m) (fun i _ => (Some (Offset (deref (erm_heap m) i)), false)) None.

Definition erm_End (m : ExtentRangeMap) : Z :=
  rt_descend (erm_tree m)
    (fun i _ => let ie := deref (erm_heap m) i in (Offset ie +u Length ie, false)) 0.

Definition getByteRange (m : ExtentRangeMap) (start length : Z) : list item :=
  let end_ := start +u length in
  let r := MkRange start length in
  rt_descend_le (erm_tree m) end_
    (fun i items =>
       let ie := deref (erm_heap m) i in
       if Offset ie =? end_ then (items, true)
       else if negb (Range_Overlaps r ie) then (items, false)
       else (items ++ [i], true)) [].

Definition GetWithRange (m : ExtentRangeMap) (offset : Z) : option (RangeValue V) :=
  rt_descend_le (erm_tree m) offset
    (fun i s => let ie := deref (erm_heap m) i in
                (if Range_Contains ie offset then Some ie else s, false)) None.

Definition erm_Get (m : ExtentRangeMap) (offset : Z) : option V :=
  rt_descend_le (erm_tree m) offset
    (fun i s => let ie := deref (erm_heap m) i in
                (if Range_Contains ie offset then Some (Value ie) else s, false)) None.

Definition erm_NextKey (m : ExtentRangeMap) (offset : Z) : option Z :=
  match erm_Get m offset with
  | Some _ => Some offset
  | None => rt_ascend_ge (erm_tree m) offset
              (fun i _ => (Some (Offset (deref (erm_heap m) i)), false)) None
  end.

Definition erm_NextEmpty (m : ExtentRangeMap) (offset : Z) : Z :=
  let next := rt_descend_le (erm_tree m) offset
    (fun i next => let ie := deref (erm_heap m) i in
                   (if Range_Contains ie offset then Offset ie +u Length ie else next, false))
    offset in
  if next =? offset then next
  else rt_ascend_ge (erm_tree m) next
         (fun i next => let ie := deref (erm_heap m) i in
                        if negb (Range_Contains ie next) then (next, false)
                        else (Offset ie +u Length ie, true)) next.

(** [ReplaceOrInsert] of a new item, with the check that nothing was there. *)
Definition insert_new (m : ExtentRangeMap) (rv : RangeValue V) : outcome ExtentRangeMap :=
  let '(i, h) := alloc (erm_heap m) rv in
  match rt_replace_or_insert (erm_tree m) i with
  | (t, None) => Ret (MkExtentRangeMap t h)
  | (_, Some _) => Panic
  end.

(** The body of the loop of [Remove], for one overlapping item. *)
Definition remove_item (offset end_ : Z) (m : ExtentRangeMap) (i : item) :
    outcome ExtentRangeMap :=
  let ie := deref (erm_heap m) i in
  let ieEnd := Offset ie +u Length ie in
  if Offset ie <? offset then
    m' ← (if end_ <? ieEnd
          then insert_new m (MkRangeValue (MkRange end_ (ieEnd -u end_)) (Value ie))
          else Ret m);
    let ie' := deref (erm_heap m') i in
    let short := MkRangeValue (MkRange (Offset ie') (offset -u Offset ie')) (Value ie') in
    Ret (MkExtentRangeMap (erm_tree m') (<[it_ptr i := short]> (erm_heap m')))
  else
    m' ← (if end_ <? ieEnd
          then insert_new m (MkRangeValue (MkRange end_ (ieEnd -u end_)) (Value ie))
          else Ret m);
    match rt_delete (erm_tree m') i with
    | (t, Some j) => if decide (i = j) then Ret (MkExtentRangeMap t (erm_heap m')) else Panic
    | (_, None) => Panic
    end.

Fixpoint remove_items (offset end_ : Z) (m : ExtentRangeMap) (l : list item) :
    outcome ExtentRangeMap :=
  match l with
  | [] => Ret m
  | i :: l' => m' ← remove_item offset end_ m i; remove_items offset end_ m' l'
  end.

Definition erm_Remove (m : ExtentRangeMap) (offset length : Z) : outcome ExtentRangeMap :=
  if (offset <? 0) || (length <? 0) then Panic
  else if length =? 0 then Ret m
  else remove_items offset (offset +u length) m (getByteRange m offset length).

Definition erm_Add (m : ExtentRangeMap) (offset length : Z) (value : V) :
    outcome ExtentRangeMap :=
  if (offset <? 0) || (length <? 0) then Panic
  else if length =? 0 then Ret m
  else m' ← erm_Remove m offset length;
       insert_new m' (MkRangeValue (MkRange offset length) value).

(** The callback of the traversal of [Iterate], with the range [r] being
    accumulated and the state [s] of [iter]. *)
Definition iterate_item {S} (h : heap) (start : Z) (iter : RangeValue V -> S -> S * bool)
    (i : item) (st : RangeValue V * S) : (RangeValue V * S) * bool :=
  let ie := deref h i in
  let '(r, s) := st in
  if Offset ie <? start then
    ((MkRangeValue (MkRange start ((Offset ie +u Length ie) -u start)) (Value ie), s), true)
  else if bool_decide (Value r = Value ie) && (Offset ie =? Offset r +u Length r) then
    ((MkRangeValue (MkRange (Offset r) (Length r +u Length ie)) (Value r), s), true)
  else if 0 <? Length r then
    let '(s', c) := iter r s in
    if c then ((ie, s'), true)
    else ((MkRangeValue (MkRange (Offset r) 0) (Value r), s'), false)
  else ((ie, s), true).

Definition erm_Iterate {S} (m : ExtentRangeMap) (start : Z)
    (iter : RangeValue V -> S -> S * bool) (s : S) : S :=
  let first :=
    if 0 <? start
    then rt_descend_le (erm_tree m) start
           (fun i first => let ie := deref (erm_heap m) i in
                           (if Range_Contains ie start then Offset ie else first, false)) start
    else start in
  let '(r, s') := rt_ascend_ge (erm_tree m) first
                    (iterate_item (erm_heap m) start iter) (zero, s) in
  if 0 <? Length r then (iter r s').1 else s'.
End extent_range_map.
Arguments ExtentRangeMap V T : clear implicits.

(** ** Correctness *)
Section correctness.
Context {V : Type} `{!EqDecision V} `{!Zero V}.
Context {T : Type} `{!RadixTree item it_key T} `{!RadixTreeLaws item it_key T}.
Implicit Types (m : ExtentRangeMap V T) (rv x : RangeValue V) (i : item) (k : Z).

Abbreviation items m := (rt_items (erm_tree m)).

(** The map holds the extent [rv]. *)
Definition has m rv : Prop := exists i, i ∈ items m /\ erm_heap m !! it_ptr i = Some rv.

(** Every item of the tree points to an extent that starts at its key. *)
Definition valid m : Prop :=
  forall i, i ∈ items m ->
  exists rv, erm_heap m !! it_ptr i = Some rv /\ Offset rv = it_key i.

(** The representation invariant: valid pointers to disjoint extents. *)
Record erm_wf m : Prop := {
  ew_valid : valid m;
  ew_good rv : has m rv -> good_range rv;
  ew_sep rv1 rv2 : has m rv1 -> has m rv2 -> Offset rv1 < Offset rv2 -> rend rv1 <= Offset rv2;
}.

Definition erm_ranges m : list (RangeValue V) := deref (erm_heap m) <$> items m.
Definition erm_view m k : option V := rlookup (erm_ranges m) k.

Lemma deref_lookup m i :
  valid m -> i ∈ items m ->
  erm_heap m !! it_ptr i = Some (deref (erm_heap m) i) /\
  Offset (deref (erm_heap m) i) = it_key i.
Proof. intros Hv Hi. destruct (Hv i Hi) as (rv & E & Ho). unfold deref. by rewrite E. Qed.

Lemma has_deref m i : valid m -> i ∈ items m -> has m (deref (erm_heap m) i).
Proof. intros Hv Hi. exists i. split; [done|]. by apply deref_lookup. Qed.

Lemma has_item m rv :
  valid m -> has m rv ->
  exists i, i ∈ items m /\ it_key i = Offset rv /\ deref (erm_heap m) i = rv.
Proof.
  intros Hv (i & Hi & E). exists i. destruct (deref_lookup m i Hv Hi) as [E' Ho].
  assert (deref (erm_heap m) i = rv) as <- by congruence. by repeat split.
Qed.

Lemma has_inj m rv1 rv2 :
  valid m -> has m rv1 -> has m rv2 -> Offset rv1 = Offset rv2 -> rv1 = rv2.
Proof.
  intros Hv H1 H2 Ho.
  destruct (has_item _ _ Hv H1) as (i & Hi & Hk & <-).
  destruct (has_item _ _ Hv H2) as (j & Hj & Hk' & <-).
  by rewrite (rt_key_inj (erm_tree m) i j) by (done || lia).
Qed.

Lemma ptr_inj m i (j : item) :
  valid m -> i ∈ items m -> j ∈ items m -> it_ptr i = it_ptr j -> i = j.
Proof.
  intros Hv Hi Hj Hp. apply (rt_key_inj (erm_tree m)); [done..|].
  destruct (deref_lookup m i Hv Hi) as [E Ho], (deref_lookup m j Hv Hj) as [E' Ho'].
  rewrite Hp in E. congruence.
Qed.

Lemma elem_of_erm_ranges m rv : valid m -> rv ∈ erm_ranges m <-> has m rv.
Proof.
  intros Hv. unfold erm_ranges. rewrite list_elem_of_fmap. split.
  - intros (i & -> & Hi). by apply has_deref.
  - intros (i & Hi & _ & <-)%has_item; [by exists i|done].
Qed.

Lemma erm_ranges_wf m : erm_wf m -> ranges_wf (erm_ranges m).
Proof.
  intros Hwf. split.
  - intros rv Hrv. apply (ew_good _ Hwf), elem_of_erm_ranges; [apply Hwf|done].
  - unfold erm_ranges. rewrite <- list_fmap_compose.
    eapply StronglySorted_fmap; [|apply rt_sorted].
    intros i j Hi Hj Hij. unfold before. simpl.
    pose proof (deref_lookup m i (ew_valid _ Hwf) Hi) as [_ Ho].
    pose proof (deref_lookup m j (ew_valid _ Hwf) Hj) as [_ Ho'].
    apply (ew_sep _ Hwf); [apply has_deref; [apply Hwf|done]..|].
    unfold key_lt in Hij. lia.
Qed.

Lemma erm_view_covered m k v :
  erm_wf m -> erm_view m k = Some v <-> exists rv, has m rv /\ in_range k rv /\ Value rv = v.
Proof.
  intros Hwf. unfold erm_view. rewrite rlookup_covered by (by apply erm_ranges_wf).
  unfold covered. setoid_rewrite elem_of_erm_ranges; [done|apply Hwf].
Qed.

Lemma erm_view_has m rv k :
  erm_wf m -> has m rv -> in_range k rv -> erm_view m k = Some (Value rv).
Proof. intros Hwf Hh Hk. apply erm_view_covered; [done|]. by exists rv. Qed.

Lemma erm_view_None m k :
  erm_wf m -> erm_view m k = None <-> forall rv, has m rv -> ~ in_range k rv.
Proof.
  intros Hwf. unfold erm_view. rewrite rlookup_None by (by apply erm_ranges_wf).
  setoid_rewrite elem_of_erm_ranges; [done|apply Hwf].
Qed.

(** The extent that contains an offset is unique. *)
Lemma has_unique m rv1 rv2 k :
  erm_wf m -> has m rv1 -> has m rv2 -> in_range k rv1 -> in_range k rv2 -> rv1 = rv2.
Proof.
  intros Hwf H1 H2 Hk1 Hk2. unfold in_range in *.
  destruct (Z.lt_trichotomy (Offset rv1) (Offset rv2)) as [?|[?|?]].
  - pose proof (ew_sep _ Hwf _ _ H1 H2). lia.
  - apply (has_inj m); [apply Hwf|done..].
  - pose proof (ew_sep _ Hwf _ _ H2 H1). lia.
Qed.

(** *** Queries *)
Lemma GetWithRange_spec m k :
  erm_wf m ->
  match GetWithRange m k with
  | Some rv => has m rv /\ in_range k rv
  | None => erm_view m k = None
  end.
Proof.
  intros Hwf. unfold GetWithRange. rewrite rt_descend_le_spec, foldw_first.
  pose proof (rt_floor (erm_tree m) k) as Hf. pose proof (ew_valid _ Hwf) as Hv.
  destruct (reverse _) as [|i l].
  - apply erm_view_None; [done|]. intros rv Hrv Hin.
    apply has_item in Hrv as (j & Hj & Ho & _); [|done].
    specialize (Hf j Hj). unfold in_range in Hin. lia.
  - destruct Hf as (Hi & Hk & Hmax). pose proof (has_deref _ _ Hv Hi) as Hh.
    rewrite Range_Contains_spec by (by apply (ew_good _ Hwf)).
    case_bool_decide as Hin; [done|]. apply erm_view_None; [done|]. intros rv Hrv Hin'.
    destruct (has_item _ _ Hv Hrv) as (j & Hj & Ho & Hd).
    specialize (Hmax j Hj). destruct (deref_lookup _ _ Hv Hi) as [_ Hoi].
    destruct (decide (it_key j = it_key i)) as [He|Hne].
    + apply (rt_key_inj (erm_tree m)) in He; [|done..]. by subst.
    + pose proof (ew_sep _ Hwf _ _ Hrv Hh). unfold in_range in *. lia.
Qed.

Lemma erm_Get_GetWithRange m k : erm_Get m k = Value <$> GetWithRange m k.
Proof.
  unfold erm_Get, GetWithRange. rewrite !rt_descend_le_spec, !foldw_first.
  destruct (reverse _); [done|]. by case_match.
Qed.

Lemma erm_Get_spec m k : erm_wf m -> erm_Get m k = erm_view m k.
Proof.
  intros Hwf. rewrite erm_Get_GetWithRange. pose proof (GetWithRange_spec m k Hwf) as Hg.
  destruct (GetWithRange m k) as [rv|]; simpl; [|done].
  symmetry. apply erm_view_has; [done|apply Hg..].
Qed.

Lemma erm_NextKey_spec m k : erm_wf m -> next_key_spec (erm_view m) k (erm_NextKey m k).
Proof.
  intros Hwf. unfold erm_NextKey. rewrite erm_Get_spec by done.
  destruct (erm_view m k) as [v|] eqn:E.
  { simpl. rewrite E. repeat split; [lia|eauto|intros; lia]. }
  rewrite rt_ascend_ge_spec, foldw_first. pose proof (ew_valid _ Hwf) as Hv.
  assert (Hnext : forall (j : Z) v', k <= j -> erm_view m j = Some v' ->
            exists i, i ∈ items m /\ k <= it_key i <= j).
  { intros j v' Hj (rv & Hrv & Hin & _)%erm_view_covered; [|done].
    destruct (has_item _ _ Hv Hrv) as (i & Hi & Ho & _). exists i. split; [done|].
    unfold in_range in Hin. destruct (decide (Offset rv <= k)); [|lia].
    assert (erm_view m k = Some (Value rv)) as Hs; [|congruence].
    apply erm_view_has; [done..|]. unfold in_range. lia. }
  pose proof (rt_ceiling (erm_tree m) k) as Hc.
  destruct (filter _ _) as [|i l]; simpl.
  - intros j Hj. destruct (erm_view m j) as [v'|] eqn:Ej; [|done].
    destruct (Hnext _ _ Hj Ej) as (i & Hi & ?). specialize (Hc _ Hi). lia.
  - destruct Hc as (Hi & Hk & Hmin). destruct (deref_lookup _ _ Hv Hi) as [_ Ho].
    rewrite Ho. repeat split; [done| |].
    + exists (Value (deref (erm_heap m) i)). pose proof (has_deref _ _ Hv Hi) as Hh.
      apply erm_view_has; [done..|]. apply (ew_good _ Hwf) in Hh.
      unfold good_range, in_range, rend in *. lia.
    + intros j Hj. destruct (erm_view m j) as [v'|] eqn:Ej; [|done].
      destruct (Hnext j v') as (i' & Hi' & ?); [lia|done|].
      specialize (Hmin _ Hi'). lia.
Qed.

(** The loop of [NextEmpty] over the items that start at or after [n], when
    no extent straddles [n]. *)
Lemma next_empty_loop m off l n :
  erm_wf m -> StronglySorted (key_lt it_key) l ->
  (forall i, i ∈ l <-> i ∈ items m /\ n <= it_key i) ->
  (forall rv, has m rv -> Offset rv < n -> rend rv <= n) ->
  off <= n -> (forall j, off <= j < n -> is_Some (erm_view m j)) ->
  next_empty_spec (erm_view m) off
    (foldw (fun i next => let ie := deref (erm_heap m) i in
                          if negb (Range_Contains ie next) then (next, false)
                          else (Offset ie +u Length ie, true)) l n).
Proof.
  intros Hwf Hs. pose proof (ew_valid _ Hwf) as Hv. revert n.
  induction Hs as [|i l Hs IH Hf]; intros n Hl Hlow Hoff Hj; simpl.
  - repeat split; [done| |done]. apply erm_view_None; [done|]. intros rv Hrv Hin.
    destruct (has_item _ _ Hv Hrv) as (i & Hi & Ho & _). unfold in_range in Hin.
    destruct (decide (n <= it_key i)).
    + assert (i ∈ @nil item) as Hn; [by apply Hl|set_solver].
    + specialize (Hlow _ Hrv). lia.
  - destruct (proj1 (Hl i)) as [Hi Hni]; [by left|].
    pose proof (has_deref _ _ Hv Hi) as Hh. destruct (deref_lookup _ _ Hv Hi) as [_ Ho].
    pose proof (ew_good _ Hwf _ Hh) as Hg. rewrite Range_Contains_spec by done.
    rewrite Forall_forall in Hf. unfold key_lt in Hf.
    case_bool_decide as Hin; simpl.
    + assert (it_key i = n) by (unfold in_range in Hin; lia).
      replace (_ +u _) with (rend (deref (erm_heap m) i))
        by (unfold good_range, rend in *; wrap_small; lia).
      apply IH.
      * intros j. split.
        -- intros Hjl. destruct (proj1 (Hl j)) as [Hj' _]; [by right|]. split; [done|].
           specialize (Hf _ Hjl). destruct (deref_lookup _ _ Hv Hj') as [_ Hoj].
           rewrite <- Hoj. apply (ew_sep _ Hwf); [done|by apply has_deref|lia].
        -- intros [Hj' Hk]. unfold in_range in Hin.
           assert (j ∈ i :: l) as [->|?]%elem_of_cons; [apply Hl; split; [done|lia]| |done].
           unfold good_range, rend in *. lia.
      * intros rv Hrv Hlt. destruct (decide (Offset rv < n)).
        -- specialize (Hlow _ Hrv). unfold in_range in Hin. lia.
        -- destruct (decide (Offset rv = n)).
           ++ rewrite (has_inj m rv (deref (erm_heap m) i)); [lia|done..|lia].
           ++ pose proof (ew_sep _ Hwf _ _ Hh Hrv). lia.
      * unfold in_range in Hin. lia.
      * intros j Hjr. destruct (decide (j < n)); [apply Hj; lia|].
        rewrite (erm_view_has m (deref (erm_heap m) i)); [eauto|done..|].
        unfold in_range. lia.
    + repeat split; [done| |done]. apply erm_view_None; [done|]. intros rv Hrv Hin'.
      destruct (has_item _ _ Hv Hrv) as (j & Hj' & Hoj & Hd).
      unfold in_range in Hin'. destruct (decide (Offset rv < n)).
      * specialize (Hlow _ Hrv). lia.
      * assert (j ∈ i :: l) as [->|Hjl]%elem_of_cons by (apply Hl; split; [done|lia]).
        -- by subst rv.
        -- specialize (Hf _ Hjl). lia.
Qed.

Lemma erm_NextEmpty_spec m off :
  erm_wf m -> next_empty_spec (erm_view m) off (erm_NextEmpty m off).
Proof.
  intros Hwf. pose proof (GetWithRange_spec m off Hwf) as Hg.
  unfold erm_NextEmpty, GetWithRange in *. rewrite !rt_descend_le_spec, !foldw_first in *.
  assert (Hnone : erm_view m off = None -> next_empty_spec (erm_view m) off off).
  { intros Hn. repeat split; [lia|done|intros; lia]. }
  destruct (reverse _) as [|i l]; [rewrite Z.eqb_refl; auto|].
  destruct (Range_Contains _ off); [|rewrite Z.eqb_refl; auto]. destruct Hg as [Hh Hin].
  pose proof (ew_good _ Hwf _ Hh) as Hg.
  replace (_ +u _) with (rend (deref (erm_heap m) i))
    by (unfold good_range, rend in *; wrap_small; lia).
  assert (Hlt : off < rend (deref (erm_heap m) i)) by (unfold in_range in Hin; lia).
  replace (_ =? _) with false by lia. rewrite rt_ascend_ge_spec.
  apply next_empty_loop; [done| | | |lia|].
  - apply StronglySorted_filter, rt_sorted.
  - intros j. rewrite list_elem_of_filter. tauto.
  - intros rv Hrv Ho. destruct (decide (Offset rv < Offset (deref (erm_heap m) i))).
    + pose proof (ew_sep _ Hwf _ _ Hrv Hh). unfold in_range in Hin. lia.
    + destruct (decide (Offset rv = Offset (deref (erm_heap m) i))).
      * rewrite (has_inj m rv (deref (erm_heap m) i)); [lia|apply Hwf|done..].
      * pose proof (ew_sep _ Hwf _ _ Hh Hrv). lia.
  - intros j Hj. rewrite (erm_view_has m (deref (erm_heap m) i)); [eauto|done..|].
    unfold in_range in *. lia.
Qed.

Lemma erm_Begin_spec m : erm_wf m -> next_key_spec (erm_view m) 0 (erm_Begin m).
Proof.
  intros Hwf. pose proof (ew_valid _ Hwf) as Hv. pose proof (rt_sorted (erm_tree m)) as Hs.
  unfold erm_Begin. rewrite rt_ascend_spec, foldw_first.
  destruct (items m) as [|i l] eqn:Ei; simpl.
  - intros j _. apply erm_view_None; [done|]. intros rv (i & Hi & _). rewrite Ei in Hi. set_solver.
  - assert (Hi : i ∈ items m) by (rewrite Ei; by left).
    pose proof (has_deref _ _ Hv Hi) as Hh. pose proof (ew_good _ Hwf _ Hh) as Hg.
    destruct (deref_lookup _ _ Hv Hi) as [_ Ho].
    repeat split; [unfold good_range in Hg; lia| |].
    + rewrite (erm_view_has m (deref (erm_heap m) i)); [eauto|done..|].
      unfold good_range, in_range, rend in *. lia.
    + intros j Hj. apply erm_view_None; [done|]. intros rv Hrv Hin.
      destruct (has_item _ _ Hv Hrv) as (i' & Hi' & Ho' & _). unfold in_range in Hin.
      rewrite Ei in Hi'. apply elem_of_cons in Hi' as [->|Hi']; [lia|].
      inversion Hs as [|? ? _ Hf]; subst. rewrite Forall_forall in Hf.
      specialize (Hf _ Hi'). unfold key_lt in Hf. lia.
Qed.

Lemma erm_End_spec m : erm_wf m -> end_spec (erm_view m) (erm_End m).
Proof.
  intros Hwf. pose proof (ew_valid _ Hwf) as Hv.
  pose proof (StronglySorted_reverse _ _ (rt_sorted (erm_tree m))) as Hs.
  assert (Hr : forall i, i ∈ reverse (items m) <-> i ∈ items m).
  { intros i. by rewrite elem_of_reverse. }
  unfold erm_End. rewrite rt_descend_spec, foldw_first.
  destruct (reverse (items m)) as [|i l] eqn:Ei; simpl.
  - left. split; [done|]. intros j _. apply erm_view_None; [done|].
    intros rv (i & Hi & _). apply Hr in Hi. set_solver.
  - right. assert (Hi : i ∈ items m) by (apply Hr; by left).
    pose proof (has_deref _ _ Hv Hi) as Hh. pose proof (ew_good _ Hwf _ Hh) as Hg.
    destruct (deref_lookup _ _ Hv Hi) as [_ Ho].
    replace (_ +u _) with (rend (deref (erm_heap m) i))
      by (unfold good_range, rend in *; wrap_small; lia).
    repeat split; [unfold good_range, rend in *; lia| |].
    + rewrite (erm_view_has m (deref (erm_heap m) i)); [eauto|done..|].
      unfold good_range, in_range, rend in *. lia.
    + intros j Hj. apply erm_view_None; [done|]. intros rv Hrv Hin.
      destruct (has_item _ _ Hv Hrv) as (i' & Hi' & Ho' & Hd). unfold in_range in Hin.
      apply Hr, elem_of_cons in Hi' as [->|Hi']; [by subst rv; lia|].
      inversion Hs as [|? ? _ Hf]; subst. rewrite Forall_forall in Hf.
      specialize (Hf _ Hi'). unfold flip, key_lt in Hf.
      pose proof (ew_sep _ Hwf _ _ Hrv Hh). unfold good_range, rend in *. lia.
Qed.

(** *** Updates *)

(** What an update leaves alone: the other items and what they point to. *)
Definition frame m m' (P : item -> Prop) : Prop :=
  forall i, i ∈ items m -> P i ->
  i ∈ items m' /\ erm_heap m' !! it_ptr i = erm_heap m !! it_ptr i.

Lemma insert_new_spec m rv :
  valid m -> (forall rv', has m rv' -> Offset rv' <> Offset rv) ->
  exists m', insert_new m rv = Ret m' /\ valid m' /\ frame m m' (fun _ => True) /\
             forall rv', has m' rv' <-> rv' = rv \/ has m rv'.
Proof.
  intros Hv Hfresh. unfold insert_new, alloc.
  set (p := fresh (dom (erm_heap m))). set (i := Item (Offset rv) p).
  assert (Hp : erm_heap m !! p = None) by (apply not_elem_of_dom, is_fresh).
  assert (Hkey : forall j, j ∈ items m -> it_key j <> Offset rv).
  { intros j Hj. destruct (deref_lookup _ _ Hv Hj) as [_ Ho].
    rewrite <- Ho. by apply Hfresh, has_deref. }
  pose proof (rt_insert_fresh (erm_tree m) i) as Hold.
  pose proof (rt_insert_items (erm_tree m) i) as Hitems.
  destruct (rt_replace_or_insert _ _) as [t old]. simpl in *.
  rewrite Hold by done. eexists. split; [done|].
  assert (Hne : forall j, j ∈ items m -> it_ptr j <> p).
  { intros j Hj Hjp. destruct (Hv j Hj) as (? & E & _). congruence. }
  assert (Hhas : forall rv', has (MkExtentRangeMap t (<[p:=rv]> (erm_heap m))) rv' <->
                             rv' = rv \/ has m rv').
  { intros rv'. unfold has. simpl. setoid_rewrite Hitems. split.
    - intros (j & [->|[Hj _]] & E); [left; simplify_map_eq/=; congruence|].
      right. exists j. split; [done|]. by rewrite lookup_insert_ne in E by (symmetry; auto).
    - intros [->|(j & Hj & E)].
      + exists i. split; [by left|]. by simplify_map_eq/=.
      + exists j. split; [right; split; [done|by apply Hkey]|].
        by rewrite lookup_insert_ne by (symmetry; auto). }
  split; [|split; [|done]].
  - intros j [->|[Hj _]]%Hitems; simpl.
    + exists rv. by simplify_map_eq/=.
    + destruct (Hv j Hj) as (rv' & E & Ho). exists rv'.
      by rewrite lookup_insert_ne by (symmetry; auto).
  - intros j Hj _. simpl. split; [apply Hitems; right; split; [done|by apply Hkey]|].
    by rewrite lookup_insert_ne by (symmetry; auto).
Qed.

(** Writing an extent through the pointer of an item. *)
Lemma write_item_spec m i rv :
  valid m -> i ∈ items m -> Offset rv = it_key i ->
  let m' := MkExtentRangeMap (erm_tree m) (<[it_ptr i := rv]> (erm_heap m)) in
  valid m' /\ frame m m' (fun j => j <> i) /\
  forall rv', has m' rv' <-> rv' = rv \/ (has m rv' /\ Offset rv' <> Offset rv).
Proof.
  intros Hv Hi Ho m'.
  assert (Hne : forall j, j ∈ items m -> j <> i -> it_ptr i <> it_ptr j).
  { intros j Hj Hne Hp. apply Hne. symmetry. by apply (ptr_inj m). }
  split; [|split].
  - intros j Hj. simpl in *. destruct (decide (j = i)) as [->|Hji].
    + exists rv. by simplify_map_eq.
    + destruct (Hv j Hj) as (rv' & E & Ho'). exists rv'.
      by rewrite lookup_insert_ne by auto.
  - intros j Hj Hji. simpl. by rewrite lookup_insert_ne by auto.
  - intros rv'. unfold has. simpl. split.
    + intros (j & Hj & E). destruct (decide (j = i)) as [->|Hji].
      * left. by simplify_map_eq.
      * right. rewrite lookup_insert_ne in E by auto. split; [by exists j|].
        destruct (Hv j Hj) as (rv'' & E' & Ho'). simplify_map_eq.
        intros Hk. apply Hji, (rt_key_inj (erm_tree m)); [done..|lia].
    + intros [->|[(j & Hj & E) Hk]].
      * exists i. by simplify_map_eq.
      * exists j. split; [done|]. rewrite lookup_insert_ne; [done|]. apply Hne; [done|].
        intros ->. destruct (Hv i Hi) as (rv'' & E' & Ho'). simplify_map_eq. lia.
Qed.

Lemma delete_item_spec m i :
  valid m -> i ∈ items m ->
  exists t, rt_delete (erm_tree m) i = (t, Some i) /\
  let m' := MkExtentRangeMap t (erm_heap m) in
  valid m' /\ frame m m' (fun j => j <> i) /\
  forall rv', has m' rv' <-> has m rv' /\ Offset rv' <> it_key i.
Proof.
  intros Hv Hi. pose proof (rt_delete_present _ _ Hi) as Hold.
  pose proof (rt_delete_items (erm_tree m) i) as Hitems.
  destruct (rt_delete _ _) as [t old]. simpl in *. subst old. exists t.
  split; [done|]. split; [|split].
  - intros j [Hj _]%Hitems. by apply Hv.
  - intros j Hj Hji. split; [|done]. apply Hitems. split; [done|].
    intros Hk. by apply Hji, (rt_key_inj (erm_tree m)).
  - intros rv'. unfold has. simpl. setoid_rewrite Hitems. split.
    + intros (j & [Hj Hk] & E). split; [by exists j|].
      destruct (Hv j Hj) as (rv'' & E' & Ho'). simplify_map_eq. lia.
    + intros [(j & Hj & E) Hk]. exists j. split; [|done]. split; [done|].
      destruct (Hv j Hj) as (rv'' & E' & Ho'). simplify_map_eq. lia.
Qed.

(** What is left of an extent when [o..e-1] is removed. *)
Definition pieces (o e : Z) (rv : RangeValue V) : list (RangeValue V) :=
  (if Offset rv <? o
   then [MkRangeValue (MkRange (Offset rv) (o - Offset rv)) (Value rv)] else []) ++
  (if e <? rend rv
   then [MkRangeValue (MkRange e (rend rv - e)) (Value rv)] else []).

Definition overlaps (o e : Z) (r : Range) : Prop := Offset r < e /\ o < rend r.

Lemma insert_tail_spec m i o e :
  erm_wf m -> i ∈ items m -> 0 <= o < e -> e < 2 ^ 64 ->
  let ie := deref (erm_heap m) i in
  overlaps o e ie ->
  let tail := MkRangeValue (MkRange e (rend ie - e)) (Value ie) in
  exists m',
    (if e <? Offset ie +u Length ie
     then insert_new m (MkRangeValue (MkRange e (Offset ie +u Length ie -u e)) (Value ie))
     else Ret m) = Ret m' /\
    valid m' /\ frame m m' (fun _ => True) /\
    forall rv', has m' rv' <-> (e < rend ie /\ rv' = tail) \/ has m rv'.
Proof.
  intros Hwf Hi Hoe He ie Hov tail. pose proof (ew_valid _ Hwf) as Hv.
  pose proof (has_deref _ _ Hv Hi) as Hh. fold ie in Hh.
  pose proof (ew_good _ Hwf _ Hh) as Hg.
  replace (Offset ie +u Length ie) with (rend ie)
    by (unfold good_range, rend in *; wrap_small; lia).
  destruct (Z.ltb_spec e (rend ie)) as [Hlt|Hge].
  - rewrite u64_small by (unfold good_range, rend in *; lia).
    destruct (insert_new_spec m tail Hv) as (m' & E & Hv' & Hfr & Hhas).
    { intros rv' Hrv' Ho. simpl in Ho. unfold overlaps in Hov.
      pose proof (ew_good _ Hwf _ Hrv'). pose proof (ew_sep _ Hwf _ _ Hh Hrv').
      unfold good_range, rend in *. lia. }
    exists m'. split; [done|]. split; [done|]. split; [done|].
    intros rv'. rewrite Hhas. tauto.
  - exists m. split; [done|]. split; [done|]. split; [done|].
    intros rv'. intuition lia.
Qed.

(** One iteration of the loop of [Remove] replaces an extent by its pieces. *)
Lemma remove_item_spec m i o e :
  erm_wf m -> i ∈ items m -> 0 <= o < e -> e < 2 ^ 64 ->
  overlaps o e (deref (erm_heap m) i) ->
  exists m', remove_item o e m i = Ret m' /\ valid m' /\ frame m m' (fun j => j <> i) /\
  forall rv', has m' rv' <-> (has m rv' /\ Offset rv' <> it_key i) \/
                            rv' ∈ pieces o e (deref (erm_heap m) i).
Proof.
  intros Hwf Hi Hoe He Hov. pose proof (ew_valid _ Hwf) as Hv.
  pose proof (has_deref _ _ Hv Hi) as Hh. pose proof (ew_good _ Hwf _ Hh) as Hg.
  destruct (deref_lookup _ _ Hv Hi) as [_ Ho].
  destruct (insert_tail_spec m i o e) as (m1 & E1 & Hv1 & Hfr1 & Hhas1); [done..|].
  unfold remove_item, pieces. rewrite E1. cbn [mbind outcome_bind].
  destruct (Hfr1 i Hi I) as [Hi1 Ed]. unfold deref in *. rewrite Ed. fold (deref (erm_heap m) i) in *.
  set (ie := deref (erm_heap m) i) in *.
  assert (Htail : forall rv', (e < rend ie /\ rv' = MkRangeValue (MkRange e (rend ie - e)) (Value ie)) <->
            rv' ∈ (if e <? rend ie then [MkRangeValue (MkRange e (rend ie - e)) (Value ie)] else [])).
  { intros rv'. destruct (Z.ltb_spec e (rend ie)); set_solver by lia. }
  setoid_rewrite elem_of_app. setoid_rewrite <- Htail.
  destruct (Z.ltb_spec (Offset ie) o) as [Hlt|Hge].
  - rewrite u64_small by (unfold good_range in *; lia).
    destruct (write_item_spec m1 i (MkRangeValue (MkRange (Offset ie) (o - Offset ie)) (Value ie)))
      as (Hv2 & Hfr2 & Hhas2); [done..|].
    eexists. split; [done|]. split; [done|]. split.
    + intros j Hj Hji. destruct (Hfr1 j Hj I) as [Hj1 E].
      destruct (Hfr2 j Hj1 Hji) as [Hj2 E']. by rewrite E'.
    + intros rv'. rewrite Hhas2, Hhas1, list_elem_of_singleton. simpl. rewrite Ho. split.
      * intuition auto.
      * assert (e <> it_key i) by (unfold overlaps in Hov; lia).
        intuition (subst; auto).
  - destruct (delete_item_spec m1 i) as (t & -> & Hv2 & Hfr2 & Hhas2); [done..|].
    rewrite decide_True by done. eexists. split; [done|]. split; [done|]. split.
    + intros j Hj Hji. destruct (Hfr1 j Hj I) as [Hj1 E].
      destruct (Hfr2 j Hj1 Hji) as [Hj2 E']. by rewrite E'.
    + intros rv'. rewrite Hhas2, Hhas1. split.
      * intuition auto.
      * assert (e <> it_key i) by (unfold overlaps in Hov; lia).
        intros [[? ?]|[Hn|[? ->]]]; [by auto|by apply not_elem_of_nil in Hn|by auto].
Qed.

Lemma elem_of_pieces o e rv x :
  x ∈ pieces o e rv <->
  (Offset rv < o /\ x = MkRangeValue (MkRange (Offset rv) (o - Offset rv)) (Value rv)) \/
  (e < rend rv /\ x = MkRangeValue (MkRange e (rend rv - e)) (Value rv)).
Proof.
  unfold pieces. rewrite elem_of_app.
  destruct (Z.ltb_spec (Offset rv) o), (Z.ltb_spec e (rend rv)); set_solver by lia.
Qed.

Lemma pieces_bounds o e rv x :
  0 <= o < e -> e < 2 ^ 64 -> good_range rv -> overlaps o e rv -> x ∈ pieces o e rv ->
  good_range x /\ Offset rv <= Offset x /\ rend x <= rend rv /\ ((Offset x = Offset rv /\ rend x = o) \/ Offset x = e).
Proof.
  intros Hoe He Hg Hov [[H ->]|[H ->]]%elem_of_pieces;
    unfold good_range, overlaps, rend in *; simpl; lia.
Qed.

Lemma pieces_covered o e rv k v :
  0 <= o < e -> overlaps o e rv ->
  (exists x, x ∈ pieces o e rv /\ in_range k x /\ Value x = v) <->
  in_range k rv /\ Value rv = v /\ ~ (o <= k < e).
Proof.
  intros Hoe Hov. setoid_rewrite elem_of_pieces. unfold overlaps, in_range, rend in *. split.
  - intros (x & [[H ->]|[H ->]] & Hin & <-); simpl in *; repeat split; lia.
  - intros (Hin & <- & Hk). destruct (decide (k < o)).
    + eexists. split; [left; split; [|done]|]; simpl; [|split]; [lia|lia|done].
    + eexists. split; [right; split; [|done]|]; simpl; [|split]; [lia|lia|done].
Qed.

(** Replacing an extent by its pieces keeps the invariant and removes the
    offsets [o..e-1] of that extent from the view. *)
Lemma replace_by_pieces m m' i o e :
  erm_wf m -> i ∈ items m -> 0 <= o < e -> e < 2 ^ 64 ->
  overlaps o e (deref (erm_heap m) i) -> valid m' ->
  (forall rv', has m' rv' <-> (has m rv' /\ Offset rv' <> it_key i) \/
                             rv' ∈ pieces o e (deref (erm_heap m) i)) ->
  erm_wf m' /\
  forall k v, erm_view m' k = Some v <->
              erm_view m k = Some v /\ ~ (o <= k < e /\ in_range k (deref (erm_heap m) i)).
Proof.
  intros Hwf Hi Hoe He Hov Hv' Hhas. pose proof (ew_valid _ Hwf) as Hv.
  pose proof (has_deref _ _ Hv Hi) as Hh. destruct (deref_lookup _ _ Hv Hi) as [_ Ho].
  set (ie := deref (erm_heap m) i) in *. pose proof (ew_good _ Hwf _ Hh) as Hg.
  assert (Hp : forall x, x ∈ pieces o e ie -> good_range x /\ Offset ie <= Offset x /\
            rend x <= rend ie /\ ((Offset x = Offset ie /\ rend x = o) \/ Offset x = e)).
  { intros x. by apply pieces_bounds. }
  assert (Hold : forall rv, has m rv -> Offset rv <> it_key i ->
            good_range rv /\ (rend rv <= Offset ie \/ rend ie <= Offset rv)).
  { intros rv Hrv Hne. split; [by apply Hwf|].
    pose proof (ew_sep _ Hwf _ _ Hrv Hh). pose proof (ew_sep _ Hwf _ _ Hh Hrv). lia. }
  assert (Hwf' : erm_wf m').
  { split; [done| |].
    - intros rv [[Hrv _]|Hrv]%Hhas; [by apply Hwf|by apply Hp].
    - intros rv1 rv2 [[H1 Hn1]|H1]%Hhas [[H2 Hn2]|H2]%Hhas Hlt.
      + by apply (ew_sep _ Hwf).
      + destruct (Hold _ H1 Hn1), (Hp _ H2). unfold good_range, rend in *. lia.
      + destruct (Hp _ H1), (Hold _ H2 Hn2). unfold good_range, rend in *. lia.
      + destruct (Hp _ H1), (Hp _ H2). unfold good_range, overlaps, rend in *. lia. }
  split; [done|]. intros k v. rewrite !erm_view_covered by done. split.
  - intros (rv & [[Hrv Hne]|Hrv]%Hhas & Hin & <-).
    + split; [by exists rv|]. destruct (Hold _ Hrv Hne). unfold in_range, good_range, rend in *. lia.
    + destruct (proj1 (pieces_covered o e ie k (Value rv) Hoe Hov)) as (? & ? & ?);
        [by exists rv|]. split; [by exists ie|tauto].
  - intros [(rv & Hrv & Hin & <-) Hn]. setoid_rewrite Hhas.
    destruct (decide (Offset rv = it_key i)) as [Hk|Hk].
    + assert (rv = ie) as -> by (apply (has_inj m); [done..|lia]).
      destruct (proj2 (pieces_covered o e ie k (Value ie) Hoe Hov)) as (x & ? & ? & ?);
        [tauto|]. exists x. auto.
    + exists rv. auto.
Qed.

Lemma remove_items_spec m l o e :
  erm_wf m -> NoDup l -> 0 <= o < e -> e < 2 ^ 64 ->
  (forall i, i ∈ l -> i ∈ items m /\ overlaps o e (deref (erm_heap m) i)) ->
  exists m', remove_items o e m l = Ret m' /\ erm_wf m' /\
  forall k v, erm_view m' k = Some v <->
              erm_view m k = Some v /\
              ~ (o <= k < e /\ exists i, i ∈ l /\ in_range k (deref (erm_heap m) i)).
Proof.
  intros Hwf Hnd Hoe He. revert m Hwf.
  induction Hnd as [|i l Hil Hnd IH]; intros m Hwf Hl; simpl.
  { exists m. split; [done|]. split; [done|]. set_solver. }
  destruct (Hl i) as [Hi Hov]; [by left|].
  destruct (remove_item_spec m i o e) as (m1 & -> & Hv1 & Hfr & Hhas); [done..|].
  destruct (replace_by_pieces m m1 i o e) as [Hwf1 Hview]; [done..|]. cbn.
  assert (Hd : forall j, j ∈ l -> j ∈ items m1 /\ deref (erm_heap m1) j = deref (erm_heap m) j).
  { intros j Hj. destruct (Hl j) as [Hjm _]; [by right|].
    destruct (Hfr j Hjm) as [Hj1 E]; [by intros ->|]. split; [done|].
    unfold deref. by rewrite E. }
  destruct (IH m1 Hwf1) as (m2 & E & Hwf2 & Hview2).
  { intros j Hj. destruct (Hd j Hj) as [? ->]. split; [done|]. by apply Hl; right. }
  exists m2. split; [done|]. split; [done|]. intros k v. rewrite Hview2, Hview.
  setoid_rewrite elem_of_cons.
  assert ((exists j, j ∈ l /\ in_range k (deref (erm_heap m1) j)) <->
          (exists j, j ∈ l /\ in_range k (deref (erm_heap m) j))) as ->; [|naive_solver].
  split; intros (j & Hj & Hin); destruct (Hd j Hj) as [_ Ed]; exists j;
    [by rewrite <- Ed|by rewrite Ed].
Qed.

(** [getByteRange] stops at the first extent that does not overlap, and
    misses none: the extents are disjoint and visited in descending order. *)
Lemma byte_range_loop m o len e l acc :
  erm_wf m -> e = o + len -> 0 <= o < e -> e < 2 ^ 64 ->
  (forall i, i ∈ l -> i ∈ items m /\ it_key i <= e) ->
  StronglySorted (flip (key_lt it_key)) l ->
  foldw (fun i items =>
           let ie := deref (erm_heap m) i in
           if Offset ie =? e then (items, true)
           else if negb (Range_Overlaps (MkRange o len) ie) then (items, false)
           else (items ++ [i], true)) l acc =
  acc ++ filter (fun i => overlaps o e (deref (erm_heap m) i)) l.
Proof.
  intros Hwf He' Hoe He Hl Hs. pose proof (ew_valid _ Hwf) as Hv. revert acc.
  induction Hs as [|i l Hs IH Hf]; intros acc; simpl; [by rewrite filter_nil, app_nil_r|].
  destruct (Hl i) as [Hi Hk]; [by left|].
  pose proof (has_deref _ _ Hv Hi) as Hh. pose proof (ew_good _ Hwf _ Hh) as Hg.
  destruct (deref_lookup _ _ Hv Hi) as [_ Ho].
  rewrite Range_Overlaps_spec by (done || unfold good_range, rend; simpl; lia).
  rewrite filter_cons.
  destruct (Z.eqb_spec (Offset (deref (erm_heap m) i)) e) as [Heq|Hne].
  - rewrite decide_False by (unfold overlaps; lia). apply IH. set_solver.
  - destruct (decide (overlaps o e (deref (erm_heap m) i))) as [Hov|Hov].
    + rewrite bool_decide_eq_true_2 by (unfold overlaps, rend in *; simpl; lia). simpl.
      rewrite IH by set_solver. by rewrite <- app_assoc.
    + rewrite bool_decide_eq_false_2 by (unfold overlaps, rend in *; simpl; lia). simpl.
      rewrite filter_none; [by rewrite app_nil_r|].
      rewrite Forall_forall in Hf. intros j Hj. specialize (Hf _ Hj).
      destruct (Hl j) as [Hjm _]; [by right|]. destruct (deref_lookup _ _ Hv Hjm) as [_ Hoj].
      pose proof (ew_sep _ Hwf _ _ (has_deref _ _ Hv Hjm) Hh).
      unfold overlaps, flip, key_lt, good_range, rend in *. lia.
Qed.

Lemma getByteRange_spec m o len :
  erm_wf m -> 0 <= o -> 0 < len -> o + len < 2 ^ 64 ->
  NoDup (getByteRange m o len) /\
  forall i, i ∈ getByteRange m o len <->
            i ∈ items m /\ overlaps o (o + len) (deref (erm_heap m) i).
Proof.
  intros Hwf Ho Hl Hlim. unfold getByteRange. rewrite u64_small by lia.
  rewrite rt_descend_le_spec.
  pose proof (rt_sorted (erm_tree m)) as Hs.
  assert (Hnd : NoDup (items m)).
  { clear -Hs. induction Hs as [|i l Hs IH Hf]; constructor; [|done].
    intros Hi. rewrite Forall_forall in Hf. specialize (Hf _ Hi). unfold key_lt in Hf. lia. }
  rewrite byte_range_loop; [|done|done|lia|lia| |].
  - cbn [app]. split; [apply NoDup_filter; rewrite reverse_Permutation; by apply NoDup_filter|].
    intros i. rewrite list_elem_of_filter, elem_of_reverse, list_elem_of_filter.
    split; [tauto|]. intros [Hi Hov]. repeat split; [apply Hov|apply Hov| |done].
    destruct (deref_lookup _ _ (ew_valid _ Hwf) Hi) as [_ Hoi].
    unfold overlaps in Hov. lia.
  - intros i. rewrite elem_of_reverse, list_elem_of_filter. tauto.
  - by apply StronglySorted_reverse, StronglySorted_filter.
Qed.

Lemma erm_Remove_spec m o len :
  erm_wf m -> 0 <= o -> 0 <= len -> o + len < 2 ^ 64 ->
  exists m', erm_Remove m o len = Ret m' /\ erm_wf m' /\
             forall k, erm_view m' k = view_remove (erm_view m) o len k.
Proof.
  intros Hwf Ho Hl Hlim. unfold erm_Remove.
  replace ((o <? 0) || (len <? 0)) with false by lia.
  destruct (Z.eqb_spec len 0) as [->|Hne].
  { exists m. split; [done|]. split; [done|]. intros k. unfold view_remove.
    by rewrite bool_decide_eq_false_2 by lia. }
  destruct (getByteRange_spec m o len) as [Hnd Hin]; [done|lia..|].
  rewrite u64_small by lia.
  destruct (remove_items_spec m (getByteRange m o len) o (o + len)) as (m' & E & Hwf' & Hview);
    [done|done|lia|lia|intros i; apply Hin|].
  exists m'. split; [done|]. split; [done|]. intros k. unfold view_remove.
  apply option_eq. intros v. rewrite Hview. case_bool_decide as Hk.
  - split; [|done]. intros [(rv & Hrv & Hinr & _)%erm_view_covered Hn]; [|done].
    destruct Hn. split; [done|].
    destruct (has_item _ _ (ew_valid _ Hwf) Hrv) as (i & Hi & _ & <-).
    exists i. split; [|done]. apply Hin. split; [done|].
    unfold overlaps, in_range in *. lia.
  - tauto.
Qed.

(** Adding an extent where the map is empty. *)
Lemma insert_extent_spec m rv :
  erm_wf m -> good_range rv -> (forall k, in_range k rv -> erm_view m k = None) ->
  exists m', insert_new m rv = Ret m' /\ erm_wf m' /\
             forall k, erm_view m' k = view_add (erm_view m) (Offset rv) (Length rv) (Value rv) k.
Proof.
  intros Hwf Hg Hn.
  assert (Hsep : forall rv', has m rv' -> rend rv' <= Offset rv \/ rend rv <= Offset rv').
  { intros rv' Hrv'. pose proof (ew_good _ Hwf _ Hrv').
    assert (Hno : forall k, in_range k rv -> ~ in_range k rv').
    { intros k Hk. apply (erm_view_None m k Hwf); [by apply Hn|done]. }
    pose proof (Hno (Offset rv)). pose proof (Hno (Offset rv')).
    unfold in_range, good_range, rend in *. lia. }
  destruct (insert_new_spec m rv) as (m' & E & Hv' & _ & Hhas).
  { apply Hwf. }
  { intros rv' Hrv'. specialize (Hsep _ Hrv'). pose proof (ew_good _ Hwf _ Hrv').
    unfold good_range, rend in *. lia. }
  assert (Hwf' : erm_wf m').
  { split; [done| |].
    - intros rv' [->|H]%Hhas; [done|by apply Hwf].
    - intros rv1 rv2 [->|H1]%Hhas [->|H2]%Hhas Hlt;
        [lia|specialize (Hsep _ H2); pose proof (ew_good _ Hwf _ H2)
        |specialize (Hsep _ H1); pose proof (ew_good _ Hwf _ H1)|by apply (ew_sep _ Hwf)];
        unfold good_range, rend in *; lia. }
  exists m'. split; [done|]. split; [done|]. intros k. unfold view_add.
  fold (rend rv). case_bool_decide as Hk.
  - apply erm_view_has; [done| |done]. apply Hhas. by left.
  - apply option_eq. intros v. rewrite !erm_view_covered by done. setoid_rewrite Hhas.
    split; [|naive_solver]. intros (rv' & [->|Hrv'] & Hin & Hval); [done|]. by exists rv'.
Qed.

Lemma erm_Add_spec m o len v :
  erm_wf m -> 0 <= o -> 0 <= len -> o + len < 2 ^ 64 ->
  exists m', erm_Add m o len v = Ret m' /\ erm_wf m' /\
             forall k, erm_view m' k = view_add (erm_view m) o len v k.
Proof.
  intros Hwf Ho Hl Hlim. unfold erm_Add.
  replace ((o <? 0) || (len <? 0)) with false by lia.
  destruct (Z.eqb_spec len 0) as [->|Hne].
  { exists m. split; [done|]. split; [done|]. intros k. unfold view_add.
    by rewrite bool_decide_eq_false_2 by lia. }
  destruct (erm_Remove_spec m o len) as (m1 & -> & Hwf1 & Hview1); [done..|]. cbn.
  destruct (insert_extent_spec m1 (MkRangeValue (MkRange o len) v)) as (m2 & E & Hwf2 & Hview2);
    [done|unfold good_range, rend; simpl; lia| |].
  { intros k Hk. rewrite Hview1. unfold view_remove.
    by rewrite bool_decide_eq_true_2 by (unfold in_range, rend in Hk; simpl in Hk; lia). }
  exists m2. split; [done|]. split; [done|]. intros k. rewrite Hview2.
  unfold view_add, view_remove in *. simpl. case_bool_decide; [done|].
  by rewrite Hview1, bool_decide_eq_false_2.
Qed.

(** *** Iteration *)

(** Where the traversal of [Iterate] starts. *)
Lemma iterate_first m start :
  erm_wf m -> 0 <= start ->
  (if 0 <? start
   then rt_descend_le (erm_tree m) start
          (fun i first => let ie := deref (erm_heap m) i in
                          (if Range_Contains ie start then Offset ie else first, false)) start
   else start) =
  match GetWithRange m start with Some rv => Offset rv | None => start end.
Proof.
  intros Hwf Hs. pose proof (GetWithRange_spec m start Hwf) as Hg.
  destruct (Z.ltb_spec 0 start).
  - unfold GetWithRange. rewrite !rt_descend_le_spec, !foldw_first.
    destruct (reverse _); [done|]. by destruct (Range_Contains _ _).
  - destruct (GetWithRange m start) as [rv|]; [|done]. destruct Hg as [Hh Hin].
    apply (ew_good _ Hwf) in Hh. unfold good_range, in_range in *. lia.
Qed.

(** The ranges [Iterate] coalesces: the extents from [start] on, the first cut
    at [start]. *)
Definition clip (start : Z) (rv : RangeValue V) : RangeValue V :=
  if Offset rv <? start
  then MkRangeValue (MkRange start (rend rv - start)) (Value rv) else rv.

Lemma iterate_item_clip m {S} (iter : RangeValue V -> S -> S * bool) start i st :
  erm_wf m -> i ∈ items m -> 0 <= start ->
  start < rend (deref (erm_heap m) i) -> (Offset (deref (erm_heap m) i) < start -> st.1 = zero) ->
  iterate_item (erm_heap m) start iter i st =
  coalesce_step iter (clip start (deref (erm_heap m) i)) st.
Proof.
  intros Hwf Hi Hs Hend Hz. pose proof (ew_good _ Hwf _ (has_deref _ _ (ew_valid _ Hwf) Hi)) as Hg.
  destruct st as [r s]. unfold iterate_item, coalesce_step, clip. simpl in Hz.
  destruct (Z.ltb_spec (Offset (deref (erm_heap m) i)) start) as [Hlt|Hge].
  - rewrite Hz by done. unfold good_range, rend in *. simpl.
    rewrite (u64_small (Offset (deref (erm_heap m) i) + Length (deref (erm_heap m) i))) by lia.
    rewrite (u64_small (_ - start)) by lia. change (0 +u 0) with 0.
    replace (start =? 0) with false by lia. by rewrite andb_false_r.
  - done.
Qed.

Lemma erm_Iterate_coalesce m {S} (iter : RangeValue V -> S -> S * bool) start s :
  erm_wf m -> 0 <= start ->
  erm_Iterate m start iter s =
  coalesce_flush iter
    (foldw (coalesce_step iter)
       (clip start <$> filter (fun rv => start < rend rv) (erm_ranges m)) (zero, s)).
Proof.
  intros Hwf Hs. pose proof (ew_valid _ Hwf) as Hv. unfold erm_Iterate.
  rewrite iterate_first, rt_ascend_ge_spec by done. 
  set (first := match GetWithRange m start with Some rv => Offset rv | None => start end).
  rewrite (filter_ext _ (fun i => start < rend (deref (erm_heap m) i))).
  2:{ intros i Hi. pose proof (has_deref _ _ Hv Hi) as Hh.
      destruct (deref_lookup _ _ Hv Hi) as [_ Ho]. pose proof (ew_good _ Hwf _ Hh) as Hg.
      pose proof (GetWithRange_spec m start Hwf) as Hget. subst first.
      destruct (GetWithRange m start) as [rv|].
      - destruct Hget as [Hrv Hin]. pose proof (ew_sep _ Hwf _ _ Hrv Hh).
        pose proof (ew_sep _ Hwf _ _ Hh Hrv). pose proof (has_inj m _ _ Hv Hh Hrv) as Hinj.
        destruct (decide (it_key i = Offset rv)) as [He|Hne].
        + rewrite Hinj by lia. unfold in_range in Hin. lia.
        + unfold in_range, good_range, rend in *. lia.
      - apply (erm_view_None m start Hwf) with (rv := deref (erm_heap m) i) in Hget; [|done].
        unfold in_range, good_range, rend in *. lia. }
  unfold erm_ranges. rewrite filter_fmap, <- list_fmap_compose, foldw_map.
  pose proof (StronglySorted_filter _ (fun i => start < rend (deref (erm_heap m) i)) _
    (rt_sorted (erm_tree m))) as Hsort.
  assert (Hin : forall i, i ∈ filter (fun i => start < rend (deref (erm_heap m) i)) (items m) ->
            i ∈ items m /\ start < rend (deref (erm_heap m) i)).
  { intros i [? ?]%list_elem_of_filter. done. }
  unfold compose in *. cbn beta in *.
  enough (foldw (iterate_item (erm_heap m) start iter)
            (filter (fun i => start < rend (deref (erm_heap m) i)) (items m)) (zero, s) =
          foldw (fun i => coalesce_step iter (clip start (deref (erm_heap m) i)))
            (filter (fun i => start < rend (deref (erm_heap m) i)) (items m)) (zero, s)) as ->
    by (by destruct (foldw _ _ _)).
  destruct (filter _ _) as [|i l]; [done|]. cbn [foldw].
  destruct (Hin i) as [Hi Hri]; [by left|].
  rewrite iterate_item_clip by done.
  destruct (coalesce_step _ _ _) as [st []]; [|done].
  apply foldw_ext. intros j st' Hj. destruct (Hin j) as [Hj' Hrj]; [by right|].
  apply iterate_item_clip; [done..|]. intros Hlt. exfalso.
  inversion Hsort as [|? ? _ Hf]; subst. rewrite Forall_forall in Hf. specialize (Hf _ Hj).
  pose proof (ew_sep _ Hwf _ _ (has_deref _ _ Hv Hi) (has_deref _ _ Hv Hj')) as Hsep.
  destruct (deref_lookup _ _ Hv Hi) as [_ Ho], (deref_lookup _ _ Hv Hj') as [_ Ho'].
  unfold key_lt in Hf. lia.
Qed.

Lemma clip_ranges_wf m start :
  erm_wf m -> 0 <= start ->
  ranges_wf (clip start <$> filter (fun rv => start < rend rv) (erm_ranges m)).
Proof.
  intros Hwf Hs. pose proof (erm_ranges_wf m Hwf) as [Hg Hsort]. split.
  - intros x (rv & -> & [Hr Hin]%list_elem_of_filter)%list_elem_of_fmap.
    specialize (Hg _ Hin). unfold clip, good_range, rend in *. case_match; simpl; lia.
  - rewrite <- list_fmap_compose. apply StronglySorted_fmap with (R := fun x y => before x y).
    + intros x y Hx Hy Hxy. apply list_elem_of_filter in Hx as [Hx _].
      unfold before, clip, rend in *. simpl. repeat case_match; simpl; lia.
    + apply StronglySorted_filter. clear -Hsort.
      induction (erm_ranges m) as [|x l IH]; [constructor|].
      inversion Hsort as [|? ? Hs' Hf]; subst. constructor; [by apply IH|].
      by rewrite Forall_fmap in Hf.
Qed.

Lemma clip_covered (l : list (RangeValue V)) start k v :
  start <= k ->
  covered (clip start <$> filter (fun rv => start < rend rv) l) k v <-> covered l k v.
Proof.
  intros Hk. unfold covered. setoid_rewrite list_elem_of_fmap.
  setoid_rewrite list_elem_of_filter.
  assert (Hclip : forall rv, in_range k (clip start rv) <-> in_range k rv).
  { intros rv. unfold clip, in_range, rend. case_match; simpl; lia. }
  assert (Hval : forall rv, Value (clip start rv) = Value rv).
  { intros rv. unfold clip. by case_match. }
  split.
  - intros (x & (rv & -> & _ & Hrv) & Hin & <-). exists rv. split; [done|]. split; [by apply Hclip|]. by rewrite Hval.
  - intros (rv & Hrv & Hin & <-). exists (clip start rv). rewrite Hclip, Hval.
    split; [|done]. exists rv. unfold in_range in Hin. repeat split; [lia|done].
Qed.

(** [Iterate] reports the maximal runs of the view from [start] on. *)
Lemma erm_Iterate_spec m start :
  erm_wf m -> 0 <= start ->
  exists l, runs_of (erm_view m) start l /\
    forall S (iter : RangeValue V -> S -> S * bool) s,
      erm_Iterate m start iter s = foldw iter l s.
Proof.
  intros Hwf Hs. eexists. split.
  - apply coalesce_runs; [by apply (clip_ranges_wf m start)| |].
    + intros x (rv & -> & _)%list_elem_of_fmap. unfold clip. case_match; simpl; lia.
    + intros k v Hk. unfold erm_view. rewrite rlookup_covered by (by apply erm_ranges_wf).
      by rewrite clip_covered.
  - intros S iter s. rewrite erm_Iterate_coalesce, coalesce_foldw_zero; [done| |done..].
    by apply clip_ranges_wf.
Qed.

Lemma erm_zero_wf : erm_wf erm_zero.
Proof.
  assert (Hn : forall rv, ~ has erm_zero rv).
  { intros rv (i & Hi & _). unfold erm_zero in Hi. simpl in Hi.
    rewrite rt_items_empty in Hi. set_solver. }
  split; [|naive_solver..]. intros i Hi. unfold erm_zero in Hi. simpl in Hi.
  rewrite rt_items_empty in Hi. set_solver.
Qed.

Lemma erm_zero_view k : erm_view erm_zero k = None.
Proof. unfold erm_view, erm_ranges, erm_zero. simpl. by rewrite rt_items_empty. Qed.

Lemma erm_view_range m k : erm_wf m -> is_Some (erm_view m k) -> 0 <= k < 2 ^ 64.
Proof.
  intros Hwf [v (rv & Hrv & Hin & _)%erm_view_covered]; [|done].
  apply (ew_good _ Hwf) in Hrv. unfold good_range, in_range in *. lia.
Qed.
End correctness.

(** ** The extent map implements the range-map interface *)
Section instance.
Context {V : Type} `{!EqDecision V} `{!Zero V}.
Context {T : Type} `{!RadixTree item it_key T} `{!RadixTreeLaws item it_key T}.

#[export] Instance extent_range_map : RangeMap V (ExtentRangeMap V T) := {
  rm_new := erm_zero;
  rm_Begin m := Ret (erm_Begin m);
  rm_End m := Ret (erm_End m);
  rm_Add := erm_Add;
  rm_Get m off := Ret (erm_Get m off);
  rm_NextKey m off := Ret (erm_NextKey m off);
  rm_NextEmpty m off := Ret (erm_NextEmpty m off);
  rm_Iterate S m start iter s := Ret (erm_Iterate m start iter s);
}.

#[export] Program Instance extent_range_map_laws : RangeMapLaws V (ExtentRangeMap V T) := {
  rm_limit := 2 ^ 64;
  rm_wf := erm_wf;
  rm_view := erm_view;
}.
Next Obligation. lia. Qed.
Next Obligation. intros m k. apply erm_view_range. Qed.
Next Obligation. apply erm_zero_wf. Qed.
Next Obligation. intros k. apply erm_zero_view. Qed.
Next Obligation. intros m Hwf. eexists. split; [done|]. by apply erm_Begin_spec. Qed.
Next Obligation. intros m Hwf. eexists. split; [done|]. by apply erm_End_spec. Qed.
Next Obligation. intros m off len v Hwf Ho Hl Hlim. by apply erm_Add_spec. Qed.
Next Obligation. intros m off Hwf _. cbn. by rewrite erm_Get_spec. Qed.
Next Obligation. intros m off Hwf _. eexists. split; [done|]. by apply erm_NextKey_spec. Qed.
Next Obligation. intros m off Hwf _. eexists. split; [done|]. by apply erm_NextEmpty_spec. Qed.
Next Obligation.
  intros m start Hwf Hs. destruct (erm_Iterate_spec m start Hwf) as (l & Hl & Hit); [lia|].
  exists l. split; [done|]. intros S iter s. cbn. by rewrite Hit.
Qed.
End instance.
