(* ===== verification/BitmapRangeMap.v ===== *)
(** * The bitmap range map

    [internal/rangemap/bitmap_range_map.go]: a range map that keeps the values
    of 256 consecutive offsets in a leaf, the leaves in a map keyed by
    [offset >> 8], and two bit sets of the leaves that are not empty and of the
    leaves that are full. Reading a nil Go map is reading an empty one and
    [init()] replaces the one by the other, so [entries] is a [gmap]. *)
From S2P Require Import Prelude Bits RangeMap.
Local Open Scope Z_scope.

Section bitmap_range_map.
Context {V : Type} `{!EqDecision V} `{!Zero V}.
Context {B : Type} `{!Bitmap256 B} {BS : Type} `{!BitSet BS}.

Record bitmapRangeMapLeaf := MkLeaf { bm : B; leaf_items : list V }.

Definition leaf_empty (l : bitmapRangeMapLeaf) : bool := bm_empty (bm l).
Definition leaf_full (l : bitmapRangeMapLeaf) : bool := bm_full (bm l).
Definition leaf_has (l : bitmapRangeMapLeaf) (i : Z) : bool := bm_get (bm l) (u8 i).

(** [l.items[i]]: the indices are below 256, the length of the array. *)
Definition leaf_item (l : bitmapRangeMapLeaf) (i : Z) : V :=
  default zero (leaf_items l !! Z.to_nat i).

(** The loop of [insert], from index [i] for [n] more indices. *)
Fixpoint leaf_insert_loop (l : bitmapRangeMapLeaf) (i : Z) (n : nat) (value : V) :
    bitmapRangeMapLeaf :=
  match n with
  | O => l
  | S n' => leaf_insert_loop
              (MkLeaf (bm_set (bm l) (u8 i)) (<[Z.to_nat i := value]> (leaf_items l)))
              (i + 1) n' value
  end.
Definition leaf_insert (l : bitmapRangeMapLeaf) (start length : Z) (value : V) :
    bitmapRangeMapLeaf := leaf_insert_loop l start (Z.to_nat length) value.

Record BitmapRangeMap := MkBitmapRangeMap {
  entries : gmap Z bitmapRangeMapLeaf;
  fullLeafIndex : BS;
  partLeafIndex : BS;
}.

Definition NewBitmapRangeMap : BitmapRangeMap := MkBitmapRangeMap ∅ bs_zero bs_zero.

Definition getLeaf (m : BitmapRangeMap) (leafIndex : Z) : option bitmapRangeMapLeaf :=
  entries m !! leafIndex.

(** A new leaf is stored at once; the caller then changes it in place. *)
Definition getOrCreateLeaf (m : BitmapRangeMap) (leafIndex : Z) :
    bitmapRangeMapLeaf * BitmapRangeMap :=
  match entries m !! leafIndex with
  | Some l => (l, m)
  | None => let l := MkLeaf bm_zero (replicate 256 zero) in
            (l, MkBitmapRangeMap (<[leafIndex := l]> (entries m))
                  (fullLeafIndex m) (partLeafIndex m))
  end.

Definition brm_Begin (m : BitmapRangeMap) : outcome (option Z) :=
  match bs_next_set (partLeafIndex m) 0 with
  | None => Ret None
  | Some firstLeafIndex =>
      leaf ← of_option (getLeaf m firstLeafIndex);
      let ffs := bm_find_first_set (bm leaf) in
      if ffs <? 256 then Ret (Some (ffs +u u64 (Z.shiftl firstLeafIndex 8))) else Panic
  end.

(** The first loop of [End]: the last index at or below [i] whose bit is set,
    or -1. [n] bounds the number of steps. *)
Fixpoint last_part_leaf (m : BitmapRangeMap) (i : Z) (n : nat) : Z :=
  match n with
  | O => i
  | S n' => if (0 <=? i) && negb (bs_test (partLeafIndex m) i)
            then last_part_leaf m (i - 1) n' else i
  end.

(** The second loop of [End], from index [i = n - 1] down to 0. *)
Fixpoint last_in_leaf (leaf : bitmapRangeMapLeaf) (n : nat) : option Z :=
  match n with
  | O => None
  | S n' => if leaf_has leaf (Z.of_nat n') then Some (Z.of_nat n') else last_in_leaf leaf n'
  end.

Definition brm_End (m : BitmapRangeMap) : outcome Z :=
  let len := bs_len (partLeafIndex m) in
  let endLeafIndex := last_part_leaf m (len - 1) (Z.to_nat len) in
  if endLeafIndex <? 0 then Ret 0
  else
    leaf ← of_option (getLeaf m endLeafIndex);
    match last_in_leaf leaf 256 with
    | Some i => Ret (i +u u64 (Z.shiftl endLeafIndex 8) +u 1)
    | None => Panic
    end.

(** One iteration of the loop of [Add]: fills the part of the range that lies
    in the leaf of [offset], and returns the offset after it. *)
Definition add_leaf (m : BitmapRangeMap) (offset end_ : Z) (value : V) : Z * BitmapRangeMap :=
  let leafIndex := Z.shiftr offset 8 in
  let '(leaf, m1) := getOrCreateLeaf m leafIndex in
  let leafCount0 := 256 -u Z.land offset 255 in
  let leafCount := if end_ -u offset <? leafCount0 then end_ -u offset else leafCount0 in
  let part := if leaf_empty leaf then bs_set (partLeafIndex m1) leafIndex
              else partLeafIndex m1 in
  let leaf' := leaf_insert leaf (Z.land offset 255) leafCount value in
  let full := if leaf_full leaf' then bs_set (fullLeafIndex m1) leafIndex
              else fullLeafIndex m1 in
  (offset +u leafCount,
   MkBitmapRangeMap (<[leafIndex := leaf']> (entries m1)) full part).

Fixpoint add_loop (fuel : nat) (m : BitmapRangeMap) (offset end_ : Z) (value : V) :
    outcome BitmapRangeMap :=
  if offset <? end_ then
    match fuel with
    | O => OutOfFuel
    | S fuel' => let '(offset', m') := add_leaf m offset end_ value in
                 add_loop fuel' m' offset' end_ value
    end
  else Ret m.

(** Each iteration but the first starts at a leaf boundary. *)
Definition brm_Add (m : BitmapRangeMap) (offset length : Z) (value : V) :
    outcome BitmapRangeMap :=
  let end_ := offset +u length in
  add_loop (Z.to_nat (length / 256 + 2)) m offset end_ value.

Definition brm_Get (m : BitmapRangeMap) (offset : Z) : option V :=
  match getLeaf m (Z.shiftr offset 8) with
  | None => None
  | Some leaf => if leaf_has leaf (Z.land offset 255)
                 then Some (leaf_item leaf (u8 offset)) else None
  end.

(** [off & ^uint64(0xFF)] *)
Definition leaf_base (off : Z) : Z := Z.land off (2 ^ 64 - 1 - 255).

Definition brm_NextKey (m : BitmapRangeMap) (off : Z) : outcome (option Z) :=
  let rest :=
    match bs_next_set (partLeafIndex m) (Z.shiftr off 8 +u 1) with
    | None => Ret None
    | Some nextPartial =>
        leaf ← of_option (entries m !! nextPartial);
        Ret (Some (u64 (Z.shiftl nextPartial 8) +u bm_find_first_set (bm leaf)))
    end in
  match getLeaf m (Z.shiftr off 8) with
  | Some leaf =>
      let next := bm_find_next_set (bm leaf) (u8 off) in
      if next <? 256 then Ret (Some (leaf_base off +u next)) else rest
  | None => rest
  end.

Definition brm_NextEmpty (m : BitmapRangeMap) (off : Z) : outcome Z :=
  match getLeaf m (Z.shiftr off 8) with
  | None => Ret off
  | Some leaf =>
      let next := bm_find_next_clear (bm leaf) (u8 off) in
      if next <? 256 then Ret (leaf_base off +u next)
      else
        let clearStart := Z.shiftr off 8 +u 1 in
        let nextNonFull :=
          match bs_next_clear (fullLeafIndex m) clearStart with
          | Some i => i
          | None => if clearStart <? bs_len (fullLeafIndex m)
                    then bs_len (fullLeafIndex m) else clearStart
          end in
        let nextOff := u64 (Z.shiftl nextNonFull 8) in
        match getLeaf m nextNonFull with
        | None => Ret nextOff
        | Some leaf' => if leaf_full leaf' then Panic
                        else Ret (nextOff +u bm_find_first_clear (bm leaf'))
        end
  end.

(** The inner loop of [Iterate] over the indices [j..255] of a leaf: the
    variables are the offset, the range accumulated and the state of [iter];
    the flag is false when [iter] stopped the iteration. *)
Fixpoint iterate_leaf {S} (leaf : bitmapRangeMapLeaf) (iter : RangeValue V -> S -> S * bool)
    (j : Z) (n : nat) (off : Z) (r : RangeValue V) (s : S) : Z * RangeValue V * S * bool :=
  match n with
  | O => (off, r, s, true)
  | Datatypes.S n' =>
      if negb (leaf_has leaf j) then iterate_leaf leaf iter (j + 1) n' (off +u 1) r s
      else
        let v := leaf_item leaf j in
        if bool_decide (Value r = v) && (Offset r +u Length r =? off) then
          iterate_leaf leaf iter (j + 1) n' (off +u 1)
            (MkRangeValue (MkRange (Offset r) (Length r +u 1)) (Value r)) s
        else
          if 0 <? Length r then
            let '(s', c) := iter r s in
            if c then iterate_leaf leaf iter (j + 1) n' (off +u 1)
                        (MkRangeValue (MkRange off 1) v) s'
            else (off, MkRangeValue (MkRange (Offset r) 0) (Value r), s', false)
          else iterate_leaf leaf iter (j + 1) n' (off +u 1)
                 (MkRangeValue (MkRange off 1) v) s
  end.

Fixpoint iterate_loop {S} (fuel : nat) (m : BitmapRangeMap)
    (iter : RangeValue V -> S -> S * bool) (off : Z) (r : RangeValue V) (s : S) : outcome S :=
  match fuel with
  | O => OutOfFuel
  | Datatypes.S fuel' =>
      match getLeaf m (Z.shiftr off 8) with
      | None =>
          next ← brm_NextKey m off;
          match next with
          | None => Ret (if 0 <? Length r then (iter r s).1 else s)
          | Some off' => iterate_loop fuel' m iter off' r s
          end
      | Some leaf =>
          let j := Z.land off 255 in
          let '(off', r', s', c) := iterate_leaf leaf iter j (Z.to_nat (256 - j)) off r s in
          if c then iterate_loop fuel' m iter off' r' s' else Ret s'
      end
  end.

(** Each leaf is visited once, after at most one jump over missing leaves. *)
Definition brm_Iterate {S} (m : BitmapRangeMap) (start : Z)
    (iter : RangeValue V -> S -> S * bool) (s : S) : outcome S :=
  iterate_loop (2 * size (entries m) + 1) m iter start zero s.
End bitmap_range_map.
Arguments bitmapRangeMapLeaf V B : clear implicits.
Arguments BitmapRangeMap V B BS : clear implicits.

(** ** Offsets, leaves and indices *)
Lemma shiftr_8 k : Z.shiftr k 8 = k / 256.
Proof. by rewrite Z.shiftr_div_pow2 by lia. Qed.
Lemma shiftl_8 k : Z.shiftl k 8 = k * 256.
Proof. by rewrite Z.shiftl_mul_pow2 by lia. Qed.
Lemma land_255 k : Z.land k 255 = k mod 256.
Proof. change 255 with (Z.ones 8). by rewrite Z.land_ones by lia. Qed.
Lemma leaf_base_eq k : 0 <= k < 2 ^ 64 -> leaf_base k = k / 256 * 256.
Proof.
  intros Hk. unfold leaf_base. rewrite <- shiftr_8, <- shiftl_8.
  apply Z.bits_inj'. intros n Hn. rewrite Z.land_spec.
  destruct (decide (n < 8)) as [Hlt|Hge].
  - rewrite Z.shiftl_spec_low by lia. apply andb_false_iff. right.
    rewrite <- (Z.mod_pow2_bits_low _ 8) by lia.
    change ((2 ^ 64 - 1 - 255) mod 2 ^ 8) with 0. apply Z.bits_0.
  - rewrite Z.shiftl_spec, Z.shiftr_spec by lia. replace (n - 8 + 8) with n by lia.
    destruct (decide (n < 64)) as [Hlt|Hge'].
    + assert (Z.testbit (2 ^ 64 - 1 - 255) n = true) as ->; [|apply andb_true_r].
      change (2 ^ 64 - 1 - 255) with (Z.shiftl (Z.ones 56) 8).
      rewrite Z.shiftl_spec by lia. apply Z.ones_spec_low. lia.
    + rewrite <- (Z.mod_small k (2 ^ 64)) by lia.
      rewrite Z.mod_pow2_bits_high by lia. done.
Qed.

(** Arithmetic with leaf numbers [k / 256] and indices [k mod 256]. *)
Ltac leaf_lia := Z.to_euclidean_division_equations; lia.

Section correctness.
Context {V : Type} `{!EqDecision V} `{!Zero V}.
Context {B : Type} `{!Bitmap256 B} `{!Bitmap256Laws B}.
Context {BS : Type} `{!BitSet BS} `{!BitSetLaws BS}.
Implicit Types (m : BitmapRangeMap V B BS) (l : bitmapRangeMapLeaf V B) (k : Z).

(** The values of a leaf. *)
Definition leaf_view l (j : Z) : option V :=
  if leaf_has l j then Some (leaf_item l j) else None.

Definition brm_view m k : option V :=
  match entries m !! (k / 256) with
  | Some l => leaf_view l (k mod 256)
  | None => None
  end.

(** The representation invariant: the leaves are not empty, the bit sets
    describe them, and no offset is in the last leaf of the [uint64] range. *)
Record brm_wf m : Prop := {
  bw_leaf i l :
    entries m !! i = Some l ->
    0 <= i < 2 ^ 56 - 1 /\ length (leaf_items l) = 256%nat /\ leaf_empty l = false;
  bw_part i : bs_test (partLeafIndex m) i = true <-> is_Some (entries m !! i);
  bw_full i :
    bs_test (fullLeafIndex m) i = true <->
    exists l, entries m !! i = Some l /\ leaf_full l = true;
}.

(** *** Leaves *)
Lemma leaf_insert_loop_view l start (c : nat) v :
  0 <= start -> start + Z.of_nat c <= 256 -> length (leaf_items l) = 256%nat ->
  length (leaf_items (leaf_insert_loop l start c v)) = 256%nat /\
  forall j, 0 <= j < 256 ->
    leaf_view (leaf_insert_loop l start c v) j =
    if bool_decide (start <= j < start + Z.of_nat c) then Some v else leaf_view l j.
Proof.
  revert l start.
  induction c as [|c IH]; intros l start Hs Hle Hlen; cbn [leaf_insert_loop].
  { split; [done|]. intros j Hj. by rewrite bool_decide_eq_false_2 by lia. }
  destruct (IH (MkLeaf (bm_set (bm l) (u8 start)) (<[Z.to_nat start := v]> (leaf_items l)))
    (start + 1)) as [Hlen' Hview]; [lia|lia|by simpl; rewrite length_insert|].
  split; [done|]. intros j Hj. rewrite Hview by done. unfold leaf_view, leaf_has, leaf_item.
  simpl. rewrite !u8_small by lia. rewrite bm_get_set by lia.
  repeat case_bool_decide; simpl; try done; try lia.
  - subst. by rewrite list_lookup_insert_eq by lia.
  - by rewrite list_lookup_insert_ne by lia.
Qed.

Lemma leaf_insert_view l start n v :
  0 <= start -> 0 <= n -> start + n <= 256 -> length (leaf_items l) = 256%nat ->
  length (leaf_items (leaf_insert l start n v)) = 256%nat /\
  forall j, 0 <= j < 256 ->
    leaf_view (leaf_insert l start n v) j =
    if bool_decide (start <= j < start + n) then Some v else leaf_view l j.
Proof.
  intros Hs Hn Hle Hlen.
  destruct (leaf_insert_loop_view l start (Z.to_nat n) v) as [? Hv]; [lia..|done|].
  split; [done|]. intros j Hj. unfold leaf_insert. rewrite Hv by done.
  by rewrite Z2Nat.id.
Qed.

Lemma leaf_view_zero j : 0 <= j < 256 -> leaf_view (MkLeaf bm_zero (replicate 256 zero)) j = None.
Proof. intros Hj. unfold leaf_view, leaf_has. simpl. by rewrite u8_small, bm_get_zero. Qed.

Lemma leaf_view_has l j : is_Some (leaf_view l j) <-> leaf_has l j = true.
Proof. unfold leaf_view. destruct (leaf_has l j); naive_solver. Qed.

Lemma leaf_has_get l j : 0 <= j < 256 -> leaf_has l j = bm_get (bm l) j.
Proof. intros Hj. unfold leaf_has. by rewrite u8_small. Qed.

Lemma leaf_nonempty l : leaf_empty l = false <-> exists j, 0 <= j < 256 /\ leaf_has l j = true.
Proof.
  unfold leaf_empty. rewrite <- not_true_iff_false, bm_empty_spec. split.
  - intros Hne. destruct (bm_find_first_set_spec (bm l)) as [(Hr & Hg & _)|[_ Hf]]; [|done].
    eexists. split; [done|]. by rewrite leaf_has_get.
  - intros (j & Hj & Hh) Hf. rewrite leaf_has_get, Hf in Hh by done. done.
Qed.

Lemma leaf_full_spec l : leaf_full l = true <-> forall j, 0 <= j < 256 -> leaf_has l j = true.
Proof.
  unfold leaf_full. rewrite bm_full_spec. split; intros Hf j Hj.
  - rewrite leaf_has_get by done. auto.
  - rewrite <- leaf_has_get by done. auto.
Qed.

(** *** Reading the view through a leaf *)
Lemma brm_view_leaf m i l j :
  entries m !! i = Some l -> 0 <= j < 256 -> brm_view m (i * 256 + j) = leaf_view l j.
Proof.
  intros Hl Hj. unfold brm_view.
  replace ((i * 256 + j) / 256) with i by leaf_lia.
  replace ((i * 256 + j) mod 256) with j by leaf_lia. by rewrite Hl.
Qed.

Lemma brm_view_Some m k :
  is_Some (brm_view m k) <-> exists l, entries m !! (k / 256) = Some l /\ leaf_has l (k mod 256) = true.
Proof.
  unfold brm_view. destruct (entries m !! (k / 256)) as [l|].
  - rewrite leaf_view_has. naive_solver.
  - split; [by intros [? ?]|naive_solver].
Qed.

Lemma brm_view_not_part m k :
  brm_wf m -> bs_test (partLeafIndex m) (k / 256) = false -> brm_view m k = None.
Proof.
  intros Hwf Hp. unfold brm_view. destruct (entries m !! (k / 256)) eqn:E; [|done].
  assert (bs_test (partLeafIndex m) (k / 256) = true) as Ht; [|congruence].
  apply (bw_part _ Hwf). by rewrite E.
Qed.

Lemma brm_view_range m k : brm_wf m -> is_Some (brm_view m k) -> 0 <= k < 2 ^ 64 - 256.
Proof.
  intros Hwf (l & Hl & _)%brm_view_Some. apply (bw_leaf _ Hwf) in Hl as [Hi _].
  leaf_lia.
Qed.

Lemma brm_Get_spec m k : 0 <= k -> brm_Get m k = brm_view m k.
Proof.
  intros Hk. unfold brm_Get, brm_view, getLeaf, leaf_view.
  rewrite shiftr_8, land_255. done.
Qed.

(** *** Queries *)

(** The first offset of a leaf that is a key. *)
Lemma first_key_of_leaf m i l :
  brm_wf m -> entries m !! i = Some l ->
  let r := bm_find_first_set (bm l) in
  0 <= r < 256 /\ is_Some (brm_view m (i * 256 + r)) /\
  forall k, i * 256 <= k < i * 256 + r -> brm_view m k = None.
Proof.
  intros Hwf Hl r. destruct (bw_leaf _ Hwf _ _ Hl) as (Hi & _ & Hne).
  apply leaf_nonempty in Hne as (j & Hj & Hh). rewrite leaf_has_get in Hh by done.
  destruct (bm_find_first_set_spec (bm l)) as [(Hr & Hg & Hlow)|[_ Hf]];
    [|rewrite Hf in Hh by done; done]. fold r in Hr, Hg, Hlow.
  split; [done|]. split.
  - rewrite (brm_view_leaf _ _ l) by done. apply leaf_view_has. by rewrite leaf_has_get.
  - intros k Hk. replace k with (i * 256 + (k - i * 256)) by lia.
    rewrite (brm_view_leaf _ _ l) by (done || lia). unfold leaf_view.
    rewrite leaf_has_get, Hlow by lia. done.
Qed.

(** The search of [NextKey] in the leaves after the one of [off]. *)
Lemma next_key_later m off :
  brm_wf m -> 0 <= off < 2 ^ 64 ->
  (forall k, off <= k < (off / 256 + 1) * 256 -> brm_view m k = None) ->
  exists r,
    match bs_next_set (partLeafIndex m) (off / 256 +u 1) with
    | None => Ret None
    | Some nextPartial =>
        leaf ← of_option (entries m !! nextPartial);
        Ret (Some (u64 (Z.shiftl nextPartial 8) +u bm_find_first_set (bm leaf)))
    end = Ret r /\ next_key_spec (brm_view m) off r.
Proof.
  intros Hwf Hoff Hn. rewrite u64_small by leaf_lia.
  destruct (bs_next_set _ _) as [i|] eqn:E.
  - apply bs_next_set_Some in E as (Hi & Ht & Hlow); [|leaf_lia].
    apply (bw_part _ Hwf) in Ht as [l Hl]. rewrite Hl. cbn.
    destruct (bw_leaf _ Hwf _ _ Hl) as (Hir & _).
    destruct (first_key_of_leaf m i l) as (Hr & Hs & Hlow'); [done..|].
    rewrite shiftl_8. rewrite (u64_small (i * 256)), u64_small by lia.
    eexists. split; [done|]. simpl. split; [leaf_lia|]. split; [done|].
    intros k Hk. destruct (decide (k < (off / 256 + 1) * 256)); [apply Hn; lia|].
    destruct (decide (i * 256 <= k)); [apply Hlow'; lia|].
    apply brm_view_not_part; [done|]. apply Hlow. leaf_lia.
  - eexists. split; [done|]. simpl. intros k Hk.
    destruct (decide (k < (off / 256 + 1) * 256)); [apply Hn; lia|].
    apply brm_view_not_part; [done|].
    eapply bs_next_set_None; [|exact E|]; leaf_lia.
Qed.

Lemma brm_NextKey_spec m off :
  brm_wf m -> 0 <= off < 2 ^ 64 ->
  exists r, brm_NextKey m off = Ret r /\ next_key_spec (brm_view m) off r.
Proof.
  intros Hwf Hoff. unfold brm_NextKey, getLeaf. rewrite shiftr_8.
  destruct (entries m !! (off / 256)) as [l|] eqn:Hl.
  - assert (Hu : u8 off = off mod 256) by done. rewrite Hu.
    pose proof (bm_find_next_set_spec (bm l) (off mod 256) ltac:(leaf_lia)) as Hspec.
    generalize dependent (bm_find_next_set (bm l) (off mod 256)). intros r Hspec.
    destruct Hspec as [(Hr & Hg & Hlow)|[Hr Hlow]].
    + replace (_ <? 256) with true by lia. eexists. split; [done|].
      rewrite leaf_base_eq, u64_small by leaf_lia. simpl. split; [leaf_lia|]. split.
      * rewrite (brm_view_leaf _ _ l) by (done || leaf_lia).
        apply leaf_view_has. rewrite leaf_has_get by leaf_lia. done.
      * intros k Hk. replace k with (off / 256 * 256 + (k - off / 256 * 256)) by lia.
        rewrite (brm_view_leaf _ _ l) by (done || leaf_lia). unfold leaf_view.
        rewrite leaf_has_get, Hlow by leaf_lia. done.
    + replace (_ <? 256) with false by lia. apply next_key_later; [done..|].
      intros k Hk. replace k with (off / 256 * 256 + (k - off / 256 * 256)) by lia.
      rewrite (brm_view_leaf _ _ l) by (done || leaf_lia). unfold leaf_view.
      rewrite leaf_has_get, Hlow by leaf_lia. done.
  - apply next_key_later; [done..|]. intros k Hk. unfold brm_view.
    replace (k / 256) with (off / 256) by leaf_lia. by rewrite Hl.
Qed.

Lemma full_leaf_view m i k :
  brm_wf m -> bs_test (fullLeafIndex m) i = true -> k / 256 = i -> is_Some (brm_view m k).
Proof.
  intros Hwf (l & Hl & Hf)%(bw_full _ Hwf) Hk. apply brm_view_Some. exists l.
  rewrite Hk. split; [done|]. apply (proj1 (leaf_full_spec l) Hf). leaf_lia.
Qed.

(** The leaf [NextEmpty] continues in is the first that is not full. *)
Lemma next_non_full m c :
  brm_wf m -> 0 <= c ->
  let n := match bs_next_clear (fullLeafIndex m) c with
           | Some i => i
           | None => if c <? bs_len (fullLeafIndex m) then bs_len (fullLeafIndex m) else c
           end in
  c <= n /\ bs_test (fullLeafIndex m) n = false /\
  forall i, c <= i < n -> bs_test (fullLeafIndex m) i = true.
Proof.
  intros Hwf Hc n. subst n. destruct (bs_next_clear _ _) as [i|] eqn:E.
  - by apply bs_next_clear_Some in E.
  - pose proof (bs_next_clear_None _ _ Hc E) as Hset.
    assert (Hout : forall i, bs_len (fullLeafIndex m) <= i -> bs_test (fullLeafIndex m) i = false).
    { intros i Hi. apply not_true_iff_false. intros Ht%bs_test_len. lia. }
    destruct (Z.ltb_spec c (bs_len (fullLeafIndex m))).
    + repeat split; [lia|apply Hout; lia|]. intros i Hi. apply Hset. lia.
    + repeat split; [lia|apply Hout; lia|]. intros; lia.
Qed.

(** The search of [NextEmpty] in the first leaf that is not full. *)
Lemma next_empty_later m off n :
  brm_wf m -> 0 <= off -> 0 <= off / 256 < 2 ^ 56 - 1 ->
  (forall k, off <= k < (off / 256 + 1) * 256 -> is_Some (brm_view m k)) ->
  off / 256 + 1 <= n -> bs_test (fullLeafIndex m) n = false ->
  (forall i, off / 256 + 1 <= i < n -> bs_test (fullLeafIndex m) i = true) ->
  exists r,
    match entries m !! n with
    | None => Ret (u64 (Z.shiftl n 8))
    | Some leaf' => if leaf_full leaf' then Panic
                    else Ret (u64 (Z.shiftl n 8) +u bm_find_first_clear (bm leaf'))
    end = Ret r /\ next_empty_spec (brm_view m) off r.
Proof.
  intros Hwf Hoff Hir Hcur Hn Hclear Hfull. rewrite shiftl_8.
  assert (Hnr : n <= 2 ^ 56 - 1).
  { destruct (decide (n = off / 256 + 1)); [lia|].
    destruct (proj1 (bw_full _ Hwf (n - 1))) as (l' & Hl' & _); [apply Hfull; lia|].
    apply (bw_leaf _ Hwf) in Hl' as [? _]. lia. }
  rewrite (u64_small (n * 256)) by leaf_lia.
  assert (Hbefore : forall k, off <= k < n * 256 -> is_Some (brm_view m k)).
  { intros k Hk. destruct (decide (k < (off / 256 + 1) * 256)); [apply Hcur; lia|].
    apply (full_leaf_view m (k / 256)); [done| |done]. apply Hfull. leaf_lia. }
  destruct (entries m !! n) as [l'|] eqn:Hl'.
  - assert (Hnf : leaf_full l' = false).
    { apply not_true_iff_false. intros Hf.
      assert (bs_test (fullLeafIndex m) n = true); [|congruence].
      apply (bw_full _ Hwf). eauto. }
    destruct (bw_leaf _ Hwf _ _ Hl') as [? _].
    rewrite Hnf. eexists. split; [done|].
    apply not_true_iff_false in Hnf. rewrite leaf_full_spec in Hnf.
    destruct (bm_find_first_clear_spec (bm l')) as [(Hr' & Hg' & Hlow')|[_ Hlow']].
    + rewrite u64_small by leaf_lia. split; [leaf_lia|]. split.
      * rewrite (brm_view_leaf _ _ l') by done. unfold leaf_view.
        rewrite leaf_has_get by done. by apply negb_true_iff in Hg' as ->.
      * intros k Hk. destruct (decide (k < n * 256)); [apply Hbefore; lia|].
        replace k with (n * 256 + (k - n * 256)) by lia.
        rewrite (brm_view_leaf _ _ l') by (done || leaf_lia). apply leaf_view_has.
        rewrite leaf_has_get by leaf_lia. apply negb_false_iff, Hlow'. lia.
    + destruct Hnf. intros j Hj. rewrite leaf_has_get by done.
      by apply negb_false_iff, Hlow'.
  - eexists. split; [done|]. split; [leaf_lia|]. split; [|done].
    unfold brm_view. replace (n * 256 / 256) with n by leaf_lia. by rewrite Hl'.
Qed.

Lemma brm_NextEmpty_spec m off :
  brm_wf m -> 0 <= off < 2 ^ 64 ->
  exists r, brm_NextEmpty m off = Ret r /\ next_empty_spec (brm_view m) off r.
Proof.
  intros Hwf Hoff. unfold brm_NextEmpty, getLeaf. rewrite shiftr_8.
  destruct (entries m !! (off / 256)) as [l|] eqn:Hl.
  2:{ eexists. split; [done|]. repeat split; [lia| |intros; lia].
      unfold brm_view. by rewrite Hl. }
  assert (Hu : u8 off = off mod 256) by done. rewrite Hu.
  destruct (bw_leaf _ Hwf _ _ Hl) as (Hir & _).
  pose proof (bm_find_next_clear_spec (bm l) (off mod 256) ltac:(leaf_lia)) as Hspec.
  generalize dependent (bm_find_next_clear (bm l) (off mod 256)). intros r Hspec.
  destruct Hspec as [(Hr & Hg & Hlow)|[Hr Hlow]].
  - replace (_ <? 256) with true by lia. eexists. split; [done|].
    rewrite leaf_base_eq, u64_small by leaf_lia. split; [leaf_lia|]. split.
    + rewrite (brm_view_leaf _ _ l) by (done || leaf_lia). unfold leaf_view.
      rewrite leaf_has_get by leaf_lia. by apply negb_true_iff in Hg as ->.
    + intros k Hk. replace k with (off / 256 * 256 + (k - off / 256 * 256)) by lia.
      rewrite (brm_view_leaf _ _ l) by (done || leaf_lia). apply leaf_view_has.
      rewrite leaf_has_get by leaf_lia. apply negb_false_iff, Hlow. leaf_lia.
  - replace (_ <? 256) with false by lia. rewrite u64_small by leaf_lia.
    assert (Hcur : forall k, off <= k < (off / 256 + 1) * 256 -> is_Some (brm_view m k)).
    { intros k Hk. replace k with (off / 256 * 256 + (k - off / 256 * 256)) by lia.
      rewrite (brm_view_leaf _ _ l) by (done || leaf_lia). apply leaf_view_has.
      rewrite leaf_has_get by leaf_lia. apply negb_false_iff, Hlow. leaf_lia. }
    destruct (next_non_full m (off / 256 + 1)) as (Hn & Hclear & Hfull); [done|leaf_lia|].
    match type of Hclear with bs_test _ ?t = _ => generalize dependent t end.
    intros n Hn Hclear Hfull. apply next_empty_later; [done|lia|done..].
Qed.

Lemma brm_Begin_spec m :
  brm_wf m -> exists r, brm_Begin m = Ret r /\ next_key_spec (brm_view m) 0 r.
Proof.
  intros Hwf. unfold brm_Begin, getLeaf. destruct (bs_next_set _ _) as [i|] eqn:E.
  - apply bs_next_set_Some in E as (Hi & Ht & Hlow); [|lia].
    apply (bw_part _ Hwf) in Ht as [l Hl]. rewrite Hl. cbn.
    destruct (bw_leaf _ Hwf _ _ Hl) as (Hir & _).
    destruct (first_key_of_leaf m i l) as (Hr & Hs & Hlow'); [done..|].
    replace (_ <? 256) with true by lia. rewrite shiftl_8, (u64_small (i * 256)) by lia.
    rewrite u64_small by lia. eexists. split; [done|]. simpl. rewrite Z.add_comm.
    split; [lia|]. split; [done|]. intros k Hk.
    destruct (decide (i * 256 <= k)); [apply Hlow'; lia|].
    apply brm_view_not_part; [done|]. apply Hlow. leaf_lia.
  - eexists. split; [done|]. simpl. intros k Hk. apply brm_view_not_part; [done|].
    eapply bs_next_set_None; [|exact E|]; leaf_lia.
Qed.

Lemma last_part_leaf_spec m i n :
  brm_wf m -> -1 <= i -> i < Z.of_nat n -> (forall j, i < j -> bs_test (partLeafIndex m) j = false) ->
  let r := last_part_leaf m i n in
  -1 <= r /\ (0 <= r -> bs_test (partLeafIndex m) r = true) /\
  forall j, r < j -> bs_test (partLeafIndex m) j = false.
Proof.
  intros Hwf. revert i. induction n as [|n IH]; intros i Hi Hn Hj; cbn [last_part_leaf].
  { split; [lia|]. split; [lia|done]. }
  destruct (Z.leb_spec 0 i); simpl; [|split; [lia|]; split; [lia|done]].
  destruct (bs_test (partLeafIndex m) i) eqn:Ht; simpl.
  - split; [lia|]. done.
  - apply IH; [lia|lia|]. intros j Hji.
    destruct (decide (j = i)) as [->|]; [done|]. apply Hj. lia.
Qed.

Lemma last_in_leaf_spec l n :
  (n <= 256)%nat ->
  match last_in_leaf l n with
  | Some i => 0 <= i < Z.of_nat n /\ leaf_has l i = true /\
              forall j, i < j < Z.of_nat n -> leaf_has l j = false
  | None => forall j, 0 <= j < Z.of_nat n -> leaf_has l j = false
  end.
Proof.
  induction n as [|n IH]; intros Hn; cbn [last_in_leaf]; [intros; lia|].
  destruct (leaf_has l (Z.of_nat n)) eqn:Ht.
  - split; [lia|]. split; [done|intros; lia].
  - specialize (IH ltac:(lia)). destruct (last_in_leaf l n) as [i|].
    + destruct IH as (Hi & Hh & Hj). split; [lia|]. split; [done|]. intros j Hji.
      destruct (decide (j = Z.of_nat n)) as [->|]; [done|]. apply Hj. lia.
    + intros j Hji. destruct (decide (j = Z.of_nat n)) as [->|]; [done|]. apply IH. lia.
Qed.

Lemma brm_End_spec m : brm_wf m -> exists e, brm_End m = Ret e /\ end_spec (brm_view m) e.
Proof.
  intros Hwf. unfold brm_End, getLeaf.
  assert (Hlen : forall j, bs_len (partLeafIndex m) - 1 < j -> bs_test (partLeafIndex m) j = false).
  { intros j Hj. apply not_true_iff_false. intros Ht%bs_test_len. lia. }
  assert (Hneg : forall j, j < 0 -> bs_test (partLeafIndex m) j = false).
  { intros j Hj. apply not_true_iff_false. intros Ht%bs_test_len. lia. }
  destruct (decide (0 <= bs_len (partLeafIndex m))) as [Hlp|Hln].
  2:{ replace (Z.to_nat _) with O by lia. cbn. replace (_ <? 0) with true by lia.
      eexists. split; [done|]. left. split; [done|]. intros k Hk.
      apply brm_view_not_part; [done|]. apply Hlen. leaf_lia. }
  destruct (last_part_leaf_spec m (bs_len (partLeafIndex m) - 1)
              (Z.to_nat (bs_len (partLeafIndex m)))) as (Hr & Ht & Hj); [done|lia|lia|done|].
  set (i := last_part_leaf _ _ _) in *. destruct (Z.ltb_spec i 0).
  - eexists. split; [done|]. left. split; [done|]. intros k Hk.
    apply brm_view_not_part; [done|]. apply Hj. leaf_lia.
  - destruct (proj1 (bw_part _ Hwf i)) as [l Hl]; [auto|]. rewrite Hl. cbn -[last_in_leaf].
    destruct (bw_leaf _ Hwf _ _ Hl) as (Hir & _ & Hne).
    pose proof (last_in_leaf_spec l 256 ltac:(lia)) as Hlast.
    destruct (last_in_leaf l 256) as [x|].
    + destruct Hlast as (Hx & Hh & Hxj). eexists. split; [done|]. right.
      rewrite shiftl_8, (u64_small (i * 256)), (u64_small (x + _)), u64_small by lia.
      split; [lia|]. split.
      * replace (x + i * 256 + 1 - 1) with (i * 256 + x) by lia.
        rewrite (brm_view_leaf _ _ l) by (done || lia). by apply leaf_view_has.
      * intros k Hk. destruct (decide (k / 256 = i)) as [Hki|Hki].
        -- unfold brm_view. rewrite Hki, Hl. unfold leaf_view. rewrite Hxj by leaf_lia. done.
        -- apply brm_view_not_part; [done|]. apply Hj. leaf_lia.
    + apply leaf_nonempty in Hne as (j & Hjr & Hh). rewrite Hlast in Hh by lia. done.
Qed.

(** *** Updates *)
Lemma add_leaf_count off e :
  0 <= off < e -> e < 2 ^ 64 ->
  (if e -u off <? 256 -u (off mod 256) then e -u off else 256 -u (off mod 256)) =
    Z.min e ((off / 256 + 1) * 256) - off /\
  off < Z.min e ((off / 256 + 1) * 256) <= (off / 256 + 1) * 256.
Proof. intros Hoff He. rewrite !u64_small by leaf_lia. case_match; leaf_lia. Qed.

(** Replacing a leaf, and updating the bit sets for it. *)
Lemma put_leaf_wf m i l1 part full :
  brm_wf m -> 0 <= i < 2 ^ 56 - 1 -> length (leaf_items l1) = 256%nat -> leaf_empty l1 = false ->
  (forall j, bs_test part j = bool_decide (i = j) || bs_test (partLeafIndex m) j) ->
  (forall j, bs_test full j = if decide (i = j) then leaf_full l1
                              else bs_test (fullLeafIndex m) j) ->
  brm_wf (MkBitmapRangeMap (<[i := l1]> (entries m)) full part).
Proof.
  intros Hwf Hi Hlen Hne Hpart Hfull. split; cbn; intros j.
  - intros l. rewrite lookup_insert. case_decide as Hij; [|apply (bw_leaf _ Hwf)].
    intros [= <-]. by subst j.
  - rewrite Hpart, lookup_insert.
    case_bool_decide; case_decide; simplify_eq/=; [naive_solver|apply (bw_part _ Hwf)].
  - rewrite Hfull, lookup_insert. case_decide; [naive_solver|apply (bw_full _ Hwf)].
Qed.

(** What [getOrCreateLeaf] returns. *)
Definition leaf_or_new m (i : Z) : bitmapRangeMapLeaf V B :=
  match entries m !! i with Some l => l | None => MkLeaf bm_zero (replicate 256 zero) end.

Lemma leaf_or_new_spec m i :
  brm_wf m ->
  length (leaf_items (leaf_or_new m i)) = 256%nat /\
  (forall j, 0 <= j < 256 -> leaf_view (leaf_or_new m i) j = brm_view m (i * 256 + j)) /\
  (leaf_empty (leaf_or_new m i) = false -> bs_test (partLeafIndex m) i = true).
Proof.
  intros Hwf. unfold leaf_or_new. destruct (entries m !! i) as [l|] eqn:E.
  - split; [by apply (bw_leaf _ Hwf) in E as (_ & ? & _)|]. split.
    + intros j Hj. by rewrite (brm_view_leaf _ _ l).
    + intros _. apply (bw_part _ Hwf). eauto.
  - split; [done|]. split.
    + intros j Hj. rewrite leaf_view_zero by done. unfold brm_view.
      replace ((i * 256 + j) / 256) with i by leaf_lia. by rewrite E.
    + intros (j & Hj & Hh)%leaf_nonempty.
      apply leaf_view_has in Hh as [? Hh]. by rewrite leaf_view_zero in Hh.
Qed.

Lemma add_leaf_spec m off e v :
  brm_wf m -> 0 <= off < e -> e < 2 ^ 64 - 256 ->
  exists m', add_leaf m off e v = (Z.min e ((off / 256 + 1) * 256), m') /\ brm_wf m' /\
    forall k, brm_view m' k = if bool_decide (off <= k < Z.min e ((off / 256 + 1) * 256))
                              then Some v else brm_view m k.
Proof.
  intros Hwf Hoff He. unfold add_leaf. rewrite shiftr_8, land_255.
  destruct (add_leaf_count off e) as [-> Hoff']; [lia..|].
  assert (Hi : 0 <= off / 256 < 2 ^ 56 - 1) by leaf_lia.
  assert (Hj : 0 <= off mod 256 < 256) by leaf_lia.
  assert (Hdm : off = off / 256 * 256 + off mod 256) by leaf_lia.
  revert Hi Hj Hdm Hoff'. generalize (off / 256) (off mod 256).
  intros i j Hi Hj Hdm. generalize (Z.min e ((i + 1) * 256)). intros off' Hoff'.
  destruct (leaf_or_new_spec m i Hwf) as (Hlen0 & Hv0 & Hpart0).
  destruct (leaf_insert_view (leaf_or_new m i) j (off' - off) v) as [Hlen Hview];
    [lia|lia|lia|done|].
  rewrite (u64_small (off + _)) by lia. replace (off + (off' - off)) with off' by lia.
  set (l1 := leaf_insert (leaf_or_new m i) j (off' - off) v) in *.
  exists (MkBitmapRangeMap (<[i := l1]> (entries m))
            (if leaf_full l1 then bs_set (fullLeafIndex m) i else fullLeafIndex m)
            (if leaf_empty (leaf_or_new m i) then bs_set (partLeafIndex m) i
             else partLeafIndex m)).
  split; [|split].
  - subst l1. unfold getOrCreateLeaf, leaf_or_new. destruct (entries m !! i); cbn; f_equal.
    by rewrite insert_insert_eq.
  - apply put_leaf_wf; [done..| | |].
    + apply leaf_nonempty. exists j. split; [done|]. apply leaf_view_has.
      rewrite Hview, bool_decide_eq_true_2 by lia. eauto.
    + intros x. destruct (leaf_empty _); [by rewrite bs_test_set by lia|].
      case_bool_decide; simpl; [|done]. subst x. by apply Hpart0.
    + intros x. destruct (leaf_full l1) eqn:Hf.
      * rewrite bs_test_set by lia. case_decide; case_bool_decide; simplify_eq/=; done.
      * case_decide; [|done]. subst x. apply not_true_iff_false. intros Ht.
        assert (leaf_full l1 = true) as Hc; [|congruence].
        apply leaf_full_spec. intros x Hx. apply leaf_view_has. rewrite Hview by done.
        case_bool_decide; [eauto|]. rewrite Hv0 by done.
        apply (full_leaf_view m i); [done|done|]. clear -Hx. leaf_lia.
  - intros k. unfold brm_view at 1. cbn. rewrite lookup_insert.
    assert (Hk : k = k / 256 * 256 + k mod 256 /\ 0 <= k mod 256 < 256) by (clear; leaf_lia).
    case_decide as Hik.
    + rewrite Hview, Hv0 by apply Hk. subst i. destruct Hk as [Hk Hkm]. rewrite <- Hk.
      assert (j <= k mod 256 < j + (off' - off) <-> off <= k < off') as Heq by lia.
      by repeat case_bool_decide; try tauto.
    + rewrite bool_decide_eq_false_2 by lia. done.
Qed.

Lemma add_loop_spec fuel m off e v :
  brm_wf m -> 0 <= off -> e < 2 ^ 64 - 256 ->
  (off < e -> (e - 1) / 256 - off / 256 < Z.of_nat fuel) ->
  exists m', add_loop fuel m off e v = Ret m' /\ brm_wf m' /\
             forall k, brm_view m' k = if bool_decide (off <= k < e) then Some v else brm_view m k.
Proof.
  revert m off. induction fuel as [|fuel IH]; intros m off Hwf Hoff He Hfuel; cbn [add_loop];
    (destruct (Z.ltb_spec off e) as [Hlt|Hge];
     [|exists m; split; [done|]; split; [done|]; intros k; by rewrite bool_decide_eq_false_2 by lia]).
  - exfalso. specialize (Hfuel Hlt). leaf_lia.
  - destruct (add_leaf_spec m off e v) as (m1 & -> & Hwf1 & Hview1); [done|lia|done|].
    set (off' := Z.min e ((off / 256 + 1) * 256)) in *.
    destruct (add_leaf_count off e) as [_ Hoff']; [lia..|]. fold off' in Hoff'.
    destruct (IH m1 off') as (m2 & E & Hwf2 & Hview2); [done|lia|done| |].
    { intros Hlt'. specialize (Hfuel Hlt). subst off'.
      replace (Z.min e _) with ((off / 256 + 1) * 256) in * by lia.
      rewrite Z.div_mul by lia. lia. }
    exists m2. split; [done|]. split; [done|]. intros k. rewrite Hview2, Hview1.
    assert (off' <= e) by lia.
    repeat case_bool_decide; done || lia.
Qed.

Lemma brm_Add_spec m off len v :
  brm_wf m -> 0 <= off -> 0 <= len -> off + len < 2 ^ 64 - 256 ->
  exists m', brm_Add m off len v = Ret m' /\ brm_wf m' /\
             forall k, brm_view m' k = view_add (brm_view m) off len v k.
Proof.
  intros Hwf Ho Hl Hlim. unfold brm_Add. rewrite u64_small by lia.
  apply add_loop_spec; [done|lia|lia|]. intros _. rewrite Z2Nat.id by leaf_lia. leaf_lia.
Qed.

(** *** Iteration *)

(** The keys of a leaf from index [j] on, as ranges of length one. *)
Fixpoint leaf_singles l (j : Z) (n : nat) (off : Z) : list (RangeValue V) :=
  match n with
  | O => []
  | S n' => match leaf_view l j with
            | Some v => [MkRangeValue (MkRange off 1) v]
            | None => []
            end ++ leaf_singles l (j + 1) n' (off + 1)
  end.

(** The inner loop is the coalescing fold over these. *)
Lemma iterate_leaf_spec {S} l (iter : RangeValue V -> S -> S * bool) j n off r s :
  0 <= off -> off + Z.of_nat n < 2 ^ 64 ->
  let '(off', r', s', c) := iterate_leaf l iter j n off r s in
  ((r', s'), c) = foldb (coalesce_step iter) (leaf_singles l j n off) (r, s) /\
  (c = true -> off' = off + Z.of_nat n) /\ (c = false -> Length r' = 0).
Proof.
  revert j off r s. induction n as [|n IH]; intros j off r s Hoff Hlim;
    cbn [iterate_leaf leaf_singles]; [simpl; split; [done|]; split; intros; [lia|done]|].
  unfold leaf_view. destruct (leaf_has l j); cbn [negb app foldb].
  2:{ rewrite u64_small by lia. specialize (IH (j + 1) (off + 1) r s ltac:(lia) ltac:(lia)).
      destruct (iterate_leaf _ _ _ _ _ _ _) as [[[off' r'] s'] c].
      destruct IH as (? & Ho & ?). split; [done|]. split; [intros Hc; rewrite (Ho Hc); lia|done]. }
  rewrite (u64_small (off + 1)) by lia. unfold coalesce_step at 1. cbn [Value rv_range Offset Length].
  rewrite (Z.eqb_sym off). destruct (bool_decide _ && _).
  - specialize (IH (j + 1) (off + 1)
      (MkRangeValue (MkRange (Offset r) (Length r +u 1)) (Value r)) s ltac:(lia) ltac:(lia)).
    destruct (iterate_leaf _ _ _ _ _ _ _) as [[[off' r'] s'] c].
    destruct IH as (? & Ho & ?). split; [done|]. split; [intros Hc; rewrite (Ho Hc); lia|done].
  - destruct (0 <? Length r); [destruct (iter r s) as [s1 []]|].
    + specialize (IH (j + 1) (off + 1) (MkRangeValue (MkRange off 1) (leaf_item l j)) s1
        ltac:(lia) ltac:(lia)).
      destruct (iterate_leaf _ _ _ _ _ _ _) as [[[off' r'] s'] c].
      destruct IH as (? & Ho & ?). split; [done|]. split; [intros Hc; rewrite (Ho Hc); lia|done].
    + by repeat split.
    + specialize (IH (j + 1) (off + 1) (MkRangeValue (MkRange off 1) (leaf_item l j)) s
        ltac:(lia) ltac:(lia)).
      destruct (iterate_leaf _ _ _ _ _ _ _) as [[[off' r'] s'] c].
      destruct IH as (? & Ho & ?). split; [done|]. split; [intros Hc; rewrite (Ho Hc); lia|done].
Qed.

(** [L] lists the keys of [lo..hi-1] in order, as ranges of length one. *)
Record singles m (lo hi : Z) (L : list (RangeValue V)) : Prop := {
  sg_elem (x : RangeValue V) : x ∈ L <-> Length x = 1 /\ lo <= Offset x < hi /\
                        brm_view m (Offset x) = Some (Value x);
  sg_sorted : StronglySorted before (rv_range <$> L);
}.

Lemma singles_app m lo mid hi L1 L2 :
  lo <= mid <= hi -> singles m lo mid L1 -> singles m mid hi L2 -> singles m lo hi (L1 ++ L2).
Proof.
  intros Hmid [E1 S1] [E2 S2]. split.
  - intros x. rewrite elem_of_app, E1, E2.
    destruct (decide (Offset x < mid)); intuition lia.
  - rewrite fmap_app, StronglySorted_app_iff. split; [done|]. split; [done|].
    intros r1 r2 (x1 & -> & H1)%list_elem_of_fmap (x2 & -> & H2)%list_elem_of_fmap.
    apply E1 in H1. apply E2 in H2. unfold before, rend. lia.
Qed.

Lemma singles_none m lo hi :
  (forall k, lo <= k < hi -> brm_view m k = None) -> singles m lo hi [].
Proof.
  intros Hn. split; [|constructor]. intros x. split; [set_solver|].
  intros (_ & Hx & Hv). by rewrite Hn in Hv.
Qed.

Lemma leaf_singles_spec m l i j n :
  entries m !! i = Some l -> 0 <= j -> j + Z.of_nat n <= 256 ->
  singles m (i * 256 + j) (i * 256 + j + Z.of_nat n) (leaf_singles l j n (i * 256 + j)).
Proof.
  intros Hl. revert j. induction n as [|n IH]; intros j Hj Hle; cbn [leaf_singles].
  { apply singles_none. intros; lia. }
  specialize (IH (j + 1) ltac:(lia) ltac:(lia)).
  replace (i * 256 + j + 1) with (i * 256 + (j + 1)) by lia.
  replace (i * 256 + j + Z.of_nat (S n)) with (i * 256 + (j + 1) + Z.of_nat n) by lia.
  apply (singles_app _ _ (i * 256 + (j + 1))); [lia| |done].
  rewrite <- (brm_view_leaf m i l j) by (done || lia).
  destruct (brm_view m (i * 256 + j)) as [v|] eqn:E.
  - split; [|repeat constructor]. intros x. rewrite list_elem_of_singleton. split.
    + intros ->. simpl. split; [done|]. split; [lia|done].
    + intros (Hlen & Hx & Hv). assert (Offset x = i * 256 + j) as Ho by lia.
      rewrite Ho, E in Hv. destruct x as [[? ?] ?]; simpl in *. congruence.
  - apply singles_none. intros k Hk. by replace k with (i * 256 + j) by lia.
Qed.

(** The number of leaves from leaf [i] on bounds the iterations left. *)
Definition leaves_from m (i : Z) : nat := size (filter (fun p => i <= p.1) (entries m)).

Lemma leaves_from_present m i l :
  entries m !! i = Some l -> leaves_from m i = S (leaves_from m (i + 1)).
Proof.
  intros Hl. unfold leaves_from.
  rewrite <- (map_size_insert_None i l (filter (fun p => i + 1 <= p.1) (entries m)))
    by (apply map_lookup_filter_None; right; intros ? _; simpl; lia).
  f_equal. apply map_eq. intros j. apply option_eq. intros x.
  rewrite lookup_insert_Some, !map_lookup_filter_Some. simpl.
  destruct (decide (i = j)) as [->|]; naive_solver lia.
Qed.

Lemma leaves_from_skip m i i' :
  i <= i' -> (forall j, i <= j < i' -> entries m !! j = None) -> leaves_from m i = leaves_from m i'.
Proof.
  intros Hii Hn. unfold leaves_from. f_equal. apply map_filter_ext. intros j x Hj. simpl.
  split; [|lia]. intros ?. destruct (decide (i' <= j)); [done|]. rewrite Hn in Hj by lia. done.
Qed.

(** [NextKey] from a missing leaf jumps over no leaf. *)
Lemma next_key_skips m off off' :
  brm_wf m -> 0 <= off -> entries m !! (off / 256) = None ->
  next_key_spec (brm_view m) off (Some off') ->
  is_Some (entries m !! (off' / 256)) /\
  leaves_from m (off / 256) = leaves_from m (off' / 256).
Proof.
  intros Hwf Hoff Habs (Hle & Hs & Hn). split.
  - apply brm_view_Some in Hs as (l & Hl & _). eauto.
  - apply leaves_from_skip; [leaf_lia|]. intros j Hj.
    destruct (entries m !! j) as [l|] eqn:Hl; [exfalso|done].
    destruct (first_key_of_leaf m j l) as (Hr & [v Hv] & _); [done..|].
    rewrite Hn in Hv; [done|]. destruct (decide (j = off / 256)); [congruence|]. leaf_lia.
Qed.

Lemma iterate_loop_spec m fuel off :
  brm_wf m -> 0 <= off < 2 ^ 64 ->
  (2 * leaves_from m (off / 256)%Z + match entries m !! (off / 256)%Z with Some _ => 0 | None => 1 end <= fuel)%nat ->
  exists L, singles m off (2 ^ 64) L /\
    forall S (iter : RangeValue V -> S -> S * bool) r s,
      iterate_loop fuel m iter off r s =
      Ret (coalesce_flush iter (foldw (coalesce_step iter) L (r, s))).
Proof.
  intros Hwf. revert off. induction fuel as [|fuel IH]; intros off Hoff Hfuel.
  { destruct (entries m !! (off / 256)) as [l|] eqn:E; [|lia].
    rewrite (leaves_from_present _ _ _ E) in Hfuel. lia. }
  destruct (entries m !! (off / 256)) as [l|] eqn:E.
  - destruct (bw_leaf _ Hwf _ _ E) as (Hi & _). rewrite (leaves_from_present _ _ _ E) in Hfuel.
    assert (Hdm : off = off / 256 * 256 + off mod 256 /\ 0 <= off mod 256 < 256) by (clear; leaf_lia).
    destruct Hdm as [Hdm Hm].
    destruct (IH ((off / 256 + 1) * 256)) as (L & HL & Hit); [lia| |].
    { rewrite Z.div_mul by lia. case_match; lia. }
    exists (leaf_singles l (off mod 256) (Z.to_nat (256 - off mod 256)) off ++ L). split.
    + apply (singles_app _ _ ((off / 256 + 1) * 256)); [lia| |done].
      pose proof (leaf_singles_spec m l (off / 256) (off mod 256)
        (Z.to_nat (256 - off mod 256)) E ltac:(lia) ltac:(lia)) as Hsg.
      rewrite <- Hdm in Hsg. by replace ((off / 256 + 1) * 256)
        with (off + Z.of_nat (Z.to_nat (256 - off mod 256))) by lia.
    + intros S iter r s. cbn [iterate_loop]. unfold getLeaf.
      rewrite shiftr_8, E, land_255, foldw_app.
      pose proof (iterate_leaf_spec l iter (off mod 256) (Z.to_nat (256 - off mod 256)) off r s
        ltac:(lia) ltac:(lia)) as Hleaf.
      destruct (iterate_leaf _ _ _ _ _ _ _) as [[[off' r'] s'] c].
      destruct Hleaf as (<- & Ho & Hl). destruct c.
      * rewrite Ho by done. rewrite <- Hit. f_equal. lia.
      * cbn. by rewrite Hl.
  - destruct (brm_NextKey_spec m off Hwf Hoff) as (nk & Enk & Hnk).
    assert (Estep : forall S (iter : RangeValue V -> S -> S * bool) r s,
              iterate_loop (Datatypes.S fuel) m iter off r s =
              match nk with
              | None => Ret (coalesce_flush iter (r, s))
              | Some off' => iterate_loop fuel m iter off' r s
              end).
    { intros. cbn [iterate_loop]. unfold getLeaf. by rewrite shiftr_8, E, Enk. }
    destruct nk as [off'|].
    + destruct (next_key_skips m off off') as [[l' Hl'] Heq]; [done|lia|done|done|].
      destruct (IH off') as (L & HL & Hit).
      { destruct Hnk as (? & Hs & _). apply (brm_view_range _ _ Hwf) in Hs. lia. }
      { rewrite Hl'. lia. }
      exists L. split; [|by intros; rewrite Estep]. destruct Hnk as (? & Hs & Hn).
      apply (brm_view_range _ _ Hwf) in Hs.
      apply (singles_app _ _ off' _ [] L); [lia|by apply singles_none|done].
    + exists []. split; [|by intros; rewrite Estep]. apply singles_none.
      intros k Hk. apply Hnk. lia.
Qed.

Lemma singles_ranges_wf m lo L :
  brm_wf m -> singles m lo (2 ^ 64) L -> ranges_wf L.
Proof.
  intros Hwf [He Hs]. split; [|done]. intros x (Hl & _ & Hv)%He.
  assert (0 <= Offset x < 2 ^ 64 - 256) by (apply (brm_view_range m); eauto).
  unfold good_range, rend. lia.
Qed.

Lemma brm_Iterate_spec m start :
  brm_wf m -> 0 <= start < 2 ^ 64 ->
  exists rs, runs_of (brm_view m) start rs /\
    forall S (iter : RangeValue V -> S -> S * bool) s,
      brm_Iterate m start iter s = Ret (foldw iter rs s).
Proof.
  intros Hwf Hs.
  destruct (iterate_loop_spec m (2 * size (entries m) + 1) start) as (L & HL & Hit); [done..| |].
  { assert (leaves_from m (start / 256)%Z <= size (entries m))%nat.
    { apply map_size_filter. } case_match; lia. }
  pose proof (singles_ranges_wf _ _ _ Hwf HL) as HLwf. destruct HL as [He Hsort].
  eexists. split.
  - apply (coalesce_runs L); [done| |].
    + intros x (_ & ? & _)%He. lia.
    + intros k v Hk. split.
      * intros Hv. exists (MkRangeValue (MkRange k 1) v).
        assert (0 <= k < 2 ^ 64 - 256) by (apply (brm_view_range m); eauto).
        split; [|unfold in_range, rend; simpl; split; [lia|done]].
        apply He. simpl. split; [done|]. split; [lia|done].
      * intros (x & (Hl & _ & Hv)%He & Hin & <-).
        unfold in_range, rend in Hin. by replace k with (Offset x) by lia.
  - intros S iter s. unfold brm_Iterate. by rewrite Hit, coalesce_foldw_zero.
Qed.

Lemma NewBitmapRangeMap_wf : brm_wf NewBitmapRangeMap.
Proof.
  split; cbn; intros i.
  - intros l. by rewrite lookup_empty.
  - rewrite bs_test_zero, lookup_empty. split; [done|by intros [? ?]].
  - rewrite bs_test_zero. setoid_rewrite lookup_empty. naive_solver.
Qed.

Lemma NewBitmapRangeMap_view k : brm_view NewBitmapRangeMap k = None.
Proof. unfold brm_view. cbn. by rewrite lookup_empty. Qed.
End correctness.

(** ** The bitmap map implements the range-map interface *)
Section instance.
Context {V : Type} `{!EqDecision V} `{!Zero V}.
Context {B : Type} `{!Bitmap256 B} `{!Bitmap256Laws B}.
Context {BS : Type} `{!BitSet BS} `{!BitSetLaws BS}.

#[export] Instance bitmap_range_map : RangeMap V (BitmapRangeMap V B BS) := {
  rm_new := NewBitmapRangeMap;
  rm_Begin := brm_Begin;
  rm_End := brm_End;
  rm_Add := brm_Add;
  rm_Get m off := Ret (brm_Get m off);
  rm_NextKey := brm_NextKey;
  rm_NextEmpty := brm_NextEmpty;
  rm_Iterate S := brm_Iterate;
}.

#[export] Program Instance bitmap_range_map_laws : RangeMapLaws V (BitmapRangeMap V B BS) := {
  rm_limit := 2 ^ 64 - 256;
  rm_wf := brm_wf;
  rm_view := brm_view;
}.
Next Obligation. lia. Qed.
Next Obligation. intros m k. apply brm_view_range. Qed.
Next Obligation. apply NewBitmapRangeMap_wf. Qed.
Next Obligation. intros k. apply NewBitmapRangeMap_view. Qed.
Next Obligation. intros m. apply brm_Begin_spec. Qed.
Next Obligation. intros m. apply brm_End_spec. Qed.
Next Obligation. intros m off len v Hwf Ho Hl Hlim. by apply brm_Add_spec. Qed.
Next Obligation. intros m off _ Hoff. cbn. by rewrite brm_Get_spec by lia. Qed.
Next Obligation. intros m off. apply brm_NextKey_spec. Qed.
Next Obligation. intros m off. apply brm_NextEmpty_spec. Qed.
Next Obligation. intros m start. apply brm_Iterate_spec. Qed.
End instance.
