(* ===== verification/BlockReader.v ===== *)
(** * Block readers

    [internal/t/t.go]: the interface [t.BlockHoleReader] through which the
    tables, the write logs, the block map and the stacked reader are read. A
    class holds its methods; [reader_ok] is the contract between the components:
    a reader behaves as a partial map from block indices to blocks. The clients
    ([StackedBlockReader], [BlockMap]) are proved against it and the readers
    prove that they meet it. *)
From S2P Require Import Prelude Bits RangeMap.
Local Open Scope Z_scope.

(** ** Buffers

    A byte is a [Z] and a slice a list of them. A method that fills the slice it
    gets returns the slice's new contents. *)
Abbreviation bytes := (list Z).

Definition len (p : bytes) : Z := Z.of_nat (length p).

(** [p[:n]] and [p[n:]] panic when [n] is out of range. *)
Definition slice_to (p : bytes) (n : Z) : outcome bytes :=
  if (0 <=? n) && (n <=? len p) then Ret (take (Z.to_nat n) p) else Panic.
Definition slice_from (p : bytes) (n : Z) : outcome bytes :=
  if (0 <=? n) && (n <=? len p) then Ret (drop (Z.to_nat n) p) else Panic.

(** [clear(p)] *)
Definition zeros (n : Z) : bytes := replicate (Z.to_nat n) 0.
Definition clear (p : bytes) : bytes := zeros (len p).

Lemma len_nonneg p : 0 <= len p.
Proof. unfold len. lia. Qed.
Lemma len_app p q : len (p ++ q) = len p + len q.
Proof. unfold len. rewrite length_app. lia. Qed.
Lemma len_nil : len [] = 0.
Proof. done. Qed.
Lemma len_cons x p : len (x :: p) = 1 + len p.
Proof. unfold len. cbn. lia. Qed.
Lemma len_take n p : 0 <= n <= len p -> len (take (Z.to_nat n) p) = n.
Proof. unfold len. rewrite length_take. lia. Qed.
Lemma len_drop n p : 0 <= n <= len p -> len (drop (Z.to_nat n) p) = len p - n.
Proof. unfold len. rewrite length_drop. lia. Qed.
Lemma len_zeros n : 0 <= n -> len (zeros n) = n.
Proof. unfold len, zeros. rewrite length_replicate. lia. Qed.
Lemma len_0_nil p : len p = 0 -> p = [].
Proof. destruct p; [done|]. unfold len. cbn. lia. Qed.
Lemma slice_to_ok p n : 0 <= n <= len p -> slice_to p n = Ret (take (Z.to_nat n) p).
Proof. intros. unfold slice_to. by rewrite !(proj2 (Z.leb_le _ _)) by lia. Qed.
Lemma slice_from_ok p n : 0 <= n <= len p -> slice_from p n = Ret (drop (Z.to_nat n) p).
Proof. intros. unfold slice_from. by rewrite !(proj2 (Z.leb_le _ _)) by lia. Qed.
Lemma take_len p q : take (Z.to_nat (len p)) (p ++ q) = p.
Proof. unfold len. by rewrite Nat2Z.id, take_app_length. Qed.
Lemma drop_len p q : drop (Z.to_nat (len p)) (p ++ q) = q.
Proof. unfold len. by rewrite Nat2Z.id, drop_app_length. Qed.
Lemma take_len_eq p q n : len p = n -> take (Z.to_nat n) (p ++ q) = p.
Proof. intros <-. apply take_len. Qed.
Lemma drop_len_eq p q n : len p = n -> drop (Z.to_nat n) (p ++ q) = q.
Proof. intros <-. apply drop_len. Qed.
Lemma zeros_app a b : 0 <= a -> 0 <= b -> zeros (a + b) = zeros a ++ zeros b.
Proof. intros. unfold zeros. by rewrite Z2Nat.inj_add, replicate_add by lia. Qed.

Create Rewrite HintDb len.
#[export] Hint Rewrite len_app len_nil len_cons : len.
#[export] Hint Rewrite len_take len_drop len_zeros using lia : len.

(** ** The interface *)
Class BlockHoleReader (R : Type) := {
  ReadBlocks : R -> bytes -> Z -> outcome (bytes * Z * option error);
  NextBlockData : R -> Z -> outcome (Z * option error);
  NextBlockHole : R -> Z -> outcome (Z * option error);
}.

(** ** Contents *)

(** The bytes of [n] consecutive blocks of [img] from [off] on. *)
Definition read_image (img : Z -> bytes) (off n : Z) : bytes := mjoin (img <$> seqZ off n).

Abbreviation content := (Z -> option bytes).

Section contents.
Context (blockSize : Z).
Implicit Types (c : content) (cs : list content) (img : Z -> bytes).

(** Reading a block that is not there gives zeros. *)
Definition image c (k : Z) : bytes := default (zeros blockSize) (c k).

(** The first content of [cs] that has the block wins. *)
Fixpoint overlay cs (k : Z) : option bytes :=
  match cs with
  | [] => None
  | c :: cs' => match c k with Some b => Some b | None => overlay cs' k end
  end.

Definition blocks_sized c : Prop := forall k b, c k = Some b -> len b = blockSize.

Lemma read_image_0 img off : read_image img off 0 = [].
Proof. done. Qed.

Lemma read_image_app img off n m :
  0 <= n -> 0 <= m ->
  read_image img off (n + m) = read_image img off n ++ read_image img (off + n) m.
Proof.
  intros. unfold read_image. rewrite seqZ_app by lia. by rewrite fmap_app, join_app.
Qed.

Lemma read_image_1 img off : read_image img off 1 = img off.
Proof.
  unfold read_image. rewrite seqZ_cons by lia. cbn. by rewrite app_nil_r.
Qed.

Lemma read_image_ext img1 img2 off n :
  (forall k, off <= k < off + n -> img1 k = img2 k) ->
  read_image img1 off n = read_image img2 off n.
Proof.
  intros Heq. unfold read_image. f_equal. apply list_fmap_ext.
  intros i k Hk%lookup_seqZ. apply Heq. lia.
Qed.

Lemma len_read_image img off n :
  0 <= n -> (forall k, off <= k < off + n -> len (img k) = blockSize) ->
  len (read_image img off n) = n * blockSize.
Proof.
  intros Hn. pattern n. apply natlike_ind; [done| |done]. clear n Hn.
  intros n Hn IH Hl. replace (Z.succ n) with (n + 1) by lia.
  rewrite read_image_app, read_image_1, len_app by lia.
  rewrite IH by (intros; apply Hl; lia). rewrite Hl by lia. lia.
Qed.

Context (Hbs : 0 < blockSize).

Lemma len_image c k : blocks_sized c -> len (image c k) = blockSize.
Proof.
  intros Hs. unfold image. destruct (c k) eqn:E; cbn; [by eapply Hs|]. by rewrite len_zeros by lia.
Qed.

Lemma len_read_content c off n :
  blocks_sized c -> 0 <= n -> len (read_image (image c) off n) = n * blockSize.
Proof. intros. apply len_read_image; [done|]. intros. by apply len_image. Qed.

Lemma overlay_sized cs : Forall blocks_sized cs -> blocks_sized (overlay cs).
Proof.
  induction 1 as [|c cs Hc Hcs IH]; intros k b; cbn; [done|].
  destruct (c k) eqn:E; [|apply IH]. intros [= <-]. by eapply Hc.
Qed.

Lemma read_image_zeros off n :
  0 <= n -> read_image (image (fun _ => None)) off n = zeros (n * blockSize).
Proof.
  intros Hn. pattern n. apply natlike_ind; [done| |done]. clear n Hn. intros n Hn IH.
  replace (Z.succ n) with (n + 1) by lia.
  rewrite read_image_app, read_image_1, IH by lia. unfold image. cbn.
  rewrite <- zeros_app by lia. f_equal. lia.
Qed.
End contents.

(** ** The contract

    [reader_ok r c]: the reader [r] of a device of [limit] blocks has the
    contents [c]. A read of blocks that are all there returns them, without an
    error, except that [io.EOF] may come with the last block of the device; the
    queries return the next block and the next hole. *)
Section contract.
Context {R : Type} `{!BlockHoleReader R} (blockSize limit : Z).

Record reader_ok (r : R) (c : content) : Prop := {
  ok_sized : blocks_sized blockSize c;
  ok_range k : is_Some (c k) -> 0 <= k < limit;
  ok_NextBlockData off : 0 <= off <= limit ->
    exists k, next_key_spec c off k /\
      match k with
      | Some k => NextBlockData r off = Ret (k, None)
      | None => exists k', NextBlockData r off = Ret (k', Some EOF)
      end;
  ok_NextBlockHole off : 0 <= off <= limit ->
    exists h, NextBlockHole r off = Ret (h, None) /\ next_empty_spec c off h;
  ok_ReadBlocks p off n :
    0 < n -> 0 <= off -> len p = n * blockSize ->
    (forall k, off <= k < off + n -> is_Some (c k)) ->
    exists err, ReadBlocks r p off = Ret (read_image (image blockSize c) off n, n, err) /\
                (err = None \/ (err = Some EOF /\ off + n = limit));
}.

Lemma reader_ok_ext r c c' :
  (forall k, c k = c' k) -> reader_ok r c -> reader_ok r c'.
Proof.
  intros Heq [Hs Hr Hd Hh Hrd]. split.
  - intros k b. rewrite <- Heq. apply Hs.
  - intros k. rewrite <- Heq. apply Hr.
  - intros off Hoff. destruct (Hd off Hoff) as (k & Hk & E). exists k. split; [|done].
    destruct k; cbn in *; setoid_rewrite <- Heq; done.
  - intros off Hoff. destruct (Hh off Hoff) as (h & E & Hk). exists h. split; [done|].
    unfold next_empty_spec in *. setoid_rewrite <- Heq. done.
  - intros p off n Hn Ho Hl Hk. setoid_rewrite <- Heq in Hk.
    destruct (Hrd p off n Hn Ho Hl Hk) as (err & E & He). exists err. split; [|done].
    rewrite E. do 3 f_equal. apply read_image_ext. intros. unfold image. by rewrite Heq.
Qed.

(** The next hole is at most the end of the device. *)
Lemma next_hole_limit r c off h :
  reader_ok r c -> 0 <= off <= limit -> next_empty_spec c off h -> h <= limit.
Proof.
  intros Hok Hoff (Hle & Hn & Hs). destruct (decide (h <= limit)); [done|].
  assert (0 <= limit < limit); [|lia]. apply (ok_range _ _ Hok), Hs. lia.
Qed.

Lemma next_key_limit r c off k :
  reader_ok r c -> next_key_spec c off (Some k) -> off <= k < limit.
Proof. intros Hok (? & Hs & _). pose proof (ok_range _ _ Hok k Hs). lia. Qed.
End contract.

(** ** A reader in memory

    An executable reader for the examples: blocks filled with one byte, and
    blocks whose read fails. It meets the contract when no read fails. *)
Record mem_reader := MemReader {
  mem_blockSize : Z;
  mem_limit : Z;
  mem_fill : gmap Z Z;
  mem_bad : Z -> bool;
}.

Definition mem_content (r : mem_reader) : content := fun k =>
  if bool_decide (0 <= k < mem_limit r)
  then (fun b => replicate (Z.to_nat (mem_blockSize r)) b) <$> mem_fill r !! k else None.

Definition mem_has (r : mem_reader) (k : Z) : bool := bool_decide (is_Some (mem_content r k)).

(** The number of blocks before the first bad one. *)
Fixpoint mem_good (r : mem_reader) (off : Z) (n : nat) : Z :=
  match n with
  | O => 0
  | S n => if mem_bad r off then 0 else 1 + mem_good r (off + 1) n
  end.

Definition mem_ReadBlocks (r : mem_reader) (p : bytes) (off : Z) :
    outcome (bytes * Z * option error) :=
  let n := len p / mem_blockSize r in
  let good := mem_good r off (Z.to_nat n) in
  Ret (read_image (image (mem_blockSize r) (mem_content r)) off good ++
       drop (Z.to_nat (good * mem_blockSize r)) p, good,
       if good <? n then Some ErrIO else None).

#[export] Instance mem_block_reader : BlockHoleReader mem_reader := {
  ReadBlocks := mem_ReadBlocks;
  NextBlockData r off :=
    let k := search (mem_has r) off (Z.to_nat (mem_limit r - off)) in
    Ret (if k <? mem_limit r then (k, None) else (0, Some EOF));
  NextBlockHole r off :=
    Ret (search (fun k => negb (mem_has r k)) off (Z.to_nat (mem_limit r + 1 - off)), None);
}.

Lemma mem_content_range r k : is_Some (mem_content r k) -> 0 <= k < mem_limit r.
Proof. unfold mem_content. case_bool_decide; [done|]. by intros [? ?]. Qed.

Lemma mem_has_None r k : mem_has r k = false -> mem_content r k = None.
Proof. unfold mem_has. rewrite bool_decide_eq_false. intros Hn. by apply eq_None_not_Some. Qed.

Lemma mem_good_all r off n : (forall k, mem_bad r k = false) -> mem_good r off n = Z.of_nat n.
Proof. intros Hb. revert off. induction n as [|n IH]; intros off; cbn; [done|]. rewrite Hb, IH. lia. Qed.

Lemma mem_reader_ok r :
  0 < mem_blockSize r -> (forall k, mem_bad r k = false) ->
  reader_ok (mem_blockSize r) (mem_limit r) r (mem_content r).
Proof.
  intros Hbs Hbad. split.
  - intros k b. unfold mem_content. case_bool_decide; [|done].
    destruct (mem_fill r !! k); [|done]. intros [= <-]. unfold len. rewrite length_replicate. lia.
  - apply mem_content_range.
  - intros off Hoff. cbn. destruct (search_to_first (mem_has r) off (mem_limit r)) as
      [(Hr & HP & Hk)|[Hr Hf]]; [lia| |]; case_match.
    + eexists (Some _). split; [|done]. cbn. split; [lia|].
      split; [by apply bool_decide_eq_true in HP|]. intros; by apply mem_has_None, Hk.
    + lia.
    + lia.
    + exists None. split; [|eauto]. intros j Hj. apply mem_has_None.
      destruct (decide (j < mem_limit r)); [apply Hf; lia|].
      unfold mem_has. apply bool_decide_eq_false. intros Hs%mem_content_range. lia.
  - intros off Hoff. cbn. eexists. split; [done|].
    destruct (search_to_first (fun k => negb (mem_has r k)) off (mem_limit r + 1)) as
      [(Hr & HP & Hk)|[Hr Hf]]; [lia| |].
    + split; [lia|]. split; [by apply mem_has_None, negb_true_iff|].
      intros j Hj. apply Hk, negb_false_iff in Hj. by apply bool_decide_eq_true in Hj.
    + specialize (Hf (mem_limit r) ltac:(lia)). apply negb_false_iff, bool_decide_eq_true in Hf.
      apply mem_content_range in Hf. lia.
  - intros p off n Hn Hoff Hl Hk. exists None. split; [|by left]. cbn. unfold mem_ReadBlocks.
    rewrite mem_good_all, Hl, Z.div_mul, Z2Nat.id, Z.ltb_irrefl by (done || lia).
    by rewrite drop_ge, app_nil_r by (unfold len in *; nia).
Qed.
