(* ===== verification/StackedBlockReader.v ===== *)
(** * The stacked block reader

    [internal/readers/stacked_block_reader.go]: a list of readers, the first on
    top. A block is read from the first reader that has it, and is zero when
    none has it. *)
From S2P Require Import Prelude RangeMap BlockReader.
Local Open Scope Z_scope.

Section stacked.
Context {R : Type} `{!BlockHoleReader R}.

Record StackedBlockReader := MkStackedBlockReader {
  sbr_rs : list R;
  sbr_blockSize : Z;
  sbr_numBlocks : Z;
}.

Definition NewStackedBlockReader (rs : list R) (blockSize numBlocks : Z) : StackedBlockReader :=
  MkStackedBlockReader rs blockSize numBlocks.

Definition sbr_Size (r : StackedBlockReader) : Z := sbr_blockSize r * sbr_numBlocks r.

Section read.
Context (blockSize numBlocks : Z).

(** The result of a read, or the variables of the loop: the part of the
    buffer that [p = p[...]] has passed, [p], [off] and [blocksRead]. *)
Abbreviation result := (bytes * Z * option error)%type.
Abbreviation variables := (bytes * bytes * Z * Z)%type.

(** [if int64(readLen/r.blockSize) > limit { readLen = int(limit) * r.blockSize }] *)
Definition clamp_len (readLen limit : Z) : Z :=
  if limit <? readLen / blockSize then limit * blockSize else readLen.

(** The half of an iteration that reads from [tr] up to its next hole. *)
Definition read_top (tr : R) (st : variables) : outcome (result + variables) :=
  let '(pre, p, off, blocksRead) := st in
  '(nextHole, _) ← NextBlockHole tr off;
  if off <? nextHole then
    let readLen := clamp_len (len p) (nextHole - off) in
    let readBlocks := readLen / blockSize in
    q ← slice_to p readLen;
    '(q', n, err) ← ReadBlocks tr q off;
    let p := q' ++ drop (Z.to_nat readLen) p in
    let blocksRead := blocksRead + n in
    let off := off + n in
    rest ← slice_from p (n * blockSize);
    let pre := pre ++ take (Z.to_nat (n * blockSize)) p in
    let err := if bool_decide (err = Some EOF) && (n =? readBlocks) then None else err in
    match err with
    | Some e => Ret (inl (pre ++ rest, n, Some e))
    | None =>
        if negb (n =? readBlocks) then Panic
        else if len rest =? 0 then Ret (inl (pre ++ rest, blocksRead, None))
        else Ret (inr (pre, rest, off, blocksRead))
    end
  else Ret (inr st).

(** The half that reads the hole of [tr] from the readers below it, by
    [lower]. *)
Definition read_lower (lower : bytes -> Z -> outcome result) (tr : R) (st : variables) :
    outcome (result + variables) :=
  let '(pre, p, off, blocksRead) := st in
  '(nextData, err) ← NextBlockData tr off;
  match err with
  | Some EOF | None =>
      let nextData := match err with Some _ => numBlocks | None => nextData end in
      let readLen := clamp_len (len p) (nextData - off) in
      q ← slice_to p readLen;
      '(q', n, err) ← lower q off;
      let p := q' ++ drop (Z.to_nat readLen) p in
      let blocksRead := blocksRead + n in
      let off := off + n in
      rest ← slice_from p (n * blockSize);
      let pre := pre ++ take (Z.to_nat (n * blockSize)) p in
      match err with
      | Some e => Ret (inl (pre ++ rest, blocksRead, Some e))
      | None => Ret (inr (pre, rest, off, blocksRead))
      end
  | Some e => Ret (inl (pre ++ p, blocksRead, Some e))
  end.

(** [for len(p) > 0 { ... }] *)
Fixpoint read_loop (lower : bytes -> Z -> outcome result) (tr : R) (fuel : nat)
    (st : variables) : outcome result :=
  match fuel with
  | O => OutOfFuel
  | S fuel =>
      let '(pre, p, off, blocksRead) := st in
      if len p =? 0 then Ret (pre, blocksRead, None)
      else if numBlocks <=? off then Ret (pre ++ p, blocksRead, Some EOF)
      else
        r ← read_top tr st;
        match r with
        | inl res => Ret res
        | inr st =>
            r ← read_lower lower tr st;
            match r with
            | inl res => Ret res
            | inr st => read_loop lower tr fuel st
            end
        end
  end.

(** Every iteration but the last reads a block, so that the length of the
    buffer bounds their number. *)
Fixpoint readBlocksFrom (rs : list R) (p : bytes) (off : Z) : outcome result :=
  let pBlockCount := len p / blockSize in
  match rs with
  | [] => Ret (clear p, pBlockCount, None)
  | tr :: rs' => read_loop (readBlocksFrom rs') tr (S (length p)) ([], p, off, 0)
  end.
End read.

Definition sbr_ReadBlocks (r : StackedBlockReader) (buf : bytes) (off : Z) :
    outcome (bytes * Z * option error) :=
  if negb (len buf mod sbr_blockSize r =? 0) then Ret (buf, 0, Some ErrInvalidSize)
  else readBlocksFrom (sbr_blockSize r) (sbr_numBlocks r) (sbr_rs r) buf off.
End stacked.
Arguments StackedBlockReader R : clear implicits.

(** ** Correctness *)
Section correctness.
Context {R : Type} `{!BlockHoleReader R}.
Context (blockSize numBlocks : Z) (Hbs : 0 < blockSize) (Hnb : 0 <= numBlocks).
Implicit Types (cs : list content) (c low : content).

Abbreviation ok := (reader_ok blockSize numBlocks).
Abbreviation img c := (image blockSize c).

(** [c] over [low]. *)
Definition over c low : content := fun k => match c k with Some b => Some b | None => low k end.

Lemma clamp_len_spec n limit :
  0 <= n -> clamp_len blockSize (n * blockSize) limit = Z.min n limit * blockSize.
Proof. intros. unfold clamp_len. rewrite Z.div_mul by lia. case_match; nia. Qed.

(** What a read of [n] blocks leaves: the [m] blocks of the image, then the
    rest of the buffer as it was. *)
Definition filled (im : Z -> bytes) (p : bytes) (off m : Z) : bytes :=
  read_image im off m ++ drop (Z.to_nat (m * blockSize)) p.

Definition lower_ok low (lower : bytes -> Z -> outcome (bytes * Z * option error)) : Prop :=
  forall p off n, 0 <= off -> 0 <= n -> off + n <= numBlocks -> len p = n * blockSize ->
    lower p off = Ret (read_image (img low) off n, n, None).

Lemma filled_step c (p : bytes) (off n m : Z) :
  blocks_sized blockSize c -> 0 <= n -> 0 <= m -> (n + m) * blockSize <= len p ->
  filled (img c) p off (n + m) =
  read_image (img c) off n ++ filled (img c) (drop (Z.to_nat (n * blockSize)) p) (off + n) m.
Proof.
  intros Hs Hn Hm Hl. unfold filled. rewrite read_image_app by lia.
  rewrite <- app_assoc. do 2 f_equal. rewrite drop_drop. f_equal. nia.
Qed.

Lemma take_filled (q p : bytes) m :
  len q = m * blockSize -> take (Z.to_nat (m * blockSize)) (q ++ p) = q.
Proof. intros. by apply take_len_eq. Qed.

Lemma read_top_ok tr c pre p off br n :
  ok tr c -> 0 <= off < numBlocks -> 0 < n -> len p = n * blockSize ->
  exists m, 0 <= m <= n /\ (forall k, off <= k < off + m -> is_Some (c k)) /\
    (m < n -> c (off + m) = None) /\
    read_top blockSize tr (pre, p, off, br) =
    Ret (if m =? n then inl (pre ++ read_image (img c) off n, br + n, None)
         else inr (pre ++ read_image (img c) off m, drop (Z.to_nat (m * blockSize)) p,
                   off + m, br + m)).
Proof.
  intros Hok Hoff Hn Hl. destruct (ok_NextBlockHole _ _ _ _ Hok off) as (h & E & Hle & Hh & Hs);
    [lia|]. exists (Z.min n (h - off)).
  split; [lia|]. split; [intros k Hk; apply Hs; lia|].
  split. { intros Hm. replace (off + Z.min n (h - off)) with h by lia. done. }
  unfold read_top. rewrite E. cbn -[Z.mul]. destruct (Z.ltb_spec off h) as [Hlt|Hge].
  - rewrite Hl, clamp_len_spec, Z.div_mul by lia.
    set (m := Z.min n (h - off)). assert (0 < m <= n) by lia.
    rewrite slice_to_ok by nia. cbn -[Z.mul].
    destruct (ok_ReadBlocks _ _ _ _ Hok (take (Z.to_nat (m * blockSize)) p) off m)
      as (err & -> & Herr); [lia|lia|rewrite len_take; nia|intros; apply Hs; lia|].
    cbn -[Z.mul].
    assert (Hlr : len (read_image (img c) off m) = m * blockSize)
      by (apply len_read_content; [lia|apply Hok|lia]).
    rewrite slice_from_ok by (rewrite len_app, len_drop; nia). cbn -[Z.mul].
    rewrite take_len_eq, drop_len_eq by done. rewrite Z.eqb_refl.
    assert ((if bool_decide (err = Some EOF) && true then None else err) = None) as ->.
    { destruct Herr as [->|[-> _]]; done. }
    cbn -[Z.mul]. rewrite len_drop by nia. rewrite Hl.
    destruct (Z.eqb_spec (n * blockSize - m * blockSize) 0), (Z.eqb_spec m n); [|nia|nia|done].
    rewrite drop_ge, app_nil_r by (unfold len in *; nia). congruence.
  - replace (h - off) with 0 by lia. rewrite Z.min_r by lia.
    destruct (Z.eqb_spec 0 n); [lia|]. cbn. by rewrite read_image_0, app_nil_r, !Z.add_0_r.
Qed.

Lemma read_lower_ok lower low tr c pre p off br n :
  ok tr c -> lower_ok low lower -> blocks_sized blockSize low ->
  0 <= off <= numBlocks -> c off = None -> 0 <= n -> len p = n * blockSize ->
  exists m, 0 <= m <= n /\ off + m <= numBlocks /\ (off < numBlocks -> 0 < n -> 0 < m) /\
    (forall k, off <= k < off + m -> c k = None) /\
    read_lower blockSize numBlocks lower tr (pre, p, off, br) =
    Ret (inr (pre ++ read_image (img low) off m, drop (Z.to_nat (m * blockSize)) p,
              off + m, br + m)).
Proof.
  intros Hok Hlow Hsz Hoff Hc Hn Hl.
  destruct (ok_NextBlockData _ _ _ _ Hok off) as (k & Hk & Ek); [lia|].
  set (e := default numBlocks k).
  assert (He : off <= e <= numBlocks /\ (off < numBlocks -> off < e) /\
               forall j, off <= j < e -> c j = None).
  { destruct k as [k|]; cbn in e; [|split; [lia|split; [done|intros; apply Hk; lia]]].
    pose proof (next_key_limit _ _ _ _ _ _ Hok Hk). destruct Hk as (? & [? Hk] & Hj).
    split; [lia|]. split; [|done]. destruct (decide (off = k)); [congruence|lia]. }
  destruct He as (He1 & He2 & He3).
  exists (Z.min n (e - off)). split; [lia|]. split; [lia|]. split; [lia|].
  split; [intros; apply He3; lia|].
  assert (exists nd err, NextBlockData tr off = Ret (nd, err) /\
    ((err = Some EOF /\ e = numBlocks) \/ (err = None /\ e = nd))) as (nd & err & E & Hne).
  { destruct k as [k|]; [eauto 10|]. destruct Ek as [k' Ek]. eauto 10. }
  set (m := Z.min n (e - off)).
  unfold read_lower. rewrite E. cbn -[Z.mul].
  assert (Hm : forall nd', nd' = e ->
    (q ← slice_to p (clamp_len blockSize (len p) (nd' - off)); lower q off) =
    Ret (read_image (img low) off m, m, None) /\
    slice_to p (clamp_len blockSize (len p) (nd' - off)) =
      Ret (take (Z.to_nat (m * blockSize)) p) /\
    clamp_len blockSize (len p) (nd' - off) = m * blockSize).
  { intros nd' ->. rewrite Hl, clamp_len_spec by lia. fold m. rewrite slice_to_ok by nia.
    cbn. split; [|done]. apply Hlow; [lia|lia|lia|]. rewrite len_take; nia. }
  assert (Hlr : len (read_image (img low) off m) = m * blockSize)
    by (apply len_read_content; [lia|done|lia]).
  destruct Hne as [[-> He]|[-> He]]; destruct (Hm _ (eq_sym He)) as (E1 & E2 & E3);
    rewrite E2 in *; cbn -[Z.mul] in *; rewrite E1, E3; cbn -[Z.mul];
    rewrite slice_from_ok by (rewrite len_app, len_drop; nia); cbn -[Z.mul];
    by rewrite take_len_eq, drop_len_eq by done.
Qed.

Lemma over_sized c low :
  blocks_sized blockSize c -> blocks_sized blockSize low -> blocks_sized blockSize (over c low).
Proof. intros Hc Hl k b. unfold over. destruct (c k) eqn:E; [intros [= <-]; eauto|eauto]. Qed.

Lemma read_over_top c low off n :
  (forall k, off <= k < off + n -> is_Some (c k)) ->
  read_image (img c) off n = read_image (img (over c low)) off n.
Proof.
  intros Hc. apply read_image_ext. intros k Hk. unfold image, over.
  destruct (Hc k Hk) as [b ->]. done.
Qed.

Lemma read_over_low c low off n :
  (forall k, off <= k < off + n -> c k = None) ->
  read_image (img low) off n = read_image (img (over c low)) off n.
Proof.
  intros Hc. apply read_image_ext. intros k Hk. unfold image, over. by rewrite (Hc k Hk).
Qed.

Lemma data_in_device tr c off n :
  ok tr c -> 0 <= off <= numBlocks -> 0 <= n ->
  (forall k, off <= k < off + n -> is_Some (c k)) -> off + n <= numBlocks.
Proof.
  intros Hok Hoff Hn Hc. destruct (decide (n = 0)); [lia|].
  pose proof (ok_range _ _ _ _ Hok (off + n - 1) (Hc (off + n - 1) ltac:(lia))). lia.
Qed.

Lemma read_loop_ok lower low tr c :
  ok tr c -> lower_ok low lower -> blocks_sized blockSize low ->
  forall fuel pre p off br n,
    n < Z.of_nat fuel -> 0 <= off -> 0 <= n -> len p = n * blockSize ->
    let m := Z.max 0 (Z.min n (numBlocks - off)) in
    read_loop blockSize numBlocks lower tr fuel (pre, p, off, br) =
    Ret (pre ++ filled (img (over c low)) p off m, br + m, if m <? n then Some EOF else None).
Proof.
  intros Hok Hlow Hsz fuel. induction fuel as [|fuel IH]; intros pre p off br n Hf Hoff Hn Hl m;
    [lia|].
  cbn [read_loop]. destruct (Z.eqb_spec (len p) 0) as [Hp|Hp].
  { assert (n = 0) as -> by nia. replace m with 0 by lia. apply len_0_nil in Hp as ->.
    by rewrite app_nil_r, Z.add_0_r. }
  assert (0 < n) by nia. destruct (Z.leb_spec numBlocks off) as [Hend|Hin].
  { replace m with 0 by lia. destruct (Z.ltb_spec 0 n); [|lia]. by rewrite Z.add_0_r. }
  destruct (read_top_ok tr c pre p off br n) as (m1 & Hm1 & Hd1 & Hh1 & ->); [done|lia..|].
  pose proof (data_in_device tr c off m1 Hok ltac:(lia) ltac:(lia) Hd1) as Hdev.
  cbn -[Z.mul]. destruct (Z.eqb_spec m1 n) as [->|Hne].
  { replace m with n by lia. rewrite Z.ltb_irrefl. unfold filled.
    rewrite drop_ge, app_nil_r by (unfold len in *; nia). by rewrite (read_over_top c low). }
  destruct (read_lower_ok lower low tr c (pre ++ read_image (img c) off m1)
    (drop (Z.to_nat (m1 * blockSize)) p) (off + m1) (br + m1) (n - m1))
    as (m2 & Hm2 & Hdev2 & Hpos & Hd2 & ->);
    [done..|lia|apply Hh1; lia|lia|rewrite len_drop; nia|].
  cbn -[Z.mul]. rewrite (IH _ _ _ _ (n - m1 - m2)); [|lia..|].
  2: { rewrite drop_drop, <- Z2Nat.inj_add, <- Z.mul_add_distr_r by nia.
       rewrite len_drop by nia. lia. }
  set (m3 := Z.max 0 _). assert (Hm : m = m1 + (m2 + m3)) by lia.
  rewrite Hm, !filled_step by (first [by apply over_sized; [apply Hok|done] | lia
                               | rewrite ?len_drop by nia; nia]).
  rewrite (read_over_top c low) by done. rewrite (read_over_low c low _ m2) by done.
  rewrite !app_assoc, !Z.add_assoc.
  assert ((m3 <? n - m1 - m2) = (m1 + m2 + m3 <? n)) as -> by lia. done.
Qed.

(** Reads within the device, of any stack. *)
Lemma readBlocksFrom_inside rs cs :
  Forall2 ok rs cs -> lower_ok (overlay cs) (readBlocksFrom blockSize numBlocks rs).
Proof.
  induction 1 as [|tr c rs cs Hok Hrs IH]; intros p off n Hoff Hn Hin Hl; cbn [readBlocksFrom].
  - rewrite Hl, Z.div_mul by lia. unfold clear. cbn [overlay].
    by rewrite read_image_zeros, Hl by lia.
  - rewrite (read_loop_ok _ (overlay cs) _ c) with (n := n); try done; try nia.
    2: { apply overlay_sized. eapply Forall2_Forall_r; [exact Hrs|].
         apply Forall_forall. intros ? _ ? H. apply H. }
    2: { unfold len in Hl. nia. }
    rewrite Z.max_r, Z.min_l, Z.ltb_irrefl by lia. unfold filled. cbn.
    by rewrite drop_ge, app_nil_r by (unfold len in *; nia).
Qed.

Lemma sized_of_ok rs cs : Forall2 ok rs cs -> Forall (blocks_sized blockSize) cs.
Proof.
  intros Hrs. eapply Forall2_Forall_r; [exact Hrs|]. apply Forall_forall. intros ? _ ? H. apply H.
Qed.

Lemma readBlocksFrom_ok rs cs p off n :
  Forall2 ok rs cs -> rs <> [] -> 0 <= off -> 0 <= n -> len p = n * blockSize ->
  let m := Z.max 0 (Z.min n (numBlocks - off)) in
  readBlocksFrom blockSize numBlocks rs p off =
  Ret (filled (img (overlay cs)) p off m, m, if m <? n then Some EOF else None).
Proof.
  intros Hrs Hne Hoff Hn Hl. destruct Hrs as [|tr c rs cs Hok Hrs]; [done|].
  cbn [readBlocksFrom]. rewrite (read_loop_ok _ (overlay cs) _ c) with (n := n); try done.
  - by apply readBlocksFrom_inside.
  - by eapply overlay_sized, sized_of_ok.
  - unfold len in Hl. nia.
Qed.

Lemma aligned n : (n * blockSize) mod blockSize = 0.
Proof. by rewrite Z.mod_mul by lia. Qed.

(** C8: reading [n] blocks from a stack of readers returns, for each block of
    the device, the block of the first reader that has it and zeros when none
    has it; the rest of the buffer is untouched, the count is the number of
    blocks of the device read, and the error is [io.EOF] exactly when the read
    passes the end of the device. The read returns: no loop runs forever and no
    slice is out of range. *)
Theorem stacked_read_overlay rs cs buf off n :
  Forall2 ok rs cs -> rs <> [] -> 0 <= off -> 0 <= n -> len buf = n * blockSize ->
  let m := Z.max 0 (Z.min n (numBlocks - off)) in
  sbr_ReadBlocks (NewStackedBlockReader rs blockSize numBlocks) buf off =
  Ret (filled (img (overlay cs)) buf off m, m, if m <? n then Some EOF else None).
Proof.
  intros Hrs Hne Hoff Hn Hl m. unfold sbr_ReadBlocks. cbn.
  rewrite Hl, aligned. cbn. by apply readBlocksFrom_ok.
Qed.

(** The same for any stack, the empty one too, within the device. *)
Lemma stacked_read_inside rs cs buf off n :
  Forall2 ok rs cs -> 0 <= off -> 0 <= n -> off + n <= numBlocks -> len buf = n * blockSize ->
  sbr_ReadBlocks (NewStackedBlockReader rs blockSize numBlocks) buf off =
  Ret (read_image (img (overlay cs)) off n, n, None).
Proof.
  intros Hrs Hoff Hn Hin Hl. unfold sbr_ReadBlocks. cbn.
  rewrite Hl, aligned. cbn. by apply readBlocksFrom_inside.
Qed.
End correctness.

(** ** Witnesses and examples *)
Definition example_top : mem_reader := MemReader 2 6 {[0 := 1; 2 := 3; 3 := 4]} (fun _ => false).
Definition example_low : mem_reader := MemReader 2 6 {[0 := 9; 1 := 8; 4 := 7]} (fun _ => false).

Lemma stacked_read_overlay_witness :
  sbr_ReadBlocks (NewStackedBlockReader [example_top; example_low] 2 6) (zeros 14) 0 =
  Ret ([1; 1; 8; 8; 3; 3; 4; 4; 7; 7; 0; 0; 0; 0], 6, Some EOF).
Proof.
  rewrite (stacked_read_overlay 2 6 ltac:(lia) ltac:(lia) [example_top; example_low]
    [mem_content example_top; mem_content example_low] (zeros 14) 0 7); [vm_compute; reflexivity| |..].
  - constructor; [by apply (mem_reader_ok example_top)|].
    constructor; [by apply (mem_reader_ok example_low)|constructor].
  - done.
  - done.
  - done.
  - done.
Defined.

(** A read that fails in the middle reports the blocks of the failing call only
    (line 63 returns [n], every other return [blocksRead]): three blocks of the
    buffer are filled here, and the count is 1. *)
Example stacked_error_count :
  sbr_ReadBlocks
    (NewStackedBlockReader [MemReader 2 6 {[0 := 1; 2 := 3; 3 := 4]} (fun k => k =? 3); example_low]
      2 6) (zeros 8) 0 =
  Ret ([1; 1; 8; 8; 3; 3; 0; 0], 1, Some ErrIO).
Proof. vm_compute. reflexivity. Qed.
