(* ===== verification/BlockMap.v ===== *)
(** * The block map

    [internal/blockmap/reader.go]: the index of the device, which maps each
    block to the reader that holds its newest version. The range map stores a
    16-bit index per block; [valueMap] and [indexMap] translate between indices
    and readers, and [freeSet] holds the unused indices.

    A reader is a value of a type [R] with decidable equality, as Go compares
    interface values. The range map and the bit set are used through their
    interfaces. Each method runs as one step, as under the reader's lock. *)
From S2P Require Import Prelude Bits RangeMap BlockReader.
Local Open Scope Z_scope.

Section blockmap.
Context {R : Type} `{!EqDecision R} `{!Countable R} `{!BlockHoleReader R}.
Context {M : Type} `{!RangeMap Z M}.
Context {BS : Type} `{!BitSet BS}.

Record Reader := MkReader {
  blockSize : Z;
  numBlocks : Z;
  rangeMap : M;
  valueMap : gmap Z R;
  indexMap : gmap R Z;
  freeSet : BS;
  rs : list R;
}.

Definition NewReader (blockSize numBlocks : Z) : Reader :=
  MkReader blockSize numBlocks rm_new ∅ ∅ (bs_clear (bs_set_all (bs_new (2 ^ 16))) 0) [].

Definition set_rangeMap (r : Reader) (m : M) : Reader :=
  MkReader (blockSize r) (numBlocks r) m (valueMap r) (indexMap r) (freeSet r) (rs r).
Definition set_rs (r : Reader) (l : list R) : Reader :=
  MkReader (blockSize r) (numBlocks r) (rangeMap r) (valueMap r) (indexMap r) (freeSet r) l.
Definition set_index (r : Reader) (vm : gmap Z R) (im : gmap R Z) (fs : BS) : Reader :=
  MkReader (blockSize r) (numBlocks r) (rangeMap r) vm im fs (rs r).

Definition bm_NextBlockData (r : Reader) (off : Z) : outcome (Z * option error) :=
  next ← rm_NextKey (rangeMap r) (u64 off);
  Ret match next with None => (0, Some EOF) | Some next => (i64 next, None) end.

Definition bm_NextBlockHole (r : Reader) (off : Z) : outcome (Z * option error) :=
  e ← rm_NextEmpty (rangeMap r) (u64 off); Ret (i64 e, None).

Definition fetchOrAddValueIndex (r : Reader) (br : R) : outcome (Z * Reader) :=
  match indexMap r !! br with
  | Some iv => Ret (iv, r)
  | None =>
      nv ← of_option (bs_next_set (freeSet r) 1);
      Ret (u16 nv, set_index r (<[u16 nv := br]> (valueMap r)) (<[br := u16 nv]> (indexMap r))
                     (bs_clear (freeSet r) nv))
  end.

Definition BatchSize : nat := 4096.

(** [doAdd]: [for _, rg := range rl { r.rangeMap.Add(...) }] *)
Fixpoint doAdd (iv : Z) (m : M) (rl : list (Z * Z)) : outcome M :=
  match rl with
  | [] => Ret m
  | (offset, length) :: rl' => m' ← rm_Add m (u64 offset) (u64 length) iv; doAdd iv m' rl'
  end.

(** [addRange] *)
Definition addRange (iv : Z) (m : M) (rl : list (Z * Z)) (offset length : Z) :
    outcome (M * list (Z * Z)) :=
  let rl := rl ++ [(offset, length)] in
  if (BatchSize <=? List.length rl)%nat then m' ← doAdd iv m rl; Ret (m', []) else Ret (m, rl).

(** The loop over the data of [br]; the deferred [doAdd] runs at its end. *)
Fixpoint push_loop (fuel : nat) (br : R) (iv : Z) (m : M) (rl : list (Z * Z)) (offset : Z) :
    outcome M :=
  match fuel with
  | O => OutOfFuel
  | S fuel =>
      '(startOffset, err) ← NextBlockData br offset;
      match err with
      | Some EOF => doAdd iv m rl
      | Some _ => Panic
      | None =>
          '(endOffset, err) ← NextBlockHole br startOffset;
          match err with
          | Some _ => Panic
          | None =>
              let length := endOffset - startOffset in
              '(m', rl') ← addRange iv m rl startOffset length;
              push_loop fuel br iv m' rl' endOffset
          end
      end
  end.

(** Each iteration moves past a block of the device. *)
Definition PushReader (r : Reader) (br : R) : outcome Reader :=
  if bool_decide (br ∈ rs r) then Panic
  else
    let r := set_rs r (rs r ++ [br]) in
    '(iv, r) ← fetchOrAddValueIndex r br;
    m ← push_loop (S (Z.to_nat (numBlocks r))) br iv (rangeMap r) [] 0;
    Ret (set_rangeMap r m).

Definition RemoveTable (r : Reader) (br : R) : outcome Reader :=
  let r := set_rs r (delete_first br (rs r)) in
  let iv := default 0 (indexMap r !! br) in
  if iv =? 0 then Panic
  else Ret (set_index r (delete iv (valueMap r)) (delete br (indexMap r)) (bs_set (freeSet r) iv)).

Definition ListReaders (r : Reader) : list R := rs r.

Definition LiveBlocks (r : Reader) : outcome Z :=
  count ← rm_Iterate (rangeMap r) 0 (fun rg count => (count +u Length rg, true)) 0;
  Ret (i64 count).

(** A key of [liveBlocks] is an interface value: [None] is [nil], which
    [valueMap] gives for an index it does not hold. *)
Definition GetLiveBlocks (r : Reader) : outcome (gmap (option R) Z) :=
  blockCount ← rm_Iterate (rangeMap r) 0
    (fun rg (bc : gmap Z Z) =>
       (<[Value rg := i64 (default 0 (bc !! Value rg) + i64 (Length rg))]> bc, true)) ∅;
  let liveBlocks := fold_left (fun lb br => <[Some br := 0]> lb) (rs r) ∅ in
  Ret (fold_left (fun lb '(iv, c) => <[valueMap r !! iv := c]> lb) (map_to_list blockCount)
                 liveBlocks).

(** The loop over [rs] of [ReaderForLiveBytes], with the set [readers]. *)
Fixpoint live_readers (r : Reader) (brs : list R) (newReader : Reader) (readers : gset Z) :
    outcome (Reader * gset Z) :=
  match brs with
  | [] => Ret (newReader, readers)
  | br :: brs' =>
      iv ← of_option (indexMap r !! br);
      live_readers r brs'
        (set_index newReader (<[iv := br]> (valueMap newReader)) (<[br := iv]> (indexMap newReader))
           (bs_clear (freeSet newReader) iv)) (readers ∪ {[iv]})
  end.

Definition ReaderForLiveBytes (r : Reader) (brs : list R) : outcome Reader :=
  let newReader := set_rs (NewReader (blockSize r) (numBlocks r)) brs in
  '(newReader, readers) ← live_readers r brs newReader ∅;
  om ← rm_Iterate (rangeMap r) 0
    (fun rg (om : outcome M) =>
       let i := Value rg in
       (if bool_decide (i ∈ readers) then m ← om; rm_Add m (Offset rg) (Length rg) i else om, true))
    (Ret (rangeMap newReader));
  m ← om; Ret (set_rangeMap newReader m).

Definition find (r : Reader) (off : Z) : outcome (option R) :=
  iv ← rm_Get (rangeMap r) (u64 off); Ret (iv ≫= fun iv => valueMap r !! iv).

(** [for ; rem > 0; rem-- { ... readSizeBlocks++ }] *)
Fixpoint run_length (r : Reader) (br : R) (off : Z) (readSizeBlocks : Z) (rem : nat) : outcome Z :=
  match rem with
  | O => Ret readSizeBlocks
  | S rem =>
      nextR ← find r (off + readSizeBlocks);
      if bool_decide (nextR = Some br) then run_length r br off (readSizeBlocks + 1) rem
      else Ret readSizeBlocks
  end.

(** [for len(b) > 0 { ... }]; [pre] is what the loop has passed of the
    buffer. *)
Fixpoint read_blocks_loop (fuel : nat) (r : Reader) (pre b : bytes) (off n : Z) :
    outcome (bytes * Z * option error) :=
  match fuel with
  | O => OutOfFuel
  | S fuel =>
      if len b =? 0 then Ret (pre, n, None)
      else
        br ← find r off;
        match br with
        | None =>
            q ← slice_to b (blockSize r);
            b' ← slice_from b (blockSize r);
            read_blocks_loop fuel r (pre ++ clear q) b' (off + 1) (n + 1)
        | Some br =>
            let rem := len b / blockSize r - 1 in
            readSizeBlocks ← run_length r br off 1 (Z.to_nat rem);
            q ← slice_to b (readSizeBlocks * blockSize r);
            '(q', blocksRead, err) ← ReadBlocks br q off;
            let b := q' ++ drop (Z.to_nat (readSizeBlocks * blockSize r)) b in
            let n := n + blocksRead in
            let off := off + blocksRead in
            match err with
            | Some e => Ret (pre ++ b, n, Some e)
            | None =>
                b' ← slice_from b (blocksRead * blockSize r);
                read_blocks_loop fuel r (pre ++ take (Z.to_nat (blocksRead * blockSize r)) b)
                  b' off n
            end
        end
  end.

Definition bm_ReadBlocks (r : Reader) (b : bytes) (off : Z) :
    outcome (bytes * Z * option error) :=
  if negb (len b mod blockSize r =? 0) then Ret (b, 0, Some ErrInvalidSize)
  else read_blocks_loop (S (length b)) r [] b off 0.
End blockmap.
Arguments Reader R {_ _} M BS.

(** ** The index is consistent *)
Section correctness.
Context {R : Type} `{!EqDecision R} `{!Countable R} `{!BlockHoleReader R}.
Context {M : Type} `{!RangeMap Z M} `{!RangeMapLaws Z M}.
Context {BS : Type} `{!BitSet BS} `{!BitSetLaws BS}.
Context (bs nb : Z) (Hbs : 0 < bs) (Hnb : 0 <= nb <= 2 ^ 48).
Implicit Types (r : Reader R M BS) (br : R) (C : R -> content).

Abbreviation view r := (rm_view (rangeMap r)).

(** The reader of block [k]. *)
Definition owner r (k : Z) : option R := view r k ≫= fun iv => valueMap r !! iv.

(** Every index of the range map is in use, the two maps are inverse, the
    free set is the complement of the indices in use, and [rs] lists the
    readers once each. *)
Record bm_wf r : Prop := {
  wf_blockSize : blockSize r = bs;
  wf_numBlocks : numBlocks r = nb;
  wf_rangeMap : rm_wf (rangeMap r);
  wf_view_range k : is_Some (view r k) -> 0 <= k < nb;
  wf_values k iv : view r k = Some iv -> is_Some (valueMap r !! iv);
  wf_inverse br iv : indexMap r !! br = Some iv <-> valueMap r !! iv = Some br;
  wf_index iv : is_Some (valueMap r !! iv) -> 1 <= iv < 2 ^ 16;
  wf_free i : bs_test (freeSet r) i = true <-> 1 <= i < 2 ^ 16 /\ valueMap r !! i = None;
  wf_NoDup : NoDup (rs r);
  wf_rs br : br ∈ rs r <-> is_Some (indexMap r !! br);
}.

(** The block a reader owns is one it has. *)
Definition coherent C r : Prop := forall k br, owner r k = Some br -> is_Some (C br k).

(** The contents of the map, when [C br] are the contents of [br]. *)
Definition bm_content C r : content := fun k => owner r k ≫= fun br => C br k.

Lemma NewReader_wf : bm_wf (NewReader bs nb).
Proof.
  split; cbn -[lookup]; try done.
  - apply rm_new_wf.
  - intros k. rewrite rm_new_view. by intros [? ?].
  - intros k iv. by rewrite rm_new_view.
  - intros iv. rewrite lookup_empty. by intros [? ?].
  - intros i. rewrite bs_test_clear, bs_test_set_all, bs_len_new by lia.
    rewrite lookup_empty, andb_true_iff, negb_true_iff, bool_decide_eq_false, bool_decide_eq_true.
    intuition (done || lia).
  - constructor.
  - intros br. rewrite lookup_empty. by split; [intros ?%elem_of_nil|intros [? ?]].
Qed.

Lemma NewReader_owner k : owner (NewReader bs nb) k = None.
Proof. unfold owner. cbn. by rewrite rm_new_view. Qed.

Lemma size_valueMap r : bm_wf r -> (size (valueMap r) <= length (rs r))%nat.
Proof.
  intros Hwf. rewrite <- length_map_to_list.
  rewrite <- (length_fmap snd). apply submseteq_length, NoDup_submseteq.
  - apply NoDup_fmap_2_strong; [|apply NoDup_map_to_list].
    intros [i x] [j y] Hi%elem_of_map_to_list Hj%elem_of_map_to_list. cbn. intros <-.
    apply (wf_inverse r Hwf) in Hi, Hj. congruence.
  - intros br Hbr. apply list_elem_of_fmap in Hbr as ([iv x] & -> & Hx%elem_of_map_to_list).
    apply (wf_rs r Hwf). exists iv. by apply (wf_inverse r Hwf).
Qed.

Lemma indices_size (vm : gmap Z R) :
  (forall i, 1 <= i < 2 ^ 16 -> is_Some (vm !! i)) -> 65535 <= Z.of_nat (size vm).
Proof.
  intros Hall. rewrite <- size_dom.
  assert (size (list_to_set (seqZ 1 65535) : gset Z) <= size (dom vm))%nat as Hs.
  { apply subseteq_size. intros i Hi%elem_of_list_to_set%elem_of_seqZ.
    apply elem_of_dom, Hall. lia. }
  rewrite size_list_to_set in Hs by apply NoDup_seqZ. rewrite length_seqZ in Hs. lia.
Qed.

Lemma free_index r :
  bm_wf r -> Z.of_nat (length (rs r)) < 65535 ->
  exists nv, bs_next_set (freeSet r) 1 = Some nv /\ 1 <= nv < 2 ^ 16 /\ valueMap r !! nv = None.
Proof.
  intros Hwf Hl. destruct (bs_next_set (freeSet r) 1) as [nv|] eqn:E.
  - apply bs_next_set_Some in E as (Hle & Ht & _); [|lia].
    apply (wf_free r Hwf) in Ht as [? ?]. eauto.
  - exfalso. pose proof (bs_next_set_None (freeSet r) 1 ltac:(lia) E) as Hn.
    pose proof (size_valueMap r Hwf). pose proof (indices_size (valueMap r)) as Hs.
    enough (65535 <= Z.of_nat (size (valueMap r))) by lia. apply Hs.
    intros i Hi. apply not_eq_None_Some. intros Hi0.
    assert (bs_test (freeSet r) i = true) by (by apply (wf_free r Hwf)).
    by rewrite Hn in * by lia.
Qed.

Lemma register_wf r br nv :
  bm_wf r -> br ∉ rs r -> 1 <= nv < 2 ^ 16 -> valueMap r !! nv = None ->
  bm_wf (set_index (set_rs r (rs r ++ [br])) (<[nv := br]> (valueMap r)) (<[br := nv]> (indexMap r))
           (bs_clear (freeSet r) nv)).
Proof.
  intros Hwf Hbr Hnv Hv. assert (indexMap r !! br = None) as Hi.
  { apply eq_None_not_Some. by rewrite <- (wf_rs r Hwf). }
  destruct Hwf as [? ? ? Hvr Hvals Hinv Hidx Hfree Hnd Hrs]. split; cbn; try done.
  - intros k iv Hk. destruct (decide (iv = nv)) as [->|]; simplify_map_eq; eauto.
  - intros br' iv. destruct (decide (br' = br)) as [->|], (decide (iv = nv)) as [->|];
      simplify_map_eq; [done| | |by apply Hinv].
    + split; [congruence|]. intros Hb%Hinv. congruence.
    + split; [intros Hb%Hinv; congruence|congruence].
  - intros iv. destruct (decide (iv = nv)) as [->|]; simplify_map_eq; auto.
  - intros i. rewrite bs_test_clear by lia. rewrite andb_true_iff, negb_true_iff, bool_decide_eq_false.
    rewrite Hfree. destruct (decide (i = nv)) as [->|]; simplify_map_eq; naive_solver.
  - rewrite NoDup_app. split_and!; [done| |apply NoDup_singleton]. set_solver.
  - intros br'. rewrite elem_of_app, list_elem_of_singleton, Hrs.
    destruct (decide (br' = br)) as [->|]; simplify_map_eq; naive_solver.
Qed.

Lemma fetchOrAddValueIndex_ok r br :
  bm_wf r -> br ∉ rs r -> Z.of_nat (length (rs r)) < 65535 ->
  exists nv r', fetchOrAddValueIndex (set_rs r (rs r ++ [br])) br = Ret (nv, r') /\
    bm_wf r' /\ rangeMap r' = rangeMap r /\ rs r' = rs r ++ [br] /\
    valueMap r !! nv = None /\ valueMap r' = <[nv := br]> (valueMap r).
Proof.
  intros Hwf Hbr Hl. assert (indexMap r !! br = None) as Hi.
  { apply eq_None_not_Some. by rewrite <- (wf_rs r Hwf). }
  destruct (free_index r Hwf Hl) as (nv & E & Hnv & Hv).
  unfold fetchOrAddValueIndex. cbn. rewrite Hi, E. cbn. rewrite u16_small by lia.
  eexists _, _. split; [done|]. split; [by apply register_wf|done].
Qed.

(** Changing the range map keeps the invariant when the new ranges lie in the
    device and have an index in use. *)
Lemma set_rangeMap_wf r (m : M) iv :
  bm_wf r -> rm_wf m -> is_Some (valueMap r !! iv) ->
  (forall k i, rm_view m k = Some i -> view r k = Some i \/ (i = iv /\ 0 <= k < nb)) ->
  bm_wf (set_rangeMap r m).
Proof.
  intros [? ? ? Hvr Hvals Hinv Hidx Hfree Hnd Hrs] Hm Hiv Hview. split; cbn; try done.
  - intros k [i Hi]. destruct (Hview _ _ Hi) as [Hv|[_ ?]]; [|done]. apply Hvr. by eexists.
  - intros k i Hi. destruct (Hview _ _ Hi) as [Hv|[-> _]]; [by eapply Hvals|done].
Qed.

(** ** Pushing a reader *)
Definition covers (rl : list (Z * Z)) (k : Z) : bool :=
  existsb (fun rg => (rg.1 <=? k) && (k <? rg.1 + rg.2)) rl.

Definition in_device (rg : Z * Z) : Prop := 0 <= rg.1 /\ 0 <= rg.2 /\ rg.1 + rg.2 <= nb.

Lemma covers_app rl1 rl2 k : covers (rl1 ++ rl2) k = covers rl1 k || covers rl2 k.
Proof. apply existsb_app. Qed.

Lemma view_add_eq (v : Z -> option Z) off l iv k :
  view_add v off l iv k = if (off <=? k) && (k <? off + l) then Some iv else v k.
Proof.
  unfold view_add. case_bool_decide; destruct (Z.leb_spec off k), (Z.ltb_spec k (off + l));
    cbn; done || lia.
Qed.

Lemma rm_Add_device (m : M) off l iv :
  rm_wf m -> in_device (off, l) ->
  exists m', rm_Add m (u64 off) (u64 l) iv = Ret m' /\ rm_wf m' /\
    forall k, rm_view m' k = if covers [(off, l)] k then Some iv else rm_view m k.
Proof.
  intros Hwf (Ho & Hl & He). cbn in *. pose proof rm_limit_range.
  rewrite !u64_small by lia.
  destruct (rm_Add_ok m off l iv) as (m' & E & Hwf' & Hv); [done|lia..|].
  exists m'. split; [done|]. split; [done|]. intros k. rewrite Hv, view_add_eq.
  cbn. by rewrite orb_false_r.
Qed.

Lemma doAdd_ok iv (m : M) rl :
  rm_wf m -> Forall in_device rl ->
  exists m', doAdd iv m rl = Ret m' /\ rm_wf m' /\
    forall k, rm_view m' k = if covers rl k then Some iv else rm_view m k.
Proof.
  intros Hwf Hrl. revert m Hwf. induction Hrl as [|[o l] rl Hrg Hrl IH]; intros m Hwf; [by eauto|].
  destruct (rm_Add_device m o l iv Hwf Hrg) as (m1 & E1 & Hwf1 & Hv1).
  destruct (IH m1 Hwf1) as (m2 & E2 & Hwf2 & Hv2).
  exists m2. split; [cbn; by rewrite E1|]. split; [done|].
  intros k. rewrite Hv2, Hv1, (covers_app [(o, l)] rl).
  by destruct (covers [(o, l)] k), (covers rl k).
Qed.

Lemma addRange_ok iv (m : M) rl off l :
  rm_wf m -> Forall in_device rl -> in_device (off, l) ->
  exists m' rl', addRange iv m rl off l = Ret (m', rl') /\ rm_wf m' /\ Forall in_device rl' /\
    forall k, (if covers rl' k then Some iv else rm_view m' k) =
              (if covers (rl ++ [(off, l)]) k then Some iv else rm_view m k).
Proof.
  intros Hwf Hrl Hrg. unfold addRange.
  assert (Forall in_device (rl ++ [(off, l)])) by (apply Forall_app; split; [done|by repeat constructor; apply Hrg]).
  destruct (_ <=? _)%nat; [|by eauto 10].
  destruct (doAdd_ok iv m (rl ++ [(off, l)])) as (m' & -> & Hwf' & Hv); [done..|].
  exists m', []. cbn. auto.
Qed.

Lemma push_loop_ok br c iv fuel :
  reader_ok bs nb br c ->
  forall (m : M) rl offset, rm_wf m -> Forall in_device rl ->
  0 <= offset <= nb -> nb - offset < Z.of_nat fuel ->
  exists m', push_loop fuel br iv m rl offset = Ret m' /\ rm_wf m' /\
    forall k, rm_view m' k = if covers rl k || (offset <=? k) && bool_decide (is_Some (c k))
                             then Some iv else rm_view m k.
Proof.
  intros Hok. induction fuel as [|fuel IH]; intros m rl offset Hwf Hrl Hoff Hf; [lia|]. cbn.
  destruct (ok_NextBlockData _ _ _ _ Hok offset Hoff) as ([s|] & Hs & E).
  - rewrite E. cbn. pose proof (next_key_limit _ _ _ _ _ _ Hok Hs) as Hlim.
    destruct Hs as (Hle & Hs & Hnone).
    destruct (ok_NextBlockHole _ _ _ _ Hok s) as (h & -> & Hh); [lia|]. cbn.
    pose proof (next_hole_limit _ _ _ _ s h Hok ltac:(lia) Hh). destruct Hh as (Hsh & Hch & Hsome).
    assert (s <> h). { intros ->. rewrite Hch in Hs. by destruct Hs. }
    destruct (addRange_ok iv m rl s (h - s)) as (m1 & rl1 & -> & Hwf1 & Hrl1 & Hv1); [done..| |].
    { split_and!; cbn; lia. }
    cbn. destruct (IH m1 rl1 h) as (m2 & E2 & Hwf2 & Hv2); [done|done|lia|lia|].
    exists m2. split; [done|]. split; [done|]. intros k. rewrite Hv2. specialize (Hv1 k).
    rewrite covers_app in Hv1. cbn in Hv1. rewrite orb_false_r in Hv1.
    replace (s + (h - s)) with h in Hv1 by lia.
    assert (Hc : (offset <=? k) && bool_decide (is_Some (c k)) =
                 (s <=? k) && (k <? h) || (h <=? k) && bool_decide (is_Some (c k))).
    { destruct (Z.leb_spec h k); [by rewrite !(proj2 (Z.leb_le _ _)), (proj2 (Z.ltb_ge _ _)) by lia|].
      rewrite (proj2 (Z.ltb_lt _ _)) by lia. cbn. rewrite orb_false_r, andb_true_r.
      destruct (Z.leb_spec s k).
      - rewrite bool_decide_eq_true_2 by (apply Hsome; lia). lia.
      - destruct (Z.leb_spec offset k); [|done]. cbn.
        rewrite Hnone by lia. by apply bool_decide_eq_false, is_Some_None. }
    rewrite Hc, orb_assoc. set (late := (h <=? k) && _). set (early := covers rl k || _) in *.
    by destruct (covers rl1 k), early, late; cbn in *.
  - destruct E as [k' ->]. cbn. destruct (doAdd_ok iv m rl Hwf Hrl) as (m' & E & Hwf' & Hv).
    exists m'. split; [done|]. split; [done|]. intros k. rewrite Hv.
    destruct (Z.leb_spec offset k); cbn; [|by rewrite orb_false_r].
    rewrite (Hs k) by done. rewrite bool_decide_eq_false_2 by apply is_Some_None.
    by rewrite orb_false_r.
Qed.

Lemma PushReader_ok r br c :
  bm_wf r -> br ∉ rs r -> Z.of_nat (length (rs r)) < 65535 -> reader_ok bs nb br c ->
  exists r', PushReader r br = Ret r' /\ bm_wf r' /\ rs r' = rs r ++ [br] /\
    forall k, owner r' k = if bool_decide (is_Some (c k)) then Some br else owner r k.
Proof.
  intros Hwf Hbr Hl Hok. unfold PushReader. rewrite bool_decide_eq_false_2 by done.
  destruct (fetchOrAddValueIndex_ok r br Hwf Hbr Hl) as (nv & r1 & -> & Hwf1 & Hm1 & Hrs1 & Hnv & Hv1).
  cbn -[push_loop]. rewrite (wf_numBlocks r1 Hwf1).
  destruct (push_loop_ok br c nv (S (Z.to_nat nb)) Hok (rangeMap r1) [] 0)
    as (m' & -> & Hwf' & Hv); [apply Hwf1|constructor|lia|lia|].
  assert (Hview : forall k, rm_view m' k =
    if bool_decide (is_Some (c k)) then Some nv else view r k).
  { intros k. rewrite Hv, Hm1. cbn. case_bool_decide as Hs; rewrite ?andb_false_r; [|done].
    apply (ok_range _ _ _ _ Hok) in Hs. rewrite (proj2 (Z.leb_le _ _)) by lia. done. }
  cbn. eexists. split; [done|]. split; [|split; [done|]].
  - apply (set_rangeMap_wf r1 m' nv); [done|done|by rewrite Hv1, lookup_insert_eq|].
    intros k iv. rewrite Hview, Hm1. case_bool_decide as Hs; [|by left]. intros [= <-]. right.
    split; [done|]. by apply (ok_range _ _ _ _ Hok).
  - intros k. unfold owner. cbn. rewrite Hview, Hv1. case_bool_decide; cbn.
    + by rewrite lookup_insert_eq.
    + destruct (view r k) as [iv|] eqn:E; [cbn|done]. apply lookup_insert_ne.
      intros <-. apply (wf_values r Hwf) in E. rewrite Hnv in E. by destruct E.
Qed.

(** ** Reading *)
Lemma find_ok r off : bm_wf r -> 0 <= off < 2 ^ 64 -> find r off = Ret (owner r off).
Proof.
  intros Hwf Hoff. unfold find. rewrite u64_small by lia.
  by rewrite rm_Get_ok by (apply Hwf || lia).
Qed.

Lemma owner_rs r k br : bm_wf r -> owner r k = Some br -> br ∈ rs r.
Proof.
  intros Hwf (iv & _ & Hiv)%bind_Some. apply (wf_rs r Hwf). exists iv.
  by apply (wf_inverse r Hwf).
Qed.

Lemma owner_view r k : bm_wf r -> owner r k = None <-> view r k = None.
Proof.
  intros Hwf. unfold owner. destruct (view r k) as [iv|] eqn:E; cbn; [|done].
  apply (wf_values r Hwf) in E as [br ->]. done.
Qed.

Lemma bm_content_None C r k : bm_wf r -> coherent C r -> bm_content C r k = None <-> view r k = None.
Proof.
  intros Hwf Hco. rewrite <- owner_view by done. unfold bm_content.
  destruct (owner r k) as [br|] eqn:E; cbn; [|done].
  apply Hco in E as [b ->]. done.
Qed.

Lemma run_length_ok r br off s rem :
  bm_wf r -> 0 <= off -> 0 <= s -> off + s + Z.of_nat rem < 2 ^ 64 ->
  exists s', run_length r br off s rem = Ret s' /\ s <= s' <= s + Z.of_nat rem /\
    forall k, off + s <= k < off + s' -> owner r k = Some br.
Proof.
  intros Hwf Hoff. revert s. induction rem as [|rem IH]; intros s Hs Hlt; cbn.
  { exists s. split; [done|]. split; [lia|]. intros; lia. }
  rewrite find_ok by (done || lia). cbn. case_bool_decide as Hb.
  - destruct (IH (s + 1)) as (s' & -> & Hs' & Ho); [lia|lia|]. exists s'. split; [done|].
    split; [lia|]. intros k Hk. destruct (decide (k = off + s)) as [->|]; [done|]. apply Ho. lia.
  - exists s. split; [done|]. split; [lia|]. intros; lia.
Qed.

Section reads.
Context (C : R -> content) (r : Reader R M BS).
Context (Hwf : bm_wf r) (Hco : coherent C r).
Context (Hok : forall br, br ∈ rs r -> reader_ok bs nb br (C br)).
Abbreviation im := (image bs (bm_content C r)).

Lemma bm_content_sized : blocks_sized bs (bm_content C r).
Proof.
  intros k b (br & Hbr & Hb)%bind_Some. apply owner_rs in Hbr; [|done].
  by apply (ok_sized _ _ _ _ (Hok _ Hbr) k).
Qed.

Lemma read_owned br off n :
  (forall k, off <= k < off + n -> owner r k = Some br) ->
  read_image (image bs (C br)) off n = read_image im off n.
Proof.
  intros Ho. apply read_image_ext. intros k Hk. unfold image, bm_content. by rewrite Ho.
Qed.

Lemma read_blocks_loop_ok fuel : forall pre b off cnt n,
  n < Z.of_nat fuel -> 0 <= off -> 0 <= n -> off + n <= nb -> len b = n * bs ->
  exists err, read_blocks_loop fuel r pre b off cnt =
                Ret (pre ++ read_image im off n, cnt + n, err) /\
              (err = None \/ (err = Some EOF /\ off + n = nb)).
Proof.
  induction fuel as [|fuel IH]; intros pre b off cnt n Hf Hoff Hn Hin Hl; [lia|].
  cbn [read_blocks_loop]. destruct (Z.eqb_spec (len b) 0) as [Hz|Hz].
  { assert (n = 0) as -> by nia. exists None. rewrite app_nil_r, Z.add_0_r. auto. }
  assert (0 < n) by nia. rewrite find_ok by (done || lia). cbn -[Z.mul run_length].
  rewrite (wf_blockSize r Hwf). destruct (owner r off) as [br|] eqn:Ho.
  - destruct (run_length_ok r br off 1 (Z.to_nat (len b / bs - 1))) as (s & -> & Hs & Hown);
      [done|lia|lia| |]. { rewrite Hl, Z.div_mul by lia. lia. }
    rewrite Hl, Z.div_mul in Hs by lia. cbn -[Z.mul].
    assert (Hbr : forall k, off <= k < off + s -> owner r k = Some br).
    { intros k Hk. destruct (decide (k = off)) as [->|]; [done|]. apply Hown. lia. }
    rewrite slice_to_ok by nia. cbn -[Z.mul].
    destruct (ok_ReadBlocks _ _ _ _ (Hok br (owner_rs _ _ _ Hwf Ho))
      (take (Z.to_nat (s * bs)) b) off s) as (err & -> & Herr);
      [lia|lia|rewrite len_take; nia|intros k Hk; by apply Hco, Hbr|].
    rewrite (read_owned br) by done. cbn -[Z.mul].
    assert (Hlr : len (read_image im off s) = s * bs)
      by (apply len_read_content; [lia|apply bm_content_sized|lia]).
    destruct Herr as [->|[-> Hend]].
    + rewrite slice_from_ok by (rewrite len_app, len_drop; nia). cbn -[Z.mul].
      rewrite take_len_eq, drop_len_eq by done.
      destruct (IH (pre ++ read_image im off s) (drop (Z.to_nat (s * bs)) b) (off + s)
        (cnt + s) (n - s)) as (err & -> & Herr); [lia..|rewrite len_drop; nia|].
      exists err. rewrite <- app_assoc, <- read_image_app by lia.
      replace (s + (n - s)) with n by lia. replace (cnt + s + (n - s)) with (cnt + n) by lia.
      split; [done|]. replace (off + n) with (off + s + (n - s)) by lia. done.
    + assert (s = n) as -> by lia. exists (Some EOF). split; [|by right].
      by rewrite drop_ge, app_nil_r by (unfold len in *; nia).
  - rewrite slice_to_ok, slice_from_ok by nia. cbn -[Z.mul]. unfold clear.
    rewrite len_take by nia.
    destruct (IH (pre ++ zeros bs) (drop (Z.to_nat bs) b) (off + 1) (cnt + 1) (n - 1))
      as (err & -> & Herr); [lia..|rewrite len_drop; nia|].
    exists err. assert (zeros bs = read_image im off 1) as ->.
    { rewrite read_image_1. unfold image, bm_content. by rewrite Ho. }
    rewrite <- app_assoc, <- read_image_app by lia.
    replace (1 + (n - 1)) with n by lia. replace (cnt + 1 + (n - 1)) with (cnt + n) by lia.
    split; [done|]. replace (off + n) with (off + 1 + (n - 1)) by lia. done.
Qed.

Lemma bm_ReadBlocks_ok b off n :
  0 <= off -> 0 <= n -> off + n <= nb -> len b = n * bs ->
  exists err, bm_ReadBlocks r b off = Ret (read_image im off n, n, err) /\
              (err = None \/ (err = Some EOF /\ off + n = nb)).
Proof.
  intros Hoff Hn Hin Hl. unfold bm_ReadBlocks.
  rewrite (wf_blockSize r Hwf), Hl, Z.mod_mul by lia. cbn -[read_blocks_loop].
  apply (read_blocks_loop_ok _ [] b off 0 n); [unfold len in *; nia|done..].
Qed.

Lemma bm_NextBlockData_ok off :
  0 <= off <= nb ->
  exists k, next_key_spec (bm_content C r) off k /\
    match k with
    | Some k => bm_NextBlockData r off = Ret (k, None)
    | None => exists k', bm_NextBlockData r off = Ret (k', Some EOF)
    end.
Proof.
  intros Hoff. unfold bm_NextBlockData. rewrite u64_small by lia.
  destruct (rm_NextKey_ok (rangeMap r) off) as (k & -> & Hk); [apply Hwf|lia|].
  exists k. destruct k as [k|]; cbn in *.
  - destruct Hk as (Hle & Hs & Hj). pose proof (wf_view_range r Hwf k Hs).
    split; [|by rewrite i64_small by lia]. split; [done|]. split.
    + apply not_eq_None_Some. rewrite bm_content_None by done. by apply not_eq_None_Some.
    + intros j Hjk. rewrite bm_content_None by done. auto.
  - split; [|eauto]. intros j Hj. rewrite bm_content_None by done. auto.
Qed.

Lemma bm_NextBlockHole_ok off :
  0 <= off <= nb ->
  exists h, bm_NextBlockHole r off = Ret (h, None) /\ next_empty_spec (bm_content C r) off h.
Proof.
  intros Hoff. unfold bm_NextBlockHole. rewrite u64_small by lia.
  destruct (rm_NextEmpty_ok (rangeMap r) off) as (h & -> & Hle & Hh & Hj); [apply Hwf|lia|].
  cbn. assert (h <= nb).
  { destruct (decide (h <= nb)); [done|].
    pose proof (wf_view_range r Hwf nb ltac:(apply Hj; lia)). lia. }
  rewrite i64_small by lia. eexists. split; [done|]. split; [done|]. split.
  - by rewrite bm_content_None.
  - intros j Hjk. apply not_eq_None_Some. rewrite bm_content_None by done.
    apply not_eq_None_Some. auto.
Qed.
End reads.
End correctness.

(** The map is itself a reader, with the contents it indexes. *)
#[export] Instance blockmap_reader {R : Type} `{!EqDecision R} `{!Countable R} `{!BlockHoleReader R}
    {M : Type} `{!RangeMap Z M} {BS : Type} : BlockHoleReader (Reader R M BS) := {
  ReadBlocks := bm_ReadBlocks;
  NextBlockData := bm_NextBlockData;
  NextBlockHole := bm_NextBlockHole;
}.

(** A map whose readers meet the contract meets it too. *)
Lemma bm_reader_ok {R : Type} `{!EqDecision R} `{!Countable R} `{!BlockHoleReader R}
    {M : Type} `{!RangeMap Z M} `{!RangeMapLaws Z M} {BS : Type} `{!BitSet BS} (bs nb : Z)
    (C : R -> content) (r : Reader R M BS) :
  0 < bs -> 0 <= nb <= 2 ^ 48 -> bm_wf bs nb r -> coherent C r ->
  (forall br, br ∈ rs r -> reader_ok bs nb br (C br)) ->
  reader_ok bs nb r (bm_content C r).
Proof.
  intros Hbs Hnb Hwf Hco Hok.
  assert (Hrange : forall k, is_Some (bm_content C r k) -> 0 <= k < nb).
  { intros k Hk. apply (wf_view_range bs nb r Hwf), not_eq_None_Some.
    rewrite <- (bm_content_None bs nb C r k) by done. by apply not_eq_None_Some. }
  split.
  - by apply (bm_content_sized bs nb C r).
  - done.
  - intros off Hoff. by apply (bm_NextBlockData_ok bs nb Hnb C r).
  - intros off Hoff. by apply (bm_NextBlockHole_ok bs nb Hnb C r).
  - intros p off n Hn Hoff Hl Hs. assert (0 <= off + n - 1 < nb) by (apply Hrange, Hs; lia).
    apply (bm_ReadBlocks_ok bs nb Hbs Hnb C r); done || lia.
Qed.
