(* ===== verification/BlockMapPush.v ===== *)
(** * A push into the block map, one locked section at a time

    [PushReader] of [internal/blockmap/reader.go] takes the lock of the map to
    register the reader, and again for every batch of ranges it adds, so a
    concurrent read sees the map between two batches. [BlockMap.PushReader]
    runs it in one piece; here it is cut at the lock boundaries, with the
    theorem that the pieces in sequence are the whole. *)
From S2P Require Import Prelude Bits RangeMap BlockReader BlockMap.
Local Open Scope Z_scope.

Section push.
Context {R : Type} `{!EqDecision R} `{!Countable R} {HR : BlockHoleReader R}.
Context {M : Type} `{!RangeMap Z M}.
Context {BS : Type} `{!BitSet BS}.
Implicit Types (r : Reader R M BS) (br : R).

(** The first locked section. *)
Definition push_begin r br : outcome (Z * Reader R M BS) :=
  if bool_decide (br ∈ rs r) then Panic
  else fetchOrAddValueIndex (set_rs r (rs r ++ [br])) br.

(** A push in progress: the reader, its index, the batch and the offset. *)
Record push := MkPush {
  pu_br : R;
  pu_iv : Z;
  pu_rl : list (Z * Z);
  pu_offset : Z;
}.

(** One iteration of the loop, with the locked [doAdd] when the batch is full
    or the data is at its end; [None] is the end of the push. *)
Definition push_next r (p : push) : outcome (Reader R M BS * option push) :=
  let '(MkPush br iv rl offset) := p in
  '(startOffset, err) ← NextBlockData br offset;
  match err with
  | Some EOF => m ← doAdd iv (rangeMap r) rl; Ret (set_rangeMap r m, None)
  | Some _ => Panic
  | None =>
      '(endOffset, err) ← NextBlockHole br startOffset;
      match err with
      | Some _ => Panic
      | None =>
          '(m, rl) ← addRange iv (rangeMap r) rl startOffset (endOffset - startOffset);
          Ret (set_rangeMap r m, Some (MkPush br iv rl endOffset))
      end
  end.

Fixpoint push_rest (fuel : nat) r (p : push) : outcome (Reader R M BS) :=
  match fuel with
  | O => OutOfFuel
  | S fuel =>
      '(r, p) ← push_next r p;
      match p with None => Ret r | Some p => push_rest fuel r p end
  end.

Lemma push_rest_loop fuel : forall r br iv rl offset,
  push_rest fuel r (MkPush br iv rl offset) =
  (m ← push_loop fuel br iv (rangeMap r) rl offset; Ret (set_rangeMap r m)).
Proof.
  induction fuel as [|fuel IH]; intros r br iv rl offset; [done|]. cbn [push_rest push_loop].
  unfold push_next. destruct (NextBlockData br offset) as [[s [[]|]]| |]; cbn; try done.
  - by destruct (doAdd iv (rangeMap r) rl).
  - destruct (NextBlockHole br s) as [[h [e|]]| |]; cbn; try done.
    destruct (addRange iv (rangeMap r) rl s (h - s)) as [[m rl']| |]; cbn; (done || apply IH).
Qed.

(** [PushReader] is its locked sections in sequence. *)
Lemma PushReader_sections r br :
  PushReader r br = ('(iv, r) ← push_begin r br; push_rest (S (Z.to_nat (numBlocks r))) r (MkPush br iv [] 0)).
Proof.
  unfold PushReader, push_begin. case_bool_decide; [done|].
  destruct (fetchOrAddValueIndex _ br) as [[iv r1]| |]; [|done|done].
  unfold mbind at 1 3, outcome_bind. by rewrite push_rest_loop.
Qed.
End push.
Arguments push R : clear implicits.
Arguments MkPush {R} _ _ _ _.
Arguments pu_br {R} _.
Arguments pu_iv {R} _.
Arguments pu_rl {R} _.
Arguments pu_offset {R} _.

Section correctness.
Context {R : Type} `{!EqDecision R} `{!Countable R} {HR : BlockHoleReader R}.
Context {M : Type} `{!RangeMap Z M} `{!RangeMapLaws Z M}.
Context {BS : Type} `{!BitSet BS} `{!BitSetLaws BS}.
Context (bs nb : Z) (Hbs : 0 < bs) (Hnb : 0 <= nb <= 2 ^ 48).
Implicit Types (r : Reader R M BS) (br : R) (c : content) (p : push R).

Lemma push_begin_ok r br iv r' :
  bm_wf bs nb r -> push_begin r br = Ret (iv, r') ->
  (br ∉ rs r) /\ bm_wf bs nb r' /\ rs r' = rs r ++ [br] /\ valueMap r' !! iv = Some br /\
  forall k, owner r' k = owner r k.
Proof.
  intros Hwf. unfold push_begin. case_bool_decide as Hbr; [done|]. intros E.
  assert (indexMap r !! br = None) as Hi.
  { apply eq_None_not_Some. by rewrite <- (wf_rs _ _ r Hwf). }
  unfold fetchOrAddValueIndex in E. cbn in E. rewrite Hi in E.
  destruct (bs_next_set (freeSet r) 1) as [nv|] eqn:En; [|done]. cbn in E. injection E as <- <-.
  apply bs_next_set_Some in En as (Hle & Ht & _); [|lia].
  apply (wf_free _ _ r Hwf) in Ht as [Hnv Hv]. rewrite u16_small by lia.
  split; [done|]. split; [|split; [done|]; split].
  - by apply register_wf.
  - cbn. apply lookup_insert_eq.
  - intros k. unfold owner. cbn. destruct (rm_view (rangeMap r) k) as [i|] eqn:Ek; [cbn|done].
    apply lookup_insert_ne. intros <-. apply (wf_values _ _ r Hwf) in Ek. rewrite Hv in Ek. by destruct Ek.
Qed.

(** The state of a push of [br], whose contents are [c]: what has been added is
    data of [br], and what is before the offset has been added or is in the
    batch. *)
Record pushing c r p : Prop := {
  pg_index : valueMap r !! pu_iv p = Some (pu_br p);
  pg_offset : 0 <= pu_offset p <= nb;
  pg_batch : Forall (in_device nb) (pu_rl p);
  pg_batch_data k : covers (pu_rl p) k = true -> is_Some (c k);
  pg_added k : is_Some (c k) -> k < pu_offset p -> owner r k = Some (pu_br p) \/ covers (pu_rl p) k = true;
}.

(** The effect of adding data of [br] to the map. *)
Record advances c br r r' : Prop := {
  av_wf : bm_wf bs nb r';
  av_rs : rs r' = rs r;
  av_values : valueMap r' = valueMap r;
  av_owner k : owner r' k = owner r k \/ (owner r' k = Some br /\ is_Some (c k));
  av_kept k : owner r k = Some br -> owner r' k = Some br;
}.

Lemma pushing_begin c r br iv :
  valueMap r !! iv = Some br -> reader_ok bs nb br c -> pushing c r (MkPush br iv [] 0).
Proof.
  intros Hv Hok. split; cbn; [done|lia|constructor|done|].
  intros k Hk. pose proof (ok_range _ _ _ _ Hok k Hk). lia.
Qed.

Lemma doAdd_advances c r br iv rl m :
  bm_wf bs nb r -> valueMap r !! iv = Some br -> (forall k, is_Some (c k) -> 0 <= k < nb) ->
  rm_wf m -> (forall k, covers rl k = true -> is_Some (c k)) ->
  (forall k, rm_view m k = if covers rl k then Some iv else rm_view (rangeMap r) k) ->
  advances c br r (set_rangeMap r m) /\
  forall k, covers rl k = true -> owner (set_rangeMap r m) k = Some br.
Proof.
  intros Hwf Hiv Hrange Hm Hrl Hv.
  assert (Hcov : forall k, covers rl k = true -> owner (set_rangeMap r m) k = Some br).
  { intros k Hk. unfold owner. cbn. by rewrite Hv, Hk. }
  split; [|done]. split; cbn.
  - apply (set_rangeMap_wf bs nb r m iv); [done|done|by eexists|]. intros k i. rewrite Hv.
    destruct (covers rl k) eqn:Ec; [|by left]. intros [= <-]. right. eauto.
  - done.
  - done.
  - intros k. destruct (covers rl k) eqn:Ec; [right; eauto|left]. unfold owner. cbn. by rewrite Hv, Ec.
  - intros k Hk. destruct (covers rl k) eqn:Ec; [auto|]. rewrite <- Hk. unfold owner. cbn. by rewrite Hv, Ec.
Qed.

Lemma advances_refl c br r : bm_wf bs nb r -> advances c br r r.
Proof. intros Hwf. split; auto. Qed.

Lemma set_rangeMap_id r : set_rangeMap r (rangeMap r) = r.
Proof. by destruct r. Qed.

(** A piece of a push: it ends with every block of the reader in the map, or
    goes on with the push's invariant. *)
Lemma push_next_ok c r p :
  bm_wf bs nb r -> pushing c r p -> reader_ok bs nb (pu_br p) c ->
  exists r' (p' : option (push R)), push_next r p = Ret (r', p') /\ advances c (pu_br p) r r' /\
    match p' with
    | None => forall k, is_Some (c k) -> owner r' k = Some (pu_br p)
    | Some p' => pu_br p' = pu_br p /\ pushing c r' p' /\ pu_offset p < pu_offset p'
    end.
Proof.
  destruct p as [br iv rl offset]. intros Hwf [Hiv Hoff Hdev Hdata Hadd] Hok. cbn [pu_br pu_iv pu_rl pu_offset push_next] in *.
  pose proof (ok_range _ _ _ _ Hok) as Hrange.
  destruct (ok_NextBlockData _ _ _ _ Hok offset Hoff) as ([s|] & Hs & E).
  - rewrite E. cbn. pose proof (next_key_limit _ _ _ _ _ _ Hok Hs) as Hlim. destruct Hs as (Hle & Hs & Hnone).
    destruct (ok_NextBlockHole _ _ _ _ Hok s) as (h & -> & Hh); [lia|]. cbn.
    pose proof (next_hole_limit _ _ _ _ s h Hok ltac:(lia) Hh). destruct Hh as (Hsh & Hch & Hsome).
    assert (s <> h). { intros ->. rewrite Hch in Hs. by destruct Hs. }
    assert (Hnew : forall k, covers (rl ++ [(s, h - s)]) k = true -> is_Some (c k)).
    { intros k. rewrite covers_app. cbn. rewrite orb_false_r. intros [Hk|Hk]%orb_true_iff; [auto|].
      apply Hsome. lia. }
    assert (Hadd' : forall k, is_Some (c k) -> k < h ->
      owner r k = Some br \/ covers (rl ++ [(s, h - s)]) k = true).
    { intros k Hk Hkh. rewrite covers_app. destruct (decide (k < offset)) as [Hko|Hko].
      { destruct (Hadd k Hk Hko) as [?|Hc]; [auto|]. rewrite Hc. auto. }
      right. apply orb_true_iff. right. cbn. rewrite orb_false_r.
      destruct (decide (k < s)); [|lia]. rewrite Hnone in Hk by lia. by destruct Hk. }
    assert (Hdev' : Forall (in_device nb) (rl ++ [(s, h - s)])).
    { apply Forall_app. split; [done|]. repeat constructor; cbn; lia. }
    unfold addRange. destruct (_ <=? _)%nat.
    + destruct (doAdd_ok nb Hnb iv (rangeMap r) (rl ++ [(s, h - s)])) as (m & -> & Hm & Hv); [apply Hwf|done|].
      cbn. eexists _, _. split; [done|].
      destruct (doAdd_advances c r br iv _ m Hwf Hiv Hrange Hm Hnew Hv) as [Hav Hcov].
      split; [done|]. split; [done|]. split; [|cbn; lia]. split; cbn; [done|lia|constructor|done|].
      intros k Hk Hkh. left. destruct (Hadd' k Hk Hkh) as [Ho|Ho]; [by apply Hav|auto].
    + cbn. eexists _, _. split; [done|]. rewrite set_rangeMap_id. split; [by apply advances_refl|].
      split; [done|]. split; [|cbn; lia]. by split; cbn; [|lia|..].
  - destruct E as [k' ->]. cbn.
    destruct (doAdd_ok nb Hnb iv (rangeMap r) rl) as (m & -> & Hm & Hv); [apply Hwf|done|].
    cbn. eexists _, _. split; [done|].
    destruct (doAdd_advances c r br iv rl m Hwf Hiv Hrange Hm Hdata Hv) as [Hav Hcov].
    split; [done|]. intros k Hk. destruct (decide (k < offset)) as [Hko|Hko].
    + destruct (Hadd k Hk Hko) as [Ho|Ho]; [by apply Hav|auto].
    + rewrite (Hs k) in Hk by lia. by destruct Hk.
Qed.
End correctness.
