(* ===== verification/BlockMapLive.v ===== *)
(** * Live blocks

    The queries of [internal/blockmap/reader.go] that compaction uses:
    [LiveBlocks], [GetLiveBlocks], [ReaderForLiveBytes] and [RemoveTable]. The
    counts are sums over the runs the range map iterates; the first part relates
    such sums to the number of blocks. *)
From S2P Require Import Prelude Bits RangeMap BlockReader BlockMap.
Local Open Scope Z_scope.

(** ** Sums over runs *)
Section runs.
Context {V : Type}.
Implicit Types (vw : Z -> option V) (l : list (RangeValue V)).

Definition run_keys l : list Z := mjoin ((fun rg : RangeValue V => seqZ (Offset rg) (Length rg)) <$> l).

Definition sum_lengths (P : V -> Prop) `{forall v, Decision (P v)} l : Z :=
  foldr (fun (rg : RangeValue V) s => (if decide (P (Value rg)) then Length rg else 0) + s) 0 l.

Lemma sum_lengths_cons P `{forall v, Decision (P v)} (rg : RangeValue V) l :
  sum_lengths P (rg :: l) = (if decide (P (Value rg)) then Length rg else 0) + sum_lengths P l.
Proof. done. Qed.

Lemma run_keys_cons (rg : RangeValue V) l :
  run_keys (rg :: l) = seqZ (Offset rg) (Length rg) ++ run_keys l.
Proof. done. Qed.

#[export] Instance from_option_decision (P : V -> Prop) `{forall v, Decision (P v)} (o : option V) :
  Decision (from_option P False o).
Proof. destruct o; cbn; apply _. Defined.

(** The keys of [vw] below [n] whose value satisfies [P]. *)
Definition keys_where vw (P : V -> Prop) `{forall v, Decision (P v)} (n : Z) : list Z :=
  filter (fun k => from_option P False (vw k)) (seqZ 0 n).

Lemma elem_of_run_keys l k : k ∈ run_keys l <-> exists rg, rg ∈ l /\ in_range k (rv_range rg).
Proof.
  unfold run_keys. rewrite list_elem_of_join. setoid_rewrite list_elem_of_fmap. split.
  - intros (ks & Hk & rg & -> & Hrg). exists rg. split; [done|].
    apply elem_of_seqZ in Hk. unfold in_range, rend. lia.
  - intros (rg & Hrg & Hk). eexists. split; [|by exists rg].
    apply elem_of_seqZ. unfold in_range, rend in Hk. lia.
Qed.

Lemma run_keys_NoDup l : StronglySorted before (rv_range <$> l) -> NoDup (run_keys l).
Proof.
  induction l as [|rg l IH]; intros Hs; [constructor|]. cbn. apply NoDup_app.
  split; [apply NoDup_seqZ|]. split; [|apply IH; by eapply sorted_tail].
  intros k Hk%elem_of_seqZ (rg' & Hrg' & Hk')%elem_of_run_keys.
  pose proof (before_tail _ _ _ Hs Hrg'). unfold in_range, rend in *. lia.
Qed.

Lemma runs_keys_perm vw l n :
  runs_of vw 0 l -> (forall k, is_Some (vw k) -> 0 <= k < n) ->
  run_keys l ≡ₚ filter (fun k => is_Some (vw k)) (seqZ 0 n).
Proof.
  intros Hr Hn. apply NoDup_Permutation.
  - apply run_keys_NoDup, Hr.
  - apply NoDup_filter, NoDup_seqZ.
  - intros k. rewrite elem_of_run_keys, list_elem_of_filter, elem_of_seqZ. split.
    + intros (rg & Hrg & Hk). assert (0 <= k).
      { destruct (runs_bounds _ _ _ Hr rg Hrg). unfold in_range in Hk. lia. }
      assert (vw k = Some (Value rg)) as Hv by (apply (runs_cover _ _ _ Hr); [done|]; exists rg; auto).
      split; [by rewrite Hv|]. apply Hn. by rewrite Hv.
    + intros [[v Hv] Hk]. apply (runs_cover _ _ _ Hr) in Hv as (rg & ? & ? & _); [eauto|lia].
Qed.

(** The lengths of the runs with a value in [P] add up to the number of keys
    with such a value. *)
Lemma sum_lengths_keys vw l n (P : V -> Prop) `{forall v, Decision (P v)} :
  runs_of vw 0 l -> (forall k, is_Some (vw k) -> 0 <= k < n) ->
  sum_lengths P l = Z.of_nat (length (keys_where vw P n)).
Proof.
  intros Hr Hn. assert (length (keys_where vw P n) =
    length (filter (fun k => from_option P False (vw k)) (run_keys l))) as ->.
  { rewrite (runs_keys_perm vw l n Hr Hn). rewrite list_filter_filter_l; [done|].
    intros k. by destruct (vw k); cbn. }
  assert (Hval : forall rg : RangeValue V, rg ∈ l -> forall k, in_range k rg -> vw k = Some (Value rg)).
  { intros rg Hrg k Hk. apply (runs_cover _ _ _ Hr).
    - destruct (runs_bounds _ _ _ Hr rg Hrg). unfold in_range in Hk. lia.
    - exists rg. auto. }
  assert (Hpos : forall rg : RangeValue V, rg ∈ l -> 0 < Length rg) by (intros; by eapply Hr).
  clear Hr. induction l as [|rg l IH]; [done|]. rewrite sum_lengths_cons, run_keys_cons, filter_app, length_app.
  rewrite IH by (intros; (apply Hval || apply Hpos); by (right || done)).
  rewrite Nat2Z.inj_add. f_equal. specialize (Hpos rg (list_elem_of_here _ _)).
  assert (Hin : forall k, k ∈ seqZ (Offset rg) (Length rg) -> vw k = Some (Value rg)).
  { intros k Hk%elem_of_seqZ. apply Hval; [by left|]. unfold in_range, rend. lia. }
  case_decide as HP.
  - rewrite filter_all; [rewrite length_seqZ; lia|]. intros k Hk. by rewrite Hin.
  - rewrite filter_none; [done|]. intros k Hk. by rewrite Hin.
Qed.

Lemma sum_lengths_nonneg P `{forall v, Decision (P v)} l :
  (forall rg : RangeValue V, rg ∈ l -> 0 < Length rg) -> 0 <= sum_lengths P l.
Proof.
  induction l as [|rg l IH]; intros Hpos; [done|]. rewrite sum_lengths_cons.
  pose proof (Hpos rg (list_elem_of_here _ _)).
  assert (0 <= sum_lengths P l) by (apply IH; intros; apply Hpos; by right). case_decide; lia.
Qed.
End runs.

(** ** Folds of insertions *)
Section insertions.
Context {K A : Type} `{!EqDecision K} `{!Countable K}.
Implicit Types (l : list (K * A)) (m : gmap K A).

Definition insert_all l m : gmap K A := fold_left (fun m kc => <[kc.1 := kc.2]> m) l m.

Lemma insert_all_notin l m k : k ∉ l.*1 -> insert_all l m !! k = m !! k.
Proof.
  revert m. induction l as [|[k' c] l IH]; intros m Hk; [done|]. cbn in *.
  rewrite not_elem_of_cons in Hk. destruct Hk as [Hne Hk].
  change (insert_all l (<[k' := c]> m) !! k = m !! k).
  rewrite IH by done. by apply lookup_insert_ne.
Qed.

Lemma insert_all_in l m k c : NoDup l.*1 -> (k, c) ∈ l -> insert_all l m !! k = Some c.
Proof.
  revert m. induction l as [|[k' c'] l IH]; intros m Hnd Hk; [by apply elem_of_nil in Hk|].
  cbn in Hnd. apply NoDup_cons in Hnd as [Hk' Hnd].
  change (insert_all l (<[k' := c']> m) !! k = Some c).
  apply elem_of_cons in Hk as [[= <- <-]|Hk]; [|by apply IH].
  rewrite insert_all_notin by done. apply lookup_insert_eq.
Qed.
End insertions.

Section live.
Context {R : Type} `{!EqDecision R} `{!Countable R} `{!BlockHoleReader R}.
Context {M : Type} `{!RangeMap Z M} `{!RangeMapLaws Z M}.
Context {BS : Type} `{!BitSet BS} `{!BitSetLaws BS}.
Context (bs nb : Z) (Hbs : 0 < bs) (Hnb : 0 <= nb <= 2 ^ 48).
Implicit Types (r : Reader R M BS) (br : R) (C : R -> content).

Abbreviation view r := (rm_view (rangeMap r)).
Abbreviation wf := (bm_wf bs nb).

(** The number of blocks of the device [br] owns, and that have an owner. *)
Definition live_count r br : Z :=
  Z.of_nat (length (filter (fun k => owner r k = Some br) (seqZ 0 nb))).
Definition live_total r : Z :=
  Z.of_nat (length (filter (fun k => is_Some (owner r k)) (seqZ 0 nb))).

Lemma keys_where_bound (vw : Z -> option Z) (P : Z -> Prop) `{forall v, Decision (P v)} :
  Z.of_nat (length (keys_where vw P nb)) <= nb.
Proof.
  unfold keys_where. pose proof (length_filter (fun k => from_option P False (vw k)) (seqZ 0 nb)).
  rewrite length_seqZ in *. lia.
Qed.

Lemma owner_index r k br iv :
  wf r -> indexMap r !! br = Some iv -> owner r k = Some br <-> view r k = Some iv.
Proof.
  intros Hwf Hi. unfold owner. apply (wf_inverse _ _ r Hwf) in Hi as Hv.
  destruct (view r k) as [iv'|]; cbn; [|done]. split; [|congruence].
  intros Hv'%(wf_inverse _ _ r Hwf). congruence.
Qed.

Lemma live_count_keys r br iv :
  wf r -> indexMap r !! br = Some iv ->
  live_count r br = Z.of_nat (length (keys_where (view r) (eq iv) nb)).
Proof.
  intros Hwf Hi. unfold live_count, keys_where. do 2 f_equal. apply filter_ext. intros k _.
  rewrite (owner_index r k br iv) by done. destruct (view r k); cbn; naive_solver.
Qed.

Lemma live_total_keys r :
  wf r -> live_total r = Z.of_nat (length (keys_where (view r) (fun _ => True) nb)).
Proof.
  intros Hwf. unfold live_total, keys_where. do 2 f_equal. apply filter_ext. intros k _.
  rewrite <- not_eq_None_Some, (owner_view bs nb) by done. destruct (view r k); cbn; naive_solver.
Qed.

Lemma fold_count (l : list (RangeValue Z)) s :
  (forall rg : RangeValue Z, rg ∈ l -> 0 < Length rg) -> 0 <= s ->
  s + sum_lengths (fun _ => True) l < 2 ^ 64 ->
  fold_left (fun s (rg : RangeValue Z) => s +u Length rg) l s = s + sum_lengths (fun _ => True) l.
Proof.
  revert s. induction l as [|rg l IH]; intros s Hpos Hs; [cbn; lia|].
  rewrite sum_lengths_cons, decide_True by done. intros Hlt. cbn.
  pose proof (Hpos rg (list_elem_of_here _ _)).
  assert (Hpos' : forall rg : RangeValue Z, rg ∈ l -> 0 < Length rg) by (intros; apply Hpos; by right).
  pose proof (sum_lengths_nonneg (fun _ => True) l Hpos').
  rewrite u64_small by lia. rewrite IH by (done || lia). lia.
Qed.

Lemma runs_view r :
  wf r -> exists l, runs_of (view r) 0 l /\
    (forall rg : RangeValue Z, rg ∈ l -> 0 < Length rg) /\
    (forall P (HP : forall v, Decision (P v)),
       sum_lengths P l = Z.of_nat (length (keys_where (view r) P nb))) /\
    forall S (f : RangeValue Z -> S -> S) s,
      rm_Iterate (rangeMap r) 0 (fun rg s => (f rg s, true)) s = Ret (fold_left (fun s rg => f rg s) l s).
Proof.
  intros Hwf. destruct (rm_Iterate_ok (rangeMap r) 0) as (l & Hl & E); [apply Hwf|lia|].
  exists l. split; [done|]. split; [intros; by eapply Hl|]. split.
  - intros P HP. apply sum_lengths_keys; [done|]. apply Hwf.
  - intros S f s. by rewrite E, foldw_total.
Qed.

Lemma LiveBlocks_ok r : wf r -> LiveBlocks r = Ret (live_total r).
Proof.
  intros Hwf. destruct (runs_view r Hwf) as (l & Hl & Hpos & Hsum & E).
  unfold LiveBlocks. rewrite E. cbn. rewrite live_total_keys, <- Hsum by done.
  pose proof (keys_where_bound (view r) (fun _ => True)) as Hb. rewrite <- Hsum in Hb.
  pose proof (sum_lengths_nonneg (fun _ => True) l Hpos).
  rewrite fold_count by (done || lia). by rewrite i64_small by lia.
Qed.

(** ** The count per reader *)
Definition count_run (rg : RangeValue Z) (bc : gmap Z Z) : gmap Z Z :=
  <[Value rg := i64 (default 0 (bc !! Value rg) + i64 (Length rg))]> bc.

Lemma count_runs (l : list (RangeValue Z)) (bc : gmap Z Z) :
  (forall rg : RangeValue Z, rg ∈ l -> 0 < Length rg) ->
  (forall v, 0 <= default 0 (bc !! v) /\ default 0 (bc !! v) + sum_lengths (eq v) l < 2 ^ 63) ->
  let bc' := fold_left (fun bc rg => count_run rg bc) l bc in
  forall v, default 0 (bc' !! v) = default 0 (bc !! v) + sum_lengths (eq v) l /\
    (is_Some (bc' !! v) <-> is_Some (bc !! v) \/ exists rg : RangeValue Z, rg ∈ l /\ Value rg = v).
Proof.
  revert bc. induction l as [|rg l IH]; intros bc Hpos Hbc bc' v.
  { cbn. split; [lia|]. split; [auto|]. by intros [|(? & ?%elem_of_nil & _)]. }
  pose proof (Hpos rg (list_elem_of_here _ _)).
  assert (Hpos' : forall rg : RangeValue Z, rg ∈ l -> 0 < Length rg) by (intros; apply Hpos; by right).
  assert (Hstep : forall v, default 0 (count_run rg bc !! v) =
    default 0 (bc !! v) + if decide (v = Value rg) then Length rg else 0).
  { intros v'. unfold count_run. destruct (decide (v' = Value rg)) as [->|Hne].
    - rewrite lookup_insert_eq. cbn. destruct (Hbc (Value rg)) as [? Hb].
      rewrite sum_lengths_cons, decide_True in Hb by done.
      pose proof (sum_lengths_nonneg (eq (Value rg)) l Hpos').
      rewrite (i64_small (Length rg)), i64_small by lia. done.
    - rewrite lookup_insert_ne by done. lia. }
  destruct (IH (count_run rg bc) Hpos') with (v := v) as [Hd Hs].
  { intros v'. destruct (Hbc v') as [? Hb]. rewrite sum_lengths_cons in Hb. rewrite Hstep.
    case_decide; lia. }
  split.
  - unfold bc'. cbn [fold_left]. rewrite Hd, Hstep, sum_lengths_cons. lia.
  - unfold bc'. cbn [fold_left]. rewrite Hs. unfold count_run. setoid_rewrite elem_of_cons.
    destruct (decide (v = Value rg)) as [->|]; [|rewrite lookup_insert_ne by done; naive_solver].
    rewrite lookup_insert_eq. split; [intros _; right; exists rg; auto|]. intros _. left. eauto.
Qed.

Definition zero_readers (brs : list R) : gmap (option R) Z :=
  fold_left (fun lb br => <[Some br := 0]> lb) brs ∅.

Lemma zero_readers_from (brs : list R) (m : gmap (option R) Z) (key : option R) :
  fold_left (fun lb br => <[Some br := 0]> lb) brs m !! key =
  if bool_decide (key ∈ Some <$> brs) then Some 0 else m !! key.
Proof.
  revert m. induction brs as [|b brs IH]; intros m; [done|]. cbn. rewrite IH.
  destruct (decide (key = Some b)) as [->|Hne].
  - rewrite lookup_insert_eq, (bool_decide_eq_true_2 (Some b ∈ Some b :: _)) by (by left).
    by case_bool_decide.
  - rewrite lookup_insert_ne by done.
    rewrite (bool_decide_ext (key ∈ Some b :: _) (key ∈ Some <$> brs)); [done|].
    rewrite elem_of_cons. naive_solver.
Qed.

Lemma zero_readers_lookup (brs : list R) (key : option R) :
  zero_readers brs !! key =
  match key with Some br => if bool_decide (br ∈ brs) then Some 0 else None | None => None end.
Proof.
  unfold zero_readers. rewrite zero_readers_from, lookup_empty. destruct key as [br|].
  - erewrite bool_decide_ext; [done|]. rewrite list_elem_of_fmap. naive_solver.
  - rewrite bool_decide_eq_false_2; [done|]. rewrite list_elem_of_fmap. naive_solver.
Qed.

(** What the iteration of [GetLiveBlocks] counts: an index in use, with the
    number of blocks of its reader; a reader without an entry has no block. *)
Lemma block_counts r :
  wf r -> exists bc, rm_Iterate (rangeMap r) 0 (fun rg bc => (count_run rg bc, true)) ∅ = Ret bc /\
    (forall iv c, bc !! iv = Some c ->
       exists br, indexMap r !! br = Some iv /\ c = live_count r br) /\
    (forall br iv, indexMap r !! br = Some iv -> bc !! iv = None -> live_count r br = 0).
Proof.
  intros Hwf. destruct (runs_view r Hwf) as (l & Hl & Hpos & Hsum & ->). eexists. split; [done|].
  set (bc := fold_left _ l ∅).
  assert (Hbc : forall v, default 0 (bc !! v) = 0 + sum_lengths (eq v) l /\
    (is_Some (bc !! v) <-> is_Some (@None Z) \/ exists rg : RangeValue Z, rg ∈ l /\ Value rg = v)).
  { intros v0. rewrite <- (lookup_empty (M := gmap Z) (A := Z) v0) at 1.
    change 0 with (default 0 ((∅ : gmap Z Z) !! v0)) at 2.
    apply (count_runs l ∅ Hpos). intros v. rewrite lookup_empty. cbn. split; [done|].
    rewrite Hsum. pose proof (keys_where_bound (view r) (eq v)). lia. }
  split.
  - intros iv c Hc. destruct (Hbc iv) as [Hd [Hs _]]. rewrite Hc in Hd, Hs. cbn in Hd.
    destruct Hs as [[? ?]|(rg & Hrg & Hv)]; [by eauto|done|].
    assert (view r (Offset rg) = Some iv) as Hview.
    { apply (runs_cover _ _ _ Hl); [by apply (runs_bounds _ _ _ Hl)|]. exists rg.
      split; [done|]. split; [|done]. pose proof (Hpos rg Hrg). unfold in_range, rend. lia. }
    destruct (wf_values _ _ r Hwf _ _ Hview) as [br Hbr%(wf_inverse _ _ r Hwf)].
    exists br. split; [done|]. rewrite (live_count_keys r br iv), <- Hsum by done. lia.
  - intros br iv Hi Hn. destruct (Hbc iv) as [Hd _]. rewrite Hn in Hd. cbn in Hd.
    rewrite (live_count_keys r br iv), <- Hsum by done. lia.
Qed.

Lemma GetLiveBlocks_ok r :
  wf r -> exists lb, GetLiveBlocks r = Ret lb /\
    forall key, lb !! key =
      match key with
      | Some br => if bool_decide (br ∈ rs r) then Some (live_count r br) else None
      | None => None
      end.
Proof.
  intros Hwf. destruct (block_counts r Hwf) as (bc & E & Hused & Hunused).
  unfold GetLiveBlocks. unfold count_run in E. rewrite E. cbn. eexists. split; [done|].
  set (kcs := (fun ic : Z * Z => (valueMap r !! ic.1, ic.2)) <$> map_to_list bc).
  assert (Hfold : forall lb, fold_left (fun lb '(iv, c) => <[valueMap r !! iv := c]> lb)
    (map_to_list bc) lb = insert_all kcs lb).
  { unfold kcs. generalize (map_to_list bc). intros l.
    induction l as [|[iv c] l IH]; intros lb; [done|]. cbn. apply IH. }
  assert (Hin : forall iv c, bc !! iv = Some c -> exists br,
    valueMap r !! iv = Some br /\ indexMap r !! br = Some iv /\ c = live_count r br).
  { intros iv c (br & Hbr & ->)%Hused. exists br. by rewrite <- (wf_inverse _ _ r Hwf). }
  assert (Hnd : NoDup kcs.*1).
  { unfold kcs. rewrite <- list_fmap_compose. apply NoDup_fmap_2_strong; [|apply NoDup_map_to_list].
    intros [i c] [j d] Hi%elem_of_map_to_list Hj%elem_of_map_to_list. cbn. intros Heq.
    destruct (Hin i c Hi) as (b1 & Hb1 & ? & ->), (Hin j d Hj) as (b2 & Hb2 & ? & ->). congruence. }
  intros key. rewrite Hfold. fold (zero_readers (rs r)).
  destruct (decide (key ∈ kcs.*1)) as [Hk|Hk].
  - apply list_elem_of_fmap in Hk as ([key' c] & -> & Hk). rewrite (insert_all_in kcs _ _ c) by done.
    apply list_elem_of_fmap in Hk as ([iv c'] & [= -> ->] & Hic%elem_of_map_to_list). cbn.
    destruct (Hin _ _ Hic) as (br & -> & Hbr & ->).
    by rewrite bool_decide_eq_true_2 by (apply (wf_rs _ _ r Hwf); eauto).
  - rewrite insert_all_notin, zero_readers_lookup by done. destruct key as [br|]; [|done].
    case_bool_decide as Hbr; [|done]. f_equal. apply (wf_rs _ _ r Hwf) in Hbr as [iv Hiv].
    symmetry. apply (Hunused br iv Hiv). destruct (bc !! iv) as [c|] eqn:Ec; [|done].
    exfalso. apply Hk, list_elem_of_fmap. exists (Some br, c). split; [done|].
    apply list_elem_of_fmap. exists (iv, c). split; [|by apply elem_of_map_to_list].
    cbn. f_equal. symmetry. by apply (wf_inverse _ _ r Hwf).
Qed.

Lemma live_count_0 r br : wf r -> live_count r br = 0 <-> forall k, owner r k <> Some br.
Proof.
  intros Hwf. unfold live_count. split.
  - intros Hz k Hk. assert (k ∈ filter (fun k => owner r k = Some br) (seqZ 0 nb)) as Hin.
    { apply list_elem_of_filter. split; [done|]. apply elem_of_seqZ.
      assert (is_Some (view r k)) as Hv.
      { apply not_eq_None_Some. rewrite <- (owner_view bs nb) by done. congruence. }
      apply (wf_view_range _ _ r Hwf) in Hv. lia. }
    destruct (filter _ _); [by apply elem_of_nil in Hin|]. cbn in Hz. lia.
  - intros Hn. rewrite filter_none; [done|]. intros k _. apply Hn.
Qed.

(** ** Removing a reader *)
Lemma RemoveTable_ok r br :
  wf r -> br ∈ rs r -> (forall k, owner r k <> Some br) ->
  exists r', RemoveTable r br = Ret r' /\ wf r' /\ rs r' = filter (fun x => x <> br) (rs r) /\
    forall k, owner r' k = owner r k.
Proof.
  intros Hwf Hbr Hdead. apply (wf_rs _ _ r Hwf) in Hbr as [iv Hiv].
  pose proof (proj1 (wf_inverse _ _ r Hwf _ _) Hiv) as Hvm.
  pose proof (wf_index _ _ r Hwf iv (mk_is_Some _ _ Hvm)) as Hrange.
  assert (Hnv : forall k, view r k <> Some iv).
  { intros k Hk. apply (Hdead k). by apply (owner_index r k br iv). }
  unfold RemoveTable. cbn. rewrite Hiv. cbn. destruct (Z.eqb_spec iv 0); [lia|].
  rewrite delete_first_filter by apply Hwf. eexists. split; [done|].
  destruct Hwf as [? ? ? Hvr Hvals Hinv Hidx Hfree Hnd Hrs]. split; [|split; [done|]].
  - split; cbn; try done.
    + intros k v Hk. rewrite lookup_delete_ne by (intros ->; by eapply Hnv). eauto.
    + intros br' iv'. rewrite !lookup_delete_Some, Hinv. split.
      * intros [Hne Hv]. split; [|done]. intros ->. congruence.
      * intros [Hne Hv]. split; [|done]. intros ->. apply Hinv in Hv. congruence.
    + intros iv' [b Hb]. apply lookup_delete_Some in Hb as [_ Hb]. eauto.
    + intros i. rewrite bs_test_set by lia. rewrite orb_true_iff, bool_decide_eq_true, Hfree.
      rewrite lookup_delete_None. intuition (subst; auto).
    + by apply NoDup_filter.
    + intros br'. rewrite list_elem_of_filter, Hrs.
      destruct (decide (br' = br)) as [->|]; simplify_map_eq; [|naive_solver].
      split; [naive_solver|by intros [? ?]].
  - intros k. unfold owner. cbn. destruct (view r k) as [v|] eqn:E; [cbn|done].
    apply lookup_delete_ne. intros ->. by eapply Hnv.
Qed.

Lemma RemoveTable_absent r br : wf r -> br ∉ rs r -> RemoveTable r br = Panic.
Proof.
  intros Hwf Hbr. assert (indexMap r !! br = None) as Hn.
  { apply eq_None_not_Some. by rewrite <- (wf_rs _ _ r Hwf). }
  unfold RemoveTable. cbn. by rewrite Hn.
Qed.

(** ** The reader of the live blocks of some tables *)

(** The two maps and the free set of [nr] agree, and restrict those of [r]. *)
Record index_within r (nr : Reader R M BS) : Prop := {
  iw_sub br iv : indexMap nr !! br = Some iv -> indexMap r !! br = Some iv;
  iw_inverse br iv : indexMap nr !! br = Some iv <-> valueMap nr !! iv = Some br;
  iw_free i : bs_test (freeSet nr) i = true <-> 1 <= i < 2 ^ 16 /\ valueMap nr !! i = None;
}.

Lemma index_within_insert r nr br iv :
  wf r -> index_within r nr -> indexMap r !! br = Some iv ->
  index_within r (set_index nr (<[iv := br]> (valueMap nr)) (<[br := iv]> (indexMap nr))
                    (bs_clear (freeSet nr) iv)).
Proof.
  intros Hwf [Hsub Hinv Hfree] Hi. apply (wf_inverse _ _ r Hwf) in Hi as Hv.
  pose proof (wf_index _ _ r Hwf iv (mk_is_Some _ _ Hv)). split; cbn.
  - intros b i. destruct (decide (b = br)) as [->|]; simplify_map_eq; [congruence|auto].
  - intros b i. destruct (decide (b = br)) as [->|], (decide (i = iv)) as [->|];
      simplify_map_eq; [done| | |by apply Hinv].
    + split; [congruence|]. intros Hb%Hinv%Hsub. congruence.
    + split; [|congruence]. intros Hb%Hsub%(wf_inverse _ _ r Hwf). congruence.
  - intros i. rewrite bs_test_clear by lia.
    rewrite andb_true_iff, negb_true_iff, bool_decide_eq_false, Hfree, lookup_insert_None.
    naive_solver.
Qed.

Lemma live_readers_ok r brs : wf r -> forall nr readers,
  index_within r nr -> Forall (fun br => br ∈ rs r) brs ->
  exists nr' readers', live_readers r brs nr readers = Ret (nr', readers') /\
    index_within r nr' /\
    (blockSize nr', numBlocks nr', rangeMap nr', rs nr') =
    (blockSize nr, numBlocks nr, rangeMap nr, rs nr) /\
    (forall br iv, indexMap r !! br = Some iv ->
       (is_Some (indexMap nr' !! br) <-> is_Some (indexMap nr !! br) \/ br ∈ brs) /\
       (iv ∈ readers' <-> iv ∈ readers \/ br ∈ brs)).
Proof.
  intros Hwf. induction brs as [|b brs IH]; intros nr readers Hin Hall; cbn.
  { exists nr, readers. do 3 (split; [done|]). set_solver. }
  apply Forall_cons in Hall as [Hb Hall]. apply (wf_rs _ _ r Hwf) in Hb as [biv Hbiv].
  rewrite Hbiv. cbn.
  destruct (IH _ (readers ∪ {[biv]}) (index_within_insert r nr b biv Hwf Hin Hbiv) Hall)
    as (nr' & readers' & -> & Hin' & Hsame & Hidx).
  exists nr', readers'. split; [done|]. split; [done|]. split; [done|].
  intros br iv Hi. destruct (Hidx br iv Hi) as [H1 H2]. rewrite H1, H2. cbn.
  rewrite elem_of_union, elem_of_singleton, !elem_of_cons.
  destruct (decide (br = b)) as [->|Hne]; simplify_map_eq; [naive_solver|].
  split; [naive_solver|]. assert (iv <> biv); [|naive_solver]. intros ->.
  apply (wf_inverse _ _ r Hwf) in Hi, Hbiv. congruence.
Qed.

Definition copy_run (readers : gset Z) (rg : RangeValue Z) (om : outcome M) : outcome M :=
  if bool_decide (Value rg ∈ readers) then m ← om; rm_Add m (Offset rg) (Length rg) (Value rg) else om.

Lemma copy_runs (readers : gset Z) (l : list (RangeValue Z)) : forall m : M,
  rm_wf m -> StronglySorted before (rv_range <$> l) ->
  (forall rg : RangeValue Z, rg ∈ l -> 0 <= Offset rg /\ 0 < Length rg /\ rend rg <= nb) ->
  exists m', fold_left (fun om rg => copy_run readers rg om) l (Ret m) = Ret m' /\ rm_wf m' /\
    forall k, (forall rg : RangeValue Z, rg ∈ l -> in_range k rg -> Value rg ∈ readers ->
                 rm_view m' k = Some (Value rg)) /\
              ((forall rg : RangeValue Z, rg ∈ l -> in_range k rg -> Value rg ∉ readers) ->
                 rm_view m' k = rm_view m k).
Proof.
  pose proof rm_limit_range as Hlim.
  induction l as [|rg l IH]; intros m Hwf Hs Hb; cbn [fold_left].
  { exists m. split; [done|]. split; [done|]. intros k. split; [by intros ? ?%elem_of_nil|done]. }
  destruct (Hb rg (list_elem_of_here _ _)) as (H1 & H2 & H3). unfold rend in H3.
  assert (exists m1, copy_run readers rg (Ret m) = Ret m1 /\ rm_wf m1 /\
    forall k, rm_view m1 k = if bool_decide (Value rg ∈ readers /\ in_range k rg)
                             then Some (Value rg) else rm_view m k) as (m1 & -> & Hwf1 & Hv1).
  { unfold copy_run. case_bool_decide as Hr; cbn.
    - destruct (rm_Add_ok m (Offset rg) (Length rg) (Value rg)) as (m1 & E & Hwf1 & Hv1); [done|lia..|].
      exists m1. split; [done|]. split; [done|]. intros k. rewrite Hv1. unfold view_add.
      by rewrite (bool_decide_ext (Value rg ∈ readers /\ in_range k rg)
        (Offset rg <= k < Offset rg + Length rg)) by (unfold in_range, rend; tauto).
    - exists m. split; [done|]. split; [done|]. intros k. by rewrite bool_decide_eq_false_2 by tauto. }
  destruct (IH m1 Hwf1 (sorted_tail _ _ Hs)) as (m2 & -> & Hwf2 & Hv2).
  { intros; apply Hb; by right. }
  exists m2. split; [done|]. split; [done|]. intros k. destruct (Hv2 k) as [Hv2a Hv2b].
  assert (Hdisj : in_range k rg -> forall rg' : RangeValue Z, rg' ∈ l -> in_range k rg' -> False).
  { intros Hk rg' Hrg' Hk'. pose proof (before_tail _ _ _ Hs Hrg'). unfold in_range, rend in *. lia. }
  split.
  - intros rg' [->|Hrg']%elem_of_cons Hk Hr; [|by apply Hv2a].
    rewrite Hv2b by (intros rg'' Hrg'' Hk''; by destruct (Hdisj Hk rg'')).
    rewrite Hv1. by rewrite bool_decide_eq_true_2.
  - intros Hno. rewrite Hv2b by (intros; apply Hno; [by right|done]). rewrite Hv1.
    rewrite bool_decide_eq_false_2; [done|]. intros [Hr Hk]. by eapply Hno; [left|..].
Qed.

Lemma copy_view r (readers : gset Z) (m0 : M) :
  wf r -> rm_wf m0 -> (forall k, rm_view m0 k = None) ->
  exists m om, rm_Iterate (rangeMap r) 0 (fun rg om => (copy_run readers rg om, true)) (Ret m0) = Ret om /\
    om = Ret m /\ rm_wf m /\
    forall k iv, rm_view m k = Some iv <-> view r k = Some iv /\ iv ∈ readers.
Proof.
  intros Hwf Hwf0 Hv0. destruct (runs_view r Hwf) as (l & Hl & Hpos & _ & ->).
  assert (Hval : forall (rg : RangeValue Z) k, rg ∈ l -> in_range k rg -> view r k = Some (Value rg)).
  { intros rg k Hrg Hk. apply (runs_cover _ _ _ Hl); [|by exists rg].
    destruct (runs_bounds _ _ _ Hl rg Hrg). unfold in_range in Hk. lia. }
  destruct (copy_runs readers l m0) as (m & Em & Hwfm & Hvm); [done|apply Hl| |].
  { intros rg Hrg. pose proof (Hpos rg Hrg). split; [by apply (runs_bounds _ _ _ Hl)|].
    split; [done|]. pose proof (Hval rg (rend rg - 1) Hrg) as Hv.
    destruct (wf_view_range _ _ r Hwf (rend rg - 1)); [|lia]. rewrite Hv; [by eauto|].
    unfold in_range, rend. lia. }
  exists m, (Ret m). split; [by rewrite Em|]. split; [done|]. split; [done|].
  intros k iv. destruct (Hvm k) as [Hyes Hno]. rewrite Hv0 in Hno.
  destruct (view r k) as [iv'|] eqn:Ev.
  - assert (Hk := wf_view_range _ _ r Hwf k (mk_is_Some _ _ Ev)).
    pose proof Ev as (rg & Hrg & Hin & Hrv)%(runs_cover _ _ _ Hl); [|lia].
    destruct (decide (iv' ∈ readers)) as [Hr|Hr].
    + rewrite (Hyes rg) by (done || by rewrite Hrv). rewrite Hrv. naive_solver.
    + rewrite Hno; [naive_solver|]. intros rg' Hrg' Hin'. pose proof (Hval rg' k Hrg' Hin'). congruence.
  - rewrite Hno; [naive_solver|]. intros rg Hrg Hin. rewrite (Hval rg k) in Ev by done. done.
Qed.

Lemma ReaderForLiveBytes_ok r brs :
  wf r -> NoDup brs -> Forall (fun br => br ∈ rs r) brs ->
  exists r', ReaderForLiveBytes r brs = Ret r' /\ wf r' /\ rs r' = brs /\
    forall k br, owner r' k = Some br <-> owner r k = Some br /\ br ∈ brs.
Proof.
  intros Hwf Hnd Hall. unfold ReaderForLiveBytes. rewrite (wf_blockSize _ _ r Hwf), (wf_numBlocks _ _ r Hwf).
  pose proof (NewReader_wf (R := R) (M := M) (BS := BS) bs nb Hnb) as Hnew.
  destruct (live_readers_ok r brs Hwf (set_rs (NewReader bs nb) brs) ∅)
    as (nr & readers & -> & [Hsub Hinv Hfree] & Hsame & Hidx); [|done|].
  { split; [|apply Hnew|apply Hnew]. intros b i. cbn -[lookup]. by rewrite lookup_empty. }
  injection Hsame as Hbs' Hnb' Hm' Hrs'. cbn -[lookup].
  destruct (copy_view r readers (rangeMap nr)) as (m & om & E & -> & Hwfm & Hview);
    [done|rewrite Hm'; apply rm_new_wf|intros; rewrite Hm'; apply rm_new_view|].
  unfold copy_run in E. rewrite E. cbn -[lookup]. eexists. split; [done|].
  assert (Hmem : forall br iv, indexMap nr !! br = Some iv <-> indexMap r !! br = Some iv /\ br ∈ brs).
  { intros br iv. split.
    - intros Hi. pose proof (Hsub _ _ Hi) as Hr. destruct (Hidx br iv Hr) as [[Hs _] _].
      split; [done|]. destruct Hs as [Hs|Hs]; [by rewrite Hi|by destruct Hs|done].
    - intros [Hr Hbr]. destruct (Hidx br iv Hr) as [[_ Hs] _].
      destruct Hs as [iv' Hs]; [by right|]. pose proof (Hsub _ _ Hs). congruence. }
  assert (Hread : forall br iv, indexMap r !! br = Some iv -> iv ∈ readers <-> br ∈ brs).
  { intros br iv Hr. destruct (Hidx br iv Hr) as [_ ->]. set_solver. }
  assert (Hown : forall k br, owner (set_rangeMap nr m) k = Some br <-> owner r k = Some br /\ br ∈ brs).
  { intros k br. unfold owner. rewrite !bind_Some. cbn -[lookup].
    setoid_rewrite Hview. setoid_rewrite <- Hinv. setoid_rewrite Hmem.
    setoid_rewrite <- (wf_inverse _ _ r Hwf). naive_solver. }
  split; [|split; [done|exact Hown]]. split; cbn -[lookup]; try done.
  - intros k [iv [Hk _]%Hview]. by apply (wf_view_range _ _ r Hwf).
  - intros k iv [Hk Hr]%Hview. destruct (wf_values _ _ r Hwf k iv Hk) as [br Hbr%(wf_inverse _ _ r Hwf)].
    exists br. apply Hinv, Hmem. split; [done|]. by apply (Hread br iv).
  - intros iv [br Hbr%Hinv%Hmem]. destruct Hbr as [Hbr _]. apply (wf_index _ _ r Hwf).
    exists br. by apply (wf_inverse _ _ r Hwf).
  - by rewrite Hrs'.
  - intros br. rewrite Hrs'. cbn. rewrite Forall_forall in Hall. split.
    + intros Hbr. destruct (proj1 (wf_rs _ _ r Hwf br) (Hall br Hbr)) as [iv Hi].
      exists iv. by apply Hmem.
    + intros [iv Hi%Hmem]. apply Hi.
Qed.
End live.
