(* ===== verification/BlockMapTheorems.v ===== *)
(** * What the block map promises

    The theorems on [internal/blockmap/reader.go] as the rest of the system uses
    it: the newest reader wins, the map reads as the stack of the same readers
    does, live blocks are counted right, and a compaction that rewrites live
    blocks into a new table changes no block. *)
From S2P Require Import Prelude Bits RangeMap BitmapRangeMap BlockReader StackedBlockReader.
From S2P Require Import BlockMap BlockMapLive.
Local Open Scope Z_scope.

(** ** The first reader of a list that has a block *)
Section top.
Context {R : Type} (C : R -> content).

Fixpoint top_owner (l : list R) (k : Z) : option R :=
  match l with
  | [] => None
  | br :: l' => if bool_decide (is_Some (C br k)) then Some br else top_owner l' k
  end.

Lemma top_owner_content l k : overlay (C <$> l) k = top_owner l k ≫= fun br => C br k.
Proof.
  induction l as [|br l IH]; cbn; [done|]. case_bool_decide as Hs; cbn.
  - by destruct (C br k).
  - rewrite <- IH. by destruct (C br k) as [b|]; [destruct Hs|].
Qed.

Lemma top_owner_app l1 l2 k :
  top_owner (l1 ++ l2) k = match top_owner l1 k with Some br => Some br | None => top_owner l2 k end.
Proof. induction l1 as [|br l1 IH]; cbn; [done|]. by case_bool_decide. Qed.

Lemma top_owner_Some l k br : top_owner l k = Some br -> br ∈ l /\ is_Some (C br k).
Proof.
  induction l as [|b l IH]; cbn; [done|]. case_bool_decide.
  - intros [= <-]. split; [by left|done].
  - intros Hl. destruct (IH Hl). split; [by right|done].
Qed.

Lemma top_owner_None l k : top_owner l k = None <-> forall br, br ∈ l -> C br k = None.
Proof.
  induction l as [|b l IH]; cbn; [by split; [intros ? ? ?%elem_of_nil|]|].
  setoid_rewrite elem_of_cons. case_bool_decide as Hs.
  - split; [done|]. intros Hl. rewrite Hl in Hs by auto. by destruct Hs.
  - rewrite IH. apply eq_None_not_Some in Hs. naive_solver.
Qed.
End top.

Lemma overlay_app cs1 cs2 k :
  overlay (cs1 ++ cs2) k = match overlay cs1 k with Some b => Some b | None => overlay cs2 k end.
Proof. induction cs1 as [|c cs1 IH]; cbn; [done|]. by destruct (c k). Qed.

Section theorems.
Context {R : Type} `{!EqDecision R} `{!Countable R} `{!BlockHoleReader R}.
Context {M : Type} `{!RangeMap Z M} `{!RangeMapLaws Z M}.
Context {BS : Type} `{!BitSet BS} `{!BitSetLaws BS}.
Context (bs nb : Z) (Hbs : 0 < bs) (Hnb : 0 <= nb <= 2 ^ 48).
Context (C : R -> content).
Implicit Types (r : Reader R M BS) (br : R) (brs : list R).

Abbreviation wf := (bm_wf bs nb).
Abbreviation ok := (reader_ok bs nb).

(** [for _, br := range brs { r.PushReader(br) }] *)
Fixpoint push_all r brs : outcome (Reader R M BS) :=
  match brs with
  | [] => Ret r
  | br :: brs' => r' ← PushReader r br; push_all r' brs'
  end.

Fixpoint remove_all r brs : outcome (Reader R M BS) :=
  match brs with
  | [] => Ret r
  | br :: brs' => r' ← RemoveTable r br; remove_all r' brs'
  end.

Lemma push_all_ok brs : forall r,
  wf r -> NoDup (rs r ++ brs) -> Z.of_nat (length (rs r ++ brs)) <= 65535 ->
  Forall (fun br => ok br (C br)) brs ->
  exists r', push_all r brs = Ret r' /\ wf r' /\ rs r' = rs r ++ brs /\
    forall k, owner r' k = match top_owner C (reverse brs) k with
                           | Some br => Some br | None => owner r k end.
Proof.
  induction brs as [|br brs IH]; intros r Hwf Hnd Hlen Hok; cbn [push_all].
  { exists r. rewrite app_nil_r. done. }
  apply Forall_cons in Hok as [Hbr Hok].
  assert (Hin : br ∉ rs r). { apply NoDup_app in Hnd as (_ & Hd & _). intros Hr. by apply (Hd br Hr); left. }
  rewrite length_app in Hlen. cbn in Hlen.
  destruct (PushReader_ok bs nb Hbs Hnb r br (C br)) as (r1 & -> & Hwf1 & Hrs1 & Ho1); [done|done|lia|done|].
  destruct (IH r1) as (r2 & E2 & Hwf2 & Hrs2 & Ho2); [done| | |done|].
  { by rewrite Hrs1, <- app_assoc. }
  { rewrite Hrs1, !length_app. cbn. lia. }
  exists r2. split; [done|]. split; [done|]. split; [by rewrite Hrs2, Hrs1, <- app_assoc|].
  intros k. rewrite Ho2, Ho1, reverse_cons, top_owner_app. cbn.
  destruct (top_owner C (reverse brs) k); [done|]. by case_bool_decide.
Qed.

(** A map built from nothing by pushing [brs]. *)
Definition indexes r brs : Prop := push_all (NewReader bs nb) brs = Ret r.

Definition pushable brs : Prop :=
  NoDup brs /\ Z.of_nat (length brs) <= 65535 /\ Forall (fun br => ok br (C br)) brs.

Lemma indexes_ok brs :
  pushable brs -> exists r, indexes r brs /\ wf r /\ rs r = brs /\
    forall k, owner r k = top_owner C (reverse brs) k.
Proof.
  intros (Hnd & Hlen & Hok).
  destruct (push_all_ok brs (NewReader bs nb)) as (r & E & Hwf & Hrs & Ho);
    [by apply NewReader_wf|done..|].
  exists r. split; [done|]. split; [done|]. split; [done|]. intros k. rewrite Ho.
  rewrite NewReader_owner. by destruct (top_owner _ _ _).
Qed.

Lemma indexes_inv r brs :
  pushable brs -> indexes r brs -> wf r /\ rs r = brs /\ coherent C r /\
    (forall k, owner r k = top_owner C (reverse brs) k) /\
    (forall k, bm_content C r k = overlay (reverse (C <$> brs)) k).
Proof.
  intros Hp Hr. destruct (indexes_ok brs Hp) as (r' & Hr' & Hwf & Hrs & Ho).
  assert (r' = r) as -> by (unfold indexes in *; congruence).
  split; [done|]. split; [done|]. split; [|split; [done|]].
  - intros k br. rewrite Ho. intros (_ & ?)%top_owner_Some. done.
  - intros k. unfold bm_content. by rewrite Ho, <- fmap_reverse, top_owner_content.
Qed.

(** The readers of a map meet the contract. *)
Lemma pushable_ok brs br : pushable brs -> br ∈ brs -> ok br (C br).
Proof. intros (_ & _ & Hok) Hbr. rewrite Forall_forall in Hok. auto. Qed.

(** C9: pushing readers one after the other into a new map builds an index in
    which the last one that has a block owns it; the map is then itself a
    reader that meets the interface's contract, with the contents of the
    readers laid over each other, the last on top. *)
Theorem blockmap_newest_wins brs :
  pushable brs ->
  exists r, push_all (NewReader bs nb) brs = Ret r /\ ListReaders r = brs /\
    (forall k, 0 <= k < nb -> find r k = Ret (top_owner C (reverse brs) k)) /\
    reader_ok bs nb r (overlay (reverse (C <$> brs))).
Proof.
  intros Hp. destruct (indexes_ok brs Hp) as (r & Hr & _). exists r. split; [done|].
  destruct (indexes_inv r brs Hp Hr) as (Hwf & Hrs & Hco & Ho & Hc). split; [done|]. split.
  - intros k Hk. rewrite (find_ok bs nb) by (done || lia). by rewrite Ho.
  - apply (reader_ok_ext bs nb r (bm_content C r)); [done|].
    apply bm_reader_ok; [done..|]. intros br. rewrite Hrs. by apply pushable_ok.
Qed.

(** C10: a block map and a stack of the same readers are interchangeable: a read
    inside the device fills the buffer with the same bytes and returns the same
    count from both. *)
Theorem blockmap_reads_as_stack r brs buf off n :
  pushable brs -> indexes r brs ->
  0 <= off -> 0 <= n -> off + n <= nb -> len buf = n * bs ->
  exists err buf',
    bm_ReadBlocks r buf off = Ret (buf', n, err) /\
    (err = None \/ (err = Some EOF /\ off + n = nb)) /\
    sbr_ReadBlocks (NewStackedBlockReader (reverse brs) bs nb) buf off = Ret (buf', n, None) /\
    buf' = read_image (image bs (overlay (reverse (C <$> brs)))) off n.
Proof.
  intros Hp Hr Hoff Hn Hin Hl.
  destruct (indexes_inv r brs Hp Hr) as (Hwf & Hrs & Hco & Ho & Hc).
  destruct (bm_ReadBlocks_ok bs nb Hbs Hnb C r Hwf Hco) with (b := buf) (off := off) (n := n)
    as (err & E & Herr); [|done..|].
  { intros br. rewrite Hrs. by apply pushable_ok. }
  assert (Himg : read_image (image bs (bm_content C r)) off n =
                 read_image (image bs (overlay (reverse (C <$> brs)))) off n).
  { apply read_image_ext. intros k _. unfold image. by rewrite Hc. }
  rewrite Himg in E. eexists err, _. split; [exact E|]. split; [done|]. split; [|done].
  rewrite (stacked_read_inside bs nb Hbs ltac:(lia) _ (C <$> reverse brs) buf off n); try done.
  - by rewrite fmap_reverse.
  - apply Forall2_fmap_r, Forall_Forall2_diag, Forall_forall. intros br Hbr.
    rewrite elem_of_reverse in Hbr. by apply (pushable_ok brs).
Qed.

(** C11: [GetLiveBlocks] of an index of [brs] returns an entry for each reader of
    [brs] and no other: the number of blocks of the device of which the reader
    holds the newest version, 0 included; [LiveBlocks] is the number of blocks
    that any reader has. *)
Theorem blockmap_live_blocks r brs :
  pushable brs -> indexes r brs ->
  (exists lb, GetLiveBlocks r = Ret lb /\
     forall key, lb !! key =
       match key with
       | Some br =>
           if bool_decide (br ∈ brs)
           then Some (Z.of_nat (length
                  (filter (fun k => top_owner C (reverse brs) k = Some br) (seqZ 0 nb))))
           else None
       | None => None
       end) /\
  LiveBlocks r = Ret (Z.of_nat (length
    (filter (fun k => is_Some (overlay (reverse (C <$> brs)) k)) (seqZ 0 nb)))).
Proof.
  intros Hp Hr. destruct (indexes_inv r brs Hp Hr) as (Hwf & Hrs & Hco & Ho & Hc). split.
  - destruct (GetLiveBlocks_ok bs nb Hnb r Hwf) as (lb & E & Hlb). exists lb. split; [done|].
    intros [br|]; rewrite Hlb, ?Hrs; [|done]. case_bool_decide; [|done].
    unfold live_count. do 3 f_equal. apply filter_ext. intros k _. by rewrite Ho.
  - rewrite (LiveBlocks_ok bs nb Hnb r Hwf). unfold live_total. do 3 f_equal.
    apply filter_ext. intros k _. rewrite <- Hc.
    rewrite <- !not_eq_None_Some, (bm_content_None bs nb) by done. by rewrite (owner_view bs nb).
Qed.

(** The newest versions that the readers of [sel] hold. *)
Definition live_content (brs sel : list R) : content := fun k =>
  match top_owner C (reverse brs) k with
  | Some br => if bool_decide (br ∈ sel) then overlay (reverse (C <$> brs)) k else None
  | None => None
  end.

Lemma live_reader_ok r brs (sel : list R) :
  pushable brs -> indexes r brs -> NoDup sel -> Forall (fun br => br ∈ brs) sel ->
  exists r', ReaderForLiveBytes r sel = Ret r' /\ rs r' = sel /\
    forall k, bm_content C r' k = live_content brs sel k.
Proof.
  intros Hp Hr Hnd Hsel. destruct (indexes_inv r brs Hp Hr) as (Hwf & Hrs & Hco & Ho & Hc).
  destruct (ReaderForLiveBytes_ok bs nb Hbs Hnb r sel) as (r' & E & Hwf' & Hrs' & Ho');
    [done|done|by rewrite Hrs|].
  exists r'. split; [done|]. split; [done|]. intros k. unfold live_content. rewrite <- Hc.
  unfold bm_content. rewrite <- Ho. destruct (owner r k) as [br|] eqn:Eo.
  - case_bool_decide as Hb.
    + by rewrite (proj2 (Ho' k br)).
    + destruct (owner r' k) as [b|] eqn:Eb; [|done]. apply Ho' in Eb as [Eb ?]. congruence.
  - destruct (owner r' k) as [b|] eqn:Eb; [|done]. apply Ho' in Eb as [Eb ?]. congruence.
Qed.

(** C12: [ReaderForLiveBytes] of some readers of an index is an index of exactly
    the blocks of which one of them holds the newest version, and reads them
    as the original does. *)
Theorem blockmap_live_reader r brs (sel : list R) :
  pushable brs -> indexes r brs -> NoDup sel -> Forall (fun br => br ∈ brs) sel ->
  exists r', ReaderForLiveBytes r sel = Ret r' /\ ListReaders r' = sel /\
    forall k, bm_content C r' k =
      match top_owner C (reverse brs) k with
      | Some br => if bool_decide (br ∈ sel) then overlay (reverse (C <$> brs)) k else None
      | None => None
      end.
Proof. apply live_reader_ok. Qed.

Lemma remove_all_ok brs : forall r,
  wf r -> NoDup brs -> Forall (fun br => br ∈ rs r /\ forall k, owner r k <> Some br) brs ->
  exists r', remove_all r brs = Ret r' /\ wf r' /\ rs r' = filter (fun x => x ∉ brs) (rs r) /\
    forall k, owner r' k = owner r k.
Proof.
  induction brs as [|br brs IH]; intros r Hwf Hnd Hall; cbn [remove_all].
  { exists r. split; [done|]. split; [done|]. split; [|done]. symmetry. apply filter_all.
    intros x _ ?%elem_of_nil. done. }
  apply NoDup_cons in Hnd as [Hbr Hnd]. apply Forall_cons in Hall as [[Hin Hdead] Hall].
  destruct (RemoveTable_ok bs nb Hbs Hnb r br) as (r1 & -> & Hwf1 & Hrs1 & Ho1); [done..|].
  destruct (IH r1) as (r2 & E2 & Hwf2 & Hrs2 & Ho2); [done|done| |].
  { rewrite Forall_forall in *. intros x Hx. destruct (Hall x Hx) as [Hxr Hxd]. split.
    - rewrite Hrs1, list_elem_of_filter. split; [|done]. by intros ->.
    - intros k. by rewrite Ho1. }
  exists r2. split; [done|]. split; [done|]. split; [|intros k; by rewrite Ho2, Ho1].
  rewrite Hrs2, Hrs1, list_filter_filter. apply filter_ext. intros x _.
  rewrite elem_of_cons. tauto.
Qed.

(** ** Well-formedness

    The operations that change a map, in the order in which a tracker may call
    them: readers with a contract are pushed, readers without a live block are
    removed, and an index of live blocks is a map of its own. *)
Inductive bm_step : Reader R M BS -> Reader R M BS -> Prop :=
  | bm_push r br r' : ok br (C br) -> Z.of_nat (length (rs r)) < 65535 -> PushReader r br = Ret r' -> bm_step r r'
  | bm_remove r br r' : (forall k, owner r k <> Some br) -> RemoveTable r br = Ret r' -> bm_step r r'
  | bm_live r sel r' : NoDup sel -> Forall (fun br => br ∈ rs r) sel -> ReaderForLiveBytes r sel = Ret r' -> bm_step r r'.

Definition bm_reachable r : Prop := rtc bm_step (NewReader bs nb) r.

(** The map is well-formed, and what it lists meets its contract. *)
Record sound r : Prop := {
  so_wf : wf r;
  so_coherent : coherent C r;
  so_readers br : br ∈ rs r -> ok br (C br);
}.

Lemma bm_step_sound r r' : bm_step r r' -> sound r -> sound r'.
Proof.
  intros [r0 br r1 Hok Hl E|r0 br r1 Hd E|r0 sel r1 Hnd Hsel E] [Hwf Hco Hrd].
  - destruct (decide (br ∈ rs r0)) as [Hin|Hin]; [by unfold PushReader in E; rewrite bool_decide_eq_true_2 in E|].
    destruct (PushReader_ok bs nb Hbs Hnb r0 br (C br) Hwf Hin Hl Hok) as (r2 & E2 & Hwf2 & Hrs2 & Ho2).
    rewrite E in E2. injection E2 as <-. split; [done| |].
    + intros k b. rewrite Ho2. case_bool_decide; [by intros [= <-]|apply Hco].
    + intros b. rewrite Hrs2, elem_of_app, list_elem_of_singleton. intros [Hb| ->]; auto.
  - destruct (decide (br ∈ rs r0)) as [Hin|Hin]; [|by rewrite (RemoveTable_absent bs nb) in E].
    destruct (RemoveTable_ok bs nb Hbs Hnb r0 br Hwf Hin Hd) as (r2 & E2 & Hwf2 & Hrs2 & Ho2).
    rewrite E in E2. injection E2 as <-. split; [done| |].
    + intros k b. rewrite Ho2. apply Hco.
    + intros b. rewrite Hrs2, list_elem_of_filter. intros [_ Hb]. auto.
  - destruct (ReaderForLiveBytes_ok bs nb Hbs Hnb r0 sel Hwf Hnd Hsel) as (r2 & E2 & Hwf2 & Hrs2 & Ho2).
    rewrite E in E2. injection E2 as <-. split; [done| |].
    + intros k b [Hb _]%Ho2. by eapply Hco.
    + intros b. rewrite Hrs2. rewrite Forall_forall in Hsel. auto.
Qed.

Lemma bm_reachable_sound r : bm_reachable r -> sound r.
Proof.
  intros Hr. eapply (rtc_invariant _ sound); [| |exact Hr].
  - intros r1 r2 Hs Hst. by eapply bm_step_sound.
  - split; [by apply NewReader_wf| |by intros br ?%elem_of_nil]. intros k br. by rewrite NewReader_owner.
Qed.

Lemma push_all_reachable brs : forall r r',
  bm_reachable r -> Z.of_nat (length (rs r ++ brs)) <= 65535 -> Forall (fun br => ok br (C br)) brs ->
  push_all r brs = Ret r' -> bm_reachable r'.
Proof.
  induction brs as [|br brs IH]; intros r r' Hr Hlen Hok; cbn [push_all]; [by intros [= <-]|].
  apply Forall_cons in Hok as [Hbr Hok]. intros (r1 & E1 & E)%bind_Ret.
  assert (rs r1 = rs r ++ [br]) as Hrs1.
  { unfold PushReader in E1. destruct (bool_decide (br ∈ rs r)); [done|].
    apply bind_Ret in E1 as ([iv r2] & Ef & (m & _ & [= <-])%bind_Ret). unfold fetchOrAddValueIndex in Ef.
    destruct (indexMap _ !! br); [by injection Ef as _ <-|]. by apply bind_Ret in Ef as (nv & _ & [= _ <-]). }
  rewrite length_app in Hlen. cbn in Hlen. eapply IH; [| |done|exact E].
  - eapply rtc_r; [exact Hr|]. eapply bm_push; [done|lia|done].
  - rewrite Hrs1, !length_app. cbn. lia.
Qed.

(** C13: in whatever order readers are pushed, readers without live blocks are
    removed and indices of live blocks are made, the map stays well-formed: the
    indices of its range map are in use and within 16 bits, the maps from indices
    to readers and back are inverse, the free indices are the others, and no
    reader is listed twice. It then meets the contract of a block reader, and no
    operation fails but by its own checks: pushing a reader that is listed, and
    removing one that is not, panic. *)
Theorem blockmap_well_formed r :
  bm_reachable r ->
  wf r /\ reader_ok bs nb r (bm_content C r) /\
  (forall br, ok br (C br) -> Z.of_nat (length (rs r)) < 65535 ->
     if bool_decide (br ∈ rs r) then PushReader r br = Panic else exists r', PushReader r br = Ret r') /\
  (forall br, (forall k, owner r k <> Some br) ->
     if bool_decide (br ∈ rs r) then exists r', RemoveTable r br = Ret r' else RemoveTable r br = Panic) /\
  (forall sel, NoDup sel -> Forall (fun br => br ∈ rs r) sel -> exists r', ReaderForLiveBytes r sel = Ret r').
Proof.
  intros [Hwf Hco Hrd]%bm_reachable_sound. split; [done|]. split; [by apply bm_reader_ok|]. split; [|split].
  - intros br Hok Hl. unfold PushReader. case_bool_decide as Hin; [done|].
    destruct (PushReader_ok bs nb Hbs Hnb r br (C br) Hwf Hin Hl Hok) as (r2 & E2 & _). unfold PushReader in E2.
    rewrite bool_decide_eq_false_2 in E2 by done. eauto.
  - intros br Hd. case_bool_decide as Hin; [|by apply (RemoveTable_absent bs nb)].
    destruct (RemoveTable_ok bs nb Hbs Hnb r br Hwf Hin Hd) as (r2 & E2 & _). eauto.
  - intros sel Hnd Hsel. destruct (ReaderForLiveBytes_ok bs nb Hbs Hnb r sel Hwf Hnd Hsel) as (r2 & E2 & _). eauto.
Qed.

(** ** Compaction *)

(** The contents a compaction writes: the write logs, the last on top, over the
    live blocks [live] of the chosen tables. *)
Definition compacted_content (writers : list R) (live : content) : content :=
  overlay (reverse (C <$> writers) ++ [live]).

Lemma compacted_sound (tables writers sel : list R) (live : content) k b :
  (forall k, live k = live_content (tables ++ writers) sel k) ->
  compacted_content writers live k = Some b -> overlay (reverse (C <$> tables ++ writers)) k = Some b.
Proof.
  intros Hlive. unfold compacted_content. rewrite overlay_app, fmap_app, reverse_app, overlay_app.
  destruct (overlay (reverse (C <$> writers)) k) as [b'|] eqn:Ew; [done|]. cbn.
  rewrite Hlive. unfold live_content. destruct (top_owner _ _ k); [|done]. case_bool_decide; [|done].
  rewrite fmap_app, reverse_app, overlay_app, Ew.
  by destruct (overlay (reverse (C <$> tables)) k).
Qed.

Lemma compacted_owner r (tables writers sel : list R) (live : content) k b :
  pushable (tables ++ writers) -> indexes r (tables ++ writers) ->
  (forall k, live k = live_content (tables ++ writers) sel k) ->
  compacted_content writers live k = Some b ->
  bm_content C r k = Some b.
Proof.
  intros Hp Hr Hlive Hk. destruct (indexes_inv r _ Hp Hr) as (_ & _ & _ & _ & Hc). rewrite Hc.
  by eapply compacted_sound.
Qed.

Lemma compacted_covers (tables writers sel : list R) (live : content) k br :
  (forall k, live k = live_content (tables ++ writers) sel k) ->
  top_owner C (reverse (tables ++ writers)) k = Some br -> br ∈ sel ++ writers ->
  is_Some (compacted_content writers live k).
Proof.
  intros Hlive Ho Hbr. unfold compacted_content. rewrite overlay_app.
  destruct (overlay (reverse (C <$> writers)) k) as [b'|] eqn:Ew; [by eauto|]. cbn.
  rewrite Hlive. unfold live_content. rewrite Ho. pose proof (top_owner_Some _ _ _ _ Ho) as [_ Hs].
  rewrite <- fmap_reverse, top_owner_content, Ho. cbn.
  apply elem_of_app in Hbr as [Hsel|Hw].
  - rewrite bool_decide_eq_true_2 by done. by destruct (C br k).
  - exfalso. rewrite <- fmap_reverse, top_owner_content in Ew.
    destruct (top_owner C (reverse writers) k) as [b|] eqn:Et; cbn in Ew.
    + apply top_owner_Some in Et as [_ [? Et]]. congruence.
    + rewrite top_owner_None in Et. rewrite Et in Hs; [by destruct Hs|]. by apply elem_of_reverse.
Qed.

Lemma sel_writers_NoDup tables writers sel :
  NoDup (tables ++ writers) -> NoDup sel -> Forall (fun br => br ∈ tables) sel -> NoDup (sel ++ writers).
Proof.
  intros (_ & Hd & Hw)%NoDup_app Hs Hsel. rewrite Forall_forall in Hsel.
  apply NoDup_app. split; [done|]. split; [|done]. auto.
Qed.

Lemma filter_compacted tables writers sel t :
  NoDup (tables ++ writers) -> Forall (fun br => br ∈ tables) sel -> t ∉ tables ++ writers ->
  filter (fun x => x ∉ sel ++ writers) ((tables ++ writers) ++ [t]) =
  filter (fun x => x ∉ sel) tables ++ [t].
Proof.
  intros (_ & Hd & _)%NoDup_app Hsel Ht. rewrite Forall_forall in Hsel. rewrite !filter_app.
  rewrite (filter_none _ writers), app_nil_r by set_solver.
  rewrite (filter_all _ [t]).
  - f_equal. apply filter_ext. intros x Hx. specialize (Hd x Hx). set_solver.
  - intros x ->%list_elem_of_singleton [Hx|Hx]%elem_of_app; [apply Hsel in Hx|]; set_solver.
Qed.

(** C14: a compaction loses nothing. Let an index hold tables and, after them,
    write logs, and let [t] be a new table with the contents of the logs over
    the live blocks of the chosen tables [sel]. Pushing [t] changes the contents
    of no block; afterwards the chosen tables and the logs have no live block,
    and removing them all succeeds and again changes the contents of no
    block. *)
Theorem compaction_preserves_blocks r tables writers sel lr t :
  pushable (tables ++ writers) -> indexes r (tables ++ writers) ->
  Z.of_nat (length (tables ++ writers)) < 65535 ->
  NoDup sel -> Forall (fun br => br ∈ tables) sel ->
  ReaderForLiveBytes r sel = Ret lr ->
  t ∉ tables ++ writers -> ok t (C t) ->
  (forall k, C t k = compacted_content writers (bm_content C lr) k) ->
  exists r1 r2, PushReader r t = Ret r1 /\ remove_all r1 (sel ++ writers) = Ret r2 /\
    (forall k, bm_content C r1 k = bm_content C r k) /\
    (forall br, br ∈ sel ++ writers -> live_count nb r1 br = 0) /\
    (forall k, bm_content C r2 k = bm_content C r k) /\
    ListReaders r2 = filter (fun x => x ∉ sel) tables ++ [t].
Proof.
  intros Hp Hr Hlen Hnd Hsel Elr Ht Hokt Hct.
  destruct (indexes_inv r _ Hp Hr) as (Hwf & Hrs & Hco & Ho & Hc).
  destruct (live_reader_ok r _ sel Hp Hr Hnd) as (lr' & E' & _ & Hlive).
  { eapply Forall_impl; [exact Hsel|]. set_solver. }
  assert (lr' = lr) as -> by congruence. clear E'.
  destruct (PushReader_ok bs nb Hbs Hnb r t (C t)) as (r1 & E1 & Hwf1 & Hrs1 & Ho1);
    [done|by rewrite Hrs|by rewrite Hrs|done|].
  assert (Hc1 : forall k, bm_content C r1 k = bm_content C r k).
  { intros k. unfold bm_content at 1. rewrite Ho1. case_bool_decide as Hs; [|done]. cbn.
    destruct Hs as [b Hb]. rewrite Hb. rewrite Hct in Hb. symmetry.
    by eapply (compacted_owner r tables writers sel). }
  assert (Hdead : forall br, br ∈ sel ++ writers -> forall k, owner r1 k <> Some br).
  { intros br Hbr k. rewrite Ho1. case_bool_decide as Hs.
    - intros [= ->]. apply Ht. apply elem_of_app in Hbr as [Hb|Hb]; [|set_solver].
      rewrite Forall_forall in Hsel. specialize (Hsel _ Hb). set_solver.
    - rewrite Ho. intros Hk. apply Hs. rewrite Hct. by eapply compacted_covers. }
  assert (Hsub : forall br, br ∈ sel ++ writers -> br ∈ tables ++ writers).
  { intros br [Hb|Hb]%elem_of_app; [|set_solver]. rewrite Forall_forall in Hsel.
    specialize (Hsel _ Hb). set_solver. }
  destruct (remove_all_ok (sel ++ writers) r1) as (r2 & E2 & Hwf2 & Hrs2 & Ho2); [done| | |].
  { by apply sel_writers_NoDup with tables; [apply Hp|..]. }
  { apply Forall_forall. intros br Hbr. split; [|by apply Hdead].
    rewrite Hrs1, Hrs. apply elem_of_app. left. by apply Hsub. }
  exists r1, r2. split; [done|]. split; [done|]. split; [done|]. split; [|split].
  - intros br Hbr. apply (live_count_0 bs nb); [done|]. by apply Hdead.
  - intros k. rewrite <- Hc1. unfold bm_content. by rewrite Ho2.
  - unfold ListReaders. rewrite Hrs2, Hrs1, Hrs. apply filter_compacted; [apply Hp|done..].
Qed.
End theorems.

(** ** Witnesses: a device of 6 blocks of 2 bytes, two tables and two logs *)
Definition example_disk (i : positive) : mem_reader :=
  MemReader 2 6
    match i with
    | 1%positive => {[0 := 1; 1 := 1; 2 := 1]}
    | 2%positive => {[1 := 2; 4 := 2]}
    | 3%positive => {[2 := 3]}
    | 4%positive => {[1 := 2; 2 := 3; 4 := 2]}
    | _ => ∅
    end (fun _ => false).

#[local] Instance example_reader : BlockHoleReader positive := {
  ReadBlocks i := ReadBlocks (example_disk i);
  NextBlockData i := NextBlockData (example_disk i);
  NextBlockHole i := NextBlockHole (example_disk i);
}.

Definition example_content (i : positive) : content := mem_content (example_disk i).

Lemma example_ok i : reader_ok 2 6 i (example_content i).
Proof.
  pose proof (mem_reader_ok (example_disk i) ltac:(done) ltac:(done)) as [Hs Hr Hd Hh Hrd].
  split; [exact Hs|exact Hr|exact Hd|exact Hh|exact Hrd].
Qed.

Lemma example_pushable (l : list positive) :
  NoDup l -> Z.of_nat (length l) <= 65535 -> pushable 2 6 example_content l.
Proof.
  intros Hnd Hl. split; [done|]. split; [done|]. apply Forall_forall. intros i _. apply example_ok.
Qed.

Abbreviation example_map := (Reader positive (BitmapRangeMap Z (Z -> bool) fun_bits) fun_bits).

Lemma example_index (l : list positive) :
  NoDup l -> Z.of_nat (length l) <= 65535 -> exists r : example_map, indexes 2 6 r l.
Proof.
  intros Hnd Hl. destruct (indexes_ok (M := BitmapRangeMap Z (Z -> bool) fun_bits) (BS := fun_bits)
    2 6 ltac:(lia) ltac:(lia) example_content l (example_pushable l Hnd Hl)) as (r & Hr & _). by exists r.
Qed.

Lemma example_out i k : ~ 0 <= k < 6 -> example_content i k = None.
Proof. intros Hk. unfold example_content, mem_content. by rewrite bool_decide_eq_false_2. Qed.

Ltac example_side := first [lia | apply (bool_decide_unpack _); vm_compute; exact I].

Lemma blockmap_newest_wins_witness :
  exists r : example_map, push_all (NewReader 2 6) [1; 2; 3]%positive = Ret r /\
    find r 1 = Ret (Some 2%positive) /\ find r 2 = Ret (Some 3%positive) /\ find r 3 = Ret None.
Proof.
  destruct (blockmap_newest_wins (M := BitmapRangeMap Z (Z -> bool) fun_bits) (BS := fun_bits)
    2 6 ltac:(lia) ltac:(lia) example_content [1; 2; 3]%positive) as (r & E & _ & Hf & _).
  { apply example_pushable; example_side. }
  exists r. split; [exact E|]. rewrite !Hf by lia. vm_compute. split_and!; reflexivity.
Defined.

Lemma blockmap_reads_as_stack_witness :
  exists r : example_map, indexes 2 6 r [1; 2; 3]%positive /\
    exists err, bm_ReadBlocks r (zeros 8) 1 = Ret ([2; 2; 3; 3; 0; 0; 2; 2], 4, err).
Proof.
  destruct (example_index [1; 2; 3]%positive) as [r Hr]; [example_side..|].
  exists r. split; [exact Hr|].
  destruct (blockmap_reads_as_stack 2 6 ltac:(lia) ltac:(lia) example_content r [1; 2; 3]%positive
    (zeros 8) 1 4) as (err & buf & E & _ & _ & ->); [|exact Hr|lia|lia|lia|reflexivity|].
  { apply example_pushable; example_side. }
  exists err. rewrite E. vm_compute. reflexivity.
Defined.

Lemma blockmap_live_blocks_witness :
  exists r : example_map, indexes 2 6 r [1; 2; 3]%positive /\ LiveBlocks r = Ret 4.
Proof.
  destruct (example_index [1; 2; 3]%positive) as [r Hr]; [example_side..|].
  exists r. split; [exact Hr|].
  destruct (blockmap_live_blocks 2 6 ltac:(lia) ltac:(lia) example_content r [1; 2; 3]%positive)
    as [_ E]; [|exact Hr|].
  { apply example_pushable; example_side. }
  rewrite E. vm_compute. reflexivity.
Defined.

Lemma blockmap_live_reader_witness :
  exists r r' : example_map, indexes 2 6 r [1; 2; 3]%positive /\
    ReaderForLiveBytes r [1%positive] = Ret r' /\ bm_content example_content r' 0 = Some [1; 1] /\
    bm_content example_content r' 1 = None.
Proof.
  destruct (example_index [1; 2; 3]%positive) as [r Hr]; [example_side..|]. exists r.
  destruct (blockmap_live_reader 2 6 ltac:(lia) ltac:(lia) example_content r [1; 2; 3]%positive
    [1%positive]) as (r' & E & _ & Hc); [|exact Hr|example_side|example_side|].
  { apply example_pushable; example_side. }
  exists r'. split; [exact Hr|]. split; [exact E|]. rewrite !Hc. vm_compute. split; reflexivity.
Defined.

Lemma blockmap_well_formed_witness :
  exists r : example_map, indexes 2 6 r [1; 2; 3]%positive /\ bm_wf 2 6 r /\ PushReader r 2%positive = Panic /\
    exists r', PushReader r 4%positive = Ret r'.
Proof.
  destruct (indexes_ok (M := BitmapRangeMap Z (Z -> bool) fun_bits) (BS := fun_bits) 2 6 ltac:(lia) ltac:(lia)
    example_content [1; 2; 3]%positive) as (r & Hr & _ & Hrs & _); [by apply example_pushable; example_side|].
  exists r. split; [exact Hr|].
  destruct (blockmap_well_formed 2 6 ltac:(lia) ltac:(lia) example_content r) as (Hwf & _ & Hpush & _).
  { eapply (push_all_reachable 2 6 example_content [1; 2; 3]%positive); [apply rtc_refl|cbn; lia| |exact Hr].
    apply Forall_forall. intros i _. apply example_ok. }
  split; [exact Hwf|]. pose proof (Hpush 2%positive (example_ok 2)) as H2. pose proof (Hpush 4%positive (example_ok 4)) as H4.
  rewrite Hrs in H2, H4. split; [apply H2; cbn; lia|apply H4; cbn; lia].
Defined.

(** Table 1 is kept, table 2 and the log 3 are compacted into table 4. *)
Lemma compaction_preserves_blocks_witness :
  exists r r1 r2 : example_map, indexes 2 6 r [1; 2; 3]%positive /\
    PushReader r 4%positive = Ret r1 /\ remove_all r1 [2; 3]%positive = Ret r2 /\
    ListReaders r2 = [1; 4]%positive.
Proof.
  destruct (example_index [1; 2; 3]%positive) as [r Hr]; [example_side..|]. exists r.
  destruct (live_reader_ok 2 6 ltac:(lia) ltac:(lia) example_content r [1; 2; 3]%positive [2%positive])
    as (lr & El & _ & Hl); [by apply example_pushable; example_side|exact Hr|example_side..|].
  destruct (compaction_preserves_blocks 2 6 ltac:(lia) ltac:(lia) example_content r [1; 2]%positive
    [3%positive] [2%positive] lr 4%positive) as (r1 & r2 & E1 & E2 & _ & _ & _ & Hrs);
    [by apply example_pushable; example_side|exact Hr|cbn; lia|example_side|example_side|exact El|example_side
    |apply example_ok| |].
  { intros k. unfold compacted_content. rewrite overlay_app. cbn [overlay]. rewrite Hl.
    destruct (decide (0 <= k < 6)) as [Hk|Hk].
    - assert (k = 0 \/ k = 1 \/ k = 2 \/ k = 3 \/ k = 4 \/ k = 5) as Hcases by lia.
      destruct Hcases as [->|[->|[->|[->|[->| ->]]]]]; vm_compute; reflexivity.
    - cbn. unfold live_content. cbn. rewrite !example_out by exact Hk. cbn. reflexivity. }
  exists r1, r2. split; [exact Hr|]. split; [exact E1|]. split; [exact E2|]. rewrite Hrs. reflexivity.
Defined.
