(* ===== verification/GoStd.v ===== *)
(** * The parts of Go's standard library the formats use

    [encoding/binary] (little-endian words and varints), [hash/crc32] with the
    IEEE polynomial, [io.ReaderAt] on a file, slices, [bufio.Reader] and
    [bufio.Writer]. *)
From S2P Require Import Prelude RangeMap BlockReader.
Local Open Scope Z_scope.

(** ** Little-endian integers *)
Fixpoint le_put (n : nat) (x : Z) : bytes :=
  match n with
  | O => []
  | S n => u8 x :: le_put n (Z.shiftr x 8)
  end.

Fixpoint le_get (b : bytes) : Z :=
  match b with
  | [] => 0
  | x :: b => Z.lor x (Z.shiftl (le_get b) 8)
  end.

Definition is_byte (x : Z) : Prop := 0 <= x < 2 ^ 8.

Lemma lor_disjoint a b n : 0 <= n -> 0 <= a < 2 ^ n -> Z.lor a (Z.shiftl b n) = a + b * 2 ^ n.
Proof.
  intros Hn Ha. rewrite <- Z.shiftl_mul_pow2, <- Z.add_lor_land by lia.
  assert (Z.land a (Z.shiftl b n) = 0) as ->; [|lia].
  apply Z.bits_inj'. intros i Hi. rewrite Z.land_spec, Z.bits_0.
  destruct (decide (i < n)).
  - rewrite Z.shiftl_spec_low by lia. apply andb_false_r.
  - rewrite <- (Z.mod_small a (2 ^ n)) by lia. by rewrite Z.mod_pow2_bits_high by lia.
Qed.

Lemma u8_byte x : is_byte (u8 x).
Proof. apply Z.mod_pos_bound. lia. Qed.

Lemma le_get_cons x b : is_byte x -> le_get (x :: b) = x + le_get b * 2 ^ 8.
Proof. intros Hx. cbn [le_get]. apply lor_disjoint; [lia|done]. Qed.

Lemma length_le_put n x : length (le_put n x) = n.
Proof. revert x. induction n as [|n IH]; intros x; cbn; [done|]. by rewrite IH. Qed.

Lemma len_le_put n x : len (le_put n x) = Z.of_nat n.
Proof. unfold len. by rewrite length_le_put. Qed.

Lemma le_get_put_app n x b :
  0 <= x < 2 ^ (8 * Z.of_nat n) -> le_get (le_put n x ++ b) = x + le_get b * 2 ^ (8 * Z.of_nat n).
Proof.
  revert x. induction n as [|n IH]; intros x Hx; cbn [le_put app].
  { change (8 * Z.of_nat 0) with 0 in *. lia. }
  rewrite le_get_cons by apply u8_byte. rewrite Z.shiftr_div_pow2 by lia.
  replace (8 * Z.of_nat (S n)) with (8 + 8 * Z.of_nat n) in * by lia.
  rewrite Z.pow_add_r in * by lia. rewrite IH.
  - unfold u8. pose proof (Z.div_mod x (2 ^ 8) ltac:(lia)). lia.
  - split; [apply Z.div_pos; lia|]. apply Z.div_lt_upper_bound; lia.
Qed.

Lemma le_get_put n x : 0 <= x < 2 ^ (8 * Z.of_nat n) -> le_get (le_put n x) = x.
Proof. intros Hx. rewrite <- (app_nil_r (le_put n x)), le_get_put_app by done. cbn. lia. Qed.

Lemma le_put_split n m x : le_put (n + m) x = le_put n x ++ le_put m (Z.shiftr x (8 * Z.of_nat n)).
Proof.
  revert x. induction n as [|n IH]; intros x; cbn [le_put app Nat.add]; [by rewrite Z.shiftr_0_r|].
  f_equal. rewrite IH, Z.shiftr_shiftr by lia. do 3 f_equal. lia.
Qed.

(** ** Files

    The [io.ReaderAt] below is a file. A read that reaches its end may return
    [io.EOF] with the last bytes ([f_eager]) or not, as [io.ReaderAt] allows. *)
Record file := MkFile { f_bytes : bytes; f_eager : bool }.

Definition file_ReadAt (f : file) (p : bytes) (off : Z) : bytes * Z * option error :=
  let avail := drop (Z.to_nat off) (f_bytes f) in
  let n := Z.min (len p) (len avail) in
  (take (Z.to_nat n) avail ++ drop (Z.to_nat n) p, n,
   if n <? len p then Some EOF
   else if f_eager f && (off + n =? len (f_bytes f)) then Some EOF else None).

(** [p[a:b]] *)
Definition slice (p : bytes) (a b : Z) : outcome bytes :=
  if (0 <=? a) && (a <=? b) && (b <=? len p)
  then Ret (take (Z.to_nat (b - a)) (drop (Z.to_nat a) p)) else Panic.

(** ** Reading parts of a file *)
Lemma file_read_mid f a b c p :
  f_bytes f = a ++ b ++ c -> len p = len b ->
  file_ReadAt f p (len a) = (b, len b, if f_eager f && (len c =? 0) then Some EOF else None).
Proof.
  intros Hf Hp. unfold file_ReadAt. rewrite Hf, drop_len. pose proof (len_nonneg c).
  rewrite (len_app b c). rewrite Z.min_l, Hp, Z.ltb_irrefl, take_len by lia.
  rewrite drop_ge, app_nil_r by (unfold len in *; lia). rewrite !len_app.
  assert ((len a + len b =? len a + (len b + len c)) = (len c =? 0)) as ->; [|done].
  destruct (Z.eqb_spec (len c) 0), (Z.eqb_spec (len a + len b) (len a + (len b + len c))); lia.
Qed.

Lemma slice_mid a b c off n :
  off = len a -> n = off + len b -> slice (a ++ b ++ c) off n = Ret b.
Proof.
  intros -> ->. unfold slice. rewrite !len_app. pose proof (len_nonneg a).
  pose proof (len_nonneg b). pose proof (len_nonneg c).
  rewrite !(proj2 (Z.leb_le _ _)) by lia. cbn [andb].
  replace (len a + len b - len a) with (len b) by lia. by rewrite drop_len, take_len.
Qed.

(** ** [hash/crc32] with the IEEE polynomial

    The digest of [crc32.New(crc32.IEEETable)]: [crc_new] is its initial state,
    [crc_write] adds bytes and [crc_sum] is [Sum32]. *)
Definition crc_poly : Z := 3988292384. (* 0xedb88320 *)
Definition crc_shift (c : Z) : Z :=
  if Z.odd c then Z.lxor (Z.shiftr c 1) crc_poly else Z.shiftr c 1.
Definition crc_byte (c b : Z) : Z := Nat.iter 8 crc_shift (Z.lxor c b).
Definition crc_new : Z := 2 ^ 32 - 1.
Definition crc_write (c : Z) (p : bytes) : Z := fold_left crc_byte p c.
Definition crc_sum (c : Z) : Z := Z.lxor c (2 ^ 32 - 1).

(** The check value of the algorithm: the digest of ["123456789"]. *)
Example crc_check : crc_sum (crc_write crc_new [49; 50; 51; 52; 53; 54; 55; 56; 57]) = 3421780262.
Proof. vm_compute. reflexivity. Qed.

Lemma crc_write_app c p q : crc_write c (p ++ q) = crc_write (crc_write c p) q.
Proof. apply fold_left_app. Qed.

Lemma lxor_bound a b n : 0 <= n -> 0 <= a < 2 ^ n -> 0 <= b < 2 ^ n -> 0 <= Z.lxor a b < 2 ^ n.
Proof.
  intros Hn Ha Hb. assert (Z.lxor a b = Z.lxor a b mod 2 ^ n) as ->; [|apply Z.mod_pos_bound; lia].
  apply Z.bits_inj'. intros i Hi. rewrite Z.lxor_spec. destruct (decide (i < n)).
  - by rewrite Z.mod_pow2_bits_low, Z.lxor_spec by lia.
  - rewrite Z.mod_pow2_bits_high by lia.
    rewrite <- (Z.mod_small a (2 ^ n)), <- (Z.mod_small b (2 ^ n)) by lia.
    by rewrite !Z.mod_pow2_bits_high by lia.
Qed.

Lemma crc_shift_bound c : 0 <= c < 2 ^ 32 -> 0 <= crc_shift c < 2 ^ 32.
Proof.
  intros Hc. assert (0 <= Z.shiftr c 1 < 2 ^ 32).
  { rewrite Z.shiftr_div_pow2 by lia. change (2 ^ 1) with 2.
    split; [apply Z.div_pos; lia|apply Z.div_lt_upper_bound; lia]. }
  unfold crc_shift. destruct (Z.odd c); [|done]. apply lxor_bound; [lia|done|unfold crc_poly; lia].
Qed.

Lemma crc_byte_bound c b : 0 <= c < 2 ^ 32 -> is_byte b -> 0 <= crc_byte c b < 2 ^ 32.
Proof.
  intros Hc Hb. unfold is_byte in Hb. unfold crc_byte.
  assert (0 <= Z.lxor c b < 2 ^ 32) as Hx by (apply lxor_bound; lia).
  revert Hx. generalize (Z.lxor c b). intros x Hx. cbn. do 8 apply crc_shift_bound. done.
Qed.

Lemma crc_write_bound c p : 0 <= c < 2 ^ 32 -> Forall is_byte p -> 0 <= crc_write c p < 2 ^ 32.
Proof.
  intros Hc Hp. revert c Hc. induction Hp as [|b p Hb Hp IH]; intros c Hc; [done|].
  cbn. by apply IH, crc_byte_bound.
Qed.

Lemma crc_sum_bound c : 0 <= c < 2 ^ 32 -> 0 <= crc_sum c < 2 ^ 32.
Proof. intros. by apply lxor_bound. Qed.

Lemma le_put_bytes n x : Forall is_byte (le_put n x).
Proof. revert x. induction n as [|n IH]; intros x; cbn; constructor; [apply u8_byte|done]. Qed.

(** ** Varints *)
Fixpoint uvarint_put (fuel : nat) (x : Z) : bytes :=
  match fuel with
  | O => [u8 x]
  | S fuel => if x <? 128 then [u8 x] else Z.lor (u8 x) 128 :: uvarint_put fuel (Z.shiftr x 7)
  end.

(** [binary.AppendUvarint]: ten bytes hold 64 bits. *)
Definition AppendUvarint (buf : bytes) (x : Z) : bytes := buf ++ uvarint_put 9 x.

Fixpoint uvarint_get (n : nat) (i x s : Z) (src : bytes) : Z * bytes * option error :=
  match n with
  | O => (x, src, Some errOverflow)
  | S n =>
      match src with
      | [] => (x, [], Some (if 0 <? i then ErrUnexpectedEOF else EOF))
      | b :: src =>
          if b <? 128 then
            if (i =? 9) && (1 <? b) then (x, src, Some errOverflow)
            else (Z.lor x (u64 (Z.shiftl b s)), src, None)
          else uvarint_get n (i + 1) (Z.lor x (u64 (Z.shiftl (Z.land b 127) s))) (s + 7) src
      end
  end.

(** [binary.ReadUvarint] *)
Definition ReadUvarint (src : bytes) : Z * bytes * option error := uvarint_get 10 0 0 0 src.

Lemma uvarint_step x s :
  0 <= s -> 128 <= x -> x * 2 ^ s < 2 ^ 64 ->
  u64 (Z.shiftl (Z.land (Z.lor (u8 x) 128) 127) s) = Z.shiftl (x mod 2 ^ 7) s.
Proof.
  intros Hs Hx Hlt. assert (Z.land (Z.lor (u8 x) 128) 127 = x mod 2 ^ 7) as ->.
  { apply Z.bits_inj'. intros i Hi. change 127 with (Z.ones 7). change 128 with (2 ^ 7).
    rewrite Z.land_ones by lia. destruct (decide (i < 7)).
    - rewrite !Z.mod_pow2_bits_low, Z.lor_spec, Z.pow2_bits_false, orb_false_r by lia.
      unfold u8. by rewrite Z.mod_pow2_bits_low by lia.
    - by rewrite !Z.mod_pow2_bits_high by lia. }
  rewrite Z.shiftl_mul_pow2 by lia. apply u64_small.
  pose proof (Z.mod_le x (2 ^ 7) ltac:(lia) ltac:(lia)). pose proof (Z.mod_pos_bound x (2 ^ 7) ltac:(lia)).
  pose proof (Z.pow_pos_nonneg 2 s ltac:(lia) Hs). nia.
Qed.

Lemma uvarint_high x : (Z.lor (u8 x) 128 <? 128) = false.
Proof.
  apply Z.ltb_ge. destruct (Z.le_gt_cases 128 (Z.lor (u8 x) 128)) as [|Hlt]; [done|exfalso].
  pose proof (u8_byte x) as Hb. unfold is_byte in Hb.
  assert (0 <= Z.lor (u8 x) 128) by (apply Z.lor_nonneg; lia).
  assert (Z.testbit (Z.lor (u8 x) 128) 7 = true) as Ht by (rewrite Z.lor_spec; apply orb_true_r).
  rewrite <- (Z.mod_small (Z.lor (u8 x) 128) (2 ^ 7)), Z.mod_pow2_bits_high in Ht by lia. done.
Qed.

Lemma uvarint_get_put n i acc s x rest :
  i = 9 - Z.of_nat n -> s = 7 * i -> 0 <= i -> 0 <= acc < 2 ^ s -> 0 <= x -> x * 2 ^ s < 2 ^ 64 ->
  uvarint_get (S n) i acc s (uvarint_put n x ++ rest) = (acc + x * 2 ^ s, rest, None).
Proof.
  revert i acc s x. induction n as [|n IH]; intros i acc s x Hi Hs Hi0 Hacc Hx Hlt.
  - assert (i = 9) by lia. assert (s = 63) by lia. clear Hi Hs. subst i s. assert (x < 2) by lia. cbn [uvarint_put app uvarint_get].
    rewrite u8_small by lia. rewrite (proj2 (Z.ltb_lt x 128)), (proj2 (Z.ltb_ge 1 x)), andb_false_r by lia.
    rewrite Z.shiftl_mul_pow2, u64_small, <- Z.shiftl_mul_pow2 by lia. by rewrite lor_disjoint, Z.shiftl_mul_pow2 by lia.
  - cbn [uvarint_put]. destruct (Z.ltb_spec x 128) as [Hsmall|Hbig]; cbn [app].
    + cbn [uvarint_get]. rewrite u8_small by lia. rewrite (proj2 (Z.ltb_lt x 128)) by lia.
      rewrite (proj2 (Z.eqb_neq i 9)) by lia. cbn [andb].
      rewrite Z.shiftl_mul_pow2 by lia. rewrite u64_small by nia. rewrite <- Z.shiftl_mul_pow2 by lia.
      by rewrite lor_disjoint, Z.shiftl_mul_pow2 by lia.
    + cbn [uvarint_get]. rewrite uvarint_high. rewrite uvarint_step by (done || lia).
      rewrite lor_disjoint by lia. pose proof (Z.mod_pos_bound x (2 ^ 7) ltac:(lia)) as Hm.
      pose proof (Z.div_mod x (2 ^ 7) ltac:(lia)) as Hdm. pose proof (Z.pow_pos_nonneg 2 s ltac:(lia) ltac:(lia)).
      assert (2 ^ (s + 7) = 2 ^ s * 2 ^ 7) as Hp by (rewrite Z.pow_add_r; lia).
      rewrite Z.shiftr_div_pow2 by lia. assert (0 <= x / 2 ^ 7) by (apply Z.div_pos; lia).
      assert (acc + x mod 2 ^ 7 * 2 ^ s < 2 ^ (s + 7)) by (rewrite Hp; nia).
      specialize (IH (i + 1) (acc + x mod 2 ^ 7 * 2 ^ s) (s + 7) (x / 2 ^ 7)).
      cbn [uvarint_get] in IH. rewrite IH; [|lia|lia|lia|nia|lia|rewrite Hp; nia].
      do 2 f_equal. rewrite Hp. nia.
Qed.

Lemma ReadUvarint_put x rest :
  0 <= x < 2 ^ 64 -> ReadUvarint (uvarint_put 9 x ++ rest) = (x, rest, None).
Proof.
  intros Hx. unfold ReadUvarint. rewrite (uvarint_get_put 9) by (cbn; lia). do 2 f_equal. lia.
Qed.

(** ** [io.Writer]

    [Write] returns the number of bytes written, with an error when it is less
    than the bytes given. [io_out] is what has reached the destination;
    [io_reliable] describes a destination that does not fail. *)
Class IoWriter (W : Type) := { io_Write : W -> bytes -> W * Z * option error }.

Class IoWriterLaws (W : Type) `{!IoWriter W} := {
  io_out : W -> bytes;
  io_reliable : W -> Prop;
  io_Write_ok w p w' n err : io_Write w p = (w', n, err) ->
    0 <= n <= len p /\ io_out w' = io_out w ++ take (Z.to_nat n) p /\ (err = None -> n = len p);
  io_Write_reliable w p w' n err : io_reliable w -> io_Write w p = (w', n, err) ->
    err = None /\ io_reliable w';
}.

Lemma take_prefix {A} n (p : list A) : take n p `prefix_of` p.
Proof. exists (drop n p). by rewrite take_drop. Qed.

(** ** [bufio.Writer] *)
Section bufio_writer.
Context {W : Type} `{!IoWriter W}.

Record bufio_Writer := MkBufioWriter { bw_wr : W; bw_buf : bytes; bw_err : option error }.

(** [defaultBufSize] *)
Definition bufio_size : Z := 4096.

Definition bufio_NewWriter (w : W) : bufio_Writer := MkBufioWriter w [] None.

Definition bw_Flush (b : bufio_Writer) : bufio_Writer * option error :=
  match bw_err b with
  | Some err => (b, Some err)
  | None =>
      if len (bw_buf b) =? 0 then (b, None)
      else
        let '(w, n, err) := io_Write (bw_wr b) (bw_buf b) in
        let err := if (n <? len (bw_buf b)) && bool_decide (err = None) then Some ErrShortWrite else err in
        match err with
        | Some err => (MkBufioWriter w (drop (Z.to_nat n) (bw_buf b)) (Some err), Some err)
        | None => (MkBufioWriter w [] None, None)
        end
  end.

Fixpoint bw_write_loop (fuel : nat) (b : bufio_Writer) (p : bytes) (nn : Z) :
    outcome (bufio_Writer * Z * option error) :=
  match fuel with
  | O => OutOfFuel
  | S fuel =>
      if (bufio_size - len (bw_buf b) <? len p) && bool_decide (bw_err b = None) then
        if len (bw_buf b) =? 0 then
          let '(w, n, err) := io_Write (bw_wr b) p in
          bw_write_loop fuel (MkBufioWriter w [] err) (drop (Z.to_nat n) p) (nn + n)
        else
          let n := Z.min (bufio_size - len (bw_buf b)) (len p) in
          let '(b, _) := bw_Flush (MkBufioWriter (bw_wr b) (bw_buf b ++ take (Z.to_nat n) p) (bw_err b)) in
          bw_write_loop fuel b (drop (Z.to_nat n) p) (nn + n)
      else
        match bw_err b with
        | Some err => Ret (b, nn, Some err)
        | None => Ret (MkBufioWriter (bw_wr b) (bw_buf b ++ p) None, nn + len p, None)
        end
  end.

(** Filling a half-full buffer, a direct write of a large slice and the final
    check take three iterations. *)
Definition bw_Write (b : bufio_Writer) (p : bytes) : outcome (bufio_Writer * Z * option error) :=
  bw_write_loop 4 b p 0.

Context `{!IoWriterLaws W}.

(** All the bytes given to a writer that has not failed. *)
Definition bw_total (b : bufio_Writer) : bytes := io_out (bw_wr b) ++ bw_buf b.

Record bw_ok (b : bufio_Writer) : Prop := {
  bw_no_err : bw_err b = None;
  bw_fits : len (bw_buf b) <= bufio_size;
  bw_rel : io_reliable (bw_wr b);
}.

Lemma bw_Flush_ok b :
  bw_ok b -> exists b', bw_Flush b = (b', None) /\ bw_ok b' /\ bw_buf b' = [] /\ bw_total b' = bw_total b.
Proof.
  intros [Herr Hfit Hrel]. unfold bw_Flush. rewrite Herr.
  destruct (Z.eqb_spec (len (bw_buf b)) 0) as [Hz|Hz].
  { apply len_0_nil in Hz. exists b. by repeat split. }
  destruct (io_Write (bw_wr b) (bw_buf b)) as [[w n] err] eqn:E.
  destruct (io_Write_reliable _ _ _ _ _ Hrel E) as [-> Hrel'].
  destruct (io_Write_ok _ _ _ _ _ E) as (Hn & Hout & Hall). specialize (Hall eq_refl). subst n.
  rewrite Z.ltb_irrefl. cbn [andb]. eexists. split; [done|].
  split; [split; [done|change (0 <= 4096); lia|done]|]. split; [done|].
  unfold bw_total. cbn. rewrite app_nil_r, Hout. f_equal. unfold len. by rewrite Nat2Z.id, firstn_all.
Qed.

Lemma bw_write_loop_small fuel b p nn :
  bw_ok b -> len p <= bufio_size - len (bw_buf b) ->
  exists b', bw_write_loop (S fuel) b p nn = Ret (b', nn + len p, None) /\ bw_ok b' /\
             bw_total b' = bw_total b ++ p.
Proof.
  intros [Herr Hfit Hrel] Hp. cbn [bw_write_loop]. rewrite (proj2 (Z.ltb_ge _ _)), Herr by lia. cbn [andb].
  eexists. split; [done|]. split; [split; cbn; [done|rewrite len_app; lia|done]|].
  unfold bw_total. cbn. by rewrite app_assoc.
Qed.

Lemma bw_write_loop_empty fuel b p nn :
  bw_ok b -> bw_buf b = [] ->
  exists b', bw_write_loop (S (S fuel)) b p nn = Ret (b', nn + len p, None) /\ bw_ok b' /\
             bw_total b' = bw_total b ++ p.
Proof.
  intros Hok Hb. destruct (Z.le_gt_cases (len p) bufio_size) as [Hp|Hp].
  { apply bw_write_loop_small; [done|]. rewrite Hb, len_nil. lia. }
  destruct Hok as [Herr Hfit Hrel]. remember (S fuel) as fuel1. cbn [bw_write_loop].
  rewrite Hb, Herr. change (len []) with 0. rewrite (proj2 (Z.ltb_lt (bufio_size - 0) (len p))) by lia.
  rewrite bool_decide_true by done. cbn [andb Z.eqb].
  destruct (io_Write (bw_wr b) p) as [[w n] err] eqn:E.
  destruct (io_Write_reliable _ _ _ _ _ Hrel E) as [-> Hrel'].
  destruct (io_Write_ok _ _ _ _ _ E) as (Hn & Hout & Hall). specialize (Hall eq_refl). subst n.
  rewrite drop_ge by (unfold len; lia). subst fuel1.
  destruct (bw_write_loop_small fuel (MkBufioWriter w [] None) [] (nn + len p)) as (b' & Eb & Hok & Ht).
  { split; [done|change (0 <= 4096); lia|done]. }
  { change (0 <= 4096 - 0). lia. }
  exists b'. rewrite Eb. split; [by rewrite len_nil, Z.add_0_r|]. split; [done|].
  rewrite Ht. unfold bw_total. cbn. rewrite Hb, !app_nil_r, Hout. f_equal.
  unfold len. by rewrite Nat2Z.id, firstn_all.
Qed.

Lemma bw_Write_ok b p :
  bw_ok b -> exists b', bw_Write b p = Ret (b', len p, None) /\ bw_ok b' /\ bw_total b' = bw_total b ++ p.
Proof.
  intros Hok. unfold bw_Write. destruct (Z.le_gt_cases (len p) (bufio_size - len (bw_buf b))) as [Hp|Hp].
  { destruct (bw_write_loop_small 3 b p 0) as (b' & E & ?); [done..|]. by exists b'. }
  destruct (Z.eq_dec (len (bw_buf b)) 0) as [Hz|Hz].
  { apply len_0_nil in Hz. destruct (bw_write_loop_empty 2 b p 0) as (b' & E & ?); [done..|]. by exists b'. }
  pose proof Hok as [Herr Hfit Hrel]. cbn [bw_write_loop]. rewrite (proj2 (Z.ltb_lt _ _)) by lia.
  rewrite bool_decide_true by done. cbn [andb]. rewrite (proj2 (Z.eqb_neq _ 0)), Z.min_l by lia.
  remember (bufio_size - len (bw_buf b)) as n eqn:Hn.
  destruct (bw_Flush_ok (MkBufioWriter (bw_wr b) (bw_buf b ++ take (Z.to_nat n) p) (bw_err b)))
    as (b1 & E1 & Hok1 & Hb1 & Ht1).
  { split; cbn; [done|rewrite len_app, len_take; lia|done]. }
  rewrite E1. destruct (bw_write_loop_empty 1 b1 (drop (Z.to_nat n) p) (0 + n)) as (b2 & E2 & Hok2 & Ht2); [done..|].
  exists b2. cbn [bw_write_loop] in E2. rewrite E2, len_drop by lia.
  split; [do 3 f_equal; lia|]. split; [done|]. rewrite Ht2, Ht1. unfold bw_total. cbn.
  by rewrite <- !app_assoc, take_drop.
Qed.
End bufio_writer.
Arguments bufio_Writer W : clear implicits.

(** ** [bufio.Reader]

    A reader over a file is the bytes that remain. [Peek(n)] returns the next [n]
    of them, or an error with those it could get; [Discard(n)] skips bytes that
    were peeked. *)
Definition br_Peek (size : Z) (src : bytes) (n : Z) : bytes * option error :=
  if n <? 0 then ([], Some ErrNegativeCount)
  else if size <? n then (take (Z.to_nat size) src, Some ErrBufferFull)
  else if len src <? n then (src, Some EOF)
  else (take (Z.to_nat n) src, None).

Definition br_Discard (src : bytes) (n : Z) : bytes := drop (Z.to_nat n) src.

Lemma br_Peek_ok size p rest n : n = len p -> n <= size -> br_Peek size (p ++ rest) n = (p, None).
Proof.
  intros -> Hn. unfold br_Peek. pose proof (len_nonneg p). pose proof (len_nonneg rest).
  rewrite len_app. rewrite !(proj2 (Z.ltb_ge _ _)) by lia. by rewrite take_len.
Qed.

Lemma br_Peek_short size src n : len src < n <= size -> br_Peek size src n = (src, Some EOF).
Proof.
  intros Hn. unfold br_Peek. pose proof (len_nonneg src).
  rewrite (proj2 (Z.ltb_ge n 0)), (proj2 (Z.ltb_ge size n)), (proj2 (Z.ltb_lt (len src) n)) by lia. done.
Qed.

Lemma br_Discard_app p rest n : n = len p -> br_Discard (p ++ rest) n = rest.
Proof. intros ->. apply drop_len. Qed.
