(* ===== verification/Adaptor.v ===== *)
(** * Adaptors between bytes and blocks

    [internal/adaptor]: [BlockReader] and [BlockReadWriter] turn a byte-addressed
    reader with holes ([t.HoleReaderAt]) into a block reader, [Reader],
    [HoleReader] and [readWriter] the reverse. The file states the contract of a
    [t.HoleReaderAt] and proves that each adaptor maps one contract to the
    other. *)
From S2P Require Import Prelude RangeMap BlockReader.
Local Open Scope Z_scope.

(** ** [t.HoleReaderAt] *)
Class HoleReaderAt (H : Type) := {
  ReadAt : H -> bytes -> Z -> outcome (bytes * Z * option error);
  NextData : H -> Z -> outcome (Z * option error);
  NextHole : H -> Z -> outcome (Z * option error);
}.

(** ** [block_reader.go] *)
Section block_reader.
Context {H : Type} `{!HoleReaderAt H}.

Record BlockReader := NewBlockReader { abr_r : H; abr_blockSize : Z }.

Definition abr_ReadBlocks (r : BlockReader) (buf : bytes) (off : Z) :
    outcome (bytes * Z * option error) :=
  if negb (len buf mod abr_blockSize r =? 0) then Ret (buf, 0, Some ErrInvalidSize)
  else
    '(buf, n, err) ← ReadAt (abr_r r) buf (off * abr_blockSize r);
    Ret (buf, Z.quot n (abr_blockSize r), err).

Definition abr_NextBlockData (r : BlockReader) (off : Z) : outcome (Z * option error) :=
  '(nextOff, err) ← NextData (abr_r r) (off * abr_blockSize r);
  Ret (Z.quot nextOff (abr_blockSize r), err).

Definition abr_NextBlockHole (r : BlockReader) (off : Z) : outcome (Z * option error) :=
  '(nextOff, err) ← NextHole (abr_r r) (off * abr_blockSize r);
  Ret (Z.quot nextOff (abr_blockSize r), err).

#[export] Instance adaptor_block_reader : BlockHoleReader BlockReader := {
  ReadBlocks := abr_ReadBlocks;
  NextBlockData := abr_NextBlockData;
  NextBlockHole := abr_NextBlockHole;
}.
End block_reader.
Arguments BlockReader H : clear implicits.

(** [BlockReadWriter.WriteBlocks] over an [io.WriterAt] with the state [W]. *)
Definition WriteBlocks {W : Type} (WriteAt : W -> bytes -> Z -> outcome (W * Z * option error))
    (blockSize : Z) (w : W) (buf : bytes) (off : Z) : outcome (W * Z * option error) :=
  if negb (len buf mod blockSize =? 0) then Ret (w, 0, Some ErrInvalidSize)
  else
    '(w, n, err) ← WriteAt w buf (off * blockSize);
    Ret (w, Z.quot n blockSize, err).

(** ** [io_reader.go] *)

(** [Next(n)] and [Read(b)] of the [bytes.Buffer] of the pool: [Read] returns
    [io.EOF] when the buffer is empty and [b] is not. *)
Definition buffer_Next (buf : bytes) (n : Z) : bytes := drop (Z.to_nat n) buf.
Definition buffer_Read (buf b : bytes) : bytes * Z * option error :=
  if (len buf =? 0) && negb (len b =? 0) then (b, 0, Some EOF)
  else
    let n := Z.min (len b) (len buf) in
    (take (Z.to_nat n) buf ++ drop (Z.to_nat n) b, n, None).

(** [Reader.ReadAt] over the [ReadBlocks] of its [t.BlockReader]. The buffer of the
    pool is given to [ReadBlocks] filled with zeros; only the blocks it reads are
    used. *)
Definition ar_ReadAt (ReadBlocks : bytes -> Z -> outcome (bytes * Z * option error)) (bs : Z)
    (b : bytes) (off : Z) : outcome (bytes * Z * option error) :=
  if off <? 0 then Panic
  else if negb (len b mod bs =? 0) || negb (off mod bs =? 0) then
    let startBlock := off / bs in
    let endBlock := (off + len b + bs - 1) / bs in
    let bufSize := (endBlock - startBlock) * bs in
    '(blockBuf, blocksRead, err) ← ReadBlocks (zeros bufSize) startBlock;
    match err with
    | Some EOF | None =>
        readBuffer ← slice_to blockBuf (blocksRead * bs);
        let blockOff := off mod bs in
        Ret (buffer_Read (buffer_Next readBuffer blockOff) b)
    | Some e => Ret (b, 0, Some e)
    end
  else
    let blockIndex := off / bs in
    '(b, count, err) ← ReadBlocks b blockIndex;
    Ret (b, count * bs, err).

Section io_reader.
Context {R : Type} `{!BlockHoleReader R}.

(** [HoleReader] embeds [Reader] with the same [br]. *)
Record HoleReader := NewHoleReader { ahr_br : R; ahr_blockSize : Z }.

Definition ahr_ReadAt (a : HoleReader) : bytes -> Z -> outcome (bytes * Z * option error) :=
  ar_ReadAt (ReadBlocks (ahr_br a)) (ahr_blockSize a).

Definition ahr_NextData (a : HoleReader) (off : Z) : outcome (Z * option error) :=
  if off <? 0 then Panic
  else
    let blockOff := off / ahr_blockSize a in
    '(nextBlock, err) ← NextBlockData (ahr_br a) blockOff;
    Ret (if nextBlock =? blockOff then off else nextBlock * ahr_blockSize a, err).

Definition ahr_NextHole (a : HoleReader) (off : Z) : outcome (Z * option error) :=
  if off <? 0 then Panic
  else
    let blockOff := off / ahr_blockSize a in
    '(nextHole, err) ← NextBlockHole (ahr_br a) blockOff;
    Ret (if nextHole =? blockOff then off else nextHole * ahr_blockSize a, err).

#[export] Instance adaptor_hole_reader : HoleReaderAt HoleReader := {
  ReadAt := ahr_ReadAt;
  NextData := ahr_NextData;
  NextHole := ahr_NextHole;
}.
End io_reader.
Arguments HoleReader R : clear implicits.

(** ** [io_read_writer.go] *)

(** [readWriter.WriteAt] over a [t.BlockWriter] with the state [W]. *)
Definition WriteAt {W : Type} (WriteBlocks : W -> bytes -> Z -> outcome (W * Z * option error))
    (blockSize : Z) (w : W) (b : bytes) (off : Z) : outcome (W * Z * option error) :=
  if off <? 0 then Panic
  else if negb (len b mod blockSize =? 0) then Ret (w, 0, Some ErrInvalidSize)
  else if negb (off mod blockSize =? 0) then Ret (w, 0, Some ErrInvalidOffset)
  else
    '(w, count, err) ← WriteBlocks w b (off / blockSize);
    Ret (w, count * blockSize, err).

(** ** Contents as bytes *)
Section byte_contents.
Context (bs : Z) (Hbs : 0 < bs).
Implicit Types (c : content).

(** Byte [i] of the device. *)
Definition byte_at c (i : Z) : Z := default 0 (image bs c (i / bs) !! Z.to_nat (i mod bs)).

Definition read_bytes c (off n : Z) : bytes := byte_at c <$> seqZ off n.

Lemma len_read_bytes c off n : 0 <= n -> len (read_bytes c off n) = n.
Proof. intros. unfold len, read_bytes. rewrite length_fmap, length_seqZ. lia. Qed.

Lemma read_bytes_app c off n m :
  0 <= n -> 0 <= m -> read_bytes c off (n + m) = read_bytes c off n ++ read_bytes c (off + n) m.
Proof. intros. unfold read_bytes. by rewrite seqZ_app, fmap_app by lia. Qed.

Lemma read_bytes_0 c off : read_bytes c off 0 = [].
Proof. done. Qed.

Lemma take_read_bytes c off n m :
  0 <= n <= m -> take (Z.to_nat n) (read_bytes c off m) = read_bytes c off n.
Proof.
  intros. replace m with (n + (m - n)) by lia. rewrite read_bytes_app by lia.
  apply take_len_eq, len_read_bytes. lia.
Qed.

Lemma drop_read_bytes c off n m :
  0 <= n <= m -> drop (Z.to_nat n) (read_bytes c off m) = read_bytes c (off + n) (m - n).
Proof.
  intros. replace m with (n + (m - n)) at 1 by lia. rewrite read_bytes_app by lia.
  apply drop_len_eq, len_read_bytes. lia.
Qed.

Lemma list_as_bytes (l : bytes) : (fun i => default 0 (l !! Z.to_nat i)) <$> seqZ 0 (len l) = l.
Proof.
  apply list_eq. intros i. rewrite list_lookup_fmap. unfold len.
  destruct (decide (i < length l)%nat) as [Hi|Hi].
  - rewrite lookup_seqZ_lt by lia. cbn. replace (Z.to_nat (0 + Z.of_nat i)) with i by lia.
    destruct (lookup_lt_is_Some_2 l i Hi) as [x ->]. done.
  - rewrite lookup_seqZ_ge by lia. cbn. symmetry. apply lookup_ge_None. lia.
Qed.

Lemma image_bytes c k : blocks_sized bs c -> image bs c k = read_bytes c (k * bs) bs.
Proof.
  intros Hs. pose proof (len_image bs Hbs c k Hs) as Hl.
  rewrite <- (list_as_bytes (image bs c k)), Hl at 1. unfold read_bytes.
  assert (seqZ (k * bs) bs = Z.add (k * bs) <$> seqZ 0 bs) as ->
    by (by rewrite fmap_add_seqZ, Z.add_0_r).
  apply list_eq. intros i. rewrite !list_lookup_fmap.
  destruct (seqZ 0 bs !! i) as [j|] eqn:E; cbn; [|done]. f_equal.
  apply lookup_seqZ in E as [-> Hi]. unfold byte_at.
  rewrite (Z.add_comm (k * bs)), Z.div_add, Z.mod_add by lia.
  by rewrite Z.div_small, Z.mod_small by lia.
Qed.

Lemma read_image_bytes c off n :
  blocks_sized bs c -> 0 <= n -> read_image (image bs c) off n = read_bytes c (off * bs) (n * bs).
Proof.
  intros Hs Hn. pattern n. apply natlike_ind; [done| |done]. clear n Hn. intros n Hn IH.
  replace (Z.succ n) with (n + 1) by lia.
  rewrite read_image_app, read_image_1, IH, image_bytes by (done || lia).
  replace ((n + 1) * bs) with (n * bs + bs) by lia. rewrite read_bytes_app by nia.
  by rewrite Z.mul_add_distr_r.
Qed.
End byte_contents.

(** ** The contract of a byte-addressed reader *)
Section hole_contract.
Context {H : Type} `{!HoleReaderAt H} (bs limit : Z).

(** An offset inside the block the query finds is returned as it is. *)
Definition byte_offset (off k : Z) : Z := if k =? off / bs then off else k * bs.

Record hole_reader_ok (h : H) (c : content) : Prop := {
  ho_sized : blocks_sized bs c;
  ho_range k : is_Some (c k) -> 0 <= k < limit;
  ho_NextData off : 0 <= off <= limit * bs ->
    exists k, next_key_spec c (off / bs) k /\
      match k with
      | Some k => NextData h off = Ret (byte_offset off k, None)
      | None => exists x, NextData h off = Ret (x, Some EOF)
      end;
  ho_NextHole off : 0 <= off <= limit * bs ->
    exists k, NextHole h off = Ret (byte_offset off k, None) /\ next_empty_spec c (off / bs) k;
  ho_ReadAt p off :
    0 <= off -> 0 < len p ->
    (forall k, off / bs <= k <= (off + len p - 1) / bs -> is_Some (c k)) ->
    exists err, ReadAt h p off = Ret (read_bytes bs c off (len p), len p, err) /\
                (err = None \/ (err = Some EOF /\ off + len p = limit * bs));
}.

Lemma hole_reader_ok_ext h c c' : (forall k, c k = c' k) -> hole_reader_ok h c -> hole_reader_ok h c'.
Proof.
  intros Heq [Hs Hr Hd Hh Hrd]. split.
  - intros k b. rewrite <- Heq. apply Hs.
  - intros k. rewrite <- Heq. apply Hr.
  - intros off Hoff. destruct (Hd off Hoff) as (k & Hk & E). exists k. split; [|done].
    destruct k; cbn in *; setoid_rewrite <- Heq; done.
  - intros off Hoff. destruct (Hh off Hoff) as (k & E & Hk). exists k. split; [done|].
    unfold next_empty_spec in *. setoid_rewrite <- Heq. done.
  - intros p off Ho Hl Hk. setoid_rewrite <- Heq in Hk.
    destruct (Hrd p off Ho Hl Hk) as (err & E & He). exists err. split; [|done].
    rewrite E. do 3 f_equal. unfold read_bytes. apply list_fmap_ext. intros i x _.
    unfold byte_at, image. by rewrite Heq.
Qed.
End hole_contract.

(** ** The adaptors preserve contents *)
Section adaptors.
Context (bs limit : Z) (Hbs : 0 < bs) (Hlimit : 0 <= limit).

Lemma byte_offset_aligned off k : byte_offset bs (off * bs) k = k * bs.
Proof. unfold byte_offset. rewrite Z.div_mul by lia. destruct (Z.eqb_spec k off); by subst. Qed.

Lemma block_reader_contract {H} `{!HoleReaderAt H} (h : H) c :
  hole_reader_ok bs limit h c -> reader_ok bs limit (NewBlockReader h bs) c.
Proof.
  intros [Hs Hr Hd Hh Hrd]. split; [done|done| | |]; cbn [ReadBlocks NextBlockData NextBlockHole adaptor_block_reader].
  - intros off Hoff. destruct (Hd (off * bs)) as (k & Hk & E); [nia|]. rewrite Z.div_mul in Hk by lia.
    exists k. split; [done|]. unfold abr_NextBlockData. cbn [abr_r abr_blockSize].
    destruct k as [k|].
    + rewrite E, byte_offset_aligned. cbn. by rewrite Z.quot_mul by lia.
    + destruct E as [x ->]. cbn. eauto.
  - intros off Hoff. destruct (Hh (off * bs)) as (k & E & Hk); [nia|]. rewrite Z.div_mul in Hk by lia.
    exists k. split; [|done]. unfold abr_NextBlockHole. cbn [abr_r abr_blockSize].
    rewrite E, byte_offset_aligned. cbn. by rewrite Z.quot_mul by lia.
  - intros p off n Hn Hoff Hl Hk. unfold abr_ReadBlocks. cbn [abr_r abr_blockSize].
    rewrite Hl, Z.mod_mul by lia. cbn [negb Z.eqb].
    destruct (Hrd p (off * bs)) as (err & E & Herr); [nia|nia| |].
    { intros k. rewrite Hl, Z.div_mul by lia.
      replace (off * bs + n * bs - 1) with (bs - 1 + (off + n - 1) * bs) by lia.
      rewrite Z.div_add, Z.div_small by lia. intros. apply Hk. lia. }
    rewrite E, Hl. exists err. cbn -[Z.quot]. rewrite Z.quot_mul by lia.
    rewrite read_image_bytes by (done || lia). split; [done|].
    destruct Herr as [->|[-> Hend]]; [by left|]. right. split; [done|]. nia.
Qed.

(** The blocks that hold the bytes [off .. off+n-1]. *)
Lemma block_span off n :
  0 <= off -> 0 < n ->
  (off + n + bs - 1) / bs = (off + n - 1) / bs + 1 /\ off / bs <= (off + n - 1) / bs /\
  off mod bs + n <= ((off + n + bs - 1) / bs - off / bs) * bs.
Proof.
  intros Ho Hn. assert (Hd : (off + n + bs - 1) / bs = (off + n - 1) / bs + 1).
  { replace (off + n + bs - 1) with (off + n - 1 + 1 * bs) by lia. by rewrite Z.div_add by lia. }
  split; [done|]. split; [apply Z.div_le_mono; lia|].
  rewrite Hd. pose proof (Z.div_mod off bs ltac:(lia)). pose proof (Z.div_mod (off + n - 1) bs ltac:(lia)).
  pose proof (Z.mod_pos_bound (off + n - 1) bs ltac:(lia)). nia.
Qed.

Lemma ahr_ReadAt_ok {R} `{!BlockHoleReader R} (r : R) c p off :
  reader_ok bs limit r c -> 0 <= off -> 0 < len p ->
  (forall k, off / bs <= k <= (off + len p - 1) / bs -> is_Some (c k)) ->
  exists err, ahr_ReadAt (NewHoleReader r bs) p off = Ret (read_bytes bs c off (len p), len p, err) /\
              (err = None \/ (err = Some EOF /\ off + len p = limit * bs)).
Proof.
  intros Hok Ho Hn Hk. pose proof (ok_sized _ _ _ _ Hok) as Hs. unfold ahr_ReadAt, ar_ReadAt. cbn [ahr_br ahr_blockSize].
  rewrite (proj2 (Z.ltb_ge off 0)) by lia. destruct (block_span off (len p) Ho Hn) as (Hd & Hle & Hfit).
  pose proof (Z.div_mod off bs ltac:(lia)) as Hoff. pose proof (Z.mod_pos_bound off bs ltac:(lia)).
  pose proof (Z.div_pos off bs Ho ltac:(lia)). destruct (_ || _) eqn:Ea.
  - set (n := (off + len p + bs - 1) / bs - off / bs) in *. assert (0 < n) by (unfold n; lia).
    destruct (ok_ReadBlocks _ _ _ _ Hok (zeros (n * bs)) (off / bs) n) as (err & -> & Herr);
      [lia|lia|by rewrite len_zeros by nia|intros; apply Hk; unfold n in *; lia|].
    exists None. split; [|by left]. rewrite read_image_bytes by (done || lia).
    assert (Hsl : slice_to (read_bytes bs c (off / bs * bs) (n * bs)) (n * bs) =
                  Ret (read_bytes bs c (off / bs * bs) (n * bs))).
    { rewrite slice_to_ok by (rewrite len_read_bytes; nia). by rewrite take_read_bytes by nia. }
    destruct Herr as [->|[-> _]]; cbn [mbind outcome_bind]; rewrite Hsl; cbn [mbind outcome_bind];
      f_equal; unfold buffer_Read, buffer_Next;
      rewrite drop_read_bytes by nia; rewrite !len_read_bytes by nia;
      rewrite (proj2 (Z.eqb_neq (n * bs - off mod bs) 0)) by nia; cbn [andb];
      rewrite Z.min_l, take_read_bytes by nia; rewrite drop_ge, app_nil_r by (unfold len; lia);
      replace (off / bs * bs + off mod bs) with off by lia; done.
  - apply orb_false_iff in Ea as [Ea1 Ea2]. apply negb_false_iff, Z.eqb_eq in Ea1, Ea2.
    pose proof (Z.div_mod (len p) bs ltac:(lia)) as Hlp. set (n := len p / bs) in *.
    destruct (ok_ReadBlocks _ _ _ _ Hok p (off / bs) n) as (err & -> & Herr); [nia|lia|lia| |].
    { intros k Hkn. apply Hk. split; [lia|].
      replace (off + len p - 1) with (bs - 1 + (off / bs + n - 1) * bs) by lia.
      rewrite Z.div_add, Z.div_small by lia. lia. }
    exists err. cbn [mbind outcome_bind]. rewrite read_image_bytes by (done || nia).
    replace (off / bs * bs) with off by lia. replace (n * bs) with (len p) by lia.
    split; [done|]. destruct Herr as [->|[-> Hend]]; [by left|]. right. split; [done|]. nia.
Qed.

Lemma hole_adaptor_contract {R} `{!BlockHoleReader R} (r : R) c :
  reader_ok bs limit r c -> hole_reader_ok bs limit (NewHoleReader r bs) c.
Proof.
  intros Hok. pose proof Hok as [Hs Hr Hd Hh _].
  assert (Hblk : forall off, 0 <= off <= limit * bs -> 0 <= off / bs <= limit).
  { intros off Hoff. split; [apply Z.div_pos; lia|]. apply Z.div_le_upper_bound; lia. }
  split; [done|done| | |].
  - intros off Hoff. destruct (Hd (off / bs) (Hblk off Hoff)) as (k & Hk & E). exists k. split; [done|].
    cbn. unfold ahr_NextData. cbn [ahr_br ahr_blockSize]. rewrite (proj2 (Z.ltb_ge off 0)) by lia.
    destruct k as [k|]; [by rewrite E|]. destruct E as [x ->]. cbn. eauto.
  - intros off Hoff. destruct (Hh (off / bs) (Hblk off Hoff)) as (k & E & Hk). exists k. split; [|done].
    cbn. unfold ahr_NextHole. cbn [ahr_br ahr_blockSize]. rewrite (proj2 (Z.ltb_ge off 0)) by lia.
    by rewrite E.
  - intros p off Ho Hn Hk. by apply ahr_ReadAt_ok.
Qed.

(** C15: the adaptors carry a reader between bytes and blocks without changing its
    contents: [adaptor.BlockReader] turns a byte-addressed reader that meets its
    contract into a block reader that meets the block contract, and
    [adaptor.HoleReader] turns a block reader into a byte-addressed reader, at
    every offset and length, aligned or not. *)
Theorem adaptors_ok :
  (forall H (HR : HoleReaderAt H) (h : H) c,
     hole_reader_ok bs limit h c -> reader_ok bs limit (NewBlockReader h bs) c) /\
  (forall R (BR : BlockHoleReader R) (r : R) c,
     reader_ok bs limit r c -> hole_reader_ok bs limit (NewHoleReader r bs) c).
Proof. split; intros; [by apply block_reader_contract|by apply hole_adaptor_contract]. Qed.
End adaptors.

(** ** Reads past the end *)

(** When an unaligned read needs [n] blocks and the block reader returns
    only [m] of them with [io.EOF], [Reader.ReadAt] returns the bytes there are,
    fewer than asked, without an error. *)
Theorem unaligned_short_read {R} `{!BlockHoleReader R} (r : R) bs p off m buf :
  0 < bs -> 0 <= off -> off mod bs <> 0 -> 0 < len p ->
  let n := (off + len p + bs - 1) / bs - off / bs in
  ReadBlocks r (zeros (n * bs)) (off / bs) = Ret (buf, m, Some EOF) ->
  len buf = n * bs -> m <= n -> off mod bs < m * bs < off mod bs + len p ->
  exists p', ahr_ReadAt (NewHoleReader r bs) p off = Ret (p', m * bs - off mod bs, None) /\
             m * bs - off mod bs < len p.
Proof.
  intros Hbs Ho Hun Hn n E Hl Hmn Hm. pose proof (Z.mod_pos_bound off bs Hbs).
  unfold ahr_ReadAt, ar_ReadAt. cbn [ahr_br ahr_blockSize]. rewrite (proj2 (Z.ltb_ge off 0)) by lia.
  rewrite (proj2 (Z.eqb_neq (off mod bs) 0)) by lia. rewrite orb_true_r. fold n.
  rewrite E. cbn [mbind outcome_bind]. rewrite slice_to_ok by nia. cbn [mbind outcome_bind].
  unfold buffer_Next, buffer_Read. rewrite len_drop by (rewrite len_take; nia). rewrite len_take by nia.
  rewrite (proj2 (Z.eqb_neq (m * bs - off mod bs) 0)) by lia. cbn [andb].
  rewrite Z.min_r by lia. eexists. split; [done|lia].
Qed.

(** ** Witnesses *)
Definition example_blocks : mem_reader := MemReader 4 3 {[0 := 5; 1 := 6]} (fun _ => false).

Lemma example_blocks_ok : reader_ok 4 3 example_blocks (mem_content example_blocks).
Proof. by apply (mem_reader_ok example_blocks). Qed.

Lemma example_holes_ok : hole_reader_ok 4 3 (NewHoleReader example_blocks 4) (mem_content example_blocks).
Proof. apply hole_adaptor_contract; [lia|apply example_blocks_ok]. Qed.

Lemma adaptors_ok_witness :
  reader_ok 4 3 (NewBlockReader (NewHoleReader example_blocks 4) 4) (mem_content example_blocks) /\
  exists err, ReadAt (NewHoleReader example_blocks 4) (zeros 3) 3 = Ret ([5; 6; 6], 3, err).
Proof.
  destruct (adaptors_ok 4 3 ltac:(lia) ltac:(lia)) as [Hblock Hhole].
  pose proof (Hhole _ _ example_blocks (mem_content example_blocks) example_blocks_ok) as Hh.
  split; [apply Hblock; exact Hh|]. destruct Hh as [_ _ _ _ Hr].
  destruct (Hr (zeros 3) 3) as (err & E & _); [lia|reflexivity| |].
  { intros k Hk. change (0 <= k <= 1) in Hk. assert (k = 0 \/ k = 1) as [->| ->] by lia; vm_compute; eauto. }
  exists err. rewrite E. vm_compute. reflexivity.
Defined.

(** A reader of one block that reports the end of the device. *)
#[local] Instance example_end : BlockHoleReader unit := {
  ReadBlocks _ p off := Ret (replicate 4 7 ++ drop 4 p, 1, Some EOF);
  NextBlockData _ _ := Ret (0, None);
  NextBlockHole _ _ := Ret (1, None);
}.

Lemma unaligned_short_read_witness :
  exists p', ahr_ReadAt (NewHoleReader () 4) (zeros 6) 1 = Ret (p', 3, None) /\ 3 < len (zeros 6).
Proof.
  apply (unaligned_short_read () 4 (zeros 6) 1 1 (replicate 4 7 ++ zeros 4)); vm_compute; congruence || auto.
Defined.
