(* ===== verification/WalIndex.v ===== *)
(** * The index of a write log

    [internal/wal]: both [Writer] and [Reader] keep an [ExtentRangeMap] from byte
    offsets of the device to the log records that hold them, and read through it
    with the same loop ([Writer.ReadAtFrom], [Reader.ReadAt]). The records are
    values here: a data record is determined by its position in the log, and a
    trim record covers the range of every earlier trim equal to it, so that
    records with the same fields are the same pointer. *)
From S2P Require Import Prelude Radix RangeMap ExtentRangeMap BlockReader GoStd Adaptor.
Local Open Scope Z_scope.

Record logRecord := MkLogRecord {
  lr_logOffset : Z;
  lr_offset : Z;
  lr_length : Z;
  lr_zero : bool;
}.

#[export] Instance logRecord_eq_dec : EqDecision logRecord.
Proof. solve_decision. Defined.
#[export] Instance zero_logRecord : Zero logRecord := MkLogRecord 0 0 0 false.

Section index.
Context {T : Type} `{!RadixTree item it_key T}.

Abbreviation log_index := (ExtentRangeMap logRecord T).

(** [NextData] and [NextHole] of both types *)
Definition wal_NextData (index : log_index) (off : Z) : outcome (Z * option error) :=
  match erm_NextKey index (u64 off) with
  | None => Ret (0, Some EOF)
  | Some next => Ret (i64 next, None)
  end.

Definition wal_NextHole (index : log_index) (off : Z) : outcome (Z * option error) :=
  Ret (i64 (erm_NextEmpty index (u64 off)), None).

(** The loop of [ReadAtFrom] and [ReadAt]: [pre] is the part of the buffer
    before the slice [b], and [ra] reads the log file. *)
Fixpoint wal_read_loop (fuel : nat) (index : log_index) (ra : bytes -> Z -> bytes * Z * option error)
    (pre b : bytes) (off bytesRead : Z) : outcome (bytes * Z * option error) :=
  match fuel with
  | O => OutOfFuel
  | S fuel =>
      if len b =? 0 then Ret (pre, bytesRead, None) else
      match GetWithRange index (u64 off) with
      | None =>
          match erm_NextKey index (u64 off) with
          | None => Ret (pre ++ b, bytesRead, Some EOF)
          | Some nextOffset =>
              let zeroLen := if i64 nextOffset - off <? len b then i64 nextOffset - off else len b in
              z ← slice_to b zeroLen;
              b' ← slice_from b zeroLen;
              wal_read_loop fuel index ra (pre ++ clear z) b' (off + zeroLen) (bytesRead + zeroLen)
          end
      | Some mr =>
          let eEnd := i64 (Offset mr +u Length mr) in
          let readLen := if eEnd - off <? len b then eEnd - off else len b in
          let lr := Value mr in
          let lrOff := off - lr_offset lr in
          let lrRem := lr_length lr - lrOff in
          if (lrOff <? 0) || (lrRem <? 0) then Panic
          else if lrRem <? readLen then Panic
          else
            let logOff := lr_logOffset lr + lrOff in
            q ← slice_to b readLen;
            b' ← slice_from b readLen;
            let '(q, err) :=
              if lr_zero lr then (clear q, None)
              else let '(q, _, err) := ra q logOff in (q, err) in
            match err with
            | Some err => Ret (pre ++ q ++ b', bytesRead, Some err)
            | None => wal_read_loop fuel index ra (pre ++ q) b' (off + readLen) (bytesRead + readLen)
            end
      end
  end.

(** Every iteration reads a byte or ends the loop. *)
Definition wal_ReadAt (index : log_index) (ra : bytes -> Z -> bytes * Z * option error)
    (b : bytes) (off : Z) : outcome (bytes * Z * option error) :=
  wal_read_loop (S (length b)) index ra [] b off 0.
End index.

(** ** Byte contents

    A log holds a partial map from byte offsets to bytes. *)
Abbreviation bview := (Z -> option Z).

Definition read_view (bv : bview) (off n : Z) : bytes := (fun k => default 0 (bv k)) <$> seqZ off n.

Lemma len_read_view bv off n : 0 <= n -> len (read_view bv off n) = n.
Proof. intros. unfold len, read_view. rewrite length_fmap, length_seqZ. lia. Qed.

Lemma read_view_app bv off n m :
  0 <= n -> 0 <= m -> read_view bv off (n + m) = read_view bv off n ++ read_view bv (off + n) m.
Proof. intros. unfold read_view. by rewrite seqZ_app, fmap_app by lia. Qed.

Lemma read_view_zeros bv off n :
  0 <= n -> (forall k, off <= k < off + n -> default 0 (bv k) = 0) -> read_view bv off n = zeros n.
Proof.
  intros Hn Hz. unfold read_view, zeros. rewrite (list_fmap_ext (fun k => default 0 (bv k)) (fun _ => 0) (seqZ off n)).
  - rewrite <- (length_seqZ off n). generalize (seqZ off n). intros l.
    induction l as [|x l IH]; cbn; [done|]. by f_equal.
  - intros i k Hk%lookup_seqZ. apply Hz. lia.
Qed.

Lemma read_view_part bv (fb : bytes) off n pos :
  0 <= n -> 0 <= pos -> pos + n <= len fb ->
  (forall k, off <= k < off + n -> bv k = fb !! Z.to_nat (pos + (k - off))) ->
  take (Z.to_nat n) (drop (Z.to_nat pos) fb) = read_view bv off n.
Proof.
  intros Hn Hpos Hlen Hbv. apply list_eq. intros i. unfold read_view, len in *.
  rewrite list_lookup_fmap. destruct (decide (i < Z.to_nat n)%nat) as [Hi|Hi].
  - rewrite lookup_take_lt, lookup_drop, lookup_seqZ_lt by lia. cbn. rewrite Hbv by lia.
    replace (Z.to_nat (pos + (off + Z.of_nat i - off))) with (Z.to_nat pos + i)%nat by lia.
    destruct (lookup_lt_is_Some_2 fb (Z.to_nat pos + i)) as [x ->]; [lia|done].
  - by rewrite lookup_take_ge, lookup_seqZ_ge by lia.
Qed.

(** The contract of a byte-addressed log. [e] is the end of the last byte. *)
Record log_reader_ok {H} `{!HoleReaderAt H} (h : H) (bv : bview) : Prop := {
  lo_NextData off : 0 <= off < 2 ^ 63 ->
    exists k, next_key_spec bv off k /\
      match k with
      | Some k => NextData h off = Ret (k, None)
      | None => exists x, NextData h off = Ret (x, Some EOF)
      end;
  lo_NextHole off : 0 <= off < 2 ^ 63 ->
    exists k, NextHole h off = Ret (k, None) /\ next_empty_spec bv off k;
  lo_ReadAt p off : 0 <= off -> off + len p < 2 ^ 63 ->
    exists e n, end_spec bv e /\ n = Z.max 0 (Z.min (len p) (e - off)) /\
      ReadAt h p off = Ret (read_view bv off n ++ drop (Z.to_nat n) p, n,
                            if n <? len p then Some EOF else None);
}.

Section reading.
Context {T : Type} `{!RadixTree item it_key T} `{!RadixTreeLaws item it_key T}.
Context (index : ExtentRangeMap logRecord T) (ra : bytes -> Z -> bytes * Z * option error).
Context (fb : bytes) (bv : bview).

(** A record of the index holds the byte [k] of the contents. *)
Record record_ok (lr : logRecord) (k : Z) : Prop := {
  ro_in : 0 <= lr_offset lr <= k /\ k < lr_offset lr + lr_length lr;
  ro_zero : lr_zero lr = true -> bv k = Some 0;
  ro_data : lr_zero lr = false ->
    0 <= lr_logOffset lr /\ lr_logOffset lr + lr_length lr <= len fb /\
    bv k = fb !! Z.to_nat (lr_logOffset lr + (k - lr_offset lr));
}.

Record index_ok : Prop := {
  io_wf : erm_wf index;
  io_some k lr : erm_view index k = Some lr -> record_ok lr k;
  io_none k : erm_view index k = None -> bv k = None;
  io_range k : is_Some (erm_view index k) -> 0 <= k < 2 ^ 63 - 1;
}.

Context (Hok : index_ok) (Hra : forall p off, ra p off = file_ReadAt (MkFile fb false) p off).

Lemma record_is_Some lr k : record_ok lr k -> is_Some (bv k).
Proof.
  intros [Hin Hz Hd]. destruct (lr_zero lr); [rewrite Hz by done; eauto|].
  destruct (Hd eq_refl) as (? & ? & ->). apply lookup_lt_is_Some_2. unfold len in *. lia.
Qed.

Lemma index_is_Some k : is_Some (erm_view index k) <-> is_Some (bv k).
Proof.
  destruct (erm_view index k) as [lr|] eqn:E.
  - pose proof (record_is_Some lr k (io_some Hok k lr E)). split; eauto.
  - rewrite (io_none Hok k E). split; by intros [? [=]].
Qed.

Lemma index_None k : erm_view index k = None <-> bv k = None.
Proof. pose proof (index_is_Some k) as H. rewrite !eq_None_not_Some. tauto. Qed.

Lemma index_next_key off r : next_key_spec (erm_view index) off r <-> next_key_spec bv off r.
Proof. destruct r; cbn; setoid_rewrite index_None; [rewrite index_is_Some|]; done. Qed.

Lemma index_next_empty off r : next_empty_spec (erm_view index) off r <-> next_empty_spec bv off r.
Proof. unfold next_empty_spec. rewrite index_None. by setoid_rewrite index_is_Some. Qed.

Lemma index_end e : end_spec (erm_view index) e <-> end_spec bv e.
Proof. unfold end_spec. rewrite index_is_Some. by setoid_rewrite index_None. Qed.

(** The end of the contents is after every byte of them. *)
Lemma end_after e k : end_spec bv e -> is_Some (bv k) -> 0 <= k -> k < e.
Proof.
  intros [[-> He]|(_ & _ & He)] [x Hx] Hk; [by rewrite He in Hx|].
  destruct (Z.le_gt_cases e k); [by rewrite He in Hx|done].
Qed.

(** Reading a record of the index gives the bytes of the contents. *)
Lemma record_read off n (mr : RangeValue logRecord) q :
  0 < n -> len q = n ->
  (forall k, off <= k < off + n -> erm_view index k = Some (Value mr)) ->
  (if lr_zero (Value mr) then (clear q, None)
   else let '(q, _, err) := ra q (lr_logOffset (Value mr) + (off - lr_offset (Value mr))) in (q, err)) =
  (read_view bv off n, None).
Proof.
  intros Hn Hq Hv. pose proof (io_some Hok _ _ (Hv off ltac:(lia))) as [Hin _ Hd].
  pose proof (io_some Hok _ _ (Hv (off + n - 1) ltac:(lia))) as [Hin2 _ _].
  destruct (lr_zero (Value mr)) eqn:Ez.
  - unfold clear. rewrite Hq. f_equal. symmetry. apply read_view_zeros; [lia|]. intros k Hk.
    by rewrite (ro_zero _ _ (io_some Hok _ _ (Hv k Hk)) Ez).
  - destruct (Hd eq_refl) as (Hlog & Hend & _). rewrite Hra. unfold file_ReadAt. cbn [f_bytes f_eager].
    rewrite len_drop, Hq by lia. rewrite Z.min_l, Z.ltb_irrefl by lia. cbn [andb].
    rewrite (drop_ge q) by (unfold len in Hq; lia). rewrite app_nil_r. f_equal.
    apply read_view_part; [lia|lia|lia|]. intros k Hk.
    destruct (ro_data _ _ (io_some Hok _ _ (Hv k Hk)) Ez) as (_ & _ & ->). f_equal. lia.
Qed.

Lemma read_step pre b off br m n :
  0 <= m <= n -> m <= len b ->
  Ret ((pre ++ read_view bv off m) ++ read_view bv (off + m) (n - m) ++
         drop (Z.to_nat (n - m)) (drop (Z.to_nat m) b), br + m + (n - m),
       if n - m <? len (drop (Z.to_nat m) b) then Some EOF else None) =
  Ret (pre ++ read_view bv off n ++ drop (Z.to_nat n) b, br + n, if n <? len b then Some EOF else None).
Proof.
  intros Hm Hb. rewrite len_drop, drop_drop, <- !app_assoc by lia.
  rewrite (app_assoc (read_view bv off m)), <- read_view_app by lia.
  replace (Z.to_nat m + Z.to_nat (n - m))%nat with (Z.to_nat n) by lia.
  replace (m + (n - m)) with n by lia. replace (br + m + (n - m)) with (br + n) by lia.
  do 2 f_equal. destruct (Z.ltb_spec (n - m) (len b - m)), (Z.ltb_spec n (len b)); lia || done.
Qed.

Lemma wal_read_loop_ok fuel pre b off bytesRead e n :
  (length b < fuel)%nat -> 0 <= off -> off + len b < 2 ^ 63 ->
  end_spec bv e -> n = Z.max 0 (Z.min (len b) (e - off)) ->
  wal_read_loop fuel index ra pre b off bytesRead =
  Ret (pre ++ read_view bv off n ++ drop (Z.to_nat n) b, bytesRead + n,
       if n <? len b then Some EOF else None).
Proof.
  revert pre b off bytesRead n. induction fuel as [|fuel IH]; [lia|].
  intros pre b off bytesRead n Hf Hoff Hlim He Hn. cbn [wal_read_loop].
  pose proof (len_nonneg b). destruct (Z.eqb_spec (len b) 0) as [Hb|Hb].
  { assert (n = 0) as -> by lia. apply len_0_nil in Hb. subst b.
    by rewrite len_nil, Z.add_0_r, app_nil_r. }
  pose proof (io_wf Hok) as Hwf. rewrite u64_small by lia.
  pose proof (GetWithRange_spec index off Hwf) as Hg.
  destruct (GetWithRange index off) as [mr|] eqn:Eg.
  - destruct Hg as [Hhas Hin].
    assert (Hmr : forall k, in_range k mr -> erm_view index k = Some (Value mr)) by (intros; by apply erm_view_has).
    assert (Hgood : good_range mr) by (by apply (ew_good _ Hwf)). unfold in_range, good_range, rend in *.
    pose proof (io_range Hok (Offset mr + Length mr - 1)) as Hr.
    rewrite Hmr in Hr by lia. specialize (Hr ltac:(eauto)).
    pose proof (end_after e (Offset mr + Length mr - 1) He) as Hend.
    rewrite <- index_is_Some in Hend. rewrite Hmr in Hend by lia. specialize (Hend ltac:(eauto) ltac:(lia)).
    rewrite u64_small, i64_small by lia.
    remember (if Offset mr + Length mr - off <? len b then Offset mr + Length mr - off else len b) as m eqn:Em.
    assert (0 < m <= len b /\ m <= Offset mr + Length mr - off) as [Hm Hm2]
      by (destruct (Z.ltb_spec (Offset mr + Length mr - off) (len b)); lia).
    assert (Hv : forall k, off <= k < off + m -> erm_view index k = Some (Value mr))
      by (intros; apply Hmr; lia).
    pose proof (io_some Hok _ _ (Hv off ltac:(lia))) as [Hin1 _ _].
    pose proof (io_some Hok _ _ (Hv (off + m - 1) ltac:(lia))) as [Hin2 _ _].
    rewrite !(proj2 (Z.ltb_ge _ _)) by lia. cbn [orb].
    rewrite slice_to_ok, slice_from_ok by lia. cbn [mbind outcome_bind].
    rewrite (record_read off m mr) by (done || rewrite ?len_take; lia).
    assert (len (drop (Z.to_nat m) b) = len b - m) as Hd by (apply len_drop; lia).
    rewrite (IH _ _ _ _ (n - m)) by (unfold len in *; done || lia). apply read_step; lia.
  - pose proof (erm_NextKey_spec index off Hwf) as Hk. rewrite index_next_key in Hk.
    destruct (erm_NextKey index off) as [k|].
    + destruct Hk as (Hk1 & Hk2 & Hk3). rewrite <- index_is_Some in Hk2.
      pose proof (io_range Hok k Hk2) as Hr. rewrite index_is_Some in Hk2.
      pose proof (end_after e k He Hk2 ltac:(lia)) as Hend.
      assert (k <> off) by (intros ->; apply index_None in Hg; rewrite Hg in Hk2; by destruct Hk2).
      rewrite i64_small by lia. remember (if k - off <? len b then k - off else len b) as m eqn:Em.
      assert (0 < m <= len b /\ m <= k - off) as [Hm Hm2] by (destruct (Z.ltb_spec (k - off) (len b)); lia).
      rewrite slice_to_ok, slice_from_ok by lia. cbn [mbind outcome_bind].
      assert (len (drop (Z.to_nat m) b) = len b - m) as Hd by (apply len_drop; lia).
      rewrite (IH _ _ _ _ (n - m)) by (unfold len in *; done || lia).
      assert (clear (take (Z.to_nat m) b) = read_view bv off m) as ->.
      { unfold clear. rewrite len_take by lia. symmetry. apply read_view_zeros; [lia|].
        intros j Hj. by rewrite Hk3 by lia. }
      apply read_step; lia.
    + assert (e <= off).
      { destruct He as [[-> _]|(He0 & He1 & _)]; [lia|]. destruct (Z.le_gt_cases e off); [done|].
        rewrite Hk in He1 by lia. by destruct He1. }
      assert (n = 0) as -> by lia. rewrite Z.add_0_r. cbn [Z.to_nat drop].
      rewrite (proj2 (Z.ltb_lt _ _)) by lia. done.
Qed.

Lemma wal_NextData_ok off :
  0 <= off < 2 ^ 63 ->
  exists k, next_key_spec bv off k /\
    wal_NextData index off = Ret (default 0 k, match k with Some _ => None | None => Some EOF end).
Proof.
  intros Hoff. unfold wal_NextData. rewrite u64_small by lia.
  pose proof (erm_NextKey_spec index off (io_wf Hok)) as Hk.
  exists (erm_NextKey index off). split; [by apply index_next_key|].
  destruct (erm_NextKey index off) as [k|]; [|done]. destruct Hk as (_ & Hk & _).
  pose proof (io_range Hok k Hk). by rewrite i64_small by lia.
Qed.

Lemma wal_NextHole_ok off :
  0 <= off < 2 ^ 63 ->
  exists k, wal_NextHole index off = Ret (k, None) /\ next_empty_spec bv off k.
Proof.
  intros Hoff. unfold wal_NextHole. rewrite u64_small by lia.
  pose proof (erm_NextEmpty_spec index off (io_wf Hok)) as Hk.
  exists (erm_NextEmpty index off). rewrite <- index_next_empty. split; [|done].
  destruct Hk as (H1 & H2 & H3).
  destruct (Z.eq_dec (erm_NextEmpty index off) off) as [->|Hne]; [by rewrite i64_small by lia|].
  assert (is_Some (erm_view index (erm_NextEmpty index off - 1))) as Hs by (apply H3; lia).
  pose proof (io_range Hok _ Hs). by rewrite i64_small by lia.
Qed.
End reading.

(** ** From bytes to blocks

    When whole blocks are written, a log is a reader of blocks. *)
Section blocks.
Context (bs limit : Z) (Hbs : 0 < bs) (Hlimit : 0 <= limit) (Hbytes : limit * bs < 2 ^ 63).

Definition blocks_of (bv : bview) : content := fun k =>
  match bv (k * bs) with Some _ => Some (read_view bv (k * bs) bs) | None => None end.

Definition block_uniform (bv : bview) : Prop :=
  forall i, is_Some (bv i) <-> is_Some (bv (i / bs * bs)).

Context (bv : bview) (Huni : forall i, is_Some (bv i) <-> is_Some (bv (i / bs * bs))).
Context (Hrange : forall i, is_Some (bv i) -> 0 <= i < limit * bs).

Lemma last_byte_block j : ((j + 1) * bs - 1) / bs = j.
Proof. replace ((j + 1) * bs - 1) with (bs - 1 + j * bs) by lia. rewrite Z.div_add, Z.div_small; lia. Qed.

(** [divmod x] adds the equation and the bounds of [x / bs] and [x mod bs]. *)
Ltac divmod x := pose proof (Z.div_mod x bs ltac:(lia)); pose proof (Z.mod_pos_bound x bs Hbs).

Lemma blocks_of_Some k : is_Some (blocks_of bv k) <-> is_Some (bv (k * bs)).
Proof. unfold blocks_of. destruct (bv (k * bs)); split; try (by intros [? [=]]); eauto. Qed.

Lemma blocks_of_byte i : is_Some (blocks_of bv (i / bs)) <-> is_Some (bv i).
Proof. by rewrite blocks_of_Some, (Huni i). Qed.

Lemma blocks_of_byte_None i : blocks_of bv (i / bs) = None <-> bv i = None.
Proof. pose proof (blocks_of_byte i). rewrite !eq_None_not_Some. tauto. Qed.

Lemma byte_at_view i : byte_at bs (blocks_of bv) i = default 0 (bv i).
Proof.
  unfold byte_at, image. pose proof (Z.mod_pos_bound i bs Hbs) as Hm.
  pose proof (Z.div_mod i bs ltac:(lia)) as Hdm. unfold blocks_of.
  destruct (bv (i / bs * bs)) as [x|] eqn:E; cbn.
  - unfold read_view. rewrite list_lookup_fmap, lookup_seqZ_lt by lia. cbn. do 2 f_equal. lia.
  - assert (bv i = None) as ->.
    { apply eq_None_not_Some. rewrite Huni, E. by intros [? [=]]. }
    unfold zeros. rewrite lookup_replicate_2 by lia. done.
Qed.

Lemma read_bytes_view off n : read_bytes bs (blocks_of bv) off n = read_view bv off n.
Proof. unfold read_bytes, read_view. apply list_fmap_ext. intros. apply byte_at_view. Qed.

Lemma blocks_next_key off r :
  next_key_spec bv off r -> 0 <= off ->
  next_key_spec (blocks_of bv) (off / bs) ((fun k => k / bs) <$> r) /\
  forall k, r = Some k -> byte_offset bs off (k / bs) = k.
Proof.
  intros Hr Hoff. destruct r as [k|]; cbn in *.
  - destruct Hr as (H1 & H2 & H3). split.
    + split; [by apply Z.div_le_mono|]. split; [by apply blocks_of_byte|]. intros j Hj.
      assert (off < (j + 1) * bs) by (divmod off; nia).
      assert ((j + 1) * bs <= k) by (divmod k; nia).
      rewrite <- (last_byte_block j).
      apply blocks_of_byte_None, H3. lia.
    + intros ? [= <-]. unfold byte_offset. divmod k. destruct (Z.eqb_spec (k / bs) (off / bs)) as [E|E].
      * destruct (Z.eq_dec k off); [done|]. exfalso.
        assert (bv off = None) as Hn by (apply H3; lia). apply blocks_of_byte_None in Hn.
        apply blocks_of_byte in H2. rewrite E, Hn in H2. by destruct H2.
      * destruct (Z.eq_dec (k / bs * bs) k); [done|]. exfalso.
        assert (off / bs < k / bs) by (pose proof (Z.div_le_mono off k bs Hbs H1); lia).
        assert (off < k / bs * bs) by (divmod off; nia).
        assert (bv (k / bs * bs) = None) as Hn by (apply H3; lia).
        rewrite Huni, Hn in H2. by destruct H2.
  - split; [|done]. intros j Hj. divmod off.
    rewrite <- (last_byte_block j).
    apply blocks_of_byte_None, Hr. nia.
Qed.

Lemma blocks_next_empty off k :
  next_empty_spec bv off k -> 0 <= off ->
  next_empty_spec (blocks_of bv) (off / bs) (k / bs) /\ byte_offset bs off (k / bs) = k.
Proof.
  intros (H1 & H2 & H3) Hoff. divmod k. divmod off. split.
  - split; [by apply Z.div_le_mono|]. split; [by apply blocks_of_byte_None|]. intros j Hj.
    rewrite <- (last_byte_block j).
    apply blocks_of_byte, H3. nia.
  - unfold byte_offset. destruct (Z.eqb_spec (k / bs) (off / bs)) as [E|E].
    + destruct (Z.eq_dec k off); [done|]. exfalso.
      assert (is_Some (bv off)) as Hs by (apply H3; lia). rewrite <- blocks_of_byte, <- E, blocks_of_byte, H2 in Hs.
      by destruct Hs.
    + destruct (Z.eq_dec (k / bs * bs) k); [done|]. exfalso.
      assert (off / bs < k / bs) by (pose proof (Z.div_le_mono off k bs Hbs H1); lia).
      assert (is_Some (bv (k / bs * bs))) as Hs by (apply H3; nia). rewrite <- Huni, H2 in Hs. by destruct Hs.
Qed.

Lemma log_blocks_ok {H} `{!HoleReaderAt H} (h : H) :
  log_reader_ok h bv -> hole_reader_ok bs limit h (blocks_of bv).
Proof.
  intros [Hd Hh Hr]. split.
  - intros k b. unfold blocks_of. destruct (bv (k * bs)); [|done]. intros [= <-]. apply len_read_view. lia.
  - intros k Hk. apply blocks_of_Some in Hk. apply Hrange in Hk. nia.
  - intros off Hoff. destruct (Hd off ltac:(lia)) as (k & Hk & E).
    destruct (blocks_next_key off k Hk ltac:(lia)) as [Hk' Hbo].
    exists ((fun k => k / bs) <$> k). split; [done|]. destruct k as [k|]; cbn; [|done]. by rewrite Hbo.
  - intros off Hoff. destruct (Hh off ltac:(lia)) as (k & E & Hk).
    destruct (blocks_next_empty off k Hk ltac:(lia)) as [Hk' Hbo].
    exists (k / bs). by rewrite Hbo.
  - intros p off Hoff Hp Hall.
    assert (Hbytes' : forall i, off <= i < off + len p -> is_Some (bv i)).
    { intros i Hi. apply blocks_of_byte, Hall. split; apply Z.div_le_mono; lia. }
    pose proof (Hrange _ (Hbytes' (off + len p - 1) ltac:(lia))).
    destruct (Hr p off) as (e & n & He & Hn & E); [lia|lia|].
    pose proof (end_after bv e (off + len p - 1) He (Hbytes' (off + len p - 1) ltac:(lia)) ltac:(lia)).
    assert (n = len p) as -> by lia. exists None. split; [|by left].
    rewrite E, Z.ltb_irrefl, read_bytes_view. do 3 f_equal.
    rewrite drop_ge, app_nil_r by (unfold len; lia). done.
Qed.
End blocks.
