(* ===== verification/WalFormat.v ===== *)
(** * The format of a write log

    [internal/wal/consts.go] and the first half of [internal/wal/writer.go]: the
    entries of a log, their encoding and the ways they are written out. A log is
    a magic number and a header message, followed by entries of a 4-byte CRC, a
    3-byte size, a type byte, 8 bytes of offset and the data; a closed log ends
    with a footer entry and an index. *)
From S2P Require Import Prelude RangeMap BlockReader GoStd.
Local Open Scope Z_scope.

(** ** Constants *)
Definition MaxWriteSize : Z := Z.shiftl 1 22.
Definition entryTypeData : Z := 0.
Definition entryTypeTrim : Z := 1.
Definition entryTypeFooter : Z := 2.
Definition entryTypeMask : Z := 15.
Definition entryBaseSize : Z := 8.

(** ["lblog\x31\x41\x59"] and ["footer\x31\x41"] *)
Definition HeaderMagic : bytes := [108; 98; 108; 111; 103; 49; 65; 89].
Definition FooterMagic : bytes := [102; 111; 111; 116; 101; 114; 49; 65].

(** ** The protobuf messages

    [proto.Marshal] and [proto.Unmarshal] at the types [pb.Header] and
    [pb.IndexEntry]. *)
Record WalHeader := MkWalHeader {
  wh_Version : Z;
  wh_BlockSize : Z;
  wh_Align : Z;
  wh_ChecksumType : Z;
}.

Inductive IndexType := IndexEntry_INVALID | IndexEntry_WRITE | IndexEntry_TRIM.

Record IndexEntry := MkIndexEntryPb {
  xe_Type : IndexType;
  xe_Offset : Z;
  xe_Length : Z;
  xe_LogOffset : Z;
}.

Class WalCodec := {
  wh_marshal : WalHeader -> bytes + error;
  wh_unmarshal : bytes -> WalHeader + error;
  xe_marshal : IndexEntry -> bytes + error;
  xe_unmarshal : bytes -> IndexEntry + error;
}.

Definition Header_CRC32IEEE : Z := 1.

Definition wh_fits (h : WalHeader) : Prop :=
  0 <= wh_Version h < 2 ^ 32 /\ 0 <= wh_BlockSize h < 2 ^ 32 /\ 0 <= wh_Align h < 2 ^ 32 /\
  0 <= wh_ChecksumType h < 2 ^ 31.

Definition xe_fits (e : IndexEntry) : Prop :=
  0 <= xe_Offset e < 2 ^ 64 /\ 0 <= xe_Length e < 2 ^ 64 /\ 0 <= xe_LogOffset e < 2 ^ 64.

(** The messages have four varint fields with one-byte tags, so that they take at
    most 44 bytes; decoding inverts encoding. *)
Class WalCodecLaws `{!WalCodec} := {
  wh_roundtrip h : wh_fits h ->
    exists b, wh_marshal h = inl b /\ len b <= 44 /\ Forall is_byte b /\ wh_unmarshal b = inl h;
  xe_roundtrip e : xe_fits e ->
    exists b, xe_marshal e = inl b /\ len b <= 44 /\ Forall is_byte b /\ xe_unmarshal b = inl e;
}.

(** ** Log entries *)

(** [headerBuf] holds the first [headerSize] bytes of the array of that name: all
    of them are assigned by [makeLogEntry], and no others are used. *)
Record logEntry := MkLogEntry {
  le_headerBuf : bytes;
  le_data : bytes;
  le_readOff : Z;
}.

Definition le_headerSize (e : logEntry) : Z := len (le_headerBuf e).
Definition le_Len (e : logEntry) : Z := le_headerSize e + len (le_data e).

(** The size and type word, the fields after it and the checksum of both with
    the data. *)
Definition entry_word (pType packetSize : Z) : bytes :=
  <[3%nat := Z.land (u8 pType) entryTypeMask]> (le_put 4 (u32 packetSize)).

Definition makeLogEntry (pType offset length : Z) (data : bytes) : logEntry * Z :=
  let isData := pType =? entryTypeData in
  let isTrim := pType =? entryTypeTrim in
  let packetSize := entryBaseSize + (if isData then 8 + length else if isTrim then 8 + 8 else 0) in
  let headerSize := entryBaseSize + (if isData then 8 else if isTrim then 8 + 8 else 0) in
  let rest :=
    if isData then le_put 8 (u64 offset)
    else if isTrim then le_put 8 (u64 offset) ++ le_put 8 (u64 length) else [] in
  let body := entry_word pType packetSize ++ rest in
  let crc := crc_write crc_new body in
  let crc := if 0 <? len data then crc_write crc data else crc in
  (MkLogEntry (le_put 4 (crc_sum crc) ++ body) data 0, headerSize).

Section writing.
Context {W : Type} `{!IoWriter W}.

Definition le_WriteTo (e : logEntry) (w : W) : W * Z * option error :=
  let '(w, headerN, err) := io_Write w (le_headerBuf e) in
  match err with
  | Some err => (w, headerN, Some err)
  | None =>
      if len (le_data e) =? 0 then (w, headerN, None)
      else let '(w, dataN, err) := io_Write w (le_data e) in (w, headerN + dataN, err)
  end.

(** [copy(dst, src)]: the new contents of [dst] and the number of bytes. *)
Definition go_copy (dst src : bytes) : bytes * Z :=
  let n := Z.min (len dst) (len src) in
  (take (Z.to_nat n) src ++ drop (Z.to_nat n) dst, n).

Definition le_Read (e : logEntry) (b : bytes) : outcome (logEntry * bytes * Z * option error) :=
  let '(b, headerN, off) :=
    if le_readOff e <? le_headerSize e then
      let '(b, n) := go_copy b (drop (Z.to_nat (le_readOff e)) (le_headerBuf e)) in
      (b, n, le_readOff e + n)
    else (b, 0, le_readOff e) in
  r ← (if negb (len (le_data e) =? 0) && (headerN <? len b) then
         src ← slice_from (le_data e) (off - le_headerSize e);
         tail ← slice_from b headerN;
         let '(tail, n) := go_copy tail src in
         Ret (take (Z.to_nat headerN) b ++ tail, n, off + n)
       else Ret (b, 0, off));
  let '(b, dataN, off) := r in
  Ret (MkLogEntry (le_headerBuf e) (le_data e) off, b, headerN + dataN,
       if off =? le_Len e then Some EOF else None).

(** [w.rf.ReadFrom(e)]: the copy loop of [io.Copy] with its buffer of 32 KB. *)
Definition copyBufSize : Z := 32 * 1024.

Fixpoint copy_loop (fuel : nat) (e : logEntry) (w : W) (written : Z) : outcome (W * Z * option error) :=
  match fuel with
  | O => OutOfFuel
  | S fuel =>
      r ← le_Read e (zeros copyBufSize);
      let '(e, buf, nr, er) := r in
      let '(w, written, ew) :=
        if 0 <? nr then
          let '(w, nw, ew) := io_Write w (take (Z.to_nat nr) buf) in
          (w, written + nw,
           match ew with Some ew => Some ew | None => if nr =? nw then None else Some ErrShortWrite end)
        else (w, written, None) in
      match ew with
      | Some ew => Ret (w, written, Some ew)
      | None =>
          match er with
          | Some EOF => Ret (w, written, None)
          | Some er => Ret (w, written, Some er)
          | None => copy_loop fuel e w written
          end
      end
  end.

(** A read that does not end the entry fills the buffer. *)
Definition ReadFrom (e : logEntry) (w : W) : outcome (W * Z * option error) :=
  copy_loop (S (Z.to_nat (le_Len e))) e w 0.

(** [rf] tells whether the file implements [io.ReaderFrom]. *)
Definition writeLogEntry (rf : bool) (e : logEntry) (w : W) : outcome (W * option error) :=
  if rf then r ← ReadFrom e w; let '(w, _, err) := r in Ret (w, err)
  else let '(w, _, err) := le_WriteTo e w in Ret (w, err).
End writing.

(** ** The bytes of an entry *)
Definition le_bytes (e : logEntry) : bytes := le_headerBuf e ++ le_data e.

Lemma len_le_bytes e : len (le_bytes e) = le_Len e.
Proof. apply len_app. Qed.

Lemma len_entry_word pType packetSize : len (entry_word pType packetSize) = 4.
Proof. unfold len, entry_word. rewrite length_insert, length_le_put. done. Qed.

Lemma entry_word_eq pType packetSize :
  0 <= packetSize < 2 ^ 24 -> 0 <= pType < 16 ->
  entry_word pType packetSize = le_put 3 packetSize ++ [pType].
Proof.
  intros Hs Ht. unfold entry_word. rewrite u32_small, u8_small by lia. rewrite (le_put_split 3 1).
  rewrite insert_app_r_alt by (rewrite length_le_put; lia). rewrite length_le_put.
  change entryTypeMask with (Z.ones 4). rewrite Z.land_ones, Z.mod_small by lia. done.
Qed.

(** The bytes of a data entry. *)
Definition data_body (off : Z) (p : bytes) : bytes := le_put 3 (16 + len p) ++ [0] ++ le_put 8 off.
Definition data_crc (off : Z) (p : bytes) : Z := crc_sum (crc_write crc_new (data_body off p ++ p)).
Definition data_entry (off : Z) (p : bytes) : bytes := le_put 4 (data_crc off p) ++ data_body off p ++ p.

Lemma len_data_body off p : len (data_body off p) = 12.
Proof. unfold data_body. by autorewrite with len; rewrite !len_le_put. Qed.

Lemma len_data_entry off p : len (data_entry off p) = 16 + len p.
Proof. unfold data_entry. rewrite !len_app, len_data_body, len_le_put. lia. Qed.

Lemma data_body_bytes off p : Forall is_byte (data_body off p).
Proof.
  unfold data_body. rewrite !Forall_app, Forall_singleton. unfold is_byte at 2.
  repeat split; try apply le_put_bytes; lia.
Qed.

Lemma data_crc_bound off p : Forall is_byte p -> 0 <= data_crc off p < 2 ^ 32.
Proof.
  intros Hp. apply crc_sum_bound, crc_write_bound; [unfold crc_new; lia|].
  rewrite Forall_app. split; [apply data_body_bytes|done].
Qed.

Lemma makeLogEntry_data off p :
  0 <= off < 2 ^ 64 -> len p <= MaxWriteSize ->
  exists e, makeLogEntry entryTypeData off (len p) p = (e, 16) /\
            le_readOff e = 0 /\ le_bytes e = data_entry off p /\ le_Len e = 16 + len p.
Proof.
  intros Hoff Hp. change MaxWriteSize with (2 ^ 22) in Hp. pose proof (len_nonneg p).
  eexists. split; [reflexivity|]. split; [done|]. change (entryTypeData =? entryTypeData) with true.
  cbv iota. replace (entryBaseSize + (8 + len p)) with (16 + len p) by (unfold entryBaseSize; lia).
  rewrite entry_word_eq, u64_small by (unfold entryTypeData; lia).
  assert (forall c, (if 0 <? len p then crc_write c p else c) = crc_write c p) as ->.
  { intros c. destruct (Z.ltb_spec 0 (len p)); [done|]. assert (p = []) as -> by (apply len_0_nil; lia). done. }
  rewrite <- crc_write_app. unfold le_bytes, le_Len, le_headerSize. cbn [le_headerBuf le_data].
  split; [unfold data_entry, data_crc, data_body; by rewrite <- !app_assoc|].
  rewrite !len_app, !len_le_put. change (len [entryTypeData]) with 1. lia.
Qed.

(** ** Writing an entry out *)
Section writing_ok.
Context {W : Type} `{!IoWriter W} `{!IoWriterLaws W}.

Definition le_rest (e : logEntry) : bytes := drop (Z.to_nat (le_readOff e)) (le_bytes e).

Lemma go_copy_prefix dst src n :
  n = Z.min (len dst) (len src) -> go_copy dst src = (take (Z.to_nat n) src ++ drop (Z.to_nat n) dst, n).
Proof. by intros ->. Qed.

(** A read that starts in the header, and one that starts in the data. *)
Lemma le_Read_header e b n :
  0 <= le_readOff e <= le_Len e -> n = Z.min (len b) (len (le_rest e)) -> le_readOff e < le_headerSize e ->
  le_Read e b =
  Ret (MkLogEntry (le_headerBuf e) (le_data e) (le_readOff e + n),
       take (Z.to_nat n) (le_rest e) ++ drop (Z.to_nat n) b, n,
       if le_readOff e + n =? le_Len e then Some EOF else None).
Proof.
  intros Hoff Hn Hcase. unfold le_rest, le_bytes in *. unfold le_Read. pose proof (len_nonneg b) as Hb0.
  pose proof (len_nonneg (le_data e)) as Hd0. unfold le_Len, le_headerSize in *.
  rewrite len_drop in Hn by (rewrite len_app; lia). rewrite len_app in Hn.
  remember (len (le_headerBuf e)) as h eqn:Hh. remember (len (le_data e)) as d eqn:Hd.
  remember (le_readOff e) as o eqn:Ho.
  rewrite (proj2 (Z.ltb_lt o h)) by done.
  rewrite (go_copy_prefix b _ (Z.min (len b) (h - o))) by (rewrite len_drop by lia; lia).
  rewrite (drop_app_le (le_headerBuf e)) by (unfold len in Hh; lia).
  assert (Hhs : len (drop (Z.to_nat o) (le_headerBuf e)) = h - o) by (rewrite len_drop; lia).
  remember (Z.min (len b) (h - o)) as m eqn:Hm. remember (drop (Z.to_nat o) (le_headerBuf e)) as hs eqn:Ehs.
  destruct (negb (d =? 0) && _) eqn:E.
  + apply andb_true_iff in E as [Ed Em]. rewrite negb_true_iff, Z.eqb_neq in Ed.
    rewrite len_app, len_take, len_drop in Em by lia. rewrite Z.ltb_lt in Em.
    assert (m = h - o) as -> by lia.
    rewrite (slice_from_ok (le_data e)) by lia. cbn [mbind outcome_bind].
    rewrite slice_from_ok by (rewrite len_app, len_take, len_drop by lia; lia). cbn [mbind outcome_bind].
    rewrite drop_app_ge by (rewrite length_take; unfold len in *; lia).
    replace (Z.to_nat (h - o) - length (take (Z.to_nat (h - o)) hs))%nat with 0%nat
      by (rewrite length_take; unfold len in *; lia).
    rewrite drop_0. replace (Z.to_nat (o + (h - o) - h)) with 0%nat by lia. rewrite drop_0.
    rewrite (go_copy_prefix _ _ (Z.min (len b - (h - o)) d)) by (rewrite len_drop by lia; lia).
    cbn [mbind outcome_bind]. assert (n = (h - o) + Z.min (len b - (h - o)) d) as -> by lia.
    remember (Z.min (len b - (h - o)) d) as k eqn:Hk. cbn.
    replace (o + (h - o) + k) with (o + (h - o + k)) by lia. do 3 f_equal.
    rewrite (take_app_le (take _ hs)) by (rewrite length_take; unfold len in *; lia).
    rewrite take_take, Nat.min_id. rewrite take_app_ge by (unfold len in *; lia).
    rewrite (take_ge hs) by (unfold len in *; lia). rewrite <- app_assoc. f_equal.
    rewrite drop_drop. replace (Z.to_nat (h - o + k) - length hs)%nat with (Z.to_nat k) by (unfold len in *; lia).
    by replace (Z.to_nat (h - o + k)) with (Z.to_nat (h - o) + Z.to_nat k)%nat by lia.
  + cbn [mbind outcome_bind].
    assert (n = m) as ->.
    { apply andb_false_iff in E as [E|E].
      - rewrite negb_false_iff, Z.eqb_eq in E. lia.
      - rewrite len_app, len_take, len_drop in E by lia. rewrite Z.ltb_ge in E. lia. }
    rewrite Z.add_0_r. do 4 f_equal. rewrite take_app_le by (unfold len in *; lia). done.
Qed.

Lemma le_Read_data e b n :
  0 <= le_readOff e <= le_Len e -> n = Z.min (len b) (len (le_rest e)) -> le_headerSize e <= le_readOff e ->
  le_Read e b =
  Ret (MkLogEntry (le_headerBuf e) (le_data e) (le_readOff e + n),
       take (Z.to_nat n) (le_rest e) ++ drop (Z.to_nat n) b, n,
       if le_readOff e + n =? le_Len e then Some EOF else None).
Proof.
  intros Hoff Hn Hcase. unfold le_rest, le_bytes in *. unfold le_Read. pose proof (len_nonneg b) as Hb0.
  pose proof (len_nonneg (le_data e)) as Hd0. unfold le_Len, le_headerSize in *.
  rewrite len_drop in Hn by (rewrite len_app; lia). rewrite len_app in Hn.
  remember (len (le_headerBuf e)) as h eqn:Hh. remember (len (le_data e)) as d eqn:Hd.
  remember (le_readOff e) as o eqn:Ho.
  rewrite (proj2 (Z.ltb_ge o h)) by done.
  rewrite drop_app_ge by (unfold len in *; lia). cbn [andb].
  replace (Z.to_nat o - length (le_headerBuf e))%nat with (Z.to_nat (o - h)) by (unfold len in *; lia).
  destruct (negb (d =? 0) && _) eqn:E.
  + rewrite (slice_from_ok (le_data e)) by lia. cbn [mbind outcome_bind]. rewrite slice_from_ok by lia.
    cbn [mbind outcome_bind Z.to_nat drop take app].
    rewrite (go_copy_prefix b _ n) by (rewrite len_drop by lia; lia). cbn [mbind outcome_bind app].
    done.
  + cbn [mbind outcome_bind]. assert (n = 0) as ->.
    { apply andb_false_iff in E as [E|E]; [rewrite negb_false_iff, Z.eqb_eq in E; lia|].
      rewrite Z.ltb_ge in E. lia. }
    by rewrite !Z.add_0_r.
Qed.

(** [Read] delivers the next bytes of the entry, with [io.EOF] when they are the
    last. *)
Lemma le_Read_ok e b n :
  0 <= le_readOff e <= le_Len e -> n = Z.min (len b) (len (le_rest e)) ->
  le_Read e b =
  Ret (MkLogEntry (le_headerBuf e) (le_data e) (le_readOff e + n),
       take (Z.to_nat n) (le_rest e) ++ drop (Z.to_nat n) b, n,
       if le_readOff e + n =? le_Len e then Some EOF else None).
Proof.
  intros Hoff Hn. destruct (Z.lt_ge_cases (le_readOff e) (le_headerSize e)) as [Hlt|Hge];
    [by apply le_Read_header|by apply le_Read_data].
Qed.

(** [wrote w p w' err]: a write of [p] turned [w] into [w'] and returned [err]. A
    prefix of [p] reached the destination, all of it when there is no error. *)
Record wrote (w : W) (p : bytes) (w' : W) (err : option error) : Prop := {
  wr_out : exists k, 0 <= k <= len p /\ io_out w' = io_out w ++ take (Z.to_nat k) p /\
                     (err = None -> k = len p);
  wr_rel : io_reliable w -> err = None /\ io_reliable w';
}.

Lemma wrote_all w p w' : wrote w p w' None -> io_out w' = io_out w ++ p.
Proof.
  intros [(k & Hk & Ho & Hall) _]. rewrite Ho, Hall by done. f_equal. unfold len. by rewrite Nat2Z.id, firstn_all.
Qed.

Lemma io_wrote w p w' n err : io_Write w p = (w', n, err) -> wrote w p w' err.
Proof.
  intros E. destruct (io_Write_ok _ _ _ _ _ E) as (Hn & Ho & Hall). split; [by exists n|].
  intros Hr. by apply (io_Write_reliable _ _ _ _ _ Hr E).
Qed.

Lemma wrote_nil w : wrote w [] w None.
Proof. split; [exists 0; by rewrite app_nil_r|done]. Qed.

Lemma wrote_app w p w1 q w2 err : wrote w p w1 None -> wrote w1 q w2 err -> wrote w (p ++ q) w2 err.
Proof.
  intros H1 [(k & Hk & Ho & Hall) Hr]. pose proof (len_nonneg p). pose proof (wrote_all _ _ _ H1) as Ho1. split.
  - exists (len p + k). rewrite len_app. split; [lia|]. split; [|intros E; rewrite (Hall E); lia].
    rewrite Ho, Ho1, <- app_assoc. f_equal. rewrite take_app_ge by (unfold len; lia).
    do 2 f_equal. unfold len. lia.
  - intros Hrel. apply Hr. by apply (wr_rel _ _ _ _ H1).
Qed.

Lemma wrote_fail w p w1 q err : wrote w p w1 (Some err) -> wrote w (p ++ q) w1 (Some err).
Proof.
  intros [(k & Hk & Ho & Hall) Hr]. pose proof (len_nonneg q). split.
  - exists k. rewrite len_app. split; [lia|]. split; [|done]. by rewrite take_app_le by (unfold len in *; lia).
  - intros Hrel. destruct (Hr Hrel) as [[=] _].
Qed.

Lemma le_WriteTo_ok e w : exists w' n err, le_WriteTo e w = (w', n, err) /\ wrote w (le_bytes e) w' err.
Proof.
  unfold le_WriteTo, le_bytes. destruct (io_Write w (le_headerBuf e)) as [[w1 n1] err1] eqn:E1.
  apply io_wrote in E1. destruct err1 as [err1|]; [do 3 eexists; split; [done|by apply wrote_fail]|].
  destruct (Z.eqb_spec (len (le_data e)) 0) as [Hz|Hz].
  - apply len_0_nil in Hz. rewrite Hz, app_nil_r. eauto.
  - destruct (io_Write w1 (le_data e)) as [[w2 n2] err2] eqn:E2. apply io_wrote in E2.
    do 3 eexists. split; [done|]. by eapply wrote_app.
Qed.

Lemma copy_loop_ok fuel e w written :
  0 <= le_readOff e <= le_Len e -> len (le_rest e) < Z.of_nat fuel ->
  exists w' n err, copy_loop fuel e w written = Ret (w', n, err) /\ wrote w (le_rest e) w' err.
Proof.
  revert e w written. induction fuel as [|fuel IH]; intros e w written Hoff Hf;
    [pose proof (len_nonneg (le_rest e)); lia|].
  assert (Hl : len (le_rest e) = le_Len e - le_readOff e)
    by (unfold le_rest; rewrite len_drop; rewrite len_le_bytes; lia).
  cbn [copy_loop]. assert (len (zeros copyBufSize) = copyBufSize) as Hz by (apply len_zeros; unfold copyBufSize; lia).
  rewrite (le_Read_ok e (zeros copyBufSize) _ Hoff eq_refl), Hz. cbn [mbind outcome_bind].
  remember (Z.min copyBufSize (len (le_rest e))) as n eqn:Hn. assert (0 <= n) by (unfold copyBufSize in Hn; lia).
  rewrite take_len_eq by (rewrite len_take; lia).
  assert (Hstep : exists w1 nw ew,
    (if 0 <? n then
       let '(w, nw, ew) := io_Write w (take (Z.to_nat n) (le_rest e)) in
       (w, written + nw, match ew with Some ew => Some ew | None => if n =? nw then None else Some ErrShortWrite end)
     else (w, written, None)) = (w1, nw, ew) /\ wrote w (take (Z.to_nat n) (le_rest e)) w1 ew).
  { destruct (Z.ltb_spec 0 n) as [Hpos|Hpos].
    - destruct (io_Write w (take (Z.to_nat n) (le_rest e))) as [[w1 nw] ew] eqn:E.
      destruct (io_Write_ok _ _ _ _ _ E) as (Hnw & _ & Hall). rewrite len_take in Hall by lia. apply io_wrote in E.
      do 3 eexists. split; [done|]. destruct ew; [done|]. rewrite (Hall eq_refl), Z.eqb_refl. done.
    - assert (n = 0) as -> by lia. do 3 eexists. split; [done|]. apply wrote_nil. }
  destruct Hstep as (w1 & nw & ew & -> & Hw1).
  rewrite <- (take_drop (Z.to_nat n) (le_rest e)).
  destruct ew as [ew|]; [do 3 eexists; split; [done|by apply wrote_fail]|].
  destruct (Z.eqb_spec (le_readOff e + n) (le_Len e)) as [Hend|Hend].
  - rewrite drop_ge, app_nil_r by (unfold len in *; lia). eauto.
  - remember (MkLogEntry (le_headerBuf e) (le_data e) (le_readOff e + n)) as e1 eqn:He1.
    assert (le_rest e1 = drop (Z.to_nat n) (le_rest e)) as Hr1.
    { subst e1. unfold le_rest, le_bytes. cbn. rewrite drop_drop. f_equal. lia. }
    assert (le_Len e1 = le_Len e) as HL by (by subst e1).
    destruct (IH e1 w1 nw) as (w2 & n2 & err2 & E2 & Hw2).
    { rewrite HL. subst e1. cbn. lia. }
    { rewrite Hr1, len_drop by lia. unfold copyBufSize in *. lia. }
    do 3 eexists. split; [exact E2|]. rewrite Hr1 in Hw2. by eapply wrote_app.
Qed.

Lemma writeLogEntry_ok rf e w :
  le_readOff e = 0 -> exists w' err, writeLogEntry rf e w = Ret (w', err) /\ wrote w (le_bytes e) w' err.
Proof.
  intros H0. unfold writeLogEntry. destruct rf.
  - pose proof (len_nonneg (le_bytes e)) as Hl. rewrite len_le_bytes in Hl.
    destruct (copy_loop_ok (S (Z.to_nat (le_Len e))) e w 0) as (w' & n & err & E & Hw).
    { lia. } { unfold le_rest. rewrite H0. change (Z.to_nat 0) with 0%nat. rewrite drop_0, len_le_bytes. lia. }
    unfold ReadFrom. rewrite E. cbn. do 2 eexists. split; [done|].
    unfold le_rest in Hw. by rewrite H0 in Hw.
  - destruct (le_WriteTo_ok e w) as (w' & n & err & -> & Hw). eauto.
Qed.
End writing_ok.
