(* ===== verification/WalWriter.v ===== *)
(** * Writing a log

    [internal/wal/writer.go] and [internal/wal/readable_log.go]: the [Writer]
    appends an entry to the log for each write or trim of the device and keeps an
    index of them; [CloseWriter] appends the index. Each method runs as one step:
    a writer takes [indexLock] before it releases [writeLock], so that the index
    is updated in the order of the entries. *)
From S2P Require Import Prelude Radix RangeMap ExtentRangeMap BlockReader GoStd Adaptor.
From S2P Require Import WalIndex WalFormat.
Local Open Scope Z_scope.

(** ** The log file

    [LogFile] is an [io.Writer] and an [io.ReaderAt]; [WriteMany] of
    [go-util/io] writes slices one after the other. [lf_rf] tells whether the
    file implements [io.ReaderFrom]. *)
Class LogFile (F : Type) := {
  lf_writer :: IoWriter F;
  lf_WriteMany : F -> list bytes -> F * Z * option error;
  lf_ReadAt : F -> bytes -> Z -> bytes * Z * option error;
  lf_rf : bool;
}.

Class LogFileLaws (F : Type) `{!LogFile F} := {
  lf_writer_laws :: IoWriterLaws F;
  lf_WriteMany_ok f ps f' n err : lf_WriteMany f ps = (f', n, err) ->
    0 <= n <= len (mjoin ps) /\ io_out f' = io_out f ++ take (Z.to_nat n) (mjoin ps) /\
    (err = None -> n = len (mjoin ps)) /\ (io_reliable f -> err = None /\ io_reliable f');
  lf_ReadAt_ok f p off : lf_ReadAt f p off = file_ReadAt (MkFile (io_out f) false) p off;
}.

Section writer.
Context {F : Type} `{!LogFile F} `{!WalCodec}.
Context {T : Type} `{!RadixTree item it_key T}.

(** [ww_open] is [w.w != nil] and [ww_once] the state of [headerOnce] with
    [headerErr]. The file itself is threaded through the operations. *)
Record Writer := MkWriter {
  ww_open : bool;
  ww_offset : Z;
  ww_end : Z;
  ww_once : option (option error);
  ww_index : ExtentRangeMap logRecord T;
}.

Definition NewWriter : Writer := MkWriter true 0 0 None erm_zero.

Definition wal_header : WalHeader := MkWalHeader 1 1 1 Header_CRC32IEEE.

Definition writeHeader (w : Writer) (f : F) : Writer * F * option error :=
  match ww_once w with
  | Some err => (w, f, err)
  | None =>
      let once w err := MkWriter (ww_open w) (ww_offset w) (ww_end w) (Some err) (ww_index w) in
      if negb (ww_open w) then (once w (Some ErrWriterClosed), f, Some ErrWriterClosed)
      else
        match wh_marshal wal_header with
        | inr err => (once w (Some err), f, Some err)
        | inl buf =>
            let headerSizeBuf := le_put 4 (u32 (len buf)) in
            let '(f, written, err) := lf_WriteMany f [HeaderMagic; headerSizeBuf; buf] in
            (once (MkWriter (ww_open w) written (ww_end w) None (ww_index w)) err, f, err)
        end
  end.

Definition ww_WriteAt (w : Writer) (f : F) (p : bytes) (off : Z) :
    outcome (Writer * F * Z * option error) :=
  if len p =? 0 then Ret (w, f, 0, None)
  else if MaxWriteSize <? len p then Ret (w, f, 0, Some ErrWriteTooBig)
  else
    let '(w, f, err) := writeHeader w f in
    match err with
    | Some err => Ret (w, f, 0, Some err)
    | None =>
        let '(entryBuf, entryHeaderSize) := makeLogEntry entryTypeData off (len p) p in
        let entrySize := le_Len entryBuf in
        if negb (ww_open w) then Ret (w, f, 0, Some ErrWriterClosed)
        else
          r ← writeLogEntry lf_rf entryBuf f;
          let '(f, err) := r in
          match err with
          | Some err => Ret (w, f, 0, Some err)
          | None =>
              let lr := MkLogRecord (ww_offset w + entryHeaderSize) off (len p) false in
              index ← erm_Add (ww_index w) (u64 off) (len p) lr;
              let end_ := if ww_end w <? off + len p then off + len p else ww_end w in
              Ret (MkWriter (ww_open w) (ww_offset w + entrySize) end_ (ww_once w) index,
                   f, len p, None)
          end
    end.

Definition ww_Trim (w : Writer) (f : F) (off length : Z) : outcome (Writer * F * option error) :=
  if length =? 0 then Ret (w, f, None)
  else
    let '(w, f, err) := writeHeader w f in
    match err with
    | Some err => Ret (w, f, Some err)
    | None =>
        let '(entryBuf, _) := makeLogEntry entryTypeTrim off length [] in
        let entrySize := le_Len entryBuf in
        if negb (ww_open w) then Ret (w, f, Some ErrWriterClosed)
        else
          r ← writeLogEntry lf_rf entryBuf f;
          let '(f, err) := r in
          match err with
          | Some err => Ret (w, f, Some err)
          | None =>
              index ← erm_Add (ww_index w) (u64 off) (u64 length) (MkLogRecord 0 off length true);
              let end_ := if ww_end w <? off + length then off + length else ww_end w in
              Ret (MkWriter (ww_open w) (ww_offset w + entrySize) end_ (ww_once w) index, f, None)
          end
    end.

(** ** Closing the log *)

(** The index message of a range of the index. *)
Definition index_entry (mr : RangeValue logRecord) : IndexEntry :=
  if lr_zero (Value mr) then MkIndexEntryPb IndexEntry_TRIM (Offset mr) (Length mr) 0
  else
    let logOffsetOffset := Offset mr -u u64 (lr_offset (Value mr)) in
    MkIndexEntryPb IndexEntry_WRITE (Offset mr) (Length mr)
      (u64 (lr_logOffset (Value mr)) +u logOffsetOffset).

(** The variables the callback of [Iterate] assigns. *)
Record closing := MkClosing {
  cl_bw : bufio_Writer F;
  cl_crc : Z;
  cl_footerSize : Z;
  cl_err : option error;
}.

Definition close_entry (mr : RangeValue logRecord) (st : outcome closing) : outcome closing * bool :=
  match st with
  | Ret st =>
      match xe_marshal (index_entry mr) with
      | inr err => (Ret (MkClosing (cl_bw st) (cl_crc st) (cl_footerSize st) (Some err)), false)
      | inl eb =>
          let buf := AppendUvarint [] (len eb) ++ eb in
          let crc := crc_write (cl_crc st) buf in
          match bw_Write (cl_bw st) buf with
          | Ret (bw, n, Some err) => (Ret (MkClosing bw crc (cl_footerSize st) (Some err)), false)
          | Ret (bw, n, None) => (Ret (MkClosing bw crc (cl_footerSize st + n) None), true)
          | Panic => (Panic, false)
          | OutOfFuel => (OutOfFuel, false)
          end
      end
  | Panic => (Panic, false)
  | OutOfFuel => (OutOfFuel, false)
  end.

Definition ww_CloseWriter (w : Writer) (f : F) : outcome (Writer * F * option error) :=
  if negb (ww_open w) then Ret (w, f, Some ErrWriterClosed)
  else if ww_offset w =? 0 then Ret (w, f, None)
  else
    let bw := bufio_NewWriter f in
    let w := MkWriter false (ww_offset w) (ww_end w) (ww_once w) (ww_index w) in
    let '(entryBuf, _) := makeLogEntry entryTypeFooter 0 0 [] in
    r ← bw_Write bw (le_headerBuf entryBuf);
    let '(bw, _, err) := r in
    match err with
    | Some err => Ret (w, bw_wr bw, Some err)
    | None =>
        st ← erm_Iterate (ww_index w) 0 close_entry (Ret (MkClosing bw crc_new 0 None));
        match cl_err st with
        | Some err => Ret (w, bw_wr (cl_bw st), Some err)
        | None =>
            let buf := le_put 4 (u32 (cl_footerSize st)) ++ le_put 4 (crc_sum (cl_crc st)) ++ FooterMagic in
            r ← bw_Write (cl_bw st) buf;
            let '(bw, _, err) := r in
            match err with
            | Some err => Ret (w, bw_wr bw, Some err)
            | None => let '(bw, err) := bw_Flush bw in Ret (w, bw_wr bw, err)
            end
        end
    end.

Definition ww_Size (w : Writer) : Z := ww_end w.
Definition ww_LogSize (w : Writer) : Z := ww_offset w.

(** ** [ReadableLog]: a writer with its file *)
Record ReadableLog := NewReadableLog { rl_logFile : F; rl_logWriter : Writer }.

Definition rl_Written (l : ReadableLog) : Z := ww_LogSize (rl_logWriter l).

Definition rl_ReadAt (l : ReadableLog) (p : bytes) (off : Z) : outcome (bytes * Z * option error) :=
  wal_ReadAt (ww_index (rl_logWriter l)) (lf_ReadAt (rl_logFile l)) p off.

#[export] Instance readable_log : HoleReaderAt ReadableLog := {
  ReadAt := rl_ReadAt;
  NextData l := wal_NextData (ww_index (rl_logWriter l));
  NextHole l := wal_NextHole (ww_index (rl_logWriter l));
}.
End writer.
Arguments Writer T : clear implicits.
Arguments ReadableLog F T : clear implicits.
