(* ===== verification/WalLog.v ===== *)
(** * The contents of a log

    The specification of [internal/wal]: a log is the sequence of its operations,
    and its contents are the bytes that the last operation on each offset wrote.
    The writer's invariant ties its file, its offset and its index to that
    sequence. *)
From S2P Require Import Prelude Radix RangeMap ExtentRangeMap BlockReader GoStd Adaptor.
From S2P Require Import WalIndex WalFormat WalWriter.
Local Open Scope Z_scope.

(** ** Operations *)
Inductive log_op := LWrite (off : Z) (p : bytes) | LTrim (off n : Z).

Definition op_ok (op : log_op) : Prop :=
  match op with
  | LWrite off p => 0 <= off /\ 0 < len p <= MaxWriteSize /\ off + len p < 2 ^ 63 /\ Forall is_byte p
  | LTrim off n => 0 <= off /\ 0 < n /\ off + n < 2 ^ 63
  end.

Definition op_view (bv : bview) (op : log_op) : bview := fun k =>
  match op with
  | LWrite off p => if bool_decide (off <= k < off + len p) then p !! Z.to_nat (k - off) else bv k
  | LTrim off n => if bool_decide (off <= k < off + n) then Some 0 else bv k
  end.

Definition ops_view (ops : list log_op) : bview := fold_left op_view ops (fun _ => None).

Definition op_end (op : log_op) : Z :=
  match op with LWrite off p => off + len p | LTrim off n => off + n end.

Definition is_write (op : log_op) : Prop := match op with LWrite _ _ => True | LTrim _ _ => False end.

(** The bytes of a trim entry. *)
Definition trim_body (off n : Z) : bytes := le_put 3 24 ++ [1] ++ le_put 8 off ++ le_put 8 n.
Definition trim_entry (off n : Z) : bytes :=
  le_put 4 (crc_sum (crc_write crc_new (trim_body off n))) ++ trim_body off n.

Definition op_entry (op : log_op) : bytes :=
  match op with LWrite off p => data_entry off p | LTrim off n => trim_entry off n end.

Definition log_header (hb : bytes) : bytes := HeaderMagic ++ le_put 4 (len hb) ++ hb.
Definition log_bytes (hb : bytes) (ops : list log_op) : bytes :=
  log_header hb ++ mjoin (op_entry <$> ops).

Lemma ops_view_snoc ops op k : ops_view (ops ++ [op]) k = op_view (ops_view ops) op k.
Proof. unfold ops_view. by rewrite fold_left_app. Qed.

Lemma log_bytes_snoc hb ops op : log_bytes hb (ops ++ [op]) = log_bytes hb ops ++ op_entry op.
Proof. unfold log_bytes. by rewrite fmap_app, join_app, app_assoc; cbn; rewrite app_nil_r. Qed.

(** The end of the contents grows with every range that is added. *)
Lemma end_spec_extend (bv bv' : bview) e off n :
  end_spec bv e -> 0 <= off -> 0 < n -> (forall k, off <= k < off + n -> is_Some (bv' k)) ->
  (forall k, ~ off <= k < off + n -> bv' k = bv k) -> end_spec bv' (Z.max e (off + n)).
Proof.
  intros He Ho Hn Hin Hout. right. destruct He as [[-> He]|(He0 & He1 & He2)].
  - rewrite Z.max_r by lia. split; [lia|]. split; [apply Hin; lia|]. intros k Hk. rewrite Hout by lia. apply He. lia.
  - split; [lia|]. split.
    + destruct (Z.le_gt_cases e (off + n)); [rewrite Z.max_r by lia; apply Hin; lia|].
      rewrite Z.max_l by lia. destruct (decide (off <= e - 1 < off + n)); [by apply Hin|by rewrite Hout].
    + intros k Hk. rewrite Hout by lia. apply He2. lia.
Qed.

Lemma op_end_spec bv op e :
  op_ok op -> end_spec bv e -> end_spec (op_view bv op) (Z.max e (op_end op)).
Proof.
  intros Hop He. destruct op as [off p|off n]; cbn [op_end op_ok] in *;
    (eapply end_spec_extend; [done|lia|lia| |]); intros k Hk; cbn;
    rewrite ?bool_decide_true, ?bool_decide_false by lia; eauto.
  apply lookup_lt_is_Some_2. unfold len in *. lia.
Qed.

(** ** Updating the index *)
Section index_updates.
Context {T : Type} `{!RadixTree item it_key T} `{!RadixTreeLaws item it_key T}.
Implicit Types (index : ExtentRangeMap logRecord T).

Lemma index_ok_zero fb : index_ok (erm_zero : ExtentRangeMap logRecord T) fb (fun _ => None).
Proof.
  split; [apply erm_zero_wf| | |]; intros k; rewrite erm_zero_view; [done|done|by intros [? [=]]].
Qed.

Lemma index_ok_mono index fb x bv : index_ok index fb bv -> index_ok index (fb ++ x) bv.
Proof.
  intros [Hwf Hs Hn Hr]. split; [done| |done|done]. intros k lr E. destruct (Hs k lr E) as [Hin Hz Hd].
  split; [done|done|]. intros Ez. destruct (Hd Ez) as (H1 & H2 & ->). rewrite len_app.
  pose proof (len_nonneg x). split; [done|]. split; [lia|].
  by rewrite lookup_app_l by (unfold len in *; lia).
Qed.

Lemma index_ok_ext index fb bv bv' : (forall k, bv k = bv' k) -> index_ok index fb bv -> index_ok index fb bv'.
Proof.
  intros Heq [Hwf Hs Hn Hr]. split; [done| | |done].
  - intros k lr E. destruct (Hs k lr E) as [Hin Hz Hd]. split; [done| |]; by rewrite <- Heq.
  - intros k E. rewrite <- Heq. auto.
Qed.

Lemma index_add_record index fb bv bv' off n lr :
  index_ok index fb bv -> 0 <= off -> 0 <= n -> off + n < 2 ^ 63 ->
  (forall k, off <= k < off + n -> record_ok fb bv' lr k) ->
  (forall k, ~ off <= k < off + n -> bv' k = bv k) ->
  exists index', erm_Add index off n lr = Ret index' /\ index_ok index' fb bv' /\
    forall k, erm_view index' k = view_add (erm_view index) off n lr k.
Proof.
  intros [Hwf Hs Hn Hr] Ho Hl Hlim Hnew Hold.
  destruct (erm_Add_spec index off n lr) as (index' & E & Hwf' & Hv); [done|lia|lia|lia|].
  exists index'. split; [done|]. split; [|done]. split; [done| | |].
  - intros k r. rewrite Hv. unfold view_add. case_bool_decide as Hk; [intros [= <-]; auto|].
    intros Er. destruct (Hs k r Er) as [Hin Hz Hd]. split; [done| |]; by rewrite Hold.
  - intros k. rewrite Hv. unfold view_add. case_bool_decide as Hk; [done|]. intros Er. rewrite Hold by done. auto.
  - intros k. rewrite Hv. unfold view_add. case_bool_decide as Hk; [lia|]. apply Hr.
Qed.

(** Recording a write whose data is in the file at [pos]. *)
Lemma index_add_data index fb bv off a p c :
  index_ok index fb bv -> 0 <= off -> off + len p < 2 ^ 63 -> fb = a ++ p ++ c ->
  exists index', erm_Add index off (len p) (MkLogRecord (len a) off (len p) false) = Ret index' /\
    index_ok index' fb (op_view bv (LWrite off p)) /\
    forall k lr, erm_view index' k = Some lr -> lr_zero lr = true -> erm_view index k = Some lr.
Proof.
  intros Hok Ho Hlim Hfb. pose proof (len_nonneg p). pose proof (len_nonneg a). pose proof (len_nonneg c).
  destruct (index_add_record index fb bv (op_view bv (LWrite off p)) off (len p)
    (MkLogRecord (len a) off (len p) false)) as (index' & E & Hi & Hv); [done|lia|lia|lia| | |].
  - intros k Hk. split; cbn; [lia|done|]. intros _. rewrite Hfb, !len_app. split; [lia|]. split; [lia|].
    rewrite bool_decide_true by lia. rewrite lookup_app_r by (unfold len in *; lia).
    rewrite lookup_app_l by (unfold len in *; lia). f_equal. unfold len in *. lia.
  - intros k Hk. cbn. by rewrite bool_decide_false.
  - exists index'. split; [done|]. split; [done|]. intros k lr. rewrite Hv. unfold view_add.
    case_bool_decide; [|done]. by intros [= <-].
Qed.

Lemma index_add_trim index fb bv off n :
  index_ok index fb bv -> 0 <= off -> 0 <= n -> off + n < 2 ^ 63 ->
  exists index', erm_Add index off n (MkLogRecord 0 off n true) = Ret index' /\
    index_ok index' fb (op_view bv (LTrim off n)).
Proof.
  intros Hok Ho Hn Hlim. destruct (index_add_record index fb bv (op_view bv (LTrim off n)) off n
    (MkLogRecord 0 off n true)) as (index' & E & Hi & Hv); [done|lia|lia|lia| | |by eauto].
  - intros k Hk. split; cbn; [lia| |done]. intros _. by rewrite bool_decide_true by lia.
  - intros k Hk. cbn. by rewrite bool_decide_false.
Qed.
End index_updates.

(** ** The writer's invariant *)
Section writer_invariant.
Context {F : Type} `{!LogFile F} `{!LogFileLaws F} `{!WalCodec} `{!WalCodecLaws}.
Context {T : Type} `{!RadixTree item it_key T} `{!RadixTreeLaws item it_key T}.
Implicit Types (w : Writer T) (f : F) (ops : list log_op).

Record writer_ok (hb : bytes) (ops : list log_op) (w : Writer T) (f : F) : Prop := {
  wo_open : ww_open w = true;
  wo_once : ww_once w = Some None;
  wo_out : io_out f = log_bytes hb ops;
  wo_offset : ww_offset w = len (io_out f);
  wo_index : index_ok (ww_index w) (io_out f) (ops_view ops);
  wo_end : end_spec (ops_view ops) (ww_end w);
  wo_writes k lr : Forall is_write ops -> erm_view (ww_index w) k = Some lr -> lr_zero lr = false;
}.

(** The encoded header. *)
Definition header_buf (hb : bytes) : Prop :=
  wh_marshal wal_header = inl hb /\ len hb <= 44 /\ Forall is_byte hb /\ wh_unmarshal hb = inl wal_header.

Lemma header_buf_exists : exists hb, header_buf hb.
Proof.
  destruct (wh_roundtrip wal_header) as (hb & H1 & H2 & H3 & H4);
    [unfold wh_fits, wal_header, Header_CRC32IEEE; cbn; lia|]. by exists hb.
Qed.

Lemma header_buf_small hb : header_buf hb -> u32 (len hb) = len hb.
Proof. intros (_ & Hl & _). pose proof (len_nonneg hb). apply u32_small. lia. Qed.

Lemma writeHeader_new hb f :
  header_buf hb -> io_reliable f -> io_out f = [] ->
  exists w f', writeHeader (NewWriter : Writer T) f = (w, f', None) /\ writer_ok hb [] w f' /\ io_reliable f'.
Proof.
  intros Hhb Hrel Hout. unfold writeHeader. cbn [ww_once NewWriter ww_open negb].
  rewrite (proj1 Hhb), (header_buf_small hb Hhb).
  destruct (lf_WriteMany f _) as [[f' n] err] eqn:E.
  destruct (lf_WriteMany_ok _ _ _ _ _ E) as (Hn & Ho & Hall & Hr). destruct (Hr Hrel) as [-> Hrel'].
  specialize (Hall eq_refl). rewrite Hout, Hall in Ho. cbn [app] in Ho.
  assert (io_out f' = log_bytes hb []) as Hf'.
  { rewrite Ho. unfold log_bytes, log_header. cbn [fmap list_fmap mjoin list_join].
    rewrite !app_nil_r. rewrite take_ge; [done|]. unfold len. lia. }
  do 2 eexists. split; [reflexivity|]. split; [|done].
  split; cbn; [done|done|done| | |by left|intros k lr _; by rewrite erm_zero_view].
  - rewrite Hf', Hall. unfold log_bytes, log_header. cbn [mjoin list_join fmap list_fmap]. by rewrite !app_nil_r.
  - apply index_ok_zero.
Qed.

Lemma writeHeader_done hb ops w f : writer_ok hb ops w f -> writeHeader w f = (w, f, None).
Proof. intros Hok. unfold writeHeader. by rewrite (wo_once _ _ _ _ Hok). Qed.

Lemma ops_view_pos ops k : Forall op_ok ops -> is_Some (ops_view ops k) -> 0 <= k.
Proof.
  induction ops as [|op ops IH] using rev_ind; [by intros _ [? [=]]|].
  rewrite Forall_app, Forall_singleton. intros [Hops Hop]. rewrite ops_view_snoc.
  destruct op as [off p|off n]; cbn in *; case_bool_decide; lia || auto.
Qed.

Lemma max_end e x : (if e <? x then x else e) = Z.max e x.
Proof. destruct (Z.ltb_spec e x); lia. Qed.

Lemma trim_entry_ok off n :
  0 <= off < 2 ^ 64 -> 0 <= n < 2 ^ 64 ->
  exists e h, makeLogEntry entryTypeTrim off n [] = (e, h) /\ le_readOff e = 0 /\
              le_bytes e = trim_entry off n /\ le_Len e = len (trim_entry off n).
Proof.
  intros Ho Hn. do 2 eexists. split; [reflexivity|]. split; [done|].
  change (entryTypeTrim =? entryTypeData) with false. change (entryTypeTrim =? entryTypeTrim) with true.
  cbv iota. rewrite entry_word_eq by (unfold entryTypeTrim, entryBaseSize; lia).
  rewrite !u64_small by lia. change (0 <? len []) with false. cbv iota.
  unfold le_Len, le_headerSize, le_bytes. cbn [le_headerBuf le_data]. rewrite app_nil_r, Z.add_0_r.
  unfold trim_entry, trim_body. change (entryBaseSize + (8 + 8)) with 24. by rewrite <- !app_assoc.
Qed.

(** One operation on the writer. *)
Definition run_op w f (op : log_op) : outcome (Writer T * F * option error) :=
  match op with
  | LWrite off p => r ← ww_WriteAt w f p off; let '(w, f, _, err) := r in Ret (w, f, err)
  | LTrim off n => ww_Trim w f off n
  end.

Fixpoint run_ops w f ops : outcome (Writer T * F * option error) :=
  match ops with
  | [] => Ret (w, f, None)
  | op :: ops =>
      r ← run_op w f op;
      let '(w, f, err) := r in
      match err with Some err => Ret (w, f, Some err) | None => run_ops w f ops end
  end.

(** The state after an entry was written and recorded. *)
Lemma writer_ok_next hb ops w f op f' index :
  writer_ok hb ops w f -> Forall op_ok ops -> op_ok op -> wrote f (op_entry op) f' None ->
  index_ok index (io_out f') (op_view (ops_view ops) op) ->
  (is_write op -> forall k lr, erm_view index k = Some lr -> lr_zero lr = true -> erm_view (ww_index w) k = Some lr) ->
  writer_ok hb (ops ++ [op])
    (MkWriter (ww_open w) (ww_offset w + len (op_entry op))
       (if ww_end w <? op_end op then op_end op else ww_end w) (ww_once w) index) f'.
Proof.
  intros [Hopen Honce Hout Hoff Hidx Hend Hwr] Hops Hop Hw Hi Hz. pose proof (wrote_all _ _ _ Hw) as Hout'.
  split; cbn [ww_open ww_once ww_offset ww_index ww_end]; [done|done| | | | |].
  - by rewrite log_bytes_snoc, Hout', Hout.
  - by rewrite Hout', len_app, Hoff.
  - eapply index_ok_ext; [|exact Hi]. intros k. by rewrite ops_view_snoc.
  - rewrite max_end. eapply end_spec_ext; [|by apply op_end_spec; [|exact Hend]].
    intros k. apply ops_view_snoc.
  - intros k lr [Hwrs Hwo]%Forall_app E. rewrite Forall_singleton in Hwo.
    destruct (lr_zero lr) eqn:Ez; [|done]. specialize (Hz Hwo k lr E Ez). by rewrite (Hwr k lr Hwrs Hz) in Ez.
Qed.

Lemma index_ok_wrote hb ops w f op f' :
  writer_ok hb ops w f -> wrote f (op_entry op) f' None -> index_ok (ww_index w) (io_out f') (ops_view ops).
Proof. intros Hok Hw. rewrite (wrote_all _ _ _ Hw). apply index_ok_mono, (wo_index _ _ _ _ Hok). Qed.

(** An operation on a writer that has written its header either fails, and
    leaves the writer as it was with a prefix of the entry in the file, or
    succeeds and keeps the invariant. *)
Definition op_result hb ops w f (op : log_op) : Prop :=
  exists w' f' err, run_op w f op = Ret (w', f', err) /\ wrote f (op_entry op) f' err /\
    match err with Some _ => w' = w | None => writer_ok hb (ops ++ [op]) w' f' end.

Lemma write_step hb ops w f off p :
  writer_ok hb ops w f -> Forall op_ok ops -> op_ok (LWrite off p) -> op_result hb ops w f (LWrite off p).
Proof.
  intros Hok Hops Hop. pose proof Hop as (Ho & [Hp Hmax] & Hlim & Hbytes).
  unfold op_result. cbn [run_op]. unfold ww_WriteAt.
  rewrite (proj2 (Z.eqb_neq _ 0)), (proj2 (Z.ltb_ge _ _)) by lia.
  rewrite (writeHeader_done hb ops) by done. cbv iota.
  destruct (makeLogEntry_data off p) as (e & -> & Hro & Hb & Hl); [lia|lia|].
  rewrite (wo_open _ _ _ _ Hok). cbn [negb].
  destruct (writeLogEntry_ok lf_rf e f Hro) as (f' & err & -> & Hw). rewrite Hb in Hw. cbn [mbind outcome_bind].
  destruct err as [err|]; [do 3 eexists; split; [reflexivity|by split]|]. pose proof (wrote_all _ _ _ Hw) as Hout'.
  assert (Hcut : io_out f' = (io_out f ++ le_put 4 (data_crc off p) ++ data_body off p) ++ p ++ []).
  { rewrite Hout'. unfold data_entry. by rewrite app_nil_r, <- !app_assoc. }
  pose proof (index_ok_wrote hb ops w f (LWrite off p) f' Hok Hw) as Hidx.
  destruct (index_add_data _ _ _ off _ p [] Hidx Ho Hlim Hcut) as (index & Ei & Hi & Hz).
  rewrite !len_app, len_le_put, len_data_body, <- (wo_offset _ _ _ _ Hok) in Ei. rewrite u64_small by lia.
  change (ww_offset w + (Z.of_nat 4 + 12)) with (ww_offset w + 16) in Ei. rewrite Ei. cbn [mbind outcome_bind].
  pose proof (writer_ok_next hb ops w f (LWrite off p) f' index Hok Hops Hop Hw Hi (fun _ => Hz)) as Hnext.
  cbn [op_entry op_end] in Hnext. rewrite len_data_entry, <- Hl in Hnext. rewrite (wo_open _ _ _ _ Hok) in Hnext.
  do 3 eexists. split; [done|]. by split.
Qed.

Lemma trim_step hb ops w f off n :
  writer_ok hb ops w f -> Forall op_ok ops -> op_ok (LTrim off n) -> op_result hb ops w f (LTrim off n).
Proof.
  intros Hok Hops Hop. pose proof Hop as (Ho & Hn & Hlim). unfold op_result. cbn [run_op]. unfold ww_Trim.
  rewrite (proj2 (Z.eqb_neq _ 0)) by lia. rewrite (writeHeader_done hb ops) by done. cbv iota.
  destruct (trim_entry_ok off n) as (e & h & -> & Hro & Hb & Hl); [lia|lia|].
  rewrite (wo_open _ _ _ _ Hok). cbn [negb].
  destruct (writeLogEntry_ok lf_rf e f Hro) as (f' & err & -> & Hw). rewrite Hb in Hw. cbn [mbind outcome_bind].
  destruct err as [err|]; [do 3 eexists; split; [reflexivity|by split]|].
  pose proof (index_ok_wrote hb ops w f (LTrim off n) f' Hok Hw) as Hidx.
  destruct (index_add_trim _ _ _ off n Hidx Ho ltac:(lia) Hlim) as (index & Ei & Hi).
  rewrite !u64_small by lia. rewrite Ei. cbn [mbind outcome_bind].
  pose proof (writer_ok_next hb ops w f (LTrim off n) f' index Hok Hops Hop Hw Hi (fun H => match H with end)) as Hnext.
  cbn [op_entry op_end] in Hnext. rewrite <- Hl, (wo_open _ _ _ _ Hok) in Hnext.
  do 3 eexists. split; [done|]. by split.
Qed.

Lemma op_step hb ops w f op :
  writer_ok hb ops w f -> Forall op_ok ops -> op_ok op -> op_result hb ops w f op.
Proof. destruct op; [apply write_step|apply trim_step]. Qed.

(** On a file that does not fail, a sequence of operations succeeds. *)
Lemma run_ops_ok hb ops0 ops w f :
  writer_ok hb ops0 w f -> io_reliable f -> Forall op_ok ops0 -> Forall op_ok ops ->
  exists w' f', run_ops w f ops = Ret (w', f', None) /\ writer_ok hb (ops0 ++ ops) w' f' /\ io_reliable f'.
Proof.
  intros Hok Hrel Hops0 Hops. revert ops0 w f Hok Hrel Hops0. induction Hops as [|op ops Hop Hops IH];
    intros ops0 w f Hok Hrel Hops0; [rewrite app_nil_r; cbn; eauto|].
  destruct (op_step hb ops0 w f op Hok Hops0 Hop) as (w1 & f1 & err & E & Hw & Hres). cbn [run_ops]. rewrite E.
  destruct (wr_rel _ _ _ _ Hw Hrel) as [-> Hrel1]. cbn [mbind outcome_bind].
  destruct (IH (ops0 ++ [op]) w1 f1) as (w2 & f2 & E2 & Hok2 & Hrel2); [done|done| |].
  { rewrite Forall_app. by rewrite Forall_singleton. }
  rewrite <- app_assoc in Hok2. eauto.
Qed.

(** The first operation also writes the header. *)
Lemma run_op_new hb f op :
  header_buf hb -> io_reliable f -> io_out f = [] -> op_ok op ->
  exists w f', run_op (NewWriter : Writer T) f op = Ret (w, f', None) /\ writer_ok hb [op] w f' /\ io_reliable f'.
Proof.
  intros Hhb Hrel Hout Hop. destruct (writeHeader_new hb f Hhb Hrel Hout) as (w1 & f1 & E1 & Hok1 & Hrel1).
  assert (run_op (NewWriter : Writer T) f op = run_op w1 f1 op) as ->.
  { destruct op as [off p|off n]; cbn [run_op op_ok] in *; [unfold ww_WriteAt|unfold ww_Trim];
      rewrite E1, (writeHeader_done hb []) by done.
    - rewrite (proj2 (Z.eqb_neq _ 0)), (proj2 (Z.ltb_ge _ _)) by lia. done.
    - by rewrite (proj2 (Z.eqb_neq _ 0)) by lia. }
  destruct (op_step hb [] w1 f1 op Hok1) as (w2 & f2 & err & E & Hw & Hres); [constructor|done|].
  destruct (wr_rel _ _ _ _ Hw Hrel1) as [-> Hrel2]. eauto.
Qed.

Lemma run_ops_new hb f op ops :
  header_buf hb -> io_reliable f -> io_out f = [] -> Forall op_ok (op :: ops) ->
  exists w f', run_ops (NewWriter : Writer T) f (op :: ops) = Ret (w, f', None) /\
    writer_ok hb (op :: ops) w f' /\ io_reliable f'.
Proof.
  intros Hhb Hrel Hout [Hop Hops]%Forall_cons.
  destruct (run_op_new hb f op Hhb Hrel Hout Hop) as (w1 & f1 & E1 & Hok1 & Hrel1).
  cbn [run_ops]. rewrite E1. cbn [mbind outcome_bind].
  by apply (run_ops_ok hb [op] ops w1 f1 Hok1 Hrel1); [rewrite Forall_singleton|].
Qed.

(** An index over a file is a reader of the contents, and so is a writer that
    satisfies its invariant. *)
Lemma index_reads w f bv :
  index_ok (ww_index w) (io_out f) bv -> end_spec bv (ww_end w) -> log_reader_ok (NewReadableLog f w) bv.
Proof.
  intros Hidx Hend. split; cbn [ReadAt NextData NextHole readable_log].
  - intros off Hoff. destruct (wal_NextData_ok (ww_index w) (io_out f) bv Hidx off Hoff) as (k & Hk & E).
    exists k. split; [done|]. cbn [rl_logWriter]. rewrite E. destruct k; eauto.
  - intros off Hoff. apply (wal_NextHole_ok _ _ _ Hidx off Hoff).
  - intros p off Hoff Hlim. exists (ww_end w). eexists. split; [done|]. split; [reflexivity|].
    unfold rl_ReadAt, wal_ReadAt. cbn [rl_logFile rl_logWriter].
    erewrite (wal_read_loop_ok (ww_index w) (lf_ReadAt f) (io_out f) bv Hidx) with (e := ww_end w);
      [done|intros; apply lf_ReadAt_ok|lia|lia|lia|done|reflexivity].
Qed.

Lemma writer_reads hb ops w f : writer_ok hb ops w f -> log_reader_ok (NewReadableLog f w) (ops_view ops).
Proof. intros [_ _ _ _ Hidx Hend _]. by apply index_reads. Qed.
End writer_invariant.
