(* ===== verification/WalReader.v ===== *)
(** * Reading a log back

    [internal/wal/reader.go]: [NewReader] reads the header of a log and then
    either the index a closed log ends with or, when there is none, the entries
    one by one up to the first that is incomplete or damaged. It returns the
    reader it has built also with an error. *)
From S2P Require Import Prelude Radix RangeMap ExtentRangeMap BlockReader GoStd Adaptor.
From S2P Require Import WalIndex WalFormat WalWriter.
Local Open Scope Z_scope.

Definition readBufSize : Z := 64 * 1024.

(** ** [util.SimpleReaderAtReader]

    [NewReader] and [readIndex] read the log through a [bufio.Reader]; that of
    [NewReader] is filled by a [SimpleReaderAtReader]. It delivers the bytes of the
    file from its offset on, in order and without gaps, whatever sizes it is read
    with ([simple_reader_stream]), so that the functions below take the bytes that
    are left to read. *)
Record SimpleReaderAtReader := NewSimpleReaderAtReader { sra_r : file; sra_off : Z }.

Definition sra_Read (r : SimpleReaderAtReader) (b : bytes) : SimpleReaderAtReader * bytes * Z * option error :=
  let '(b, n, err) := file_ReadAt (sra_r r) b (sra_off r) in
  (if 0 <? n then NewSimpleReaderAtReader (sra_r r) (sra_off r + n) else r, b, n, err).

Definition sra_rest (r : SimpleReaderAtReader) : bytes := drop (Z.to_nat (sra_off r)) (f_bytes (sra_r r)).

(** The results of reads with buffers of the given sizes, up to an error. *)
Fixpoint sra_reads (r : SimpleReaderAtReader) (sizes : list Z) : SimpleReaderAtReader * bytes * option error :=
  match sizes with
  | [] => (r, [], None)
  | k :: sizes =>
      let '(r, b, n, err) := sra_Read r (zeros k) in
      match err with
      | Some err => (r, take (Z.to_nat n) b, Some err)
      | None => let '(r, c, err) := sra_reads r sizes in (r, take (Z.to_nat n) b ++ c, err)
      end
  end.

Lemma sra_Read_ok r b :
  0 <= sra_off r ->
  let '(r', b', n, err) := sra_Read r b in
  sra_rest r = take (Z.to_nat n) b' ++ sra_rest r' /\ 0 <= sra_off r' /\ (err = None -> n = len b) /\
  (forall e, err = Some e -> e = EOF /\ sra_rest r' = []).
Proof.
  intros Ho. unfold sra_Read, file_ReadAt. fold (sra_rest r). set (n := Z.min (len b) (len (sra_rest r))).
  pose proof (len_nonneg b). pose proof (len_nonneg (sra_rest r)).
  set (r' := if 0 <? n then _ else r).
  assert (Hr : sra_rest r' = drop (Z.to_nat n) (sra_rest r) /\ 0 <= sra_off r').
  { unfold r'. destruct (Z.ltb_spec 0 n) as [Hn|Hn].
    - unfold sra_rest. cbn [sra_r sra_off]. rewrite drop_drop, Z2Nat.inj_add by lia. split; [done|lia].
    - replace n with 0 by lia. by rewrite drop_0. }
  destruct Hr as [Hr Ho']. rewrite Hr. split; [|split; [done|]].
  - rewrite take_app_le by (rewrite length_take; unfold len in *; lia).
    rewrite take_take, Nat.min_id. symmetry. apply take_drop.
  - assert (Hend : len (sra_rest r) <= n -> drop (Z.to_nat n) (sra_rest r) = []).
    { intros. apply drop_ge. unfold len in *. lia. }
    destruct (Z.ltb_spec n (len b)) as [Hlt|Hle]; [split; [done|]; intros e [= <-]; split; [done|apply Hend; lia]|].
    destruct (f_eager _ && _) eqn:Ee; [|split; [lia|done]].
    split; [done|]. intros e [= <-]. split; [done|]. apply Hend. apply andb_true_iff in Ee as [_ Ee%Z.eqb_eq].
    unfold sra_rest, len in *. rewrite length_drop in *. lia.
Qed.

Lemma simple_reader_stream r sizes :
  0 <= sra_off r ->
  let '(r', b, err) := sra_reads r sizes in
  sra_rest r = b ++ sra_rest r' /\ (forall e, err = Some e -> e = EOF /\ sra_rest r' = []).
Proof.
  revert r. induction sizes as [|k sizes IH]; intros r Ho; cbn [sra_reads]; [done|].
  pose proof (sra_Read_ok r (zeros k) Ho) as Hrd. destruct (sra_Read r (zeros k)) as [[[r1 b] n] [e|]].
  - destruct Hrd as (H1' & _ & _ & He). done.
  - destruct Hrd as (H1' & Ho1 & _). specialize (IH r1 Ho1). destruct (sra_reads r1 sizes) as [[r2 c] err].
    destruct IH as [H2' He]. split; [|done]. rewrite H1', H2'. by rewrite app_assoc.
Qed.

Section reader.
Context `{!WalCodec} {T : Type} `{!RadixTree item it_key T}.

Record Reader := MkWalReader {
  wrd_ra : file;
  wrd_end : Z;
  wrd_header : WalHeader;
  wrd_index : ExtentRangeMap logRecord T;
}.

(** [readHeader]: the bytes read, the bytes that remain, the header. *)
Definition readHeader (src : bytes) (header : WalHeader) : Z * bytes * WalHeader * option error :=
  let '(magicBuf, err) := br_Peek readBufSize src (len HeaderMagic) in
  match err with
  | Some err => (0, src, header, Some err)
  | None =>
      if negb (bool_decide (magicBuf = HeaderMagic)) then (0, src, header, Some ErrInvalidMagic)
      else
        let src := br_Discard src (len HeaderMagic) in
        let n := len HeaderMagic in
        let '(sizeBuf, err) := br_Peek readBufSize src 4 in
        match err with
        | Some err => (n, src, header, Some err)
        | None =>
            let headerSize := le_get sizeBuf in
            let src := br_Discard src 4 in
            let n := n + 4 in
            let '(headerBuf, err) := br_Peek readBufSize src headerSize in
            match err with
            | Some err => (n, src, header, Some err)
            | None =>
                let src := br_Discard src headerSize in
                match wh_unmarshal headerBuf with
                | inl header => (n + headerSize, src, header, None)
                | inr err => (n + headerSize, src, header, Some err)
                end
            end
        end
  end.

(** The loop of [readIndex] over the entries of the index. Every iteration
    consumes the byte of a varint. *)
Fixpoint index_loop (fuel : nat) (br : bytes) (index : ExtentRangeMap logRecord T) (end_ : Z) :
    outcome (ExtentRangeMap logRecord T * Z * option error) :=
  match fuel with
  | O => OutOfFuel
  | S fuel =>
      let '(entrySize, br, err) := ReadUvarint br in
      match err with
      | Some EOF => Ret (index, end_, None)
      | Some err => Ret (index, end_, Some err)
      | None =>
          let '(entryBuf, err) := br_Peek readBufSize br (i64 entrySize) in
          match err with
          | Some err => Ret (index, end_, Some err)
          | None =>
              let br := br_Discard br (i64 entrySize) in
              match xe_unmarshal entryBuf with
              | inr err => Ret (index, end_, Some err)
              | inl entryPb =>
                  match xe_Type entryPb with
                  | IndexEntry_WRITE =>
                      let eOffset := i64 (xe_Offset entryPb) in
                      let eLength := i64 (xe_Length entryPb) in
                      index ← erm_Add index (u64 eOffset) (u64 eLength)
                                (MkLogRecord (i64 (xe_LogOffset entryPb)) eOffset eLength false);
                      index_loop fuel br index
                        (if end_ <? eOffset + eLength then eOffset + eLength else end_)
                  | IndexEntry_TRIM => Ret (index, end_, Some errInvalidIndex)
                  | IndexEntry_INVALID => Ret (index, end_, Some errInvalidIndex)
                  end
              end
          end
      end
  end.

(** [readIndex]. A file rejects a read at a negative offset. The CRC covers the
    whole section, which the loop reads to its end. *)
Definition readIndex (r : Reader) (size : Z) : outcome (Reader * option error) :=
  if size - 16 <? 0 then Ret (r, Some ErrIO) else
  let '(footerEnd, _, err) := file_ReadAt (wrd_ra r) (zeros 16) (size - 16) in
  match err with
  | Some err => Ret (r, Some err)
  | None =>
      if negb (bool_decide (drop 8 footerEnd = FooterMagic)) then Ret (r, Some errInvalidIndex)
      else
        let footerSize := le_get (take 4 footerEnd) in
        let crc := le_get (take 4 (drop 4 footerEnd)) in
        let off := size - 16 - footerSize in
        if off <? 0 then Ret (r, Some errInvalidIndex)
        else
          let section := take (Z.to_nat footerSize) (drop (Z.to_nat off) (f_bytes (wrd_ra r))) in
          st ← index_loop (S (length section)) section (wrd_index r) 0;
          let '(index, end_, err) := st in
          let r' := MkWalReader (wrd_ra r) (wrd_end r) (wrd_header r) index in
          match err with
          | Some err => Ret (r', Some err)
          | None =>
              if negb (crc_sum (crc_write crc_new section) =? crc) then Ret (r', Some errInvalidIndex)
              else Ret (MkWalReader (wrd_ra r) end_ (wrd_header r) index, None)
          end
  end.

(** The inner loop of [NewReader] adds the rest of an entry to the CRC. *)
Fixpoint crc_loop (fuel : nat) (src : bytes) (copyBytes crc : Z) : outcome (bytes * Z * option error) :=
  match fuel with
  | O => OutOfFuel
  | S fuel =>
      if 0 <? copyBytes then
        let peekBytes := if readBufSize <? copyBytes then readBufSize else copyBytes in
        let '(buf, err) := br_Peek readBufSize src peekBytes in
        match err with
        | Some EOF => Ret (src, crc, Some ErrUnexpectedEOF)
        | Some err => Ret (src, crc, Some err)
        | None => crc_loop fuel (br_Discard src peekBytes) (copyBytes - peekBytes) (crc_write crc buf)
        end
      else Ret (src, crc, None)
  end.

(** The loop [loadLoop]. Every iteration consumes the base of an entry. *)
Fixpoint load_loop (fuel : nat) (src : bytes) (logOff : Z) (index : ExtentRangeMap logRecord T) (end_ : Z) :
    outcome (ExtentRangeMap logRecord T * Z * option error) :=
  match fuel with
  | O => OutOfFuel
  | S fuel =>
      let '(entry, err) := br_Peek readBufSize src entryBaseSize in
      match err with
      | Some EOF => Ret (index, end_, if len entry =? 0 then None else Some ErrUnexpectedEOF)
      | Some err => Ret (index, end_, Some err)
      | None =>
          let sum := crc_write crc_new (drop 4 entry) in
          let pType := default 0 (entry !! 7%nat) in
          let entry := <[7%nat := 0]> entry in
          let packetSize := le_get (drop 4 entry) in
          let crc := le_get (take 4 entry) in
          let src := br_Discard src entryBaseSize in
          let '(buf, err) := if pType =? entryTypeData then br_Peek readBufSize src 8 else ([], None) in
          match err with
          | Some err => Ret (index, end_, Some err)
          | None =>
              let dOffset := i64 (le_get buf) in
              let dLength := packetSize - entryBaseSize - 8 in
              if pType =? entryTypeTrim then Panic
              else if pType =? entryTypeFooter then Ret (index, end_, None)
              else
                r ← crc_loop (S (length src)) src (u32 (packetSize - entryBaseSize)) sum;
                let '(src, sum, err) := r in
                match err with
                | Some err => Ret (index, end_, Some err)
                | None =>
                    if negb (crc_sum sum =? crc) then Ret (index, end_, Some ErrCorruptedLog)
                    else if pType =? entryTypeData then
                      index ← erm_Add index (u64 dOffset) (u64 dLength)
                                (MkLogRecord (logOff + 16) dOffset dLength false);
                      load_loop fuel src (logOff + packetSize) index
                        (if end_ <? dOffset + dLength then dOffset + dLength else end_)
                    else load_loop fuel src (logOff + packetSize) index end_
                end
          end
      end
  end.

Definition NewReader (ra : file) (size : Z) : outcome (Reader * option error) :=
  let header := MkWalHeader 0 0 0 0 in
  let src := f_bytes ra in
  let '(n, src, header, err) := readHeader src header in
  let r := MkWalReader ra 0 header erm_zero in
  match err with
  | Some err => Ret (r, Some (if bool_decide (err = EOF) then ErrUnexpectedEOF else err))
  | None =>
      ix ← (if 0 <? size then
              st ← readIndex r size;
              let '(r', err) := st in Ret (match err with None => Some r' | Some _ => None end)
            else Ret None);
      match ix with
      | Some r' => Ret (r', None)
      | None =>
          st ← load_loop (S (length src)) src n erm_zero 0;
          let '(index, end_, err) := st in
          Ret (MkWalReader ra end_ header index, err)
      end
  end.

Definition wrd_Size (r : Reader) : Z := wrd_end r.

Definition wrd_ReadAt (r : Reader) (b : bytes) (off : Z) : outcome (bytes * Z * option error) :=
  wal_ReadAt (wrd_index r) (file_ReadAt (wrd_ra r)) b off.

#[export] Instance wal_reader : HoleReaderAt Reader := {
  ReadAt := wrd_ReadAt;
  NextData r := wal_NextData (wrd_index r);
  NextHole r := wal_NextHole (wrd_index r);
}.
End reader.
Arguments Reader T : clear implicits.
