(* ===== verification/WalLoad.v ===== *)
(** * Scanning a log

    The loop of [NewReader] on the entries of a log: complete entries are added
    to the index, an entry cut off by the end of the file ends the scan. *)
From S2P Require Import Prelude Radix RangeMap ExtentRangeMap BlockReader GoStd Adaptor.
From S2P Require Import WalIndex WalFormat WalWriter WalLog WalReader.
Local Open Scope Z_scope.

(** ** The header *)
Lemma readHeader_ok `{!WalCodec} `{!WalCodecLaws} hb rest header :
  header_buf hb ->
  readHeader (log_header hb ++ rest) header = (len (log_header hb), rest, wal_header, None).
Proof.
  intros (_ & Hl & _ & Hu). pose proof (len_nonneg hb). unfold readHeader, log_header. rewrite <- !app_assoc.
  rewrite br_Peek_ok by (done || (change (len HeaderMagic) with 8; unfold readBufSize; lia)).
  rewrite bool_decide_true by done. cbn [negb]. rewrite br_Discard_app by done.
  rewrite br_Peek_ok by (rewrite ?len_le_put; done || (unfold readBufSize; lia)).
  rewrite br_Discard_app by (by rewrite len_le_put). rewrite le_get_put by lia.
  rewrite br_Peek_ok by (done || (unfold readBufSize; lia)). rewrite br_Discard_app, Hu by done.
  rewrite !len_app, len_le_put. change (Z.of_nat 4) with 4. by rewrite Z.add_assoc.
Qed.

(** ** The checksum loop *)
Lemma crc_loop_full fuel p rest crc :
  len p < Z.of_nat fuel -> crc_loop fuel (p ++ rest) (len p) crc = Ret (rest, crc_write crc p, None).
Proof.
  revert p crc. induction fuel as [|fuel IH]; intros p crc Hf; [pose proof (len_nonneg p); lia|].
  cbn [crc_loop]. pose proof (len_nonneg p). destruct (Z.ltb_spec 0 (len p)) as [Hp|Hp].
  - remember (if readBufSize <? len p then readBufSize else len p) as k eqn:Hk.
    assert (0 < k <= readBufSize /\ k <= len p) as [Hk1 Hk2]
      by (destruct (Z.ltb_spec readBufSize (len p)); unfold readBufSize in *; lia).
    assert (p ++ rest = take (Z.to_nat k) p ++ (drop (Z.to_nat k) p ++ rest)) as ->
      by (by rewrite app_assoc, take_drop).
    rewrite br_Peek_ok by (rewrite ?len_take; lia). rewrite br_Discard_app by (rewrite len_take; lia).
    replace (len p - k) with (len (drop (Z.to_nat k) p)) by (rewrite len_drop; lia).
    rewrite IH by (rewrite len_drop; lia). by rewrite <- crc_write_app, take_drop.
  - assert (p = []) as -> by (apply len_0_nil; lia). done.
Qed.

Lemma crc_loop_short fuel src n crc :
  len src < n -> len src < Z.of_nat fuel ->
  exists src' crc', crc_loop fuel src n crc = Ret (src', crc', Some ErrUnexpectedEOF).
Proof.
  revert src n crc. induction fuel as [|fuel IH]; intros src n crc Hn Hf; [pose proof (len_nonneg src); lia|].
  cbn [crc_loop]. pose proof (len_nonneg src). rewrite (proj2 (Z.ltb_lt 0 n)) by lia.
  remember (if readBufSize <? n then readBufSize else n) as k eqn:Hk.
  assert (0 < k <= readBufSize /\ k <= n) as [Hk1 Hk2]
    by (destruct (Z.ltb_spec readBufSize n); unfold readBufSize in *; lia).
  destruct (Z.lt_ge_cases (len src) k) as [Hs|Hs]; [rewrite br_Peek_short by lia; eauto|].
  rewrite <- (take_drop (Z.to_nat k) src). rewrite br_Peek_ok by (rewrite ?len_take; lia).
  rewrite br_Discard_app by (rewrite len_take; lia). apply IH; rewrite len_drop; lia.
Qed.

(** ** One entry *)

(** The base of a data entry: CRC, size and type. *)
Definition data_base (off : Z) (p : bytes) : bytes :=
  le_put 4 (data_crc off p) ++ le_put 3 (16 + len p) ++ [0].

Lemma data_entry_split off p : data_entry off p = data_base off p ++ le_put 8 off ++ p.
Proof. unfold data_entry, data_base, data_body. by rewrite <- !app_assoc. Qed.

Lemma len_data_base off p : len (data_base off p) = 8.
Proof. unfold data_base. rewrite !len_app, !len_le_put. done. Qed.

(** What the loop reads from the base. *)
Lemma data_base_fields off p :
  op_ok (LWrite off p) ->
  drop 4 (data_base off p) = le_put 3 (16 + len p) ++ [0] /\
  default 0 (data_base off p !! 7%nat) = entryTypeData /\
  le_get (drop 4 (<[7%nat := 0]> (data_base off p))) = 16 + len p /\
  le_get (take 4 (<[7%nat := 0]> (data_base off p))) = data_crc off p.
Proof.
  intros (Ho & [Hp Hmax] & Hlim & Hb). change MaxWriteSize with (2 ^ 22) in Hmax.
  pose proof (data_crc_bound off p Hb) as Hcrc.
  assert (H7 : data_base off p !! 7%nat = Some 0).
  { unfold data_base. rewrite lookup_app_r by (by rewrite length_le_put; lia).
    rewrite length_le_put. rewrite lookup_app_r by (rewrite length_le_put; lia). by rewrite length_le_put. }
  assert (Hd : drop 4 (data_base off p) = le_put 3 (16 + len p) ++ [0]).
  { unfold data_base. apply drop_app_length'. by rewrite length_le_put. }
  rewrite list_insert_id by done. split; [done|]. rewrite H7. split; [done|]. rewrite Hd.
  rewrite le_get_put_app by (change (8 * Z.of_nat 3) with 24; lia). split; [change (le_get [0]) with 0; lia|].
  unfold data_base. rewrite take_app_length' by (by rewrite length_le_put). apply le_get_put. lia.
Qed.

Section scanning.
Context {T : Type} `{!RadixTree item it_key T} `{!RadixTreeLaws item it_key T}.
Implicit Types (index : ExtentRangeMap logRecord T).

(** A complete entry is added to the index. *)
Lemma load_entry fuel off p rest logOff index end_ :
  op_ok (LWrite off p) ->
  load_loop (S fuel) (data_entry off p ++ rest) logOff index end_ =
  (index' ← erm_Add index off (len p) (MkLogRecord (logOff + 16) off (len p) false);
   load_loop fuel rest (logOff + (16 + len p)) index'
     (if end_ <? off + len p then off + len p else end_)).
Proof.
  intros Hop. destruct (data_base_fields off p Hop) as (Hd & Ht & Hs & Hc).
  destruct Hop as (Ho & [Hp Hmax] & Hlim & Hb). change MaxWriteSize with (2 ^ 22) in Hmax.
  cbn [load_loop]. rewrite data_entry_split, <- !app_assoc.
  rewrite br_Peek_ok by (rewrite ?len_data_base; done || (unfold readBufSize, entryBaseSize; lia)).
  rewrite Hd, Ht, Hs, Hc. rewrite br_Discard_app by (by rewrite len_data_base).
  change (entryTypeData =? entryTypeData) with true. change (entryTypeData =? entryTypeTrim) with false.
  change (entryTypeData =? entryTypeFooter) with false. cbv iota.
  rewrite br_Peek_ok by (rewrite ?len_le_put; done || (unfold readBufSize; lia)).
  rewrite le_get_put by lia. unfold entryBaseSize. replace (16 + len p - 8) with (8 + len p) by lia.
  replace (8 + len p - 8) with (len p) by lia. rewrite u32_small by lia.
  assert (8 + len p = len (le_put 8 off ++ p)) as Hl by (rewrite len_app, len_le_put; lia).
  rewrite (app_assoc (le_put 8 off)). rewrite Hl, crc_loop_full
    by (rewrite length_app; unfold len; lia).
  cbn [mbind outcome_bind]. rewrite <- crc_write_app.
  assert (crc_sum (crc_write crc_new ((le_put 3 (16 + len p) ++ [0]) ++ le_put 8 off ++ p)) = data_crc off p) as ->.
  { unfold data_crc, data_body. by rewrite <- !app_assoc. }
  rewrite Z.eqb_refl. cbn [negb]. rewrite i64_small by lia. rewrite !u64_small by lia. done.
Qed.

(** The end of the file ends the scan. *)
Lemma load_end fuel logOff index end_ : load_loop (S fuel) [] logOff index end_ = Ret (index, end_, None).
Proof. done. Qed.

(** An entry cut off by the end of the file ends the scan, with an error that
    depends on where it is cut. *)
Definition torn_error (n : Z) : option error :=
  if n =? 0 then None
  else if (8 <=? n) && (n <? 16) then Some EOF else Some ErrUnexpectedEOF.

Lemma load_torn fuel off p n logOff index end_ :
  op_ok (LWrite off p) -> 0 <= n < len (data_entry off p) ->
  load_loop (S fuel) (take (Z.to_nat n) (data_entry off p)) logOff index end_ =
  Ret (index, end_, torn_error n).
Proof.
  intros Hop Hn. destruct (data_base_fields off p Hop) as (Hd & Ht & Hs & Hc).
  destruct Hop as (Ho & [Hp Hmax] & Hlim & Hb). change MaxWriteSize with (2 ^ 22) in Hmax.
  assert (Hl : len (take (Z.to_nat n) (data_entry off p)) = n) by (apply len_take; lia).
  rewrite len_data_entry in Hn. unfold torn_error. cbn [load_loop].
  destruct (Z.lt_ge_cases n 8) as [H8|H8].
  - rewrite br_Peek_short by (unfold entryBaseSize, readBufSize; lia). rewrite Hl.
    rewrite (proj2 (Z.leb_gt 8 n)) by lia. by destruct (n =? 0).
  - rewrite (proj2 (Z.eqb_neq n 0)), (proj2 (Z.leb_le 8 n)) by lia. rewrite data_entry_split in *.
    assert (take (Z.to_nat n) (data_base off p ++ le_put 8 off ++ p) =
            data_base off p ++ take (Z.to_nat (n - 8)) (le_put 8 off ++ p)) as ->.
    { pose proof (len_data_base off p) as Hb8. unfold len in Hb8. rewrite take_app_ge by lia.
      do 2 f_equal. lia. }
    rewrite br_Peek_ok by (rewrite ?len_data_base; done || (unfold readBufSize, entryBaseSize; lia)).
    rewrite Hd, Ht, Hs, Hc. rewrite br_Discard_app by (by rewrite len_data_base).
    change (entryTypeData =? entryTypeData) with true. change (entryTypeData =? entryTypeTrim) with false.
    change (entryTypeData =? entryTypeFooter) with false. cbv iota.
    assert (len (take (Z.to_nat (n - 8)) (le_put 8 off ++ p)) = n - 8) as Hl8
      by (apply len_take; rewrite len_app, len_le_put; lia).
    destruct (Z.ltb_spec n 16) as [H16|H16]; cbn [andb].
    + by rewrite br_Peek_short by (unfold readBufSize; lia).
    + assert (take (Z.to_nat (n - 8)) (le_put 8 off ++ p) = le_put 8 off ++ take (Z.to_nat (n - 16)) p) as Hcut.
      { rewrite take_app_ge by (rewrite length_le_put; lia). rewrite length_le_put. do 2 f_equal. lia. }
      rewrite Hcut in *. rewrite br_Peek_ok by (rewrite ?len_le_put; done || (unfold readBufSize; lia)).
      unfold entryBaseSize. replace (16 + len p - 8) with (8 + len p) by lia. rewrite u32_small by lia.
      destruct (crc_loop_short (S (length (le_put 8 off ++ take (Z.to_nat (n - 16)) p)))
        (le_put 8 off ++ take (Z.to_nat (n - 16)) p) (8 + len p)
        (crc_write crc_new (le_put 3 (16 + len p) ++ [0]))) as (? & ? & ->); [lia|unfold len; lia|done].
Qed.

(** ** A sequence of entries *)
Lemma load_entries fuel hb fb ops0 ops tail index end_ :
  Forall op_ok (ops0 ++ ops) -> Forall is_write ops ->
  fb = log_bytes hb (ops0 ++ ops) ++ tail ->
  index_ok index fb (ops_view ops0) -> end_spec (ops_view ops0) end_ -> (length ops <= fuel)%nat ->
  exists index' end', index_ok index' fb (ops_view (ops0 ++ ops)) /\ end_spec (ops_view (ops0 ++ ops)) end' /\
    load_loop fuel (mjoin (op_entry <$> ops) ++ tail) (len (log_bytes hb ops0)) index end_ =
    load_loop (fuel - length ops) tail (len (log_bytes hb (ops0 ++ ops))) index' end'.
Proof.
  intros Hok Hwr Hfb. revert fuel ops0 index end_ Hok Hfb.
  induction Hwr as [|op ops Hop Hwr IH]; intros fuel ops0 index end_ Hok Hfb Hidx Hend Hf.
  { rewrite app_nil_r in *. exists index, end_. split; [done|]. split; [done|]. by rewrite Nat.sub_0_r. }
  destruct op as [off p|]; [|done]. pose proof Hok as [Hok0 [Hopk Hoks]%Forall_cons]%Forall_app.
  destruct fuel as [|fuel]; [cbn in Hf; lia|]. cbn [fmap list_fmap mjoin list_join op_entry].
  rewrite <- app_assoc, load_entry by done. pose proof Hopk as (Ho & [Hp Hmax] & Hlim & Hb).
  assert (Hcut : fb = (log_bytes hb ops0 ++ le_put 4 (data_crc off p) ++ data_body off p) ++ p ++
                      (mjoin (op_entry <$> ops) ++ tail)).
  { rewrite Hfb. unfold log_bytes. rewrite fmap_app, join_app. cbn [fmap list_fmap mjoin list_join op_entry].
    unfold data_entry. by rewrite <- !app_assoc. }
  destruct (index_add_data index fb _ off _ p _ Hidx Ho Hlim Hcut) as (index1 & E1 & Hi1 & _).
  rewrite !len_app, len_le_put, len_data_body in E1.
  change (len (log_bytes hb ops0) + (Z.of_nat 4 + 12)) with (len (log_bytes hb ops0) + 16) in E1.
  rewrite E1. cbn [mbind outcome_bind]. rewrite (cons_middle _ ops0 ops) in *. rewrite app_assoc in *.
  rewrite max_end. destruct (IH fuel (ops0 ++ [LWrite off p]) index1 (Z.max end_ (off + len p))) as
    (index2 & end2 & Hi2 & He2 & E2); [done|done| | |cbn in Hf; lia|].
  - eapply index_ok_ext; [|exact Hi1]. intros k. by rewrite ops_view_snoc.
  - eapply end_spec_ext; [intros k; apply ops_view_snoc|].
    by apply (op_end_spec _ (LWrite off p)).
  - exists index2, end2. split; [done|]. split; [done|].
    rewrite log_bytes_snoc, len_app in E2. cbn [op_entry] in E2. rewrite len_data_entry in E2. exact E2.
Qed.
End scanning.
