(* ===== verification/WalClose.v ===== *)
(** * The index of a closed log

    [CloseWriter] writes one message per range of the index, and [readIndex]
    rebuilds from them an index of the same contents. *)
From S2P Require Import Prelude Radix RangeMap ExtentRangeMap BlockReader GoStd Adaptor.
From S2P Require Import WalIndex WalFormat WalWriter WalLog WalReader.
Local Open Scope Z_scope.

(** ** The bytes that closing adds *)
Definition footer_body : bytes := le_put 3 8 ++ [2].
Definition footer_entry : bytes := le_put 4 (crc_sum (crc_write crc_new footer_body)) ++ footer_body.

Lemma footer_entry_made : le_headerBuf (makeLogEntry entryTypeFooter 0 0 []).1 = footer_entry.
Proof. vm_compute. reflexivity. Qed.

(** The encoding of a range of the index. *)
Definition index_buf `{!WalCodec} (mr : RangeValue logRecord) : bytes :=
  match xe_marshal (index_entry mr) with
  | inl eb => AppendUvarint [] (len eb) ++ eb
  | inr _ => []
  end.

Definition index_section `{!WalCodec} (l : list (RangeValue logRecord)) : bytes := mjoin (index_buf <$> l).

Lemma index_section_cons `{!WalCodec} mr l : index_section (mr :: l) = index_buf mr ++ index_section l.
Proof. done. Qed.

Definition trailer (section : bytes) : bytes :=
  le_put 4 (len section) ++ le_put 4 (crc_sum (crc_write crc_new section)) ++ FooterMagic.

Lemma uvarint_put_bytes n x : Forall is_byte (uvarint_put n x).
Proof.
  revert x. induction n as [|n IH]; intros x; cbn [uvarint_put]; [repeat constructor; apply u8_byte|].
  destruct (x <? 128); [repeat constructor; apply u8_byte|]. constructor; [|apply IH].
  pose proof (u8_byte x) as Hb. unfold is_byte in *.
  assert (Z.lor (u8 x) 128 = Z.lor (u8 x) 128 mod 2 ^ 8) as ->; [|apply Z.mod_pos_bound; lia].
  apply Z.bits_inj'. intros i Hi. destruct (decide (i < 8)); [by rewrite Z.mod_pow2_bits_low by lia|].
  rewrite Z.mod_pow2_bits_high, Z.lor_spec by lia.
  rewrite <- (Z.mod_small (u8 x) (2 ^ 8)), Z.mod_pow2_bits_high by lia.
  change 128 with (2 ^ 7). by rewrite Z.pow2_bits_false by lia.
Qed.

Section closing.
Context `{!WalCodec} `{!WalCodecLaws}.

Lemma index_buf_ok mr :
  xe_fits (index_entry mr) ->
  exists eb, xe_marshal (index_entry mr) = inl eb /\ index_buf mr = uvarint_put 9 (len eb) ++ eb /\
    len eb <= 44 /\ Forall is_byte (index_buf mr) /\ xe_unmarshal eb = inl (index_entry mr).
Proof.
  intros Hf. destruct (xe_roundtrip _ Hf) as (eb & E & Hl & Hb & Hu). exists eb.
  unfold index_buf. rewrite E. unfold AppendUvarint. cbn [app]. repeat split; try done.
  rewrite Forall_app. split; [apply uvarint_put_bytes|done].
Qed.

Lemma index_section_bytes l : Forall (fun mr => xe_fits (index_entry mr)) l -> Forall is_byte (index_section l).
Proof.
  unfold index_section. induction 1 as [|mr l Hf Hl IH]; [constructor|]. cbn [fmap list_fmap mjoin list_join].
  destruct (index_buf_ok mr Hf) as (eb & _ & _ & _ & Hb & _). rewrite Forall_app. by split.
Qed.

Section writing.
Context {F : Type} `{!LogFile F} `{!LogFileLaws F}.
Context {T : Type} `{!RadixTree item it_key T} `{!RadixTreeLaws item it_key T}.

Lemma close_entries l (bw : bufio_Writer F) crc n :
  Forall (fun mr => xe_fits (index_entry mr)) l -> bw_ok bw ->
  exists bw', foldw close_entry l (Ret (MkClosing bw crc n None)) =
      Ret (MkClosing bw' (crc_write crc (index_section l)) (n + len (index_section l)) None) /\
    bw_ok bw' /\ bw_total bw' = bw_total bw ++ index_section l.
Proof.
  intros Hl. revert bw crc n. unfold index_section.
  induction Hl as [|mr l Hf Hl IH]; intros bw crc n Hok; cbn [fmap list_fmap mjoin list_join foldw].
  { exists bw. by rewrite app_nil_r, len_nil, Z.add_0_r. }
  destruct (index_buf_ok mr Hf) as (eb & E & Hb & _). unfold close_entry at 1. rewrite E.
  cbn [cl_bw cl_crc cl_footerSize]. unfold AppendUvarint. cbn [app]. rewrite <- Hb.
  destruct (bw_Write_ok bw (index_buf mr) Hok) as (bw1 & -> & Hok1 & Ht1).
  destruct (IH bw1 (crc_write crc (index_buf mr)) (n + len (index_buf mr)) Hok1) as (bw2 & -> & Hok2 & Ht2).
  exists bw2. rewrite crc_write_app, len_app, Z.add_assoc. split; [done|]. split; [done|].
  by rewrite Ht2, Ht1, app_assoc.
Qed.

(** [CloseWriter] on a file that does not fail appends the footer, the index and
    the trailer. *)
Lemma CloseWriter_ok hb ops (w : Writer T) (f : F) l :
  writer_ok hb ops w f -> io_reliable f -> runs_of (erm_view (ww_index w)) 0 l ->
  (forall S (iter : RangeValue logRecord -> S -> S * bool) s, erm_Iterate (ww_index w) 0 iter s = foldw iter l s) ->
  Forall (fun mr => xe_fits (index_entry mr)) l -> len (index_section l) < 2 ^ 32 ->
  exists w' f', ww_CloseWriter w f = Ret (w', f', None) /\ ww_open w' = false /\
    io_out f' = io_out f ++ footer_entry ++ index_section l ++ trailer (index_section l).
Proof.
  intros [Hopen Honce Hout Hoff _ _ _] Hrel Hruns Hiter Hfits Hlen. unfold ww_CloseWriter. rewrite Hopen. cbn [negb].
  pose proof (len_nonneg (index_section l)).
  rewrite (proj2 (Z.eqb_neq (ww_offset w) 0)).
  2: { rewrite Hoff, Hout. unfold log_bytes, log_header. rewrite !len_app. change (len HeaderMagic) with 8.
       pose proof (len_nonneg (le_put 4 (len hb))). pose proof (len_nonneg hb).
       pose proof (len_nonneg (mjoin (op_entry <$> ops))). lia. }
  pose proof footer_entry_made as Hfe. destruct (makeLogEntry entryTypeFooter 0 0 []) as [e h].
  cbn [fst] in Hfe. rewrite Hfe.
  assert (Hok0 : bw_ok (bufio_NewWriter f)) by (split; [done|change (0 <= 4096); lia|done]).
  destruct (bw_Write_ok _ footer_entry Hok0) as (bw1 & -> & Hok1 & Ht1). cbn [mbind outcome_bind ww_index].
  rewrite Hiter. destruct (close_entries l bw1 crc_new 0 Hfits Hok1) as (bw2 & -> & Hok2 & Ht2).
  cbn [mbind outcome_bind cl_err cl_bw cl_crc cl_footerSize]. rewrite Z.add_0_l, u32_small by lia.
  destruct (bw_Write_ok bw2 (trailer (index_section l)) Hok2) as (bw3 & E3 & Hok3 & Ht3).
  unfold trailer in E3. rewrite E3. cbn [mbind outcome_bind].
  destruct (bw_Flush_ok bw3 Hok3) as (bw4 & -> & Hok4 & Hb4 & Ht4). do 2 eexists. split; [done|]. split; [done|].
  assert (io_out (bw_wr bw4) = bw_total bw4) as -> by (unfold bw_total; by rewrite Hb4, app_nil_r).
  rewrite Ht4, Ht3, Ht2, Ht1. unfold bw_total, bufio_NewWriter. cbn [bw_wr bw_buf].
  by rewrite app_nil_r, <- !app_assoc.
Qed.
End writing.

(** ** Rebuilding the index *)
Section rebuilding.
Context {T : Type} `{!RadixTree item it_key T} `{!RadixTreeLaws item it_key T}.
Context (index : ExtentRangeMap logRecord T) (fb : bytes) (bv : bview) (l : list (RangeValue logRecord)).
Context (Hok : index_ok index fb bv) (Hruns : runs_of (erm_view index) 0 l) (Hfb : len fb < 2 ^ 63).
Context (Hdata : forall k lr, erm_view index k = Some lr -> lr_zero lr = false).

(** What the range [mr] of the index says of the contents. *)
Lemma run_facts (mr : RangeValue logRecord) :
  mr ∈ l -> 0 <= Offset mr /\ 0 < Length mr /\ Offset mr + Length mr < 2 ^ 63 /\
  exists pos, 0 <= pos /\ pos + Length mr <= len fb /\
    index_entry mr = MkIndexEntryPb IndexEntry_WRITE (Offset mr) (Length mr) pos /\
    forall k, in_range k mr -> bv k = fb !! Z.to_nat (pos + (k - Offset mr)).
Proof.
  intros Hmr. destruct (runs_bounds _ _ _ Hruns mr Hmr) as [Hm0 HL].
  assert (Hv : forall k, in_range k mr -> erm_view index k = Some (Value mr)).
  { intros k Hk. unfold in_range in Hk. apply (runs_cover _ _ _ Hruns); [lia|]. by exists mr. }
  unfold in_range, rend in *.
  pose proof (io_range _ _ _ Hok (Offset mr + Length mr - 1) ltac:(rewrite Hv by lia; eauto)) as Hr.
  pose proof (io_some _ _ _ Hok _ _ (Hv (Offset mr) ltac:(lia))) as [Hin1 _ Hd1].
  pose proof (io_some _ _ _ Hok _ _ (Hv (Offset mr + Length mr - 1) ltac:(lia))) as [Hin2 _ _].
  pose proof (Hdata _ _ (Hv (Offset mr) ltac:(lia))) as Hz. destruct (Hd1 Hz) as (Hp1 & Hp2 & _).
  split; [lia|]. split; [lia|]. split; [lia|].
  exists (lr_logOffset (Value mr) + (Offset mr - lr_offset (Value mr))). split; [lia|]. split; [lia|]. split.
  - unfold index_entry. rewrite Hz. rewrite (u64_small (lr_offset _)) by lia.
    rewrite (u64_small (lr_logOffset _)), (u64_small (Offset mr - _)), u64_small by lia. done.
  - intros k Hk. pose proof (io_some _ _ _ Hok _ _ (Hv k Hk)) as [_ _ Hd].
    destruct (Hd Hz) as (_ & _ & ->). f_equal. lia.
Qed.

Lemma runs_fit : Forall (fun mr => xe_fits (index_entry mr)) l.
Proof.
  apply Forall_forall. intros mr Hmr. destruct (run_facts mr Hmr) as (? & ? & ? & pos & ? & ? & -> & _).
  unfold xe_fits. cbn. lia.
Qed.

(** The contents that the first ranges cover. *)
Definition covered_view (l1 : list (RangeValue logRecord)) : bview := fun k =>
  if bool_decide (Exists (fun mr : RangeValue logRecord => in_range k mr) l1) then bv k else None.

Lemma covered_view_snoc l1 (mr : RangeValue logRecord) k :
  covered_view (l1 ++ [mr]) k = if bool_decide (in_range k mr) then bv k else covered_view l1 k.
Proof.
  unfold covered_view. destruct (decide (in_range k mr)) as [Hin|Hin].
  - rewrite !bool_decide_true; [done|done|]. apply Exists_app. right. by apply Exists_cons_hd.
  - rewrite (bool_decide_false (in_range k mr)) by done. rewrite (bool_decide_ext (Exists _ (l1 ++ [mr])) (Exists (fun r : RangeValue logRecord => in_range k r) l1));
      [done|]. rewrite Exists_app, Exists_cons, Exists_nil. tauto.
Qed.

Lemma covered_view_all k : 0 <= k -> covered_view l k = bv k.
Proof.
  intros Hk. unfold covered_view. case_bool_decide as He; [done|].
  destruct (erm_view index k) as [lr|] eqn:E; [|by rewrite (io_none _ _ _ Hok k E)].
  apply (runs_cover _ _ _ Hruns) in E as (mr & Hmr & Hin & _); [|done].
  destruct He. apply Exists_exists. eauto.
Qed.

(** Adding the range of an index entry. *)
Lemma add_run (ix : ExtentRangeMap logRecord T) l1 (mr : RangeValue logRecord) pos :
  mr ∈ l -> index_ok ix fb (covered_view l1) -> index_entry mr = MkIndexEntryPb IndexEntry_WRITE (Offset mr) (Length mr) pos ->
  exists ix', erm_Add ix (Offset mr) (Length mr) (MkLogRecord pos (Offset mr) (Length mr) false) = Ret ix' /\
    index_ok ix' fb (covered_view (l1 ++ [mr])).
Proof.
  intros Hmr Hix He. destruct (run_facts mr Hmr) as (H1 & H2 & H3 & pos' & H4 & H5 & He' & Hbv).
  rewrite He in He'. injection He' as <-. unfold in_range, rend in *.
  destruct (index_add_record ix fb (covered_view l1) (covered_view (l1 ++ [mr])) (Offset mr) (Length mr)
    (MkLogRecord pos (Offset mr) (Length mr) false)) as (ix' & E & Hi & _); [done|lia|lia|lia| | |by eauto].
  - intros k Hk. split; cbn; [lia|done|]. intros _. split; [lia|]. split; [lia|].
    rewrite covered_view_snoc, bool_decide_true by done. by apply Hbv.
  - intros k Hk. by rewrite covered_view_snoc, bool_decide_false.
Qed.

Lemma index_loop_ok fuel l1 l2 (ix : ExtentRangeMap logRecord T) end_ :
  l = l1 ++ l2 -> index_ok ix fb (covered_view l1) -> end_spec (covered_view l1) end_ -> (length (index_section l2) < fuel)%nat ->
  exists ix' end', index_loop fuel (index_section l2) ix end_ = Ret (ix', end', None) /\
    index_ok ix' fb (covered_view l) /\ end_spec (covered_view l) end'.
Proof.
  revert fuel l1 ix end_. induction l2 as [|mr l2 IH]; intros fuel l1 ix end_ Hl Hix Hend Hf.
  { destruct fuel; [cbn in Hf; lia|]. rewrite app_nil_r in Hl. subst l1. exists ix, end_. by split. }
  assert (Hmr : mr ∈ l) by (subst l; set_solver).
  pose proof runs_fit as Hfit. rewrite Forall_forall in Hfit.
  destruct (index_buf_ok mr (Hfit mr Hmr)) as (eb & _ & Hb & Hle & _ & Hu).
  destruct (run_facts mr Hmr) as (H1 & H2 & H3 & pos & H4 & H5 & He & Hbv).
  destruct fuel as [|fuel]; [lia|]. rewrite index_section_cons in *.
  rewrite Hb, <- app_assoc in *. pose proof (len_nonneg eb). cbn [index_loop].
  rewrite ReadUvarint_put by lia. rewrite i64_small by lia.
  rewrite br_Peek_ok by (done || (unfold readBufSize; lia)). rewrite br_Discard_app, Hu, He by done.
  cbn [xe_Type xe_Offset xe_Length xe_LogOffset]. rewrite !i64_small by lia. rewrite !u64_small by lia.
  destruct (add_run ix l1 mr pos Hmr Hix He) as (ix1 & -> & Hix1). cbn [mbind outcome_bind].
  apply (IH fuel (l1 ++ [mr]) ix1); [by rewrite <- app_assoc|done| |].
  { rewrite max_end. apply (end_spec_extend (covered_view l1)); [done|lia|lia| |]; intros k Hk;
      rewrite covered_view_snoc; unfold in_range, rend in *; rewrite ?bool_decide_true, ?bool_decide_false by done; [|done].
    rewrite Hbv by done. apply lookup_lt_is_Some_2. unfold len in *. lia. }
  rewrite !length_app in Hf.
  assert (0 < length (uvarint_put 9 (len eb)))%nat by (cbn [uvarint_put]; destruct (_ <? _); cbn [length]; lia).
  lia.
Qed.
End rebuilding.
End closing.
