(* ===== verification/WalMem.v ===== *)
(** * A log file and a codec to run the models on

    [mem_log] is a file in memory. Its script gives the number of bytes that the
    next writes accept; after the script, writes do not fail. [fixed_codec]
    encodes the fields of the messages in words of fixed width. *)
From S2P Require Import Prelude Radix RangeMap ExtentRangeMap BlockReader GoStd Adaptor.
From S2P Require Import WalIndex WalFormat WalWriter.
Local Open Scope Z_scope.

Record mem_log := MemLog { ml_out : bytes; ml_script : list Z }.

Definition ml_Write (w : mem_log) (p : bytes) : mem_log * Z * option error :=
  match ml_script w with
  | [] => (MemLog (ml_out w ++ p) [], len p, None)
  | k :: s =>
      let n := Z.max 0 (Z.min k (len p)) in
      (MemLog (ml_out w ++ take (Z.to_nat n) p) s, n, if n <? len p then Some ErrIO else None)
  end.

#[export] Instance mem_writer : IoWriter mem_log := { io_Write := ml_Write }.

#[export] Program Instance mem_writer_laws : IoWriterLaws mem_log := {
  io_out := ml_out;
  io_reliable w := ml_script w = [];
}.
Next Obligation.
  intros [out [|k s]] p w' n err; unfold io_Write, mem_writer, ml_Write; cbn [ml_script ml_out];
    intros [= <- <- <-]; cbn [ml_out]; pose proof (len_nonneg p).
  - split; [lia|]. split; [|done]. rewrite take_ge; [done|]. unfold len. lia.
  - split; [lia|]. split; [done|]. destruct (Z.ltb_spec (Z.max 0 (Z.min k (len p))) (len p)); [done|lia].
Qed.
Next Obligation.
  intros [out s] p w' n err; cbn. intros ->. unfold ml_Write. cbn. by intros [= <- <- <-].
Qed.

#[export] Instance mem_log_file : LogFile mem_log := {
  lf_writer := mem_writer;
  lf_WriteMany w ps := ml_Write w (mjoin ps);
  lf_ReadAt w := file_ReadAt (MkFile (ml_out w) false);
  lf_rf := true;
}.

#[export] Program Instance mem_log_laws : LogFileLaws mem_log := {
  lf_writer_laws := mem_writer_laws;
}.
Next Obligation.
  intros f ps f' n err E. change (io_Write f (mjoin ps) = (f', n, err)) in E.
  destruct (io_Write_ok _ _ _ _ _ E) as (H1 & H2 & H3).
  split; [exact H1|]. split; [exact H2|]. split; [exact H3|].
  intros Hrel. exact (io_Write_reliable _ _ _ _ _ Hrel E).
Qed.
Next Obligation. done. Qed.

(** Four words. *)
Definition IndexType_code (t : IndexType) : Z :=
  match t with IndexEntry_INVALID => 0 | IndexEntry_WRITE => 1 | IndexEntry_TRIM => 2 end.
Definition IndexType_of (x : Z) : IndexType :=
  if x =? 1 then IndexEntry_WRITE else if x =? 2 then IndexEntry_TRIM else IndexEntry_INVALID.

Definition put_words (a b c d : Z) : bytes := le_put 4 a ++ le_put 8 b ++ le_put 8 c ++ le_put 8 d.
Definition get_words (p : bytes) : Z * Z * Z * Z :=
  (le_get (take 4 p), le_get (take 8 (drop 4 p)), le_get (take 8 (drop 12 p)), le_get (take 8 (drop 20 p))).

#[export] Instance fixed_codec : WalCodec := {
  wh_marshal h := inl (put_words (wh_Version h) (wh_BlockSize h) (wh_Align h) (wh_ChecksumType h));
  wh_unmarshal p := let '(a, b, c, d) := get_words p in inl (MkWalHeader a b c d);
  xe_marshal e := inl (put_words (IndexType_code (xe_Type e)) (xe_Offset e) (xe_Length e) (xe_LogOffset e));
  xe_unmarshal p := let '(a, b, c, d) := get_words p in inl (MkIndexEntryPb (IndexType_of a) b c d);
}.

Lemma get_put_words a b c d :
  0 <= a < 2 ^ 32 -> 0 <= b < 2 ^ 64 -> 0 <= c < 2 ^ 64 -> 0 <= d < 2 ^ 64 ->
  get_words (put_words a b c d) = (a, b, c, d).
Proof.
  intros Ha Hb Hc Hd. unfold get_words, put_words.
  assert (forall x, length (le_put 8 x) = 8%nat) as H8 by (intros; apply length_le_put).
  assert (length (le_put 4 a) = 4%nat) as H4 by apply length_le_put.
  remember (le_put 4 a ++ le_put 8 b ++ le_put 8 c ++ le_put 8 d) as p eqn:Hp.
  assert (take 4 p = le_put 4 a) as -> by (rewrite Hp; by apply take_app_length').
  assert (drop 4 p = le_put 8 b ++ le_put 8 c ++ le_put 8 d) as -> by (rewrite Hp; by apply drop_app_length').
  assert (drop 12 p = le_put 8 c ++ le_put 8 d) as ->
    by (rewrite Hp, app_assoc; apply drop_app_length'; by rewrite length_app, H4, H8).
  assert (drop 20 p = le_put 8 d) as ->
    by (rewrite Hp, !app_assoc; apply drop_app_length'; by rewrite !length_app, H4, !H8).
  rewrite !(take_app_length' (le_put 8 _)) by done. rewrite take_ge by (rewrite H8; lia).
  by rewrite !le_get_put by (cbn; lia).
Qed.

Lemma put_words_ok a b c d : len (put_words a b c d) <= 44 /\ Forall is_byte (put_words a b c d).
Proof.
  unfold put_words. rewrite !len_app, !len_le_put, !Forall_app. split; [cbn; lia|].
  repeat split; apply le_put_bytes.
Qed.

#[export] Program Instance fixed_codec_laws : WalCodecLaws.
Next Obligation.
  intros [a b c d] Hf. unfold wh_fits in Hf. cbn in Hf. eexists. split; [reflexivity|]. split; [apply put_words_ok|].
  split; [apply put_words_ok|]. unfold wh_unmarshal, fixed_codec. by rewrite get_put_words by (cbn; lia).
Qed.
Next Obligation.
  intros [t b c d] Hf. unfold xe_fits in Hf. cbn in Hf. eexists. split; [reflexivity|]. split; [apply put_words_ok|].
  split; [apply put_words_ok|]. unfold xe_unmarshal, fixed_codec. rewrite get_put_words by (destruct t; cbn; lia). by destruct t.
Qed.

Definition mem_index : Type := list_tree it_key.
