(* ===== verification/WalTheorems.v ===== *)
(** * What a write log promises

    [internal/wal]: reads return the last bytes written; a log that was closed is
    read back through its index; a log that was cut off, by a crash, is read back
    up to the last complete entry. Three theorems describe where the code falls
    short of that. *)
From S2P Require Import Prelude Radix RangeMap ExtentRangeMap BlockReader GoStd Adaptor.
From S2P Require Import WalIndex WalFormat WalWriter WalLog WalReader WalLoad WalClose WalMem.
Local Open Scope Z_scope.

(** ** Cutting a log off *)

Lemma log_bytes_nil hb : log_bytes hb [] = log_header hb.
Proof. apply app_nil_r. Qed.

(** The operations whose entries are complete in the first [n] bytes, and the
    number of bytes that are left of the next entry. *)
Lemma cut_log hb ops n :
  len (log_header hb) <= n <= len (log_bytes hb ops) ->
  exists ops1 ops2 m, ops = ops1 ++ ops2 /\ m = n - len (log_bytes hb ops1) /\
    take (Z.to_nat n) (log_bytes hb ops) =
      log_bytes hb ops1 ++ take (Z.to_nat m) (default [] (op_entry <$> head ops2)) /\
    0 <= m /\ match ops2 with [] => m = 0 | op :: _ => m < len (op_entry op) end.
Proof.
  intros Hn. induction ops as [|op ops IH] using rev_ind.
  { rewrite log_bytes_nil in *. exists [], [], (n - len (log_header hb)). rewrite log_bytes_nil.
    split; [done|]. split; [done|]. change (default [] _) with (@nil Z).
    rewrite take_nil, app_nil_r, take_ge by (unfold len in *; lia). repeat split; lia. }
  rewrite log_bytes_snoc in *. rewrite len_app in Hn.
  destruct (Z.le_gt_cases n (len (log_bytes hb ops))) as [Hle|Hgt].
  - destruct IH as (ops1 & ops2 & m & Hops & Hm & Htake & Hm0 & Hlast); [lia|].
    rewrite take_app_le by (unfold len in *; lia). destruct ops2 as [|op2 ops2].
    + rewrite app_nil_r in Hops. subst ops1 m. exists ops, [op], (n - len (log_bytes hb ops)).
      destruct (Z.eq_dec (len (op_entry op)) 0) as [Hz|Hz].
      { exfalso. apply len_0_nil in Hz. destruct op; unfold op_entry, data_entry, trim_entry in Hz;
          apply app_nil in Hz as [Hz _]; by apply (f_equal length) in Hz; rewrite length_le_put in Hz. }
      pose proof (len_nonneg (op_entry op)). rewrite Hlast in Htake |- *. cbn in Htake |- *. rewrite Htake.
      repeat split; try done; lia.
    + exists ops1, (op2 :: ops2 ++ [op]), m. split; [by rewrite Hops, <- app_assoc|]. repeat split; done.
  - destruct (Z.eq_dec n (len (log_bytes hb ops) + len (op_entry op))) as [->|Hne].
    + exists (ops ++ [op]), [], 0. rewrite log_bytes_snoc, len_app, app_nil_r. change (default [] _) with (@nil Z).
      rewrite take_nil, app_nil_r, take_ge by (rewrite length_app; unfold len; lia). repeat split; lia.
    + exists ops, [op], (n - len (log_bytes hb ops)). cbn [head fmap option_fmap option_map default].
      rewrite take_app_ge by (unfold len in *; lia). repeat split; try done; [|lia|lia].
      do 2 f_equal. unfold len. lia.
Qed.

(** The last 8 bytes are not the magic number of the footer. *)
Definition no_footer (fb : bytes) : Prop := drop (length fb - 8) fb <> FooterMagic.

Section theorems.
Context {F : Type} `{!LogFile F} `{!LogFileLaws F} `{!WalCodec} `{!WalCodecLaws}.
Context {T : Type} `{!RadixTree item it_key T} `{!RadixTreeLaws item it_key T}.

Lemma length_log_entries ops : (length ops <= length (mjoin (op_entry <$> ops)))%nat.
Proof.
  induction ops as [|op ops IH]; [done|]. change (mjoin (op_entry <$> op :: ops)) with (op_entry op ++ mjoin (op_entry <$> ops)).
  rewrite length_app. assert (0 < length (op_entry op))%nat; [|cbn [length]; lia].
  destruct op; unfold op_entry, data_entry, trim_entry; rewrite !length_app, length_le_put; lia.
Qed.

Lemma readHeader_torn hb n header :
  header_buf hb -> 0 <= n < len (log_header hb) ->
  exists k src h, readHeader (take (Z.to_nat n) (log_header hb)) header = (k, src, h, Some EOF).
Proof.
  intros (_ & Hl & _ & _) Hn. pose proof (len_nonneg hb). unfold log_header in *.
  rewrite !len_app, len_le_put in Hn. change (len HeaderMagic) with 8 in Hn. unfold readHeader.
  change (len HeaderMagic) with 8. destruct (Z.lt_ge_cases n 8) as [H8|H8].
  { rewrite br_Peek_short; [eauto|]. rewrite len_take by (rewrite !len_app, len_le_put; change (len HeaderMagic) with 8; lia).
    unfold readBufSize. lia. }
  assert (take (Z.to_nat n) (HeaderMagic ++ le_put 4 (len hb) ++ hb) =
          HeaderMagic ++ take (Z.to_nat (n - 8)) (le_put 4 (len hb) ++ hb)) as ->.
  { rewrite take_app_ge by (cbn; lia). do 2 f_equal. cbn. lia. }
  rewrite br_Peek_ok by (done || (unfold readBufSize; lia)). rewrite bool_decide_true by done. cbn [negb].
  rewrite br_Discard_app by done. destruct (Z.lt_ge_cases n 12) as [H12|H12].
  { rewrite br_Peek_short; [eauto|]. rewrite len_take by (rewrite len_app, len_le_put; lia). unfold readBufSize. lia. }
  assert (take (Z.to_nat (n - 8)) (le_put 4 (len hb) ++ hb) = le_put 4 (len hb) ++ take (Z.to_nat (n - 12)) hb) as ->.
  { rewrite take_app_ge by (rewrite length_le_put; lia). rewrite length_le_put. do 2 f_equal. lia. }
  rewrite br_Peek_ok by (rewrite ?len_le_put; done || (unfold readBufSize; lia)).
  rewrite br_Discard_app by (by rewrite len_le_put). rewrite le_get_put by lia.
  rewrite br_Peek_short; [eauto|]. rewrite len_take by lia. unfold readBufSize. lia.
Qed.

Lemma readIndex_no_footer (r : Reader T) size :
  size = len (f_bytes (wrd_ra r)) -> no_footer (f_bytes (wrd_ra r)) ->
  exists r' err, readIndex r size = Ret (r', Some err).
Proof.
  intros Hs Hnf. unfold readIndex. destruct (Z.ltb_spec (size - 16) 0) as [H16|H16]; [eauto|].
  unfold file_ReadAt. change (len (zeros 16)) with 16. rewrite len_drop, <- Hs by lia.
  replace (size - (size - 16)) with 16 by lia. change (16 `min` 16) with 16. change (16 <? 16) with false.
  cbv iota. replace (size - 16 + 16 =? size) with true by (symmetry; apply Z.eqb_eq; lia). rewrite andb_true_r.
  destruct (f_eager (wrd_ra r)); [eauto|]. rewrite bool_decide_false; [eauto|]. intros E. apply Hnf. rewrite <- E.
  rewrite take_ge by (rewrite length_drop; unfold len in *; lia). cbn [zeros]. change (drop (Z.to_nat 16) (zeros 16)) with (@nil Z).
  rewrite app_nil_r, drop_drop. f_equal. unfold len in *. lia.
Qed.

(** A reader with a good index is a reader of the contents. *)
Lemma reader_reads (r : Reader T) bv e :
  f_eager (wrd_ra r) = false -> index_ok (wrd_index r) (f_bytes (wrd_ra r)) bv -> end_spec bv e -> log_reader_ok r bv.
Proof.
  intros Heager Hidx Hend. assert (Hra : wrd_ra r = MkFile (f_bytes (wrd_ra r)) false)
    by (destruct (wrd_ra r); cbn in *; by subst). split; cbn [ReadAt NextData NextHole wal_reader].
  - intros off Hoff. destruct (wal_NextData_ok _ _ _ Hidx off Hoff) as (k & Hk & E).
    exists k. split; [done|]. rewrite E. destruct k; eauto.
  - intros off Hoff. apply (wal_NextHole_ok _ _ _ Hidx off Hoff).
  - intros p off Hoff Hlim. exists e. eexists. split; [done|]. split; [reflexivity|].
    unfold wrd_ReadAt, wal_ReadAt.
    erewrite (wal_read_loop_ok (wrd_index r) (file_ReadAt (wrd_ra r)) (f_bytes (wrd_ra r)) bv Hidx) with (e := e);
      [done|intros; by rewrite <- Hra|lia|lia|lia|done|reflexivity].
Qed.

(** Scanning a log of complete entries that is followed by [tail]. *)
Lemma NewReader_scan hb ops tail size :
  header_buf hb -> Forall op_ok ops -> Forall is_write ops ->
  (size = 0 \/ (size = len (log_bytes hb ops ++ tail) /\ no_footer (log_bytes hb ops ++ tail))) ->
  exists (index : ExtentRangeMap logRecord T) end_ fuel,
    index_ok index (log_bytes hb ops ++ tail) (ops_view ops) /\ end_spec (ops_view ops) end_ /\
    NewReader (MkFile (log_bytes hb ops ++ tail) false) size =
      (st ← load_loop (S fuel) tail (len (log_bytes hb ops)) index end_;
       let '(index, end_, err) := st in
       Ret (MkWalReader (MkFile (log_bytes hb ops ++ tail) false) end_ wal_header index, err)).
Proof.
  intros Hhb Hops Hwr Hsize. remember (log_bytes hb ops ++ tail) as fb eqn:Hfb.
  assert (Hsplit : fb = log_header hb ++ (mjoin (op_entry <$> ops) ++ tail)).
  { rewrite Hfb. unfold log_bytes. by rewrite <- app_assoc. }
  remember (mjoin (op_entry <$> ops) ++ tail) as src eqn:Hsrc.
  assert (Hread : readHeader fb (MkWalHeader 0 0 0 0) = (len (log_header hb), src, wal_header, None))
    by (rewrite Hsplit; by apply readHeader_ok).
  unfold NewReader. cbn [f_bytes]. rewrite Hread.
  destruct (load_entries (S (length src)) hb fb [] ops tail (erm_zero : ExtentRangeMap logRecord T) 0)
    as (index & end_ & Hi & He & E); [done|done|done|apply index_ok_zero|by left| |].
  { rewrite Hsrc, length_app. pose proof (length_log_entries ops). lia. }
  cbn [app] in *. assert (exists fuel, (S (length src) - length ops)%nat = S fuel) as [fuel Ef].
  { exists (length src - length ops)%nat. rewrite Hsrc, length_app. pose proof (length_log_entries ops). lia. }
  rewrite Ef in E. exists index, end_, fuel. split; [done|]. split; [done|].
  rewrite log_bytes_nil, <- Hsrc in E. destruct Hsize as [->|[-> Hnf]].
  - change (0 <? 0) with false. cbn [mbind outcome_bind]. by rewrite E.
  - pose proof (len_nonneg fb). destruct (Z.ltb_spec 0 (len fb)); cbn [mbind outcome_bind]; [|by rewrite E].
    destruct (readIndex_no_footer (MkWalReader (MkFile fb false) 0 wal_header erm_zero) (len fb) eq_refl Hnf)
      as (r' & err & ->). cbn [mbind outcome_bind]. by rewrite E.
Qed.

(** ** Reading one's writes *)

(** A log serves the contents [ops_view ops]: reads and queries, its size and the
    length of its file. *)
Record log_serves (l : ReadableLog F T) (ops : list log_op) : Prop := {
  ls_reads : log_reader_ok l (ops_view ops);
  ls_Size : end_spec (ops_view ops) (ww_Size (rl_logWriter l));
  ls_Written : rl_Written l = len (io_out (rl_logFile l));
}.

(** A run of operations on a new log. *)
Lemma log_run_serves (f : F) ops :
  io_reliable f -> io_out f = [] -> Forall op_ok ops ->
  exists (w : Writer T) f', run_ops NewWriter f ops = Ret (w, f', None) /\ log_serves (NewReadableLog f' w) ops.
Proof.
  intros Hrel Hout Hops. destruct ops as [|op ops].
  - exists NewWriter, f. split; [done|]. split; [|by left|by cbn; rewrite Hout].
    pose proof (index_ok_zero (io_out f) : index_ok (erm_zero : ExtentRangeMap logRecord T) _ _) as Hidx.
    split; cbn [ReadAt NextData NextHole readable_log rl_logWriter ww_index NewWriter].
    + intros off Hoff. destruct (wal_NextData_ok _ _ _ Hidx off Hoff) as (k & Hk & E).
      exists k. split; [done|]. rewrite E. destruct k; eauto.
    + intros off Hoff. apply (wal_NextHole_ok _ _ _ Hidx off Hoff).
    + intros p off Hoff Hlim. exists 0. eexists. split; [by left|]. split; [reflexivity|].
      unfold rl_ReadAt, wal_ReadAt. cbn [rl_logFile rl_logWriter ww_index NewWriter].
      erewrite (wal_read_loop_ok _ (lf_ReadAt f) (io_out f) _ Hidx) with (e := 0);
        [done|intros; apply lf_ReadAt_ok|lia|lia|lia|by left|reflexivity].
  - destruct header_buf_exists as [hb Hhb].
    destruct (run_ops_new (T := T) hb f op ops Hhb Hrel Hout Hops) as (w & f' & E & Hok & _).
    exists w, f'. split; [done|].
    split; [by apply (writer_reads hb)|apply (wo_end _ _ _ _ Hok)|apply (wo_offset _ _ _ _ Hok)].
Qed.

(** C22: whatever sequence of writes and trims is made on a new log over a file
    that does not fail, each of them succeeds; afterwards [NextData], [NextHole]
    and [ReadAt] of the log answer with the bytes that the last operation on each
    offset left there, [Size] is the end of them and [LogSize] the length of the
    file. *)
Theorem wal_read_your_writes (f : F) ops :
  io_reliable f -> io_out f = [] -> Forall op_ok ops ->
  exists (w : Writer T) f', run_ops NewWriter f ops = Ret (w, f', None) /\ log_serves (NewReadableLog f' w) ops.
Proof. apply log_run_serves. Qed.

(** ** Recovery *)

(** Opening a prefix of the file. *)
Lemma prefix_recovers hb ops0 n size :
  header_buf hb -> Forall op_ok ops0 -> Forall is_write ops0 -> 0 <= n <= len (log_bytes hb ops0) ->
  (size = 0 \/ (size = n /\ no_footer (take (Z.to_nat n) (log_bytes hb ops0)))) ->
  exists ops1 ops2 (r : Reader T) err,
    NewReader (MkFile (take (Z.to_nat n) (log_bytes hb ops0)) false) size = Ret (r, err) /\
    ops0 = ops1 ++ ops2 /\ log_reader_ok r (ops_view ops1) /\ end_spec (ops_view ops1) (wrd_Size r) /\
    (n < len (log_header hb) -> ops1 = [] /\ err = Some ErrUnexpectedEOF) /\
    (len (log_header hb) <= n ->
       len (log_bytes hb ops1) <= n /\ err = torn_error (n - len (log_bytes hb ops1)) /\
       forall op2 ops3, ops2 = op2 :: ops3 -> n < len (log_bytes hb (ops1 ++ [op2]))).
Proof.
  intros Hhb Hops Hwr Hn Hsize.
  destruct (Z.lt_ge_cases n (len (log_header hb))) as [Hh|Hh].
  - destruct (readHeader_torn hb n (MkWalHeader 0 0 0 0) Hhb) as (k & src & h & Eh); [lia|].
    assert (take (Z.to_nat n) (log_bytes hb ops0) = take (Z.to_nat n) (log_header hb)) as Ht.
    { unfold log_bytes. by rewrite take_app_le by (unfold len in *; lia). }
    rewrite Ht. exists [], ops0. do 2 eexists. split; [unfold NewReader; cbn [f_bytes]; rewrite Eh; reflexivity|].
    rewrite bool_decide_true by done. split; [done|]. split; [|split; [by left|split; [done|lia]]].
    apply (reader_reads _ _ 0); [done|apply index_ok_zero|by left].
  - destruct (cut_log hb ops0 n) as (ops1 & ops2 & m & Hsp & Hm & Ht & Hm0 & Hlast); [lia|].
    rewrite Ht in *. subst ops0. apply Forall_app in Hops as [Hok1 Hok2]. apply Forall_app in Hwr as [Hwr1 Hwr2].
    assert (len (log_bytes hb ops1 ++ take (Z.to_nat m) (default [] (op_entry <$> head ops2))) = n) as Hl.
    { rewrite <- Ht. apply len_take. lia. }
    destruct (NewReader_scan hb ops1 (take (Z.to_nat m) (default [] (op_entry <$> head ops2))) size)
      as (index & end_ & fuel & Hi & He & ->); [done|done|done|by rewrite Hl|].
    assert (load_loop (S fuel) (take (Z.to_nat m) (default [] (op_entry <$> head ops2))) (len (log_bytes hb ops1)) index end_
            = Ret (index, end_, torn_error m)) as ->.
    { destruct ops2 as [|[off p|] ops2]; cbn [head fmap option_fmap option_map default op_entry].
      - rewrite Hlast. by rewrite take_nil.
      - apply Forall_cons in Hok2 as [Hop _]. by apply load_torn.
      - by apply Forall_cons in Hwr2 as [[] _]. }
    cbn [mbind outcome_bind]. exists ops1, ops2. do 2 eexists. split; [done|]. split; [done|].
    split; [by apply (reader_reads _ _ end_)|]. split; [done|]. split; [lia|]. intros _. rewrite <- Hm.
    split; [lia|]. split; [done|]. intros op2 ops3 ->. rewrite log_bytes_snoc, len_app. lia.
Qed.

Lemma log_recovers (f : F) op ops :
  io_reliable f -> io_out f = [] -> Forall op_ok (op :: ops) -> Forall is_write (op :: ops) ->
  exists hb (w : Writer T) f', run_ops NewWriter f (op :: ops) = Ret (w, f', None) /\
    io_out f' = log_bytes hb (op :: ops) /\
    forall n size, 0 <= n <= len (io_out f') ->
      (size = 0 \/ (size = n /\ no_footer (take (Z.to_nat n) (io_out f')))) ->
      exists ops1 ops2 (r : Reader T) err,
        NewReader (MkFile (take (Z.to_nat n) (io_out f')) false) size = Ret (r, err) /\
        op :: ops = ops1 ++ ops2 /\ log_reader_ok r (ops_view ops1) /\ end_spec (ops_view ops1) (wrd_Size r) /\
        (n < len (log_header hb) -> ops1 = [] /\ err = Some ErrUnexpectedEOF) /\
        (len (log_header hb) <= n ->
           len (log_bytes hb ops1) <= n /\ err = torn_error (n - len (log_bytes hb ops1)) /\
           forall op2 ops3, ops2 = op2 :: ops3 -> n < len (log_bytes hb (ops1 ++ [op2]))).
Proof.
  intros Hrel Hout Hops Hwr. destruct header_buf_exists as [hb Hhb].
  destruct (run_ops_new (T := T) hb f op ops Hhb Hrel Hout Hops) as (w & f' & E & Hok & _).
  exists hb, w, f'. split; [done|]. rewrite (wo_out _ _ _ _ Hok). split; [done|]. intros n size Hn Hsize.
  by apply prefix_recovers.
Qed.

(** C23: a log of writes that was not closed is recovered from any prefix of its
    file, such as a crash leaves: unless the prefix happens to end with the magic
    number of a footer, [NewReader] returns a reader of exactly the writes whose
    entries are complete, and no other; on the whole file it returns no error. *)
Theorem wal_recovery (f : F) op ops :
  io_reliable f -> io_out f = [] -> Forall op_ok (op :: ops) -> Forall is_write (op :: ops) ->
  exists hb (w : Writer T) f', run_ops NewWriter f (op :: ops) = Ret (w, f', None) /\
    io_out f' = log_bytes hb (op :: ops) /\
    forall n size, 0 <= n <= len (io_out f') ->
      (size = 0 \/ (size = n /\ no_footer (take (Z.to_nat n) (io_out f')))) ->
      exists ops1 ops2 (r : Reader T) err,
        NewReader (MkFile (take (Z.to_nat n) (io_out f')) false) size = Ret (r, err) /\
        op :: ops = ops1 ++ ops2 /\ log_reader_ok r (ops_view ops1) /\ end_spec (ops_view ops1) (wrd_Size r) /\
        (n < len (log_header hb) -> ops1 = [] /\ err = Some ErrUnexpectedEOF) /\
        (len (log_header hb) <= n ->
           len (log_bytes hb ops1) <= n /\ err = torn_error (n - len (log_bytes hb ops1)) /\
           forall op2 ops3, ops2 = op2 :: ops3 -> n < len (log_bytes hb (ops1 ++ [op2]))).
Proof. apply log_recovers. Qed.

(** ** Closing *)

Lemma load_footer fuel rest logOff (index : ExtentRangeMap logRecord T) end_ :
  load_loop (S fuel) (footer_entry ++ rest) logOff index end_ = Ret (index, end_, None).
Proof.
  cbn [load_loop]. rewrite br_Peek_ok by (done || (unfold readBufSize, entryBaseSize; lia)). done.
Qed.

Lemma read_trailer section :
  Forall is_byte section -> len section < 2 ^ 32 ->
  len (trailer section) = 16 /\ drop 8 (trailer section) = FooterMagic /\
  le_get (take 4 (trailer section)) = len section /\
  le_get (take 4 (drop 4 (trailer section))) = crc_sum (crc_write crc_new section).
Proof.
  intros Hb Hl. pose proof (len_nonneg section). unfold trailer.
  assert (0 <= crc_sum (crc_write crc_new section) < 2 ^ 32) as Hc
    by (apply crc_sum_bound, crc_write_bound; [unfold crc_new; lia|done]).
  rewrite !len_app, !len_le_put. split; [done|]. split.
  { rewrite app_assoc. apply drop_app_length'. by rewrite length_app, !length_le_put. }
  rewrite take_app_length', drop_app_length', take_app_length' by (by rewrite length_le_put).
  by rewrite !le_get_put by lia.
Qed.

(** The index of a closed log is read back. *)
Lemma readIndex_closed (r : Reader T) fb fb0 (index : ExtentRangeMap logRecord T) bv l :
  index_ok index fb0 bv -> (forall k lr, erm_view index k = Some lr -> lr_zero lr = false) ->
  runs_of (erm_view index) 0 l -> len (index_section l) < 2 ^ 32 -> len fb0 < 2 ^ 63 ->
  fb = fb0 ++ footer_entry ++ index_section l ++ trailer (index_section l) ->
  wrd_ra r = MkFile fb false -> wrd_index r = erm_zero ->
  exists end' index', readIndex r (len fb) = Ret (MkWalReader (MkFile fb false) end' (wrd_header r) index', None) /\
    index_ok index' fb bv /\ end_spec bv end'.
Proof.
  intros Hidx Hdata Hruns Hlen Hfb0 Hfb Hra Hzero.
  pose proof (runs_fit index fb0 bv l Hidx Hruns Hfb0 Hdata) as Hfit.
  pose proof (index_section_bytes l Hfit) as Hsb. destruct (read_trailer _ Hsb Hlen) as (Ht & Hmagic & Hsz & Hcrc).
  pose proof (len_nonneg fb0). pose proof (len_nonneg (index_section l)).
  assert (Hmid : fb = (fb0 ++ footer_entry ++ index_section l) ++ trailer (index_section l) ++ [])
    by (rewrite Hfb, app_nil_r, <- !app_assoc; done).
  assert (Hlfb : len fb = len fb0 + 8 + len (index_section l) + 16).
  { rewrite Hfb, !len_app, Ht. change (len footer_entry) with 8. lia. }
  unfold readIndex. rewrite (proj2 (Z.ltb_ge (len fb - 16) 0)) by lia. rewrite Hra.
  replace (len fb - 16) with (len (fb0 ++ footer_entry ++ index_section l))
    by (rewrite !len_app; change (len footer_entry) with 8; lia).
  rewrite (file_read_mid (MkFile fb false) _ _ _ (zeros 16) Hmid) by (by rewrite Ht). cbn [f_eager andb f_bytes].
  rewrite Hmagic, bool_decide_true by done. cbn [negb]. rewrite Hsz, Hcrc.
  rewrite !len_app. change (len footer_entry) with 8.
  replace (len fb0 + (8 + len (index_section l)) - len (index_section l)) with (len (fb0 ++ footer_entry))
    by (rewrite len_app; change (len footer_entry) with 8; lia).
  rewrite (proj2 (Z.ltb_ge (len (fb0 ++ footer_entry)) 0)) by apply len_nonneg.
  assert (take (Z.to_nat (len (index_section l))) (drop (Z.to_nat (len (fb0 ++ footer_entry))) fb) = index_section l) as ->.
  { rewrite Hfb, app_assoc, drop_len, take_len. done. }
  rewrite Hzero. destruct (index_loop_ok index fb0 bv l Hidx Hruns Hfb0 Hdata (S (length (index_section l))) [] l
    (erm_zero : ExtentRangeMap logRecord T) 0) as (ix & end' & -> & Hix & Hend); [done|apply index_ok_zero|by left|lia|].
  cbn [mbind outcome_bind]. rewrite Z.eqb_refl. cbn [negb]. exists end', ix. split; [done|].
  assert (Hcov : forall k, covered_view bv l k = bv k).
  { intros k. destruct (Z.le_gt_cases 0 k) as [Hk|Hk]; [by apply (covered_view_all index fb0)|].
    assert (bv k = None) as Hn.
    { apply (index_None index fb0 bv Hidx). apply eq_None_not_Some. intros Hs.
      pose proof (io_range _ _ _ Hidx k Hs). lia. }
    unfold covered_view. rewrite Hn. by destruct (bool_decide _). }
  split; [|by eapply end_spec_ext; [intros k; symmetry; apply Hcov|]].
  rewrite Hfb. apply index_ok_mono. by eapply index_ok_ext.
Qed.

(** The ranges of an index, in order. *)
Definition index_ranges (index : ExtentRangeMap logRecord T) : list (RangeValue logRecord) :=
  erm_Iterate index 0 (fun r l => (l ++ [r], true)) [].

(** Closing a log, and opening a closed log. *)
Lemma ww_CloseWriter_keeps (w w' : Writer T) (f f' : F) err :
  ww_CloseWriter w f = Ret (w', f', err) ->
  ww_index w' = ww_index w /\ ww_offset w' = ww_offset w /\ ww_end w' = ww_end w.
Proof.
  unfold ww_CloseWriter. destruct (negb (ww_open w)); [by intros [= <- _ _]|].
  destruct (ww_offset w =? 0); [by intros [= <- _ _]|]. destruct (makeLogEntry _ _ _ _) as [eb hs].
  intros ([[bw n] [e|]] & _ & E)%bind_Ret; [by injection E as <- _ _|].
  apply bind_Ret in E as (st & _ & E). destruct (cl_err st); [by injection E as <- _ _|].
  apply bind_Ret in E as ([[bw' n'] [e|]] & _ & E); [by injection E as <- _ _|].
  destruct (bw_Flush bw'). by injection E as <- _ _.
Qed.

Lemma writer_closed_reads hb ops (w : Writer T) f' :
  header_buf hb -> writer_ok hb ops w f' -> io_reliable f' -> Forall op_ok ops -> Forall is_write ops ->
  len (io_out f') < 2 ^ 63 ->
  len (index_section (index_ranges (ww_index w))) < 2 ^ 32 ->
  exists w' f'', ww_CloseWriter w f' = Ret (w', f'', None) /\ ww_open w' = false /\
    (exists x, io_out f'' = io_out f' ++ x) /\
    forall size, size = 0 \/ size = len (io_out f'') ->
      exists r : Reader T, NewReader (MkFile (io_out f'') false) size = Ret (r, None) /\
        log_reader_ok r (ops_view ops) /\ end_spec (ops_view ops) (wrd_Size r).
Proof.
  intros Hhb Hok Hrel1 Hops Hwr Hlen Hsec. pose proof Hok as [_ _ Hout1 _ Hidx _ Hdata].
  destruct (erm_Iterate_spec (ww_index w) 0 (io_wf _ _ _ Hidx) ltac:(lia)) as (l & Hruns & Hiter).
  unfold index_ranges in Hsec. rewrite Hiter, foldw_collect in Hsec. cbn [app] in Hsec.
  assert (Hz : forall k lr, erm_view (ww_index w) k = Some lr -> lr_zero lr = false)
    by (intros; by eapply Hdata).
  pose proof (runs_fit (ww_index w) (io_out f') _ l Hidx Hruns Hlen Hz) as Hfit.
  destruct (CloseWriter_ok hb ops w f' l Hok Hrel1 Hruns Hiter Hfit Hsec) as (w' & f'' & Ec & Hcl & Hout2).
  exists w', f''. split; [done|]. split; [done|]. split; [eauto|]. intros size [->|Hsize].
  - rewrite Hout2, Hout1.
    destruct (NewReader_scan hb ops (footer_entry ++ index_section l ++ trailer (index_section l)) 0)
      as (ix & end_ & fuel & Hi & He & ->); [done|done|done|by left|].
    rewrite load_footer. cbn [mbind outcome_bind]. eexists. split; [done|]. split; [|done].
    by apply (reader_reads _ _ end_).
  - destruct (readIndex_closed (MkWalReader (MkFile (io_out f'') false) 0 wal_header erm_zero) (io_out f'') (io_out f')
      (ww_index w) _ l Hidx Hz Hruns Hsec Hlen Hout2 eq_refl eq_refl) as (end' & ix & Er & Hi & He).
    assert (exists src, readHeader (io_out f'') (MkWalHeader 0 0 0 0) = (len (log_header hb), src, wal_header, None))
      as [src Hread].
    { eexists. rewrite Hout2, Hout1. unfold log_bytes. rewrite <- app_assoc. by apply readHeader_ok. }
    unfold NewReader. cbn [f_bytes]. rewrite Hread, Hsize. pose proof (len_nonneg (io_out f')).
    rewrite (proj2 (Z.ltb_lt 0 (len (io_out f'')))).
    2: { rewrite Hout2, len_app. pose proof (len_nonneg (index_section l ++ trailer (index_section l))).
         rewrite len_app. change (len footer_entry) with 8. lia. }
    cbn [wrd_header] in Er. rewrite Er. cbn [mbind outcome_bind]. eexists. split; [done|]. split; [|done].
    by apply (reader_reads _ _ end').
Qed.

Lemma log_closed_reads (f : F) op ops (w : Writer T) f' :
  io_reliable f -> io_out f = [] -> Forall op_ok (op :: ops) -> Forall is_write (op :: ops) ->
  run_ops NewWriter f (op :: ops) = Ret (w, f', None) ->
  len (io_out f') < 2 ^ 63 ->
  len (index_section (index_ranges (ww_index w))) < 2 ^ 32 ->
  exists w' f'', ww_CloseWriter w f' = Ret (w', f'', None) /\
    forall size, size = 0 \/ size = len (io_out f'') ->
      exists r : Reader T, NewReader (MkFile (io_out f'') false) size = Ret (r, None) /\
        log_reader_ok r (ops_view (op :: ops)) /\ end_spec (ops_view (op :: ops)) (wrd_Size r).
Proof.
  intros Hrel Hout Hops Hwr Erun Hlen Hsec. destruct header_buf_exists as [hb Hhb].
  destruct (run_ops_new (T := T) hb f op ops Hhb Hrel Hout Hops) as (w1 & f1 & E & Hok & Hrel1).
  rewrite Erun in E. injection E as <- <-.
  destruct (writer_closed_reads hb (op :: ops) w f') as (w' & f'' & Ec & _ & _ & Hr); [done..|]. by exists w', f''.
Qed.

(** C24: a log of writes that is closed is read back whole, without an error,
    through its index and also, when its size is not given, by a scan of its
    entries that stops at the footer. The index has a 32-bit size field. *)
Theorem wal_closed_roundtrip (f : F) op ops (w : Writer T) f' :
  io_reliable f -> io_out f = [] -> Forall op_ok (op :: ops) -> Forall is_write (op :: ops) ->
  run_ops NewWriter f (op :: ops) = Ret (w, f', None) ->
  len (io_out f') < 2 ^ 63 ->
  len (index_section (index_ranges (ww_index w))) < 2 ^ 32 ->
  exists w' f'', ww_CloseWriter w f' = Ret (w', f'', None) /\
    forall size, size = 0 \/ size = len (io_out f'') ->
      exists r : Reader T, NewReader (MkFile (io_out f'') false) size = Ret (r, None) /\
        log_reader_ok r (ops_view (op :: ops)) /\ end_spec (ops_view (op :: ops)) (wrd_Size r).
Proof. apply log_closed_reads. Qed.
End theorems.

(** ** Witnesses *)
Definition example_writes : list log_op := [LWrite 12 [9; 8]; LWrite 13 [7]].

Lemma example_writes_ok : Forall op_ok (LWrite 10 [1; 2; 3; 4] :: example_writes).
Proof.
  repeat constructor; cbn -[is_byte len MaxWriteSize]; try (vm_compute; done); try lia; vm_compute; congruence.
Qed.

Lemma example_writes_only : Forall is_write (LWrite 10 [1; 2; 3; 4] :: example_writes).
Proof. repeat constructor. Qed.

Lemma wal_read_your_writes_witness :
  exists (w : Writer (list_tree it_key)) f',
    run_ops NewWriter (MemLog [] []) [LWrite 10 [1; 2; 3; 4]; LWrite 12 [9; 8]; LTrim 11 1] = Ret (w, f', None) /\
    log_serves (NewReadableLog f' w) [LWrite 10 [1; 2; 3; 4]; LWrite 12 [9; 8]; LTrim 11 1].
Proof.
  destruct (wal_read_your_writes (T := list_tree it_key) (MemLog [] [])
    [LWrite 10 [1; 2; 3; 4]; LWrite 12 [9; 8]; LTrim 11 1]) as (w & f' & E & H);
    [reflexivity|reflexivity|repeat constructor; vm_compute; congruence|].
  exists w, f'. split; [exact E|exact H].
Defined.

Lemma wal_recovery_witness :
  exists hb (w : Writer (list_tree it_key)) f',
    run_ops NewWriter (MemLog [] []) (LWrite 10 [1; 2; 3; 4] :: example_writes) = Ret (w, f', None) /\
    io_out f' = log_bytes hb (LWrite 10 [1; 2; 3; 4] :: example_writes).
Proof.
  destruct (wal_recovery (T := list_tree it_key) (MemLog [] []) (LWrite 10 [1; 2; 3; 4]) example_writes)
    as (hb & w & f' & E & H & _); [reflexivity|reflexivity|exact example_writes_ok|exact example_writes_only|].
  exists hb, w, f'. split; [exact E|exact H].
Defined.

(** The state after the writes of the example. *)
Definition example_log : outcome (Writer (list_tree it_key) * mem_log * option error) :=
  Eval vm_compute in run_ops NewWriter (MemLog [] []) (LWrite 10 [1; 2; 3; 4] :: example_writes).

Lemma wal_closed_roundtrip_witness :
  exists (w w' : Writer (list_tree it_key)) f' f'',
    run_ops NewWriter (MemLog [] []) (LWrite 10 [1; 2; 3; 4] :: example_writes) = Ret (w, f', None) /\
    ww_CloseWriter w f' = Ret (w', f'', None) /\
    exists r : Reader (list_tree it_key), NewReader (MkFile (io_out f'') false) (len (io_out f'')) = Ret (r, None).
Proof.
  destruct example_log as [[[w f'] [err|]]| |] eqn:E; try discriminate E.
  assert (Hrun : run_ops NewWriter (MemLog [] []) (LWrite 10 [1; 2; 3; 4] :: example_writes) = Ret (w, f', None))
    by (rewrite <- E; vm_compute; reflexivity).
  injection E as <- <-.
  edestruct (wal_closed_roundtrip (T := list_tree it_key) (MemLog [] []) (LWrite 10 [1; 2; 3; 4]) example_writes)
    as (w' & f'' & Ec & Hr); [reflexivity|reflexivity|exact example_writes_ok|exact example_writes_only|exact Hrun
    |vm_compute; reflexivity|vm_compute; reflexivity|].
  destruct (Hr _ (or_intror eq_refl)) as (r & Er & _).
  do 4 eexists. split; [exact Hrun|]. split; [exact Ec|]. exists r. exact Er.
Defined.
