(* ===== verification/WalFaults.v ===== *)
(** * Where the write log falls short

    Behaviours of [internal/wal] that lose or misplace data: a write that looks
    like the end of a closed log, a log with a trim, and a write that failed half
    way. *)
From S2P Require Import Prelude Radix RangeMap ExtentRangeMap BlockReader GoStd Adaptor.
From S2P Require Import WalIndex WalFormat WalWriter WalLog WalReader WalLoad WalClose WalMem WalTheorems.
Local Open Scope Z_scope.

Section faults.
Context {F : Type} `{!LogFile F} `{!LogFileLaws F} `{!WalCodec} `{!WalCodecLaws}.
Context {T : Type} `{!RadixTree item it_key T} `{!RadixTreeLaws item it_key T}.

Lemma run_ops_log (f : F) ops op ops' :
  io_reliable f -> io_out f = [] -> Forall op_ok (ops ++ op :: ops') ->
  exists hb (w : Writer T) f', header_buf hb /\ run_ops NewWriter f (ops ++ op :: ops') = Ret (w, f', None) /\
    writer_ok hb (ops ++ op :: ops') w f'.
Proof.
  intros Hrel Hout Hops. destruct header_buf_exists as [hb Hhb].
  assert (exists op0 ops0, ops ++ op :: ops' = op0 :: ops0) as (op0 & ops0 & E) by (destruct ops; cbn; eauto).
  rewrite E in *. destruct (run_ops_new (T := T) hb f op0 ops0 Hhb Hrel Hout Hops) as (w & f' & Er & Hok & _). eauto 6.
Qed.

(** A log opened again from the bytes of its file. *)
Definition reopen (f : F) (size : Z) : outcome (Reader T * option error) :=
  NewReader (MkFile (io_out f) false) size.

(** The position in the log that the index records for an offset. *)
Definition recorded_at (w : Writer T) (off : Z) : option Z :=
  (fun rv => lr_logOffset (Value rv)) <$> GetWithRange (ww_index w) off.

(** The end of a closed log with an empty index. *)
Definition empty_trailer : bytes := zeros 8 ++ FooterMagic.

(** C25: a log that was not closed, and whose last write ends with the sixteen
    bytes of an empty index, is opened as an empty log: [NewReader] finds the
    magic number and a matching checksum, and returns without an error a reader
    in which every write is lost. *)
Theorem wal_forged_footer (f : F) ops off p :
  io_reliable f -> io_out f = [] -> Forall op_ok (ops ++ [LWrite off (p ++ empty_trailer)]) ->
  exists (w : Writer T) f' (r : Reader T),
    run_ops NewWriter f (ops ++ [LWrite off (p ++ empty_trailer)]) = Ret (w, f', None) /\
    reopen f' (len (io_out f')) = Ret (r, None) /\
    log_reader_ok r (fun _ => None) /\ wrd_Size r = 0.
Proof.
  intros Hrel Hout Hops. destruct (run_ops_log f ops _ [] Hrel Hout Hops) as (hb & w & f' & Hhb & Er & Hok).
  exists w, f'. pose proof (wo_out _ _ _ _ Hok) as Ho.
  assert (exists a, io_out f' = a ++ empty_trailer ++ []) as [a Ha].
  { rewrite Ho, log_bytes_snoc. cbn [op_entry]. unfold data_entry. rewrite app_nil_r, !app_assoc. eauto. }
  assert (exists src, readHeader (io_out f') (MkWalHeader 0 0 0 0) = (len (log_header hb), src, wal_header, None)) as [src Eh].
  { rewrite Ho. unfold log_bytes. eexists. by apply readHeader_ok. }
  pose proof (len_nonneg a). assert (len (io_out f') = len a + 16) as Hl.
  { rewrite Ha, !len_app. change (len empty_trailer) with 16. rewrite len_nil. lia. }
  exists (MkWalReader (MkFile (io_out f') false) 0 wal_header erm_zero). split; [done|]. split.
  - unfold reopen, NewReader. cbn [f_bytes]. rewrite Eh, (proj2 (Z.ltb_lt 0 _)) by lia.
    unfold readIndex. cbn [wrd_ra]. rewrite (proj2 (Z.ltb_ge _ 0)) by lia.
    replace (len (io_out f') - 16) with (len a) by lia.
    rewrite (file_read_mid (MkFile (io_out f') false) a empty_trailer [] (zeros 16) Ha) by done.
    cbn [f_eager andb f_bytes]. change (drop 8 empty_trailer) with FooterMagic. rewrite bool_decide_true by done.
    cbn [negb]. change (le_get (take 4 empty_trailer)) with 0. change (le_get (take 4 (drop 4 empty_trailer))) with 0.
    rewrite (proj2 (Z.ltb_ge _ 0)) by lia. done.
  - split; [|done]. apply (reader_reads _ _ 0); [done|apply index_ok_zero|by left].
Qed.


(** C27: after a write that failed when part of its entry was in the file, the
    writer goes on from its old offset: the next write that succeeds is recorded
    that many bytes before the place of its data. *)
Theorem wal_failed_write_misplaces hb ops (w : Writer T) (f : F) p off w1 f1 n1 err p2 off2 w2 f2 n2 :
  writer_ok hb ops w f -> Forall op_ok ops -> op_ok (LWrite off p) -> op_ok (LWrite off2 p2) ->
  ww_WriteAt w f p off = Ret (w1, f1, n1, Some err) ->
  ww_WriteAt w1 f1 p2 off2 = Ret (w2, f2, n2, None) ->
  recorded_at w2 off2 = Some (len (io_out f2) - len p2 - (len (io_out f1) - len (io_out f))).
Proof.
  intros Hok Hops Hop Hop2 E1 E2.
  destruct (write_step hb ops w f off p Hok Hops Hop) as (w' & f' & err' & Er & _ & Hw').
  cbn [run_op] in Er. rewrite E1 in Er. cbn [mbind outcome_bind] in Er. injection Er as <- <- <-. subst w1.
  destruct Hop2 as (Ho & [Hp Hmax] & Hlim & _). unfold ww_WriteAt in E2.
  rewrite (proj2 (Z.eqb_neq (len p2) 0)), (proj2 (Z.ltb_ge _ _)) in E2 by lia.
  assert (writeHeader w f1 = (w, f1, None)) as Eh by (unfold writeHeader; by rewrite (wo_once _ _ _ _ Hok)).
  rewrite Eh in E2. destruct (makeLogEntry_data off2 p2) as (e & Em & Hro & Hb & Hl); [lia|lia|].
  rewrite Em, (wo_open _ _ _ _ Hok) in E2. cbn [negb] in E2.
  destruct (writeLogEntry_ok lf_rf e f1 Hro) as (f3 & err3 & Ew & Hwr). rewrite Ew in E2. cbn [mbind outcome_bind] in E2.
  destruct err3 as [err3|]; [done|]. pose proof (wrote_all _ _ _ Hwr) as Ho3. rewrite u64_small in E2 by lia.
  destruct (erm_Add_spec (ww_index w) off2 (len p2) (MkLogRecord (ww_offset w + 16) off2 (len p2) false))
    as (ix & Ea & Hwf & Hv); [apply (io_wf _ _ _ (wo_index _ _ _ _ Hok))|lia|lia|lia|].
  rewrite Ea in E2. cbn [mbind outcome_bind] in E2. injection E2 as <- <- _. unfold recorded_at. cbn [ww_index].
  pose proof (erm_Get_GetWithRange ix off2) as Hg. rewrite erm_Get_spec, Hv in Hg by done. unfold view_add in Hg.
  rewrite bool_decide_true in Hg by lia. destruct (GetWithRange ix off2) as [rv|]; [|done].
  injection Hg as Hg. cbn [fmap option_fmap option_map]. rewrite <- Hg. cbn [lr_logOffset]. f_equal.
  rewrite Ho3, Hb, len_app, len_data_entry, (wo_offset _ _ _ _ Hok). lia.
Qed.
End faults.

(** ** Witnesses *)
Lemma wal_forged_footer_witness :
  exists (w : Writer (list_tree it_key)) f' (r : Reader (list_tree it_key)),
    run_ops NewWriter (MemLog [] []) ([LWrite 0 [1; 2]] ++ [LWrite 16 ([5] ++ empty_trailer)]) = Ret (w, f', None) /\
    reopen f' (len (io_out f')) = Ret (r, None) /\ wrd_Size r = 0.
Proof.
  destruct (wal_forged_footer (T := list_tree it_key) (MemLog [] []) [LWrite 0 [1; 2]] 16 [5])
    as (w & f' & r & E & Er & _ & Hs); [reflexivity|reflexivity|repeat constructor; vm_compute; congruence|].
  exists w, f', r. split; [exact E|]. split; [exact Er|exact Hs].
Defined.


(** A write of which 5 bytes reach the file, and a good one after it. *)
Definition state_of (o : outcome (Writer (list_tree it_key) * mem_log * option error)) :
    Writer (list_tree it_key) * bytes :=
  match o with Ret (w, f, _) => (w, ml_out f) | _ => (NewWriter, []) end.
Definition wstate_of (o : outcome (Writer (list_tree it_key) * mem_log * Z * option error)) :
    Writer (list_tree it_key) * bytes :=
  match o with Ret (w, f, _, _) => (w, ml_out f) | _ => (NewWriter, []) end.

Definition torn0 : Writer (list_tree it_key) * bytes := state_of (run_ops NewWriter (MemLog [] []) [LWrite 0 [1; 2]]).
Definition torn1 : Writer (list_tree it_key) * bytes := wstate_of (ww_WriteAt torn0.1 (MemLog torn0.2 [5]) [3; 4] 8).
Definition torn2 : Writer (list_tree it_key) * bytes := wstate_of (ww_WriteAt torn1.1 (MemLog torn1.2 []) [5; 6] 16).

Lemma torn_start : exists hb, writer_ok hb [LWrite 0 [1; 2]] torn0.1 (MemLog torn0.2 [5]).
Proof.
  destruct (run_ops_log (T := list_tree it_key) (MemLog [] []) [] (LWrite 0 [1; 2]) [])
    as (hb & w & f0 & _ & E & Hok); [reflexivity|reflexivity|repeat constructor; vm_compute; congruence|].
  cbn [app] in *. exists hb. unfold torn0. rewrite E. cbn [state_of fst snd]. destruct Hok; by split.
Qed.

Lemma torn_steps :
  ww_WriteAt torn0.1 (MemLog torn0.2 [5]) [3; 4] 8 = Ret (torn1.1, MemLog torn1.2 [], 0, Some ErrIO) /\
  ww_WriteAt torn1.1 (MemLog torn1.2 []) [5; 6] 16 = Ret (torn2.1, MemLog torn2.2 [], 2, None) /\
  len torn1.2 = len torn0.2 + 5.
Proof. vm_compute. repeat split; reflexivity. Qed.

Lemma op_ok_pair off a b : 0 <= off < 2 ^ 32 -> is_byte a -> is_byte b -> op_ok (LWrite off [a; b]).
Proof.
  intros Ho Ha Hb. cbn [op_ok]. change (len [a; b]) with 2. change MaxWriteSize with (2 ^ 22).
  split; [lia|]. split; [lia|]. split; [lia|]. apply Forall_cons. split; [done|]. by apply Forall_singleton.
Qed.

Lemma wal_failed_write_misplaces_witness :
  recorded_at torn2.1 16 = Some (len torn2.2 - 2 - 5).
Proof.
  destruct torn_start as [hb Hok]. destruct torn_steps as (E1 & E2 & _).
  pose proof (wal_failed_write_misplaces hb [LWrite 0 [1; 2]] torn0.1 (MemLog torn0.2 [5]) [3; 4] 8
    torn1.1 (MemLog torn1.2 []) 0 ErrIO [5; 6] 16 torn2.1 (MemLog torn2.2 []) 2 Hok) as Ho.
  rewrite Ho; [|constructor; [|constructor]| | |exact E1|exact E2]; try (apply op_ok_pair; unfold is_byte; lia).
  reflexivity.
Defined.
