(* ===== verification/SparseFormat.v ===== *)
(** * The on-disk format of a sparse table

    [internal/sparseblock/builder.go]: the entries of the index and their
    encoding, with [encoding/binary.LittleEndian]. A range entry takes 16 bytes,
    two 48-bit block numbers of which the first shares its word with the number
    of block entries; a block entry takes 3 bytes, a 16-bit offset from the start
    of its range and a 7-bit length with a type bit. *)
From S2P Require Import Prelude RangeMap BlockReader GoStd.
Local Open Scope Z_scope.

(** ** Constants *)
Definition maxRangeEntries : Z := 64.
Definition maxEntryLength : Z := Z.shiftl 1 7 - 1.
Definition rangeEntrySize : Z := 16.
Definition blockEntrySize : Z := 3.
Definition MaxBlocks : Z := Z.shiftl 1 48.
Definition blockMask : Z := Z.shiftl 1 48 - 1.
Definition MaxUint16 : Z := 2 ^ 16 - 1.

(** ["sparseblock\x31\x41\x59\x26\x53"] *)
Definition Magic : bytes :=
  [115; 112; 97; 114; 115; 101; 98; 108; 111; 99; 107; 49; 65; 89; 38; 83].

Inductive EntryType := EntryType_Data | EntryType_Hole.
Definition EntryType_code (t : EntryType) : Z :=
  match t with EntryType_Data => 0 | EntryType_Hole => 1 end.

(** ** Range entries *)
Record rangeEntry := MkRangeEntry {
  re_startOffset : Z;
  re_dataOffset : Z;
  re_numEntries : Z;
  re_firstEntryIndex : Z;
}.

Definition re_marshalAppend (e : rangeEntry) (b : bytes) : bytes :=
  let buf := le_put 8 (Z.land (u64 (re_startOffset e)) blockMask) ++
             le_put 8 (Z.land (u64 (re_dataOffset e)) blockMask) in
  b ++ <[6%nat := u8 (re_numEntries e)]> buf.

(** [unmarshal] leaves [firstEntryIndex] as it was. *)
Definition re_unmarshal (e : rangeEntry) (buf : bytes) : outcome rangeEntry :=
  lo ← slice_to buf 8;
  hi' ← slice_to buf 16;
  hi ← slice_from hi' 8;
  n ← of_option (buf !! 6%nat);
  Ret (MkRangeEntry (Z.land (i64 (le_get lo)) blockMask) (Z.land (i64 (le_get hi)) blockMask) n
         (re_firstEntryIndex e)).

(** ** Block entries *)
Record blockEntry := MkBlockEntry { be_offset : Z; be_lengthType : Z }.

Definition be_marshalAppend (e : blockEntry) (b : bytes) : bytes :=
  b ++ le_put 2 (be_offset e) ++ [be_lengthType e].

Definition be_unmarshal (buf : bytes) : outcome blockEntry :=
  b0 ← of_option (buf !! 0%nat);
  b1 ← of_option (buf !! 1%nat);
  b2 ← of_option (buf !! 2%nat);
  Ret (MkBlockEntry (Z.lor (u16 b0) (u16 (Z.shiftl (u16 b1) 8))) b2).

Definition be_setLengthType (e : blockEntry) (length : Z) (typ : EntryType) : outcome blockEntry :=
  if (length <? 0) || (maxEntryLength <? length) then Panic
  else Ret (MkBlockEntry (be_offset e) (Z.lor (u8 (Z.shiftl length 1)) (u8 (EntryType_code typ)))).

Definition be_length (e : blockEntry) : Z := Z.shiftr (be_lengthType e) 1.

(** ** Encoding and decoding *)
Lemma mask_mod x : Z.land x blockMask = x mod 2 ^ 48.
Proof. apply (Z.land_ones x 48). lia. Qed.

(** ** Round trips of the entries *)
Definition re_ok (e : rangeEntry) : Prop :=
  0 <= re_startOffset e < 2 ^ 48 /\ 0 <= re_dataOffset e < 2 ^ 48 /\ is_byte (re_numEntries e).

Definition re_encode (e : rangeEntry) : bytes := re_marshalAppend e [].

Lemma re_marshalAppend_encode e b : re_marshalAppend e b = b ++ re_encode e.
Proof. done. Qed.

Lemma re_encode_eq e :
  re_ok e ->
  re_encode e = (le_put 6 (re_startOffset e) ++ [re_numEntries e; 0]) ++ le_put 8 (re_dataOffset e).
Proof.
  intros ((? & ?) & (? & ?) & Hn). unfold re_encode, re_marshalAppend. cbn [app].
  rewrite !u64_small, !mask_mod, !Z.mod_small by lia.
  rewrite insert_app_l by (rewrite length_le_put; lia). f_equal.
  rewrite (le_put_split 6 2), Z.shiftr_div_pow2 by lia. rewrite Z.div_small by lia.
  rewrite insert_app_r_alt by (rewrite length_le_put; lia). rewrite length_le_put.
  rewrite (u8_small (re_numEntries e)) by done. done.
Qed.

Lemma length_re_encode e : length (re_encode e) = 16%nat.
Proof.
  unfold re_encode, re_marshalAppend. cbn [app]. by rewrite length_insert, length_app, !length_le_put.
Qed.

Lemma re_unmarshal_encode e e0 rest :
  re_ok e -> re_unmarshal e0 (re_encode e ++ rest) =
  Ret (MkRangeEntry (re_startOffset e) (re_dataOffset e) (re_numEntries e) (re_firstEntryIndex e0)).
Proof.
  intros Hok. pose proof Hok as ((? & ?) & (? & ?) & Hn). unfold is_byte in Hn.
  rewrite re_encode_eq by done. unfold re_unmarshal.
  set (lo := le_put 6 (re_startOffset e) ++ [re_numEntries e; 0]).
  set (hi := le_put 8 (re_dataOffset e)).
  assert (Hlo : len lo = 8) by (unfold lo; rewrite len_app, len_le_put; done).
  assert (Hhi : len hi = 8) by (unfold hi; by rewrite len_le_put).
  pose proof (len_nonneg rest).
  assert (slice_to ((lo ++ hi) ++ rest) 8 = Ret lo) as ->.
  { by rewrite slice_to_ok by (rewrite !len_app; lia). }
  assert (slice_to ((lo ++ hi) ++ rest) 16 = Ret (lo ++ hi)) as ->.
  { by rewrite slice_to_ok by (rewrite !len_app; lia). }
  cbn [mbind outcome_bind].
  assert (slice_from (lo ++ hi) 8 = Ret hi) as ->.
  { by rewrite slice_from_ok by (rewrite !len_app; lia). }
  cbn [mbind outcome_bind].
  assert (((lo ++ hi) ++ rest) !! 6%nat = Some (re_numEntries e)) as ->.
  { unfold lo. rewrite <- !app_assoc. rewrite lookup_app_r by (rewrite length_le_put; lia).
    by rewrite length_le_put. }
  cbn [mbind outcome_bind of_option].
  assert (le_get lo = re_startOffset e + re_numEntries e * 2 ^ 48) as ->.
  { unfold lo. rewrite le_get_put_app by (cbn; lia). rewrite le_get_cons by done.
    change (le_get [0]) with 0. change (8 * Z.of_nat 6) with 48. lia. }
  unfold hi. rewrite le_get_put by (cbn; lia). rewrite !i64_small, !mask_mod by lia.
  rewrite Z.mod_add, !Z.mod_small by lia. done.
Qed.

Definition be_ok (e : blockEntry) : Prop := 0 <= be_offset e < 2 ^ 16 /\ is_byte (be_lengthType e).

Definition be_encode (e : blockEntry) : bytes := be_marshalAppend e [].

Lemma length_be_encode e : length (be_encode e) = 3%nat.
Proof. done. Qed.

Lemma be_unmarshal_encode e rest : be_ok e -> be_unmarshal (be_encode e ++ rest) = Ret e.
Proof.
  intros [Ho Hl]. unfold be_unmarshal, be_encode, be_marshalAppend. cbn -[u8 u16 Z.shiftr Z.shiftl Z.lor].
  destruct e as [o lt]. cbn [be_offset be_lengthType] in *. do 2 f_equal.
  assert (Hr : Z.shiftr o 8 = o / 2 ^ 8) by (rewrite Z.shiftr_div_pow2; lia). rewrite Hr.
  assert (0 <= o / 2 ^ 8 < 2 ^ 8).
  { split; [apply Z.div_pos; lia|]. apply Z.div_lt_upper_bound; lia. }
  pose proof (u8_byte o) as Hb. unfold is_byte in Hb.
  rewrite (u8_small (o / 2 ^ 8)) by lia. rewrite (u16_small (u8 o)), (u16_small (o / 2 ^ 8)) by lia.
  rewrite Z.shiftl_mul_pow2 by lia. rewrite u16_small by lia.
  rewrite <- Z.shiftl_mul_pow2, lor_disjoint by lia.
  unfold u8. pose proof (Z.div_mod o (2 ^ 8) ltac:(lia)). lia.
Qed.

Lemma be_setLengthType_ok o length :
  0 <= length <= maxEntryLength ->
  be_setLengthType (MkBlockEntry o 0) length EntryType_Data = Ret (MkBlockEntry o (2 * length)) /\
  be_length (MkBlockEntry o (2 * length)) = length.
Proof.
  intros Hl. change maxEntryLength with 127 in Hl. split.
  - unfold be_setLengthType. change maxEntryLength with 127.
    rewrite (proj2 (Z.ltb_ge length 0)), (proj2 (Z.ltb_ge 127 length)) by lia. cbn [orb be_offset].
    rewrite Z.shiftl_mul_pow2 by lia. rewrite (u8_small (length * 2 ^ 1)) by lia.
    cbn [EntryType_code]. rewrite u8_small, Z.lor_0_r by lia. do 2 f_equal. lia.
  - unfold be_length. cbn [be_lengthType]. rewrite Z.shiftr_div_pow2 by lia.
    replace (2 * length) with (length * 2 ^ 1) by lia. apply Z.div_mul. lia.
Qed.

(** The index entries survive their encoding: a range entry with 48-bit
    block numbers and at most 255 entries, and a block entry of any offset and
    length, are read back as they were written, whatever bytes follow. *)
Theorem sparse_entries_roundtrip re be first rest :
  re_ok re -> be_ok be ->
  re_unmarshal (MkRangeEntry 0 0 0 first) (re_marshalAppend re [] ++ rest) =
    Ret (MkRangeEntry (re_startOffset re) (re_dataOffset re) (re_numEntries re) first) /\
  be_unmarshal (be_marshalAppend be [] ++ rest) = Ret be.
Proof. intros Hre Hbe. split; [by apply re_unmarshal_encode|by apply be_unmarshal_encode]. Qed.

Lemma sparse_entries_roundtrip_witness :
  re_unmarshal (MkRangeEntry 0 0 0 5) (re_marshalAppend (MkRangeEntry 70000 12 64 0) [] ++ [1]) =
    Ret (MkRangeEntry 70000 12 64 5) /\
  be_unmarshal (be_marshalAppend (MkBlockEntry 1000 254) [] ++ [1]) = Ret (MkBlockEntry 1000 254).
Proof.
  apply (sparse_entries_roundtrip (MkRangeEntry 70000 12 64 0) (MkBlockEntry 1000 254) 5 [1]).
  - unfold re_ok, is_byte. cbn. lia.
  - unfold be_ok, is_byte. cbn. lia.
Defined.
