(* ===== verification/SparseBuilder.v ===== *)
(** * Building a sparse table

    [internal/sparseblock/builder.go]: [Builder.AddBlocks] records runs of blocks
    and encodes their index, [Builder.Build] writes the header, the index and the
    data. The destination is the sequence of bytes written to it; writes to it
    succeed. [proto.Marshal] of the header is a parameter. *)
From S2P Require Import Prelude RangeMap BlockReader GoStd SparseFormat.
Local Open Scope Z_scope.

(** ** The header message, [internal/sparseblock/pb/sparseblock.proto] *)
Record Header := MkHeader {
  Version : Z;
  BlockSize : Z;
  NumRangeEntries : Z;
  RangeEntrySize : Z;
  NumBlockEntries : Z;
  BlockEntrySize : Z;
  TotalBlocks : Z;
  TotalDataBlocks : Z;
  EndBlock : Z;
}.

(** [proto.Marshal] and [proto.Unmarshal] at the type [pb.Header]. *)
Class HeaderCodec := {
  pb_marshal : Header -> bytes + error;
  pb_unmarshal : bytes -> Header + error;
}.

(** The fields fit the types of the message. *)
Definition header_fits (h : Header) : Prop :=
  0 <= Version h < 2 ^ 32 /\ 0 <= BlockSize h < 2 ^ 32 /\ 0 <= NumRangeEntries h < 2 ^ 32 /\
  0 <= RangeEntrySize h < 2 ^ 32 /\ 0 <= NumBlockEntries h < 2 ^ 32 /\
  0 <= BlockEntrySize h < 2 ^ 32 /\ 0 <= TotalBlocks h < 2 ^ 64 /\
  0 <= TotalDataBlocks h < 2 ^ 64 /\ 0 <= EndBlock h < 2 ^ 64.

(** A header with such fields is encoded in less than 4 GB, and decoded to
    itself. *)
Class HeaderCodecLaws `{!HeaderCodec} := {
  pb_roundtrip h : header_fits h ->
    exists b, pb_marshal h = inl b /\ len b < 2 ^ 32 /\ pb_unmarshal b = inl h;
}.

(** ** The builder *)

(** An [io.Reader] is the bytes it delivers before it fails with [rd_err], or
    before [io.EOF] when that is [None]. *)
Record io_reader := MkIoReader { rd_bytes : bytes; rd_err : option error }.

Record indexEntry := MkIndexEntry {
  ie_offset : Z;
  ie_length : Z;
  ie_r : io_reader;
  ie_eType : EntryType;
}.

(** The list from [entryHead] to [entryTail] is [bd_entries]. *)
Record Builder := MkBuilder {
  bd_w : bytes;
  bd_blockSize : Z;
  bd_entries : list indexEntry;
  bd_dataOffset : Z;
  bd_ranges : list rangeEntry;
  bd_blockEntryBuf : bytes;
  bd_totalBlocks : Z;
  bd_totalDataBlocks : Z;
  bd_prevEnd : Z;
}.

Definition NewBuilder (blockSize : Z) : Builder := MkBuilder [] blockSize [] 0 [] [] 0 0 0.

Definition re_incr (e : rangeEntry) : rangeEntry :=
  MkRangeEntry (re_startOffset e) (re_dataOffset e) (re_numEntries e + 1) (re_firstEntryIndex e).

(** The loop of [AddBlocks]. [currRange] points to the last element of
    [b.ranges]; [done] are the others. Each iteration encodes up to 127 blocks. *)
Fixpoint add_entries (fuel : nat) (offset length : Z) (done : list rangeEntry)
    (currRange : rangeEntry) (buf : bytes) (dataOffset eOffset : Z) :
    outcome (list rangeEntry * bytes * Z) :=
  match fuel with
  | O => OutOfFuel
  | S fuel =>
      if eOffset <? length then
        let blockOffset := offset + eOffset in
        let '(done, currRange) :=
          if (maxRangeEntries <=? re_numEntries currRange) ||
             (MaxUint16 <? blockOffset - re_startOffset currRange)
          then (done ++ [currRange], MkRangeEntry blockOffset dataOffset 0 0)
          else (done, currRange) in
        let eLen := length - eOffset in
        let eLen := if maxEntryLength <? eLen then maxEntryLength else eLen in
        let be := MkBlockEntry (u16 (blockOffset - re_startOffset currRange)) 0 in
        be ← be_setLengthType be eLen EntryType_Data;
        add_entries fuel offset length done (re_incr currRange) (be_marshalAppend be buf)
          (dataOffset + eLen) (eOffset + eLen)
      else Ret (done ++ [currRange], buf, dataOffset)
  end.

Definition AddBlocks (b : Builder) (offset length : Z) (r : io_reader) : outcome Builder :=
  if (offset <? 0) || (length <? 0) then Panic
  else if MaxBlocks <? length then Panic
  else if MaxBlocks <? bd_dataOffset b + length then Panic
  else if offset <? bd_prevEnd b then Panic
  else if length =? 0 then Ret b
  else
    let entry := MkIndexEntry offset length r EntryType_Data in
    let ranges :=
      match bd_ranges b with [] => [MkRangeEntry offset 0 0 0] | l => l end in
    currRange ← of_option (last ranges);
    '(ranges, buf, dataOffset) ←
      add_entries (Z.to_nat (length / maxEntryLength + 2)) offset length (removelast ranges) currRange
        (bd_blockEntryBuf b) (bd_dataOffset b) 0;
    Ret (MkBuilder (bd_w b) (bd_blockSize b) (bd_entries b ++ [entry]) dataOffset ranges buf
           (bd_totalBlocks b + length) (bd_totalDataBlocks b + length) (offset + length)).

Definition writeIndex (b : Builder) (w : bytes) : bytes :=
  fold_left (fun w h => w ++ re_marshalAppend h []) (bd_ranges b) w ++ bd_blockEntryBuf b.

Definition builder_header (b : Builder) : Header :=
  MkHeader 1 (u32 (bd_blockSize b)) (u32 (Z.of_nat (length (bd_ranges b)))) rangeEntrySize
    (u32 (len (bd_blockEntryBuf b) / blockEntrySize)) blockEntrySize (u64 (bd_totalBlocks b))
    (u64 (bd_totalDataBlocks b)) (u64 (bd_prevEnd b)).

(** [b.w.ReadFrom(lr)] with [lr] limited to [n] bytes: the bytes copied, and the
    error of the reader when it fails before the limit. *)
Definition ReadFrom (r : io_reader) (n : Z) : bytes * option error :=
  (take (Z.to_nat n) (rd_bytes r), if len (rd_bytes r) <? n then rd_err r else None).

(** The loop over the entries: what has been written, with an error or the
    number of blocks written. *)
Fixpoint write_data (blockSize : Z) (es : list indexEntry) (w : bytes) (writtenBlocks : Z) :
    bytes * (error + Z) :=
  match es with
  | [] => (w, inr writtenBlocks)
  | e :: es =>
      match ie_eType e with
      | EntryType_Hole => write_data blockSize es w writtenBlocks
      | EntryType_Data =>
          let byteLength := ie_length e * blockSize in
          let '(data, err) := ReadFrom (ie_r e) byteLength in
          match err with
          | Some err => (w ++ data, inl err)
          | None =>
              if negb (len data =? byteLength) then (w ++ data, inl ErrShortRead)
              else write_data blockSize es (w ++ data) (writtenBlocks + ie_length e)
          end
      end
  end.

(** What [Build] has written to the destination, and its error. *)
Definition Build `{!HeaderCodec} (b : Builder) : outcome (bytes * option error) :=
  match pb_marshal (builder_header b) with
  | inr err => Ret (bd_w b, Some err)
  | inl headerBuf =>
      let w := bd_w b ++ Magic ++ le_put 4 (u32 (len headerBuf)) ++ headerBuf in
      let w := writeIndex b w in
      let '(w, res) := write_data (bd_blockSize b) (bd_entries b) w 0 in
      match res with
      | inl err => Ret (w, Some err)
      | inr writtenBlocks =>
          if negb (writtenBlocks =? bd_totalDataBlocks b) then Panic else Ret (w, None)
      end
  end.

(** ** The index as a list of groups of runs

    A run is an offset and a length in blocks. The index is a list of groups, a
    group the start of a range entry with its runs. *)
Abbreviation run := (Z * Z)%type.
Abbreviation group := (Z * list run)%type.

Definition run_total (l : list run) : Z := foldr (fun e s => e.2 + s) 0 l.

(** The position in the data, in blocks, of block [k]. *)
Fixpoint data_index (d : Z) (l : list run) (k : Z) : option Z :=
  match l with
  | [] => None
  | (o, n) :: l' => if (o <=? k) && (k <? o + n) then Some (d + (k - o)) else data_index (d + n) l' k
  end.

(** Runs at or after [lo], in order, each of 1 to [m] blocks. *)
Fixpoint runs_ok (m lo : Z) (l : list run) : Prop :=
  match l with
  | [] => True
  | (o, n) :: l' => lo <= o /\ 1 <= n <= m /\ runs_ok m (o + n) l'
  end.

Fixpoint runs_end (lo : Z) (l : list run) : Z :=
  match l with [] => lo | (o, n) :: l' => runs_end (o + n) l' end.

Definition flat (gs : list group) : list run := mjoin (snd <$> gs).

Fixpoint ranges_of (d : Z) (gs : list group) : list rangeEntry :=
  match gs with
  | [] => []
  | (s, es) :: gs' => MkRangeEntry s d (Z.of_nat (length es)) 0 :: ranges_of (d + run_total es) gs'
  end.

Definition run_encode (s : Z) (e : run) : bytes := be_encode (MkBlockEntry (e.1 - s) (2 * e.2)).
Definition group_encode (g : group) : bytes := mjoin (run_encode g.1 <$> g.2).
Definition entries_of (gs : list group) : bytes := mjoin (group_encode <$> gs).

Record group_ok (g : group) : Prop := {
  go_size : (length g.2 <= 64)%nat;
  go_near e : e ∈ g.2 -> 0 <= e.1 - g.1 <= 65535;
}.

(** Each group starts after the end of the one before. *)
Fixpoint groups_ok (lo : Z) (gs : list group) : Prop :=
  match gs with
  | [] => True
  | (s, es) :: gs' => lo <= s /\ group_ok (s, es) /\ runs_ok 127 s es /\ groups_ok (runs_end s es) gs'
  end.

Fixpoint groups_end (lo : Z) (gs : list group) : Z :=
  match gs with [] => lo | (s, es) :: gs' => groups_end (runs_end s es) gs' end.

Lemma run_total_app l1 l2 : run_total (l1 ++ l2) = run_total l1 + run_total l2.
Proof. unfold run_total. induction l1 as [|[o n] l1 IH]; cbn; lia. Qed.

Lemma data_index_app d l1 l2 k :
  data_index d (l1 ++ l2) k =
  match data_index d l1 k with Some i => Some i | None => data_index (d + run_total l1) l2 k end.
Proof.
  revert d. induction l1 as [|[o n] l1 IH]; intros d; cbn.
  - by rewrite Z.add_0_r.
  - destruct (_ && _); [done|]. rewrite IH. unfold run_total. cbn. by rewrite Z.add_assoc.
Qed.

Lemma runs_end_app lo l1 l2 : runs_end lo (l1 ++ l2) = runs_end (runs_end lo l1) l2.
Proof. revert lo. induction l1 as [|[o n] l1 IH]; intros lo; cbn; [done|]. apply IH. Qed.

Lemma runs_ok_app m lo l1 l2 :
  runs_ok m lo (l1 ++ l2) <-> runs_ok m lo l1 /\ runs_ok m (runs_end lo l1) l2.
Proof.
  revert lo. induction l1 as [|[o n] l1 IH]; intros lo; cbn; [tauto|]. rewrite IH. tauto.
Qed.

Lemma runs_end_ge m lo l : runs_ok m lo l -> lo <= runs_end lo l.
Proof. revert lo. induction l as [|[o n] l IH]; intros lo; cbn; [lia|]. intros (? & ? & ?%IH). lia. Qed.

Lemma runs_ok_bounds m lo l e :
  runs_ok m lo l -> e ∈ l -> lo <= e.1 /\ 1 <= e.2 <= m /\ e.1 + e.2 <= runs_end lo l.
Proof.
  revert lo. induction l as [|[o n] l IH]; intros lo; cbn; [by intros _ ?%elem_of_nil|].
  intros (? & ? & Hl). pose proof (runs_end_ge _ _ _ Hl).
  intros [->|He]%elem_of_cons; [cbn; lia|]. destruct (IH _ Hl He). lia.
Qed.

Lemma run_total_nonneg m lo l : runs_ok m lo l -> 0 <= run_total l.
Proof.
  revert lo. induction l as [|[o n] l IH]; intros lo; cbn; [lia|]. intros (? & ? & ?%IH).
  unfold run_total in *. lia.
Qed.

(** The runs take at most the space they span. *)
Lemma run_total_end m lo l : runs_ok m lo l -> run_total l <= runs_end lo l - lo.
Proof.
  revert lo. induction l as [|[o n] l IH]; intros lo; cbn; [lia|]. intros (? & ? & ?%IH).
  unfold run_total in *. lia.
Qed.

Lemma flat_snoc gs s es : flat (gs ++ [(s, es)]) = flat gs ++ es.
Proof. unfold flat. rewrite fmap_app, join_app. cbn. by rewrite app_nil_r. Qed.

Lemma flat_cons s es gs : flat ((s, es) :: gs) = es ++ flat gs.
Proof. done. Qed.

Lemma ranges_of_app d gs1 gs2 :
  ranges_of d (gs1 ++ gs2) = ranges_of d gs1 ++ ranges_of (d + run_total (flat gs1)) gs2.
Proof.
  revert d. induction gs1 as [|[s es] gs1 IH]; intros d.
  - cbn. by rewrite Z.add_0_r.
  - rewrite flat_cons, run_total_app. cbn. by rewrite IH, Z.add_assoc.
Qed.

Lemma entries_of_app gs1 gs2 : entries_of (gs1 ++ gs2) = entries_of gs1 ++ entries_of gs2.
Proof. unfold entries_of. by rewrite fmap_app, join_app. Qed.

Lemma groups_end_app lo gs1 gs2 : groups_end lo (gs1 ++ gs2) = groups_end (groups_end lo gs1) gs2.
Proof. revert lo. induction gs1 as [|[s es] gs1 IH]; intros lo; cbn; [done|]. apply IH. Qed.

Lemma groups_ok_app lo gs1 gs2 :
  groups_ok lo (gs1 ++ gs2) <-> groups_ok lo gs1 /\ groups_ok (groups_end lo gs1) gs2.
Proof. revert lo. induction gs1 as [|[s es] gs1 IH]; intros lo; cbn; [tauto|]. rewrite IH. tauto. Qed.

Lemma groups_end_flat lo gs :
  groups_ok lo gs -> runs_ok 127 lo (flat gs) /\ runs_end lo (flat gs) <= groups_end lo gs.
Proof.
  revert lo. induction gs as [|[s es] gs IH]; intros lo; [cbn; lia|]. rewrite flat_cons.
  cbn [groups_ok groups_end]. intros (Hlo & Hg & Hes & Hgs).
  rewrite runs_ok_app, runs_end_app. destruct (IH _ Hgs) as [H1 H2].
  destruct es as [|[o n] es]; cbn in *; [|split; [split; [|done]; intuition lia|done]].
  split.
  - split; [done|]. destruct (flat gs) as [|[o n] l]; cbn in *; [done|]. intuition lia.
  - destruct (flat gs) as [|[o n] l]; cbn in *; lia.
Qed.

(** Runs without a gap, from [o] on. *)
Fixpoint contig (o : Z) (l : list run) : Prop :=
  match l with
  | [] => True
  | (a, n) :: l' => a = o /\ 1 <= n /\ contig (o + n) l'
  end.

Lemma data_index_contig d o l k :
  contig o l -> data_index d l k = if (o <=? k) && (k <? o + run_total l) then Some (d + (k - o)) else None.
Proof.
  revert d o. induction l as [|[a n] l IH]; intros d o.
  - cbn. intros _. destruct (Z.leb_spec o k), (Z.ltb_spec k (o + 0)); cbn; done || lia.
  - cbn [contig data_index]. intros (-> & Hn & Hl). rewrite (IH _ _ Hl).
    change (run_total ((o, n) :: l)) with (n + run_total l).
    assert (0 <= run_total l).
    { clear -Hl. revert Hl. generalize (o + n). induction l as [|[a m] l IH]; intros p; cbn; [lia|].
      intros (_ & ? & ?%IH). unfold run_total in *. lia. }
    destruct (Z.leb_spec o k), (Z.ltb_spec k (o + n)), (Z.leb_spec (o + n) k),
      (Z.ltb_spec k (o + n + run_total l)), (Z.ltb_spec k (o + (n + run_total l)));
      cbn; try lia; try done. f_equal. lia.
Qed.

(** The loop's state: the groups [gs] finished and the current one. *)
Record adding (gs : list group) (s : Z) (es : list run) (pos : Z) : Prop := {
  ad_ok : groups_ok 0 (gs ++ [(s, es)]);
  ad_end : groups_end 0 (gs ++ [(s, es)]) <= pos;
  ad_full : Forall (fun g => g.2 <> []) gs;
  ad_start : es = [] -> s = pos;
}.

Lemma groups_end_ge lo gs : groups_ok lo gs -> lo <= groups_end lo gs.
Proof.
  revert lo. induction gs as [|[s es] gs IH]; intros lo; cbn; [lia|].
  intros (? & _ & ?%runs_end_ge & ?%IH). lia.
Qed.

Lemma adding_start gs s es pos : adding gs s es pos -> 0 <= s <= pos.
Proof.
  intros [Hok Hend _ _]. apply groups_ok_app in Hok as (Hgs%groups_end_ge & Hs & _ & Hes & _).
  rewrite groups_end_app in Hend. cbn in Hend. apply runs_end_ge in Hes. lia.
Qed.

(** A run joins the current group. *)
Lemma adding_run gs s es pos n :
  adding gs s es pos -> (length es < 64)%nat -> pos - s <= 65535 -> 1 <= n <= 127 ->
  adding gs s (es ++ [(pos, n)]) (pos + n).
Proof.
  intros Had Hlen Hnear Hn. pose proof (adding_start _ _ _ _ Had). destruct Had as [Hok Hend Hfull Hst].
  rewrite groups_end_app in Hend. cbn in Hend. split.
  - rewrite groups_ok_app in *. destruct Hok as (Hgs & Hs & [Hsz Hnr] & Hes & _).
    split; [done|]. cbn. split; [done|]. split; [|split; [|done]].
    + split; cbn; [rewrite length_app; cbn; lia|].
      intros e [He| ->%list_elem_of_singleton]%elem_of_app; [by apply Hnr|cbn; lia].
    + rewrite runs_ok_app. split; [done|]. cbn. lia.
  - rewrite groups_end_app. cbn. rewrite runs_end_app. cbn. lia.
  - done.
  - by destruct es.
Qed.

(** A new group begins. *)
Lemma adding_group gs s es pos :
  adding gs s es pos -> es <> [] -> adding (gs ++ [(s, es)]) pos [] pos.
Proof.
  intros [Hok Hend Hfull _] Hne. split.
  - rewrite groups_ok_app. split; [done|]. cbn. split; [done|]. split; [|done].
    split; cbn; [lia|]. by intros e ?%elem_of_nil.
  - by rewrite groups_end_app.
  - apply Forall_app. split; [done|]. by repeat constructor.
  - done.
Qed.

Definition state_of (gs : list group) (s : Z) (es : list run) : rangeEntry :=
  MkRangeEntry s (run_total (flat gs)) (Z.of_nat (length es)) 0.

Lemma ranges_of_state gs s es : ranges_of 0 (gs ++ [(s, es)]) = ranges_of 0 gs ++ [state_of gs s es].
Proof. rewrite ranges_of_app. done. Qed.

(** The group the next run goes to. *)
Lemma pick_group gs s es pos :
  adding gs s es pos ->
  let old := gs ++ [(s, es)] in
  exists gs1 s1 es1,
    (if (maxRangeEntries <=? re_numEntries (state_of gs s es)) ||
        (MaxUint16 <? pos - re_startOffset (state_of gs s es))
     then (ranges_of 0 gs ++ [state_of gs s es], MkRangeEntry pos (run_total (flat old)) 0 0)
     else (ranges_of 0 gs, state_of gs s es)) = (ranges_of 0 gs1, state_of gs1 s1 es1) /\
    adding gs1 s1 es1 pos /\ (length es1 < 64)%nat /\ pos - s1 <= 65535 /\
    flat (gs1 ++ [(s1, es1)]) = flat old /\ entries_of (gs1 ++ [(s1, es1)]) = entries_of old.
Proof.
  intros Had old. unfold state_of at 1 2. cbn [re_numEntries re_startOffset].
  change maxRangeEntries with 64. change MaxUint16 with 65535.
  destruct (_ || _) eqn:Eb.
  - exists old, pos, []. split; [by rewrite <- ranges_of_state|]. split.
    + apply adding_group; [done|]. intros ->. pose proof (ad_start _ _ _ _ Had eq_refl).
      apply orb_true_iff in Eb as [Eb|Eb]; [done|lia].
    + split; [cbn; lia|]. split; [lia|]. split; [by rewrite flat_snoc, app_nil_r|].
      rewrite entries_of_app. cbn. by rewrite app_nil_r.
  - apply orb_false_iff in Eb as [Eb1 Eb2].
    exists gs, s, es. split; [done|]. split; [done|]. split; [lia|]. split; [lia|done].
Qed.

Lemma add_entries_ok offset length :
  forall fuel gs s es eOffset,
    0 <= eOffset <= length -> length - eOffset <= 127 * (Z.of_nat fuel - 1) ->
    adding gs s es (offset + eOffset) -> (es = [] -> eOffset < length) ->
    let old := gs ++ [(s, es)] in
    exists gs' c,
      add_entries fuel offset length (ranges_of 0 gs) (state_of gs s es) (entries_of old)
        (run_total (flat old)) eOffset =
      Ret (ranges_of 0 gs', entries_of gs', run_total (flat old) + (length - eOffset)) /\
      groups_ok 0 gs' /\ groups_end 0 gs' <= offset + length /\ Forall (fun g => g.2 <> []) gs' /\
      gs' <> [] /\
      flat gs' = flat old ++ c /\ contig (offset + eOffset) c /\ run_total c = length - eOffset.
Proof.
  induction fuel as [|fuel IH]; intros gs s es eOffset He Hf Had Hne old; [lia|].
  cbn [add_entries]. destruct (Z.ltb_spec eOffset length) as [Hlt|Hge].
  2: { assert (eOffset = length) as -> by lia. exists old, []. rewrite Z.sub_diag, Z.add_0_r.
       rewrite <- ranges_of_state. destruct Had as [Hok Hend Hfull Hst].
       split; [done|]. split; [done|]. split; [done|]. split; [|split; [by destruct gs|]].
       - apply Forall_app. split; [done|]. repeat constructor. cbn. intros ->. specialize (Hne eq_refl). lia.
       - by rewrite app_nil_r. }
  set (pos := offset + eOffset) in *.
  destruct (pick_group gs s es pos Had) as (gs1 & s1 & es1 & Epick & Had1 & Hlen & Hnear & Hflat & Hbuf).
  fold old in Epick, Hflat, Hbuf. rewrite Epick.
  set (n := if maxEntryLength <? length - eOffset then maxEntryLength else length - eOffset).
  assert (Hn : 1 <= n <= 127 /\ n <= length - eOffset /\
               (n = 127 \/ n = length - eOffset)).
  { unfold n. change maxEntryLength with 127. destruct (Z.ltb_spec 127 (length - eOffset)); lia. }
  pose proof (adding_start _ _ _ _ Had1) as Hs1. cbn [re_startOffset state_of].
  rewrite u16_small by lia.
  destruct (be_setLengthType_ok (pos - s1) n) as [-> _]; [change maxEntryLength with 127; lia|].
  cbn [mbind outcome_bind].
  pose proof (adding_run _ _ _ _ n Had1 Hlen Hnear ltac:(lia)) as Had2.
  destruct (IH gs1 s1 (es1 ++ [(pos, n)]) (eOffset + n)) as (gs' & c & E & Hok & Hend & Hfull & Hnn & Hfl & Hc & Ht).
  { lia. } { lia. } { unfold pos in *. by rewrite Z.add_assoc. } { by destruct es1. }
  exists gs', ((pos, n) :: c).
  assert (Ebuf : be_marshalAppend (MkBlockEntry (pos - s1) (2 * n)) (entries_of old) =
                 entries_of (gs1 ++ [(s1, es1 ++ [(pos, n)])])).
  { rewrite <- Hbuf, !entries_of_app. unfold be_marshalAppend. rewrite <- app_assoc. f_equal.
    unfold entries_of, group_encode. cbn. rewrite !app_nil_r, fmap_app, join_app. cbn. done. }
  assert (Eflat : flat (gs1 ++ [(s1, es1 ++ [(pos, n)])]) = flat old ++ [(pos, n)]).
  { rewrite <- Hflat, !flat_snoc. by rewrite app_assoc. }
  assert (Est : re_incr (state_of gs1 s1 es1) = state_of gs1 s1 (es1 ++ [(pos, n)])).
  { unfold re_incr, state_of. cbn. rewrite length_app. cbn. f_equal. lia. }
  rewrite Ebuf, Est. rewrite Eflat in E, Hfl. rewrite run_total_app in E. cbn in E. rewrite Z.add_0_r in E.
  split; [rewrite E; do 2 f_equal; lia|]. split; [done|]. split; [done|]. split; [done|]. split; [done|].
  split; [by rewrite Hfl, <- app_assoc|]. split.
  - cbn. split; [done|]. split; [lia|]. unfold pos. by rewrite <- Z.add_assoc.
  - change (n + run_total c = length - eOffset). lia.
Qed.

(** ** What the builder has recorded

    [adds] are the calls of [AddBlocks] with a positive length, [gs] the groups
    of the index. *)
Abbreviation add := (run * io_reader)%type.

Definition add_entry (a : add) : indexEntry := MkIndexEntry a.1.1 a.1.2 a.2 EntryType_Data.

Record builder_ok (bs : Z) (gs : list group) (adds : list add) (b : Builder) : Prop := {
  bo_w : bd_w b = [];
  bo_blockSize : bd_blockSize b = bs;
  bo_entries : bd_entries b = add_entry <$> adds;
  bo_ranges : bd_ranges b = ranges_of 0 gs;
  bo_buf : bd_blockEntryBuf b = entries_of gs;
  bo_groups : groups_ok 0 gs;
  bo_full : Forall (fun g => g.2 <> []) gs;
  bo_end : groups_end 0 gs <= bd_prevEnd b <= 2 ^ 48;
  bo_prevEnd : bd_prevEnd b = runs_end 0 adds.*1;
  bo_total : bd_dataOffset b = run_total (flat gs) /\ bd_totalBlocks b = run_total (flat gs) /\
             bd_totalDataBlocks b = run_total (flat gs) /\ run_total (flat gs) = run_total adds.*1;
  bo_index k : data_index 0 (flat gs) k = data_index 0 adds.*1 k;
}.

Lemma NewBuilder_ok bs : builder_ok bs [] [] (NewBuilder bs).
Proof. by split. Qed.

Lemma flat_total_end gs : groups_ok 0 gs -> 0 <= run_total (flat gs) <= groups_end 0 gs.
Proof.
  intros Hg. destruct (groups_end_flat 0 gs Hg) as [Hr He].
  pose proof (run_total_end _ _ _ Hr). pose proof (run_total_nonneg _ _ _ Hr). lia.
Qed.

Lemma AddBlocks_ok bs gs adds b o l r :
  builder_ok bs gs adds b -> bd_prevEnd b <= o -> 1 <= l -> o + l <= 2 ^ 48 ->
  exists b' gs', AddBlocks b o l r = Ret b' /\ gs' <> [] /\
    builder_ok bs gs' (adds ++ [((o, l), r)]) b' /\ bd_prevEnd b' = o + l.
Proof.
  intros [Hw Hbs Hent Hran Hbuf Hgr Hfull Hend Hprev (Hd & Ht1 & Ht2 & Ht3) Hidx] Ho Hl Hlim.
  pose proof (flat_total_end gs Hgr) as Htot. pose proof (groups_end_ge 0 gs Hgr).
  unfold AddBlocks. change MaxBlocks with (2 ^ 48).
  rewrite (proj2 (Z.ltb_ge o 0)), (proj2 (Z.ltb_ge l 0)), (proj2 (Z.ltb_ge (2 ^ 48) l)),
    (proj2 (Z.ltb_ge (2 ^ 48) (bd_dataOffset b + l))), (proj2 (Z.ltb_ge o (bd_prevEnd b))),
    (proj2 (Z.eqb_neq l 0)) by lia. cbn [orb].
  (* the current group *)
  assert (exists gs0 s es,
    match bd_ranges b with [] => [MkRangeEntry o 0 0 0] | l => l end =
      ranges_of 0 gs0 ++ [state_of gs0 s es] /\
    adding gs0 s es (o + 0) /\ flat (gs0 ++ [(s, es)]) = flat gs /\
    entries_of (gs0 ++ [(s, es)]) = entries_of gs) as (gs0 & s & es & -> & Had & Hfl & Hen).
  { rewrite Hran. destruct gs as [|g gs _] using rev_ind.
    - exists [], o, []. split; [done|]. split; [|done]. split; cbn; try done; [|lia..].
      split; [lia|]. split; [|done]. split; cbn; [lia|]. by intros ? ?%elem_of_nil.
    - destruct g as [s es]. exists gs, s, es. rewrite ranges_of_state.
      split; [by destruct (ranges_of 0 gs)|]. apply Forall_app in Hfull as [Hf1 Hf2]. split; [|done].
      split; [done|lia|done|]. intros ->. by inversion Hf2. }
  rewrite last_snoc, removelast_last. cbn [of_option mbind outcome_bind].
  rewrite Hbuf, Hd, <- Hen, <- Hfl.
  destruct (add_entries_ok o l (Z.to_nat (l / maxEntryLength + 2)) gs0 s es 0) as
    (gs' & c & -> & Hok' & Hend' & Hfull' & Hne' & Hfl' & Hc & Htc); [lia| |done|lia|].
  { change maxEntryLength with 127. pose proof (Z.div_mod l 127 ltac:(lia)).
    pose proof (Z.mod_pos_bound l 127 ltac:(lia)). pose proof (Z.div_pos l 127 ltac:(lia) ltac:(lia)). lia. }
  rewrite Z.sub_0_r in *. cbn [mbind outcome_bind]. eexists _, gs'. split; [done|]. split; [done|].
  split; [|done]. split; cbn; try done.
  - by rewrite Hent, fmap_app.
  - rewrite fmap_app, runs_end_app. done.
  - rewrite Hfl', !run_total_app, Hfl, Htc, fmap_app, run_total_app, Ht1, Ht2, Ht3. cbn. lia.
  - intros k. rewrite Hfl', Hfl, data_index_app, fmap_app, data_index_app, Hidx, Ht3.
    destruct (data_index 0 adds.*1 k); [done|]. rewrite (data_index_contig _ _ _ _ Hc), Htc. cbn.
    by rewrite Z.add_0_r.
Qed.

(** ** The file *)

(** The bytes of the calls, and whether every reader delivers them. *)
Definition adds_data (bs : Z) (adds : list add) : bytes :=
  mjoin ((fun a : add => take (Z.to_nat (a.1.2 * bs)) (rd_bytes a.2)) <$> adds).

Definition adds_complete (bs : Z) (adds : list add) : Prop :=
  Forall (fun a : add => 0 <= a.1.2 /\ a.1.2 * bs <= len (rd_bytes a.2)) adds.

Definition index_bytes (gs : list group) : bytes := mjoin (re_encode <$> ranges_of 0 gs) ++ entries_of gs.

Definition table_file (headerBuf : bytes) (gs : list group) (data : bytes) : bytes :=
  (Magic ++ le_put 4 (len headerBuf)) ++ headerBuf ++ index_bytes gs ++ data.

Lemma writeIndex_eq b gs w :
  bd_ranges b = ranges_of 0 gs -> bd_blockEntryBuf b = entries_of gs ->
  writeIndex b w = w ++ index_bytes gs.
Proof.
  intros Hr Hb. unfold writeIndex, index_bytes. rewrite Hr, Hb, app_assoc. f_equal.
  generalize (ranges_of 0 gs). intros l. revert w. induction l as [|e l IH]; intros w; cbn.
  - by rewrite app_nil_r.
  - by rewrite IH, <- app_assoc.
Qed.

Lemma write_data_ok bs adds w n :
  0 < bs -> adds_complete bs adds ->
  write_data bs (add_entry <$> adds) w n = (w ++ adds_data bs adds, inr (n + run_total adds.*1)).
Proof.
  intros Hbs Hc. revert w n. induction Hc as [|[[o l] r] adds [Hl Ha] Hc IH]; intros w n.
  - cbn. by rewrite app_nil_r, Z.add_0_r.
  - cbn -[Z.mul len take] in *. unfold ReadFrom. rewrite (proj2 (Z.ltb_ge _ _)) by lia.
    rewrite len_take by nia. rewrite Z.eqb_refl. cbn [negb]. rewrite IH. unfold adds_data. cbn.
    rewrite <- app_assoc. do 2 f_equal. unfold run_total. cbn. lia.
Qed.

Lemma length_group_encode g : length (group_encode g) = (3 * length g.2)%nat.
Proof.
  unfold group_encode. induction g.2 as [|e l IH]; [done|].
  change (mjoin (run_encode g.1 <$> e :: l)) with (run_encode g.1 e ++ mjoin (run_encode g.1 <$> l)).
  rewrite length_app, IH. cbn [length]. change (length (run_encode g.1 e)) with 3%nat. lia.
Qed.

Lemma len_entries_of gs : len (entries_of gs) = 3 * Z.of_nat (length (flat gs)).
Proof.
  unfold len. induction gs as [|[s es] gs IH]; [done|]. rewrite flat_cons, length_app.
  change (entries_of ((s, es) :: gs)) with (group_encode (s, es) ++ entries_of gs).
  rewrite length_app, length_group_encode. cbn [snd] in *. lia.
Qed.

Lemma length_ranges_of d gs : length (ranges_of d gs) = length gs.
Proof. revert d. induction gs as [|[s es] gs IH]; intros d; cbn; [done|]. by rewrite IH. Qed.

Section build.
Context `{!HeaderCodec} `{!HeaderCodecLaws}.

(** The header of a table. *)
Definition table_header (bs : Z) (gs : list group) (total end_ : Z) : Header :=
  MkHeader 1 bs (Z.of_nat (length gs)) 16 (Z.of_nat (length (flat gs))) 3 total total end_.

Lemma builder_header_eq bs gs adds b :
  builder_ok bs gs adds b -> 0 < bs < 2 ^ 32 ->
  Z.of_nat (length gs) < 2 ^ 32 -> Z.of_nat (length (flat gs)) < 2 ^ 32 ->
  builder_header b = table_header bs gs (run_total adds.*1) (bd_prevEnd b) /\
  header_fits (builder_header b).
Proof.
  intros [Hw Hb Hent Hran Hbuf Hgr Hfull Hend Hprev (Hd & Ht1 & Ht2 & Ht3) Hidx] Hbs Hg Hf.
  pose proof (flat_total_end gs Hgr).
  assert (builder_header b = table_header bs gs (run_total adds.*1) (bd_prevEnd b)) as ->.
  { unfold builder_header, table_header.
    rewrite Hb, Hran, Hbuf, Ht1, Ht2, length_ranges_of, len_entries_of, Ht3.
    change blockEntrySize with 3. rewrite (Z.mul_comm 3), Z.div_mul by lia.
    rewrite !u32_small, !u64_small by lia. done. }
  split; [done|]. unfold header_fits, table_header. cbn. lia.
Qed.

Lemma Build_ok bs gs adds b :
  builder_ok bs gs adds b -> 0 < bs < 2 ^ 32 ->
  Z.of_nat (length gs) < 2 ^ 32 -> Z.of_nat (length (flat gs)) < 2 ^ 32 -> adds_complete bs adds ->
  exists hb, len hb < 2 ^ 32 /\
    pb_unmarshal hb = inl (table_header bs gs (run_total adds.*1) (bd_prevEnd b)) /\
    Build b = Ret (table_file hb gs (adds_data bs adds), None).
Proof.
  intros Hok Hbs Hg Hf Hc. destruct (builder_header_eq bs gs adds b Hok Hbs Hg Hf) as [Hh Hfits].
  destruct (pb_roundtrip _ Hfits) as (hb & Em & Hlen & Eu). exists hb. split; [done|].
  split; [by rewrite <- Hh|]. unfold Build. rewrite Em.
  destruct Hok as [Hw Hb Hent Hran Hbuf Hgr Hfull Hend Hprev (Hd & Ht1 & Ht2 & Ht3) Hidx].
  rewrite (writeIndex_eq b gs), Hb, Hent, write_data_ok, Hw by (done || lia).
  rewrite Ht2, Ht3, Z.add_0_l, Z.eqb_refl. cbn [negb]. do 2 f_equal. unfold table_file.
  pose proof (len_nonneg hb). rewrite u32_small by lia. cbn [app]. by rewrite <- !app_assoc.
Qed.
End build.
