(* ===== verification/SparseReader.v ===== *)
(** * Reading a sparse table

    [internal/sparseblock/reader.go]: [Load] parses the header and the index of a
    table; [NextData], [NextHole] and [ReadAt] look blocks up in the index, by a
    binary search among the range entries and a scan of one range. *)
From S2P Require Import Prelude RangeMap BlockReader GoStd Adaptor SparseFormat SparseBuilder.
Local Open Scope Z_scope.

(** ** [sort.Search] *)
Fixpoint sort_search_loop (fuel : nat) (f : Z -> bool) (i j : Z) : outcome Z :=
  match fuel with
  | O => OutOfFuel
  | S fuel =>
      if i <? j then
        let h := Z.shiftr (i + j) 1 in
        if negb (f h) then sort_search_loop fuel f (h + 1) j else sort_search_loop fuel f i h
      else Ret i
  end.

(** Each iteration shortens the interval. *)
Definition sort_Search (n : Z) (f : Z -> bool) : outcome Z :=
  sort_search_loop (S (Z.to_nat n)) f 0 n.

(** ** The reader *)
Record readerIndexEntry := MkReaderIndexEntry {
  rie_offset : Z;
  rie_length : Z;
  rie_dataOffset : Z;
  rie_eType : EntryType;
  rie_rangeIndex : Z;
  rie_entryIndex : Z;
}.

Definition rie_Contains (e : readerIndexEntry) (off : Z) : bool :=
  (rie_offset e <=? off) && (off <? rie_offset e + rie_length e).

Record Reader := MkSparseReader {
  sr_r : file;
  sr_header : Header;
  sr_dataOffset : Z;
  sr_ranges : list rangeEntry;
  sr_entryBuf : bytes;
}.

Definition sr_Size (r : Reader) : Z := i64 (EndBlock (sr_header r)) * BlockSize (sr_header r).
Definition sr_LiveSize (r : Reader) : Z := i64 (TotalBlocks (sr_header r)) * BlockSize (sr_header r).
Definition sr_DataSize (r : Reader) : Z := i64 (TotalBlocks (sr_header r)) * BlockSize (sr_header r).

(** The loop that parses the range entries. *)
Fixpoint unmarshal_ranges (size : Z) (rangeBuf : bytes) (n : nat) (i entryCount : Z) :
    outcome (list rangeEntry) :=
  match n with
  | O => Ret []
  | S n =>
      let off := i * size in
      buf ← slice rangeBuf off (off + size);
      re ← re_unmarshal (MkRangeEntry 0 0 0 entryCount) buf;
      res ← unmarshal_ranges size rangeBuf n (i + 1) (entryCount + re_numEntries re);
      Ret (re :: res)
  end.

(** The part of [readIndex] after the header. *)
Definition read_entries (f : file) (h : Header) (headerSize : Z) : outcome (Reader + error) :=
  if (NumRangeEntries h =? 0) || (NumBlockEntries h =? 0) then Ret (inl (MkSparseReader f h 0 [] []))
  else
    let rangeBuf := zeros (u32 (NumRangeEntries h * RangeEntrySize h)) in
    let rangeOffset := len Magic + 4 + headerSize in
    let entryBuf := zeros (u32 (NumBlockEntries h * BlockEntrySize h)) in
    let entryOffset := rangeOffset + len rangeBuf in
    let '(rangeBuf, _, err) := file_ReadAt f rangeBuf rangeOffset in
    match err with
    | Some e => Ret (inr e)
    | None =>
        let '(entryBuf, _, err) := file_ReadAt f entryBuf entryOffset in
        match err with
        | Some e => Ret (inr e)
        | None =>
            let dataOffset := rangeOffset + (len rangeBuf + len entryBuf) in
            ranges ← unmarshal_ranges (RangeEntrySize h) rangeBuf (Z.to_nat (NumRangeEntries h)) 0 0;
            Ret (inl (MkSparseReader f h dataOffset ranges entryBuf))
        end
    end.

Definition Load `{!HeaderCodec} (f : file) : outcome (Reader + error) :=
  let '(magicHeaderSizeBuf, _, err) := file_ReadAt f (zeros (len Magic + 4)) 0 in
  match err with
  | Some e => Ret (inr e)
  | None =>
      if negb (bool_decide (take (Z.to_nat (len Magic)) magicHeaderSizeBuf = Magic))
      then Ret (inr ErrInvalidMagic)
      else
        let headerSize := le_get (drop (Z.to_nat (len Magic)) magicHeaderSizeBuf) in
        let '(headerBuf, _, err) := file_ReadAt f (zeros headerSize) (len Magic + 4) in
        match err with
        | Some e => Ret (inr e)
        | None =>
            match pb_unmarshal headerBuf with
            | inr e => Ret (inr e)
            | inl h =>
                if negb (Version h =? 1) then Ret (inr ErrUnsupportedVersion)
                else if (BlockSize h <? 512) || (1024 * 1024 <? BlockSize h)
                then Ret (inr ErrInvalidBlockSize)
                else read_entries f h headerSize
            end
        end
  end.

(** The statistics divide by the numbers of entries. *)
Definition sr_LogLoadStats (r : Reader) : outcome unit :=
  if (NumRangeEntries (sr_header r) =? 0) || (NumBlockEntries (sr_header r) =? 0) then Panic else Ret tt.

(** The file and the index are dropped; the file is not read any more, since a
    reader without ranges panics at the first of them. *)
Definition sr_Close (r : Reader) : Reader :=
  MkSparseReader (MkFile [] false) (sr_header r) (sr_dataOffset r) [] [].

Definition parseBlockEntry (r : Reader) (i : Z) : outcome blockEntry :=
  let size := BlockEntrySize (sr_header r) in
  let off := i * size in
  buf ← slice (sr_entryBuf r) off (off + size);
  be_unmarshal buf.

Definition fillEntry (r : Reader) (rangeIndex blockIndex dataOffset : Z) : outcome readerIndexEntry :=
  re ← of_option (sr_ranges r !! Z.to_nat rangeIndex);
  be ← parseBlockEntry r blockIndex;
  Ret (MkReaderIndexEntry ((re_startOffset re + be_offset be) * BlockSize (sr_header r))
         (be_length be * BlockSize (sr_header r)) dataOffset EntryType_Data rangeIndex blockIndex).

(** [for ei := re.firstEntryIndex; ei < endEntry; ei++ { ... }]; [n] is
    [endEntry - ei]. *)
Fixpoint scan_entries (r : Reader) (re : rangeEntry) (ri off : Z) (n : nat) (ei dataBlockOffset : Z) :
    outcome (option readerIndexEntry) :=
  match n with
  | O => Ret None
  | S n =>
      entry ← parseBlockEntry r ei;
      let entryOff := re_startOffset re + be_offset entry in
      if (off <=? entryOff) || ((entryOff <=? off) && (off <? entryOff + be_length entry)) then
        e ← fillEntry r ri ei (dataBlockOffset * BlockSize (sr_header r)); Ret (Some e)
      else scan_entries r re ri off n (ei + 1) (dataBlockOffset + be_length entry)
  end.

(** The result [false] is [None]. *)
Definition getNextEntry (r : Reader) (off : Z) : outcome (option readerIndexEntry) :=
  found ← sort_Search (Z.of_nat (length (sr_ranges r)))
    (fun i => match sr_ranges r !! Z.to_nat i with
              | Some re => off <? re_startOffset re
              | None => false
              end);
  let ri := found - 1 in
  if ri <? 0 then e ← fillEntry r 0 0 0; Ret (Some e)
  else
    re ← of_option (sr_ranges r !! Z.to_nat ri);
    res ← scan_entries r re ri off (Z.to_nat (re_numEntries re)) (re_firstEntryIndex re)
            (re_dataOffset re);
    match res with
    | Some e => Ret (Some e)
    | None =>
        let ri := ri + 1 in
        if ri <? Z.of_nat (length (sr_ranges r)) then
          re ← of_option (sr_ranges r !! Z.to_nat ri);
          e ← fillEntry r ri (re_firstEntryIndex re) (re_dataOffset re * BlockSize (sr_header r));
          Ret (Some e)
        else Ret None
    end.

Definition sr_NextData (r : Reader) (off : Z) : outcome (Z * option error) :=
  e ← getNextEntry r (Z.quot off (BlockSize (sr_header r)));
  Ret match e with
      | Some e => (if rie_Contains e off then off else rie_offset e, None)
      | None => (0, Some EOF)
      end.

Fixpoint next_hole_loop (fuel : nat) (r : Reader) (off : Z) : outcome (Z * option error) :=
  match fuel with
  | O => OutOfFuel
  | S fuel =>
      e ← getNextEntry r (Z.quot off (BlockSize (sr_header r)));
      match e with
      | None => Ret (off, None)
      | Some e =>
          if negb (rie_Contains e off) then Ret (off, None)
          else next_hole_loop fuel r (rie_offset e + rie_length e)
      end
  end.

(** Each iteration passes an entry. *)
Definition sr_NextHole (r : Reader) (off : Z) : outcome (Z * option error) :=
  next_hole_loop (S (length (sr_entryBuf r))) r off.

(** The part of an iteration of [ReadAt] after the zeros of a hole: the rest of
    [p] from [off] on is read from the entry. *)
Definition read_entry (r : Reader) (e : readerIndexEntry) (p : bytes) (off : Z) :
    outcome (bytes * Z * option error) :=
  let readLen := if rie_offset e + rie_length e - off <? len p
                 then rie_offset e + rie_length e - off else len p in
  q ← slice_to p readLen;
  let rest := drop (Z.to_nat readLen) p in
  match rie_eType e with
  | EntryType_Data =>
      let entryDataOff := sr_dataOffset r + rie_dataOffset e in
      let readOff := (off - rie_offset e) + entryDataOff in
      let '(q, n, err) := file_ReadAt (sr_r r) q readOff in
      let err := if bool_decide (err = Some EOF) && (n =? readLen) then None else err in
      Ret (q ++ rest, readLen, err)
  | EntryType_Hole => Ret (clear q ++ rest, readLen, None)
  end.

(** [for len(p) > 0 { ... }]; [pre] is what the loop has passed of the buffer. *)
Fixpoint read_at_loop (fuel : nat) (r : Reader) (pre p : bytes) (off bytesRead : Z) :
    outcome (bytes * Z * option error) :=
  match fuel with
  | O => OutOfFuel
  | S fuel =>
      if len p =? 0 then Ret (pre, bytesRead, None)
      else
        e ← getNextEntry r (Z.quot off (BlockSize (sr_header r)));
        match e with
        | None => Ret (pre ++ p, bytesRead, Some EOF)
        | Some e =>
            let zeroLen := if rie_Contains e off then 0
                           else if rie_offset e - off <? len p then rie_offset e - off else len p in
            z ← slice_to p zeroLen;
            let pre := pre ++ clear z in
            let p := drop (Z.to_nat zeroLen) p in
            let bytesRead := bytesRead + zeroLen in
            let off := off + zeroLen in
            if len p =? 0 then Ret (pre, bytesRead, None)
            else
              '(p, readLen, err) ← read_entry r e p off;
              match err with
              | Some err => Ret (pre ++ p, bytesRead, Some err)
              | None =>
                  read_at_loop fuel r (pre ++ take (Z.to_nat readLen) p)
                    (drop (Z.to_nat readLen) p) (off + readLen) (bytesRead + readLen)
              end
        end
  end.

Definition sr_ReadAt (r : Reader) (p : bytes) (off : Z) : outcome (bytes * Z * option error) :=
  read_at_loop (S (length p)) r [] p off 0.

#[export] Instance sparse_hole_reader : HoleReaderAt Reader := {
  ReadAt := sr_ReadAt;
  NextData := sr_NextData;
  NextHole := sr_NextHole;
}.

Lemma getNextEntry_closed r off : getNextEntry (sr_Close r) off = Panic.
Proof. done. Qed.

Lemma sr_ReadAt_closed r p off : 0 < len p -> sr_ReadAt (sr_Close r) p off = Panic.
Proof.
  intros Hl. unfold sr_ReadAt. cbn [read_at_loop]. rewrite (proj2 (Z.eqb_neq (len p) 0)) by lia. done.
Qed.

(** ** The parsed ranges *)
Fixpoint ranges_idx (d i : Z) (gs : list group) : list rangeEntry :=
  match gs with
  | [] => []
  | (s, es) :: gs' =>
      MkRangeEntry s d (Z.of_nat (length es)) i ::
      ranges_idx (d + run_total es) (i + Z.of_nat (length es)) gs'
  end.

Lemma length_ranges_idx d i gs : length (ranges_idx d i gs) = length gs.
Proof. revert d i. induction gs as [|[s es] gs IH]; intros d i; cbn; [done|]. by rewrite IH. Qed.

Lemma ranges_idx_app d i gs1 gs2 :
  ranges_idx d i (gs1 ++ gs2) =
  ranges_idx d i gs1 ++ ranges_idx (d + run_total (flat gs1)) (i + Z.of_nat (length (flat gs1))) gs2.
Proof.
  revert d i. induction gs1 as [|[s es] gs1 IH]; intros d i.
  - cbn. by rewrite !Z.add_0_r.
  - rewrite flat_cons, run_total_app, length_app. cbn [app ranges_idx]. rewrite IH.
    do 3 f_equal; lia.
Qed.

Lemma unmarshal_ranges_ok gs : forall pre d i cnt,
  groups_ok 0 gs -> groups_end 0 gs <= 2 ^ 48 ->
  0 <= d -> d + run_total (flat gs) <= 2 ^ 48 -> Forall (fun g => g.2 <> []) gs -> len pre = i * 16 ->
  unmarshal_ranges 16 (pre ++ mjoin (re_encode <$> ranges_of d gs)) (length gs) i cnt =
  Ret (ranges_idx d cnt gs).
Proof.
  enough (Hgen : forall lo pre d i cnt,
    0 <= lo -> groups_ok lo gs -> groups_end lo gs <= 2 ^ 48 ->
    0 <= d -> d + run_total (flat gs) <= 2 ^ 48 -> Forall (fun g => g.2 <> []) gs -> len pre = i * 16 ->
    unmarshal_ranges 16 (pre ++ mjoin (re_encode <$> ranges_of d gs)) (length gs) i cnt =
    Ret (ranges_idx d cnt gs)).
  { intros. by apply (Hgen 0). }
  induction gs as [|[s es] gs IH]; intros lo pre d i cnt Hlo Hok Hend Hd Ht Hne Hl; [done|].
  rewrite flat_cons, run_total_app in Ht. cbn [groups_ok groups_end] in *.
  destruct Hok as (Hs & [Hsz _] & Hes & Hgs). apply Forall_cons in Hne as [Hne1 Hne]. cbn [snd] in *.
  pose proof (runs_end_ge _ _ _ Hes). pose proof (groups_end_ge _ _ Hgs).
  pose proof (run_total_nonneg _ _ _ Hes).
  pose proof (run_total_nonneg _ _ _ (proj1 (groups_end_flat _ _ Hgs))).
  assert (s < runs_end s es /\ 1 <= run_total es).
  { destruct es as [|[o n] es]; [done|]. cbn in Hes |- *. destruct Hes as (? & ? & Hes).
    pose proof (runs_end_ge _ _ _ Hes). pose proof (run_total_nonneg _ _ _ Hes).
    unfold run_total in *. lia. }
  set (re := MkRangeEntry s d (Z.of_nat (length es)) 0).
  change (mjoin (re_encode <$> ranges_of d ((s, es) :: gs))) with
    (re_encode re ++ mjoin (re_encode <$> ranges_of (d + run_total es) gs)).
  cbn [length unmarshal_ranges].
  assert (Hre : len (re_encode re) = 16) by (unfold len; by rewrite length_re_encode).
  rewrite (slice_mid pre (re_encode re) _) by lia. cbn [mbind outcome_bind].
  rewrite <- (app_nil_r (re_encode re)) at 1. rewrite re_unmarshal_encode.
  2: { split_and!; cbn; unfold is_byte; lia. }
  cbn [mbind outcome_bind]. rewrite app_assoc. unfold re. cbn [re_numEntries re_startOffset re_dataOffset re_firstEntryIndex].
  rewrite (IH (runs_end s es)); [done|lia|done|done|lia|lia|done|]. rewrite len_app. fold re. lia.
Qed.

(** A reader of a table with the index [gs] and the data [data]. *)
Record table_reader (bs : Z) (gs : list group) (data : bytes) (r : Reader) : Prop := {
  tr_blockSize : BlockSize (sr_header r) = bs;
  tr_entrySize : BlockEntrySize (sr_header r) = 3;
  tr_ranges : sr_ranges r = ranges_idx 0 0 gs;
  tr_buf : sr_entryBuf r = entries_of gs;
  tr_data : exists pre, f_bytes (sr_r r) = pre ++ data /\ sr_dataOffset r = len pre;
}.

Lemma len_ranges_bytes d gs : len (mjoin (re_encode <$> ranges_of d gs)) = 16 * Z.of_nat (length gs).
Proof.
  revert d. induction gs as [|[s es] gs IH]; intros d; [done|].
  change (mjoin (re_encode <$> ranges_of d ((s, es) :: gs))) with
    (re_encode (MkRangeEntry s d (Z.of_nat (length es)) 0) ++
     mjoin (re_encode <$> ranges_of (d + run_total es) gs)).
  rewrite len_app, IH. unfold len. rewrite length_re_encode. cbn [length]. lia.
Qed.

Lemma flat_length gs : Forall (fun g => g.2 <> []) gs -> (length gs <= length (flat gs))%nat.
Proof.
  induction 1 as [|[s es] gs He Hgs IH]; [done|]. rewrite flat_cons, length_app. cbn in *.
  destruct es; [done|]. cbn. lia.
Qed.

Section load.
Context `{!HeaderCodec} `{!HeaderCodecLaws}.

Lemma Load_ok bs gs data hb total end_ eager :
  gs <> [] -> groups_ok 0 gs -> groups_end 0 gs <= 2 ^ 48 -> Forall (fun g => g.2 <> []) gs ->
  512 <= bs <= 1024 * 1024 -> 0 < len data ->
  16 * Z.of_nat (length gs) < 2 ^ 32 -> 3 * Z.of_nat (length (flat gs)) < 2 ^ 32 ->
  len hb < 2 ^ 32 -> pb_unmarshal hb = inl (table_header bs gs total end_) ->
  exists r, Load (MkFile (table_file hb gs data) eager) = Ret (inl r) /\
    table_reader bs gs data r /\ sr_header r = table_header bs gs total end_.
Proof.
  intros Hne Hok Hend Hfull Hbs Hdata Hg Hf Hhb Hum. set (f := MkFile (table_file hb gs data) eager).
  pose proof (flat_length gs Hfull) as Hlen. assert (0 < length gs)%nat by (destruct gs; cbn; [done|lia]).
  set (rb := mjoin (re_encode <$> ranges_of 0 gs)). pose proof (len_nonneg hb).
  assert (Hrb : len rb = 16 * Z.of_nat (length gs)) by apply len_ranges_bytes.
  pose proof (len_entries_of gs) as Heb.
  assert (Hfile : f_bytes f = (Magic ++ le_put 4 (len hb)) ++ hb ++ rb ++ entries_of gs ++ data).
  { cbn. unfold table_file, index_bytes. by rewrite <- !app_assoc. }
  assert (Hm : len (Magic ++ le_put 4 (len hb)) = 20) by (rewrite len_app, len_le_put; done).
  unfold Load.
  pose proof (file_read_mid f [] (Magic ++ le_put 4 (len hb)) (hb ++ rb ++ entries_of gs ++ data)
    (zeros (len Magic + 4)) Hfile) as E1. change (len []) with 0 in E1. rewrite E1 by done. clear E1.
  rewrite (proj2 (Z.eqb_neq _ 0)) by (rewrite !len_app; lia). rewrite andb_false_r.
  rewrite take_len, drop_len, bool_decide_eq_true_2 by done. cbn [negb].
  rewrite le_get_put by (cbn; lia).
  pose proof (file_read_mid f (Magic ++ le_put 4 (len hb)) hb (rb ++ entries_of gs ++ data)
    (zeros (len hb)) Hfile) as E2. rewrite Hm in E2. change (len Magic + 4) with 20 in *.
  rewrite E2 by (by rewrite len_zeros by lia). clear E2.
  rewrite (proj2 (Z.eqb_neq _ 0)) by (rewrite !len_app; lia). rewrite andb_false_r, Hum.
  set (h := table_header bs gs total end_). change (Version h) with 1. change (BlockSize h) with bs.
  cbn [negb Z.eqb Pos.eqb]. rewrite (proj2 (Z.ltb_ge bs 512)), (proj2 (Z.ltb_ge _ bs)) by lia. cbn [orb].
  unfold read_entries. change (NumRangeEntries h) with (Z.of_nat (length gs)).
  change (NumBlockEntries h) with (Z.of_nat (length (flat gs))).
  change (RangeEntrySize h) with 16. change (BlockEntrySize h) with 3.
  rewrite !(proj2 (Z.eqb_neq _ 0)) by lia. cbn [orb].
  rewrite !u32_small, !len_zeros by lia. change (len Magic + 4) with 20.
  assert (Hpre : len ((Magic ++ le_put 4 (len hb)) ++ hb) = 20 + len hb) by (rewrite len_app; lia).
  pose proof (file_read_mid f ((Magic ++ le_put 4 (len hb)) ++ hb) rb (entries_of gs ++ data)
    (zeros (Z.of_nat (length gs) * 16))) as E3. rewrite Hpre in E3.
  rewrite E3 by (rewrite ?len_zeros by lia; rewrite ?Hfile, <- ?app_assoc; done || lia). clear E3.
  rewrite (proj2 (Z.eqb_neq _ 0)) by (rewrite !len_app; lia). rewrite andb_false_r.
  pose proof (file_read_mid f (((Magic ++ le_put 4 (len hb)) ++ hb) ++ rb) (entries_of gs) data
    (zeros (Z.of_nat (length (flat gs)) * 3))) as E4. rewrite len_app, Hpre, Hrb in E4.
  rewrite (Z.mul_comm (Z.of_nat (length gs)) 16).
  rewrite E4 by (rewrite ?len_zeros by lia; rewrite ?Hfile, <- ?app_assoc; done || lia). clear E4.
  rewrite (proj2 (Z.eqb_neq (len data) 0)) by lia. rewrite andb_false_r, Nat2Z.id.
  pose proof (flat_total_end gs Hok).
  pose proof (unmarshal_ranges_ok gs [] 0 0 0 Hok Hend ltac:(lia) ltac:(lia) Hfull eq_refl) as E5.
  cbn [app] in E5. fold rb in E5. rewrite E5. cbn [mbind outcome_bind]. eexists. split; [done|].
  split; [|done]. split; cbn; [done|done|done|done|].
  exists ((((Magic ++ le_put 4 (len hb)) ++ hb) ++ rb) ++ entries_of gs). split.
  - unfold table_file, index_bytes. by rewrite <- !app_assoc.
  - rewrite !len_app, Hrb. rewrite len_app in Hm. lia.
Qed.
End load.

(** ** Binary search *)
Lemma sort_search_loop_ok f n fuel : forall i j,
  0 <= i <= j -> j <= n -> j - i < Z.of_nat fuel ->
  (forall a b, 0 <= a <= b -> b < n -> f a = true -> f b = true) ->
  (forall k, 0 <= k < i -> f k = false) -> (forall k, j <= k < n -> f k = true) ->
  exists m, sort_search_loop fuel f i j = Ret m /\ i <= m <= j /\
    (forall k, 0 <= k < m -> f k = false) /\ (forall k, m <= k < n -> f k = true).
Proof.
  induction fuel as [|fuel IH]; intros i j Hij Hj Hf Hmono Hlo Hhi; [lia|]. cbn [sort_search_loop].
  destruct (Z.ltb_spec i j) as [Hlt|Hge]; [|exists i; split; [done|]; split; [lia|]; split; [done|];
    intros; apply Hhi; lia].
  rewrite Z.shiftr_div_pow2 by lia. change (2 ^ 1) with 2.
  pose proof (Z.div_mod (i + j) 2 ltac:(lia)). pose proof (Z.mod_pos_bound (i + j) 2 ltac:(lia)).
  set (h := (i + j) / 2) in *. destruct (f h) eqn:Eh; cbn [negb].
  - destruct (IH i h) as (m & E & Hm & Hl & Hr); [lia|lia|lia|done|done| |].
    { intros k Hk. by apply (Hmono h k); [lia..|]. }
    exists m. split; [done|]. split; [lia|]. done.
  - destruct (IH (h + 1) j) as (m & E & Hm & Hl & Hr); [lia|lia|lia|done| |done|].
    { intros k Hk. destruct (f k) eqn:Ek; [|done]. by rewrite (Hmono k h) in Eh by (done || lia). }
    exists m. split; [done|]. split; [lia|]. done.
Qed.

Lemma sort_Search_ok f n :
  0 <= n -> (forall a b, 0 <= a <= b -> b < n -> f a = true -> f b = true) ->
  exists m, sort_Search n f = Ret m /\ 0 <= m <= n /\
    (forall k, 0 <= k < m -> f k = false) /\ (forall k, m <= k < n -> f k = true).
Proof.
  intros Hn Hmono. apply (sort_search_loop_ok f n (S (Z.to_nat n)) 0 n); try done; try lia.
Qed.

(** ** Looking a block up *)

(** The first run that ends after block [off], with its position in the data. *)
Fixpoint next_run (d : Z) (l : list run) (off : Z) : option (Z * Z * Z) :=
  match l with
  | [] => None
  | (o, n) :: l' => if off <? o + n then Some (o, n, d) else next_run (d + n) l' off
  end.

Lemma next_run_app d l1 l2 off :
  next_run d (l1 ++ l2) off =
  match next_run d l1 off with Some x => Some x | None => next_run (d + run_total l1) l2 off end.
Proof.
  revert d. induction l1 as [|[o n] l1 IH]; intros d; cbn.
  - by rewrite Z.add_0_r.
  - destruct (off <? o + n); [done|]. rewrite IH. unfold run_total. cbn. by rewrite Z.add_assoc.
Qed.

Lemma next_run_past d m lo l off : runs_ok m lo l -> runs_end lo l <= off -> next_run d l off = None.
Proof.
  revert d lo. induction l as [|[o n] l IH]; intros d lo; cbn; [done|]. intros (? & ? & Hl) He.
  pose proof (runs_end_ge _ _ _ Hl). rewrite (proj2 (Z.ltb_ge _ _)) by lia. by eapply IH.
Qed.

Definition entry_for (bs o n d ri ei : Z) : readerIndexEntry :=
  MkReaderIndexEntry (o * bs) (n * bs) (d * bs) EntryType_Data ri ei.

(** [res] is the entry of [run]. *)
Definition entry_of (bs : Z) (run : option (Z * Z * Z)) (res : option readerIndexEntry) : Prop :=
  match run with
  | Some (o, n, d) => exists ri ei, res = Some (entry_for bs o n d ri ei)
  | None => res = None
  end.

Section lookup.
Context (bs : Z) (gs : list group) (data : bytes) (r : Reader).
Context (Hr : table_reader bs gs data r) (Hok : groups_ok 0 gs) (Hfull : Forall (fun g => g.2 <> []) gs).

Lemma group_facts gs1 s es gs2 :
  gs = gs1 ++ (s, es) :: gs2 ->
  groups_ok 0 gs1 /\ groups_end 0 gs1 <= s /\ runs_ok 127 s es /\ es <> [] /\
  groups_ok (runs_end s es) gs2 /\
  (forall e, e ∈ es -> 0 <= e.1 - s <= 65535 /\ 1 <= e.2 <= 127).
Proof.
  intros E. rewrite E in Hok, Hfull. apply groups_ok_app in Hok as (H1 & Hs & [_ Hnear] & Hes & H2).
  apply Forall_app in Hfull as [_ Hf]. apply Forall_cons in Hf as [Hne _].
  split; [done|]. split; [done|]. split; [done|]. split; [done|]. split; [done|].
  intros e He. split; [by apply Hnear|]. by apply (runs_ok_bounds 127 s es e).
Qed.

Lemma parse_entry gs1 s es1 o n es2 gs2 i :
  gs = gs1 ++ (s, es1 ++ (o, n) :: es2) :: gs2 ->
  i = Z.of_nat (length (flat gs1)) + Z.of_nat (length es1) ->
  parseBlockEntry r i = Ret (MkBlockEntry (o - s) (2 * n)).
Proof.
  intros E Hi. destruct (group_facts _ _ _ _ E) as (_ & _ & _ & _ & _ & Hes).
  destruct (Hes (o, n)) as [Ho Hn]; [set_solver|]. cbn in Ho, Hn.
  unfold parseBlockEntry. rewrite (tr_entrySize _ _ _ _ Hr), (tr_buf _ _ _ _ Hr), E.
  rewrite entries_of_app.
  change (entries_of ((s, es1 ++ (o, n) :: es2) :: gs2)) with
    (group_encode (s, es1 ++ (o, n) :: es2) ++ entries_of gs2).
  assert (group_encode (s, es1 ++ (o, n) :: es2) =
    group_encode (s, es1) ++ run_encode s (o, n) ++ group_encode (s, es2)) as ->.
  { unfold group_encode. cbn [fst snd]. by rewrite fmap_app, join_app, fmap_cons. }
  rewrite <- !app_assoc, (app_assoc (entries_of gs1)).
  assert (Hpre : len (entries_of gs1 ++ group_encode (s, es1)) = i * 3).
  { rewrite len_app, len_entries_of. unfold len. rewrite length_group_encode. cbn [snd]. lia. }
  rewrite (slice_mid _ (run_encode s (o, n))); [|lia|unfold len; cbn; lia].
  cbn [mbind outcome_bind]. rewrite <- (app_nil_r (run_encode s (o, n))).
  apply be_unmarshal_encode. split; cbn; unfold is_byte; lia.
Qed.

Lemma range_lookup gs1 s es gs2 i :
  gs = gs1 ++ (s, es) :: gs2 -> i = Z.of_nat (length gs1) ->
  sr_ranges r !! Z.to_nat i =
  Some (MkRangeEntry s (run_total (flat gs1)) (Z.of_nat (length es)) (Z.of_nat (length (flat gs1)))).
Proof.
  intros E ->. rewrite (tr_ranges _ _ _ _ Hr), E, ranges_idx_app, Nat2Z.id.
  rewrite lookup_app_r by (by rewrite length_ranges_idx). by rewrite length_ranges_idx, Nat.sub_diag.
Qed.

Lemma be_length_double o n : 0 <= n -> be_length (MkBlockEntry o (2 * n)) = n.
Proof.
  intros. unfold be_length. cbn [be_lengthType]. rewrite Z.shiftr_div_pow2 by lia.
  replace (2 * n) with (n * 2 ^ 1) by lia. apply Z.div_mul. lia.
Qed.

Lemma fill_entry gs1 s es1 o n es2 gs2 ri i d :
  gs = gs1 ++ (s, es1 ++ (o, n) :: es2) :: gs2 -> ri = Z.of_nat (length gs1) ->
  i = Z.of_nat (length (flat gs1)) + Z.of_nat (length es1) ->
  fillEntry r ri i (d * bs) = Ret (entry_for bs o n d ri i).
Proof.
  intros E Hri Hi. destruct (group_facts _ _ _ _ E) as (_ & _ & _ & _ & _ & Hes).
  destruct (Hes (o, n)) as [_ Hn]; [set_solver|]. cbn in Hn.
  unfold fillEntry. rewrite (range_lookup _ _ _ _ _ E Hri). cbn [of_option mbind outcome_bind].
  rewrite (parse_entry _ _ _ _ _ _ _ _ E Hi). cbn [mbind outcome_bind re_startOffset be_offset].
  rewrite be_length_double, (tr_blockSize _ _ _ _ Hr) by lia. unfold entry_for. do 2 f_equal. lia.
Qed.

Lemma scan_ok gs1 s es2 gs2 re ri off : forall es1 i d,
  gs = gs1 ++ (s, es1 ++ es2) :: gs2 -> ri = Z.of_nat (length gs1) -> re_startOffset re = s ->
  i = Z.of_nat (length (flat gs1)) + Z.of_nat (length es1) ->
  exists res, scan_entries r re ri off (length es2) i d = Ret res /\ entry_of bs (next_run d es2 off) res.
Proof.
  induction es2 as [|[o n] es2 IH]; intros es1 i d E Hri Hre Hi; [cbn; eauto|].
  destruct (group_facts _ _ _ _ E) as (_ & _ & _ & _ & _ & Hes).
  destruct (Hes (o, n)) as [_ Hn]; [set_solver|]. cbn [snd] in Hn.
  cbn [length scan_entries]. rewrite (parse_entry _ _ _ _ _ _ _ _ E Hi). cbn [mbind outcome_bind be_offset].
  rewrite be_length_double, Hre by lia. replace (s + (o - s)) with o by lia.
  assert ((off <=? o) || (o <=? off) && (off <? o + n) = (off <? o + n)) as ->.
  { destruct (Z.leb_spec off o), (Z.leb_spec o off), (Z.ltb_spec off (o + n)); cbn; lia || done. }
  cbn [next_run]. destruct (off <? o + n).
  - rewrite (tr_blockSize _ _ _ _ Hr), (fill_entry _ _ _ _ _ _ _ _ _ _ E Hri Hi).
    cbn [mbind outcome_bind]. eexists. split; [done|]. cbn. eauto.
  - apply (IH (es1 ++ [(o, n)])); [by rewrite <- app_assoc|done|done|]. rewrite length_app. cbn. lia.
Qed.

Lemma ranges_idx_starts d c l : re_startOffset <$> ranges_idx d c l = l.*1.
Proof. revert d c. induction l as [|[s es] l IH]; intros d c; cbn; [done|]. f_equal. apply IH. Qed.

Lemma range_start i :
  re_startOffset <$> sr_ranges r !! i = fst <$> gs !! i.
Proof.
  rewrite (tr_ranges _ _ _ _ Hr), <- !list_lookup_fmap. f_equal. apply ranges_idx_starts.
Qed.

Lemma groups_starts lo l i s es : groups_ok lo l -> l !! i = Some (s, es) -> lo <= s.
Proof.
  revert lo i. induction l as [|[s' es'] l IH]; intros lo i; [done|]. cbn [groups_ok].
  intros (Hs & _ & Hes & Hl). apply runs_end_ge in Hes. destruct i as [|i]; cbn; [intros [= <- <-]; lia|].
  intros Hi. pose proof (IH _ _ Hl Hi). lia.
Qed.

Lemma starts_mono i j g1 g2 : (i <= j)%nat -> gs !! i = Some g1 -> gs !! j = Some g2 -> g1.1 <= g2.1.
Proof.
  intros Hij Hi Hj. destruct g1 as [s1 es1], g2 as [s2 es2]. cbn.
  destruct (list_elem_of_split_length _ _ _ Hi) as (gs1 & gs2 & E & Hlen).
  destruct (group_facts _ _ _ _ E) as (_ & _ & Hes & _ & H2 & _). apply runs_end_ge in Hes.
  rewrite E in Hj. rewrite Hlen in Hij. rewrite lookup_app_r in Hj by lia.
  destruct (j - length gs1)%nat as [|k] eqn:Ek; cbn in Hj; [simplify_eq; lia|].
  pose proof (groups_starts _ _ _ _ _ H2 Hj). lia.
Qed.

(** The entry of the first run of a group. *)
Lemma first_of_group gs1 s es gs2 off :
  gs = gs1 ++ (s, es) :: gs2 -> off < s ->
  exists o n, next_run (run_total (flat gs1)) (flat ((s, es) :: gs2)) off = Some (o, n, run_total (flat gs1)) /\
    fillEntry r (Z.of_nat (length gs1)) (Z.of_nat (length (flat gs1))) (run_total (flat gs1) * bs) =
    Ret (entry_for bs o n (run_total (flat gs1)) (Z.of_nat (length gs1)) (Z.of_nat (length (flat gs1)))).
Proof.
  intros E Hoff. destruct (group_facts _ _ _ _ E) as (_ & _ & Hes & Hne & _).
  destruct es as [|[o n] es]; [done|]. cbn in Hes. exists o, n. split.
  - rewrite flat_cons. cbn. by rewrite (proj2 (Z.ltb_lt _ _)) by lia.
  - apply (fill_entry gs1 s [] o n es gs2); [done|done|]. cbn. lia.
Qed.

(** The runs before the group of [off] end before it. *)
Lemma next_run_split gs1 s es gs2 off :
  gs = gs1 ++ (s, es) :: gs2 -> s <= off ->
  next_run 0 (flat gs) off =
  match next_run (run_total (flat gs1)) es off with
  | Some x => Some x
  | None => next_run (run_total (flat (gs1 ++ [(s, es)]))) (flat gs2) off
  end.
Proof.
  intros E Hs. destruct (group_facts _ _ _ _ E) as (Hok1 & Hend1 & _). rewrite E.
  assert (flat (gs1 ++ (s, es) :: gs2) = flat gs1 ++ es ++ flat gs2) as ->.
  { unfold flat. by rewrite fmap_app, join_app. }
  rewrite next_run_app, (next_run_past _ 127 0 (flat gs1)), next_run_app, Z.add_0_l.
  - by rewrite flat_snoc, run_total_app.
  - by apply groups_end_flat.
  - pose proof (proj2 (groups_end_flat _ _ Hok1)). lia.
Qed.

(** The binary search gives the first group that starts after [off]. *)
Definition starts_after off (i : Z) : bool :=
  match gs !! Z.to_nat i with Some g => off <? g.1 | None => false end.

Lemma search_group off :
  let f i := match sr_ranges r !! Z.to_nat i with Some re => off <? re_startOffset re | None => false end in
  exists m, sort_Search (Z.of_nat (length (sr_ranges r))) f = Ret m /\ 0 <= m <= Z.of_nat (length gs) /\
    (forall i, 0 <= i < m -> starts_after off i = false) /\
    (forall i, m <= i < Z.of_nat (length gs) -> starts_after off i = true).
Proof.
  intros f. assert (Hf : forall i, f i = starts_after off i).
  { intros i. unfold f, starts_after. pose proof (range_start (Z.to_nat i)) as Hs.
    destruct (sr_ranges r !! _), (gs !! _); cbn in Hs; simplify_eq; [congruence|done]. }
  assert (Hlen : length (sr_ranges r) = length gs)
    by (rewrite (tr_ranges _ _ _ _ Hr); apply length_ranges_idx).
  rewrite Hlen. destruct (sort_Search_ok f (Z.of_nat (length gs))) as (m & E & Hm & Hlo & Hhi); [lia| |].
  { intros a b Hab Hb. rewrite !Hf. unfold starts_after.
    destruct (lookup_lt_is_Some_2 gs (Z.to_nat b)) as [g2 Hg2]; [lia|]. rewrite Hg2.
    destruct (gs !! Z.to_nat a) as [g1|] eqn:Hg1; [|done].
    pose proof (starts_mono (Z.to_nat a) (Z.to_nat b) g1 g2 ltac:(lia) Hg1 Hg2). lia. }
  exists m. split; [done|]. split; [lia|]. split; intros i Hi; rewrite <- Hf; auto.
Qed.

Lemma getNextEntry_ok off :
  gs <> [] ->
  exists res, getNextEntry r off = Ret res /\ entry_of bs (next_run 0 (flat gs) off) res.
Proof.
  intros Hne. unfold getNextEntry. destruct (search_group off) as (m & -> & Hm & Hlo & Hhi). unfold starts_after in Hlo, Hhi.
  assert (Hlen : length (sr_ranges r) = length gs)
    by (rewrite (tr_ranges _ _ _ _ Hr); apply length_ranges_idx).
  rewrite ?Hlen.
  cbn [mbind outcome_bind]. destruct (Z.ltb_spec (m - 1) 0) as [Hz|Hz].
  - assert (m = 0) as -> by lia.
    assert (exists s es gs', gs = [] ++ (s, es) :: gs') as (s & es & gs' & E)
      by (destruct gs as [|[s es] gs']; [done|by eauto]).
    specialize (Hhi 0 ltac:(rewrite E; cbn; lia)). rewrite E in Hhi.
    destruct (first_of_group [] s es gs' off E) as (o & n & En & Efill); [by apply Z.ltb_lt in Hhi|].
    change (fillEntry r 0 0 0 = Ret (entry_for bs o n 0 0 0)) in Efill. rewrite Efill. cbn [mbind outcome_bind].
    eexists. split; [done|]. rewrite E. cbn [app]. change (run_total (flat [])) with 0 in En.
    rewrite En. cbn. eauto.
  - destruct (lookup_lt_is_Some_2 gs (Z.to_nat (m - 1))) as [[s es] Hg]; [lia|].
    destruct (list_elem_of_split_length _ _ _ Hg) as (gs1 & gs2 & E & Hl).
    assert (Hri : m - 1 = Z.of_nat (length gs1)) by lia.
    rewrite (range_lookup gs1 s es gs2 _ E Hri). cbn [of_option mbind outcome_bind].
    assert (Hs : s <= off). { specialize (Hlo (m - 1)). rewrite Hg in Hlo. cbn in Hlo. lia. }
    cbn [re_numEntries re_firstEntryIndex re_dataOffset]. rewrite Nat2Z.id.
    destruct (scan_ok gs1 s es gs2 (MkRangeEntry s (run_total (flat gs1)) (Z.of_nat (length es))
      (Z.of_nat (length (flat gs1)))) (m - 1) off [] (Z.of_nat (length (flat gs1))) (run_total (flat gs1)))
      as (res & -> & Hres); [done|done|done|cbn; lia|].
    cbn [mbind outcome_bind].
    rewrite (next_run_split gs1 s es gs2 off E Hs).
    destruct (next_run (run_total (flat gs1)) es off) as [[[o n] d]|] eqn:En.
    + destruct Hres as (ri & ei & ->). eexists. split; [done|]. cbn. eauto.
    + cbn in Hres. subst res. replace (m - 1 + 1) with m by lia.
      destruct (Z.ltb_spec m (Z.of_nat (length gs))) as [Hlt|Hge].
      * destruct gs2 as [|[s2 es2] gs3]; [rewrite E, length_app in Hlt; cbn in Hlt; lia|].
        assert (E2 : gs = (gs1 ++ [(s, es)]) ++ (s2, es2) :: gs3) by (by rewrite <- app_assoc).
        assert (Hm2 : m = Z.of_nat (length (gs1 ++ [(s, es)]))) by (rewrite length_app; cbn; lia).
        rewrite (range_lookup _ s2 es2 gs3 m E2 Hm2). cbn [of_option mbind outcome_bind re_firstEntryIndex re_dataOffset].
        assert (off < s2).
        { specialize (Hhi m ltac:(lia)). rewrite E2, Hm2, Nat2Z.id in Hhi.
          rewrite lookup_app_r, Nat.sub_diag in Hhi by lia. cbn in Hhi. lia. }
        rewrite (tr_blockSize _ _ _ _ Hr).
        destruct (first_of_group _ s2 es2 gs3 off E2) as (o & n & En2 & Efill); [done|].
        rewrite Hm2, Efill. cbn [mbind outcome_bind]. eexists. split; [done|]. rewrite En2. cbn. eauto.
      * destruct gs2 as [|g2 gs3]; [|rewrite E, length_app in Hge; cbn in Hge; lia].
        by exists None.
Qed.
End lookup.
