(* ===== verification/SparseTable.v ===== *)
(** * A sparse table as a reader

    The blocks a table holds, and the proof that [Reader] of
    [internal/sparseblock/reader.go] reads them: it meets the contract of a
    [t.HoleReaderAt], and [ReadAt] is specified at every offset. *)
From S2P Require Import Prelude RangeMap BlockReader GoStd Adaptor SparseFormat SparseBuilder SparseReader.
Local Open Scope Z_scope.

(** ** Contents *)
Definition data_block (bs : Z) (data : bytes) (i : Z) : bytes :=
  take (Z.to_nat bs) (drop (Z.to_nat (i * bs)) data).

(** The blocks of a table with the runs [l] and the data [data]. *)
Definition table_content (bs : Z) (l : list run) (data : bytes) : content :=
  fun k => data_block bs data <$> data_index 0 l k.

Section index.
Implicit Types (l : list run).

Lemma data_index_range d m lo l k i :
  runs_ok m lo l -> data_index d l k = Some i ->
  lo <= k < runs_end lo l /\ d <= i < d + run_total l.
Proof.
  revert d lo. induction l as [|[o n] l IH]; intros d lo; cbn; [done|]. intros (Hlo & Hn & Hl).
  pose proof (runs_end_ge _ _ _ Hl). pose proof (run_total_nonneg _ _ _ Hl).
  change (foldr (fun (e : run) s => e.2 + s) 0 l) with (run_total l).
  destruct (Z.leb_spec o k), (Z.ltb_spec k (o + n)); cbn; [intros [= <-]; lia| | |];
    intros Hd; destruct (IH _ _ Hl Hd); lia.
Qed.

Lemma data_index_before d m lo l k : runs_ok m lo l -> k < lo -> data_index d l k = None.
Proof.
  intros Hl Hk. destruct (data_index d l k) eqn:E; [|done].
  pose proof (data_index_range _ _ _ _ _ _ Hl E). lia.
Qed.

Lemma next_run_Some d m lo l off o n d' :
  runs_ok m lo l -> next_run d l off = Some (o, n, d') ->
  (o, n) ∈ l /\ off < o + n /\ o + n <= runs_end lo l /\ 1 <= n /\ lo <= o /\
  d <= d' /\ d' + n <= d + run_total l /\
  (forall k, off <= k < o -> data_index d l k = None) /\
  (forall k, o <= k < o + n -> data_index d l k = Some (d' + (k - o))).
Proof.
  revert d lo. induction l as [|[a b] l IH]; intros d lo; [done|]. cbn [runs_ok next_run runs_end].
  intros (Hlo & Hn & Hl). pose proof (runs_end_ge _ _ _ Hl). pose proof (run_total_nonneg _ _ _ Hl).
  change (run_total ((a, b) :: l)) with (b + run_total l). destruct (Z.ltb_spec off (a + b)).
  - intros [= <- <- <-]. split; [by left|]. split_and!; try lia.
    + intros k Hk. cbn. rewrite (proj2 (Z.leb_gt a k)) by lia. cbn.
      apply (data_index_before _ m (a + b)); [done|lia].
    + intros k Hk. cbn. by rewrite (proj2 (Z.leb_le a k)), (proj2 (Z.ltb_lt k (a + b))) by lia.
  - intros Hnx. destruct (IH _ _ Hl Hnx) as (Hin & ? & ? & ? & ? & ? & ? & Hnone & Hsome).
    split; [by right|]. split_and!; try lia.
    + intros k Hk. cbn. rewrite (proj2 (Z.ltb_ge k (a + b))), andb_false_r by lia. by apply Hnone.
    + intros k Hk. cbn. rewrite (proj2 (Z.ltb_ge k (a + b))), andb_false_r by lia. by apply Hsome.
Qed.

Lemma next_run_None d m lo l off :
  runs_ok m lo l -> next_run d l off = None -> l = [] \/ runs_end lo l <= off.
Proof.
  revert d lo. induction l as [|[a b] l IH]; intros d lo; [by left|]. cbn. intros (Hlo & Hn & Hl).
  destruct (Z.ltb_spec off (a + b)); [done|]. intros Hnx. right.
  destruct (IH _ _ Hl Hnx) as [->|]; cbn; lia.
Qed.

Lemma next_run_None_index d m lo l off k :
  runs_ok m lo l -> next_run d l off = None -> off <= k -> data_index d l k = None.
Proof.
  intros Hl Hn Hk. destruct (data_index d l k) eqn:E; [|done].
  pose proof (data_index_range _ _ _ _ _ _ Hl E).
  destruct (next_run_None _ _ _ _ _ Hl Hn) as [->|]; [done|lia].
Qed.

(** The runs that end after block [off]. *)
Definition runs_after l (off : Z) : nat := length (filter (fun e : run => off < e.1 + e.2) l).

Lemma runs_after_lt l off o n :
  (o, n) ∈ l -> off < o + n -> (runs_after l (o + n) < runs_after l off)%nat.
Proof.
  intros Hin Hoff. unfold runs_after.
  assert (Hle : forall l', (length (filter (fun e : run => o + n < e.1 + e.2)%Z l') <=
                            length (filter (fun e : run => off < e.1 + e.2)%Z l'))%nat).
  { induction l' as [|e l' IH]; [done|]. rewrite !filter_cons. repeat case_decide; cbn; lia. }
  apply list_elem_of_split in Hin as (l1 & l2 & ->). rewrite !filter_app, !length_app, !filter_cons.
  rewrite decide_False, decide_True by (cbn; lia). cbn [length].
  pose proof (Hle l1). pose proof (Hle l2). lia.
Qed.
End index.

Section contents.
Context (bs : Z) (Hbs : 0 < bs) (l : list run) (data : bytes).
Context (Hl : runs_ok 127 0 l) (Hdata : len data = run_total l * bs).

Abbreviation c := (table_content bs l data).

Lemma table_sized : blocks_sized bs c.
Proof.
  intros k b. unfold table_content. destruct (data_index 0 l k) as [i|] eqn:E; [|done].
  intros [= <-]. pose proof (data_index_range _ _ _ _ _ _ Hl E) as [_ Hi].
  unfold data_block. rewrite len_take; [done|]. rewrite len_drop by nia. nia.
Qed.

Lemma table_content_None k : c k = None <-> data_index 0 l k = None.
Proof. unfold table_content. by rewrite fmap_None. Qed.

Lemma div_block x k : k * bs <= x < (k + 1) * bs -> x / bs = k.
Proof. intros. symmetry. apply (Z.div_unique x bs k (x - k * bs)); lia. Qed.

Lemma block_bounds x : x / bs * bs <= x < (x / bs + 1) * bs.
Proof. pose proof (Z.div_mod x bs ltac:(lia)). pose proof (Z.mod_pos_bound x bs Hbs). lia. Qed.

(** The bytes of a run are a part of the data. *)
Lemma read_run o n d off m :
  (forall k, o <= k < o + n -> data_index 0 l k = Some (d + (k - o))) ->
  0 <= o -> 0 <= d -> d + n <= run_total l ->
  o * bs <= off -> 0 <= m -> off + m <= (o + n) * bs ->
  read_bytes bs c off m = take (Z.to_nat m) (drop (Z.to_nat (d * bs + (off - o * bs))) data).
Proof.
  intros Hidx Ho Hd Hdn Hoff Hm Hend. apply list_eq. intros i. unfold read_bytes.
  rewrite list_lookup_fmap. destruct (decide (Z.of_nat i < m)) as [Hi|Hi].
  2: { rewrite lookup_seqZ_ge, lookup_take_ge by lia. done. }
  rewrite lookup_seqZ_lt, lookup_take_lt, lookup_drop by lia. cbn [fmap option_fmap option_map].
  set (x := off + Z.of_nat i). pose proof (block_bounds x). pose proof (Z.mod_pos_bound x bs Hbs).
  assert (Hk : o <= x / bs < o + n).
  { split; [apply Z.div_le_lower_bound; lia|apply Z.div_lt_upper_bound; lia]. }
  unfold byte_at, image, table_content. rewrite (Hidx _ Hk). cbn [fmap option_fmap option_map default from_option].
  unfold data_block, id. rewrite lookup_take_lt, lookup_drop by lia.
  pose proof (Z.div_mod x bs ltac:(lia)) as Hx.
  replace (Z.to_nat ((d + (x / bs - o)) * bs) + Z.to_nat (x mod bs))%nat
    with (Z.to_nat (d * bs + (off - o * bs)) + i)%nat.
  2: { rewrite <- Z2Nat.inj_add by nia. unfold x in *. nia. }
  destruct (lookup_lt_is_Some_2 data (Z.to_nat (d * bs + (off - o * bs)) + i)) as [y ->]; [|done].
  unfold len in Hdata. nia.
Qed.

(** Bytes of blocks that are not there are zero. *)
Lemma read_hole off m :
  0 <= m -> (forall k, off / bs <= k -> k * bs < off + m -> data_index 0 l k = None) ->
  read_bytes bs c off m = zeros m.
Proof.
  intros Hm Hn. apply list_eq. intros i. unfold read_bytes, zeros. rewrite list_lookup_fmap.
  destruct (decide (Z.of_nat i < m)) as [Hi|Hi].
  2: { rewrite lookup_seqZ_ge by lia. symmetry. apply lookup_ge_None. rewrite length_replicate. lia. }
  rewrite lookup_seqZ_lt by lia. cbn [fmap option_fmap option_map].
  rewrite lookup_replicate_2 by lia. f_equal. set (x := off + Z.of_nat i).
  pose proof (block_bounds x). pose proof (Z.mod_pos_bound x bs Hbs).
  unfold byte_at, image, table_content. rewrite Hn.
  - cbn. unfold zeros. by rewrite lookup_replicate_2 by lia.
  - apply Z.div_le_mono; lia.
  - lia.
Qed.
End contents.

(** ** The reader *)
Section reader.
Context (bs : Z) (gs : list group) (data : bytes) (r : Reader).
Context (Hbs : 0 < bs) (Hr : table_reader bs gs data r) (Hok : groups_ok 0 gs).
Context (Hfull : Forall (fun g => g.2 <> []) gs) (Hne : gs <> []).
Context (Hdata : len data = run_total (flat gs) * bs).

Abbreviation c := (table_content bs (flat gs) data).

Lemma flat_ok : runs_ok 127 0 (flat gs).
Proof. by apply groups_end_flat. Qed.

Lemma flat_nonempty : flat gs <> [].
Proof.
  destruct gs as [|[s es] gs']; [done|]. apply Forall_cons in Hfull as [He _]. rewrite flat_cons.
  destruct es; [done|]. done.
Qed.

(** The end of the last run, in blocks. *)
Definition table_end : Z := runs_end 0 (flat gs).

(** What a look-up at the byte [off] finds. *)
Lemma lookup_byte off :
  0 <= off ->
  (getNextEntry r (Z.quot off (BlockSize (sr_header r))) = Ret None /\
   table_end * bs <= off /\ forall k, off / bs <= k -> data_index 0 (flat gs) k = None) \/
  (exists o n d ri ei,
     getNextEntry r (Z.quot off (BlockSize (sr_header r))) = Ret (Some (entry_for bs o n d ri ei)) /\
     rie_Contains (entry_for bs o n d ri ei) off = (o <=? off / bs) /\
     off < (o + n) * bs /\ o + n <= table_end /\ (o, n) ∈ flat gs /\ off / bs < o + n /\ 1 <= n /\ 0 <= o /\
     0 <= d /\ d + n <= run_total (flat gs) /\
     (forall k, off / bs <= k < o -> data_index 0 (flat gs) k = None) /\
     (forall k, o <= k < o + n -> data_index 0 (flat gs) k = Some (d + (k - o)))).
Proof.
  intros Hoff. rewrite (tr_blockSize _ _ _ _ Hr), Z.quot_div_nonneg by lia.
  pose proof (block_bounds bs Hbs off).
  destruct (getNextEntry_ok bs gs data r Hr Hok Hfull (off / bs) Hne) as (res & -> & Hres).
  destruct (next_run 0 (flat gs) (off / bs)) as [[[o n] d]|] eqn:E; cbn in Hres.
  - right. destruct Hres as (ri & ei & ->). exists o, n, d, ri, ei. split; [done|].
    destruct (next_run_Some _ _ _ _ _ _ _ _ flat_ok E) as (? & ? & ? & ? & ? & ? & ? & H1 & H2).
    assert (off < (o + n) * bs) by nia. split_and!; try done; try lia.
    unfold rie_Contains. cbn. rewrite <- Z.mul_add_distr_r, (proj2 (Z.ltb_lt off _)), andb_true_r by lia.
    destruct (Z.leb_spec (o * bs) off), (Z.leb_spec o (off / bs)); nia || done.
  - left. subst res. split; [done|]. split.
    + destruct (next_run_None _ _ _ _ _ flat_ok E) as [Hn|Hn]; [by destruct flat_nonempty|].
      unfold table_end. nia.
    + intros k Hk. by apply (next_run_None_index _ 127 0 _ (off / bs) _ flat_ok).
Qed.

Lemma next_key_content k : c k <> None <-> is_Some (data_index 0 (flat gs) k).
Proof. rewrite table_content_None. apply not_eq_None_Some. Qed.

Lemma sr_NextData_ok off :
  0 <= off ->
  exists k, next_key_spec c (off / bs) k /\
    match k with
    | Some k => sr_NextData r off = Ret (byte_offset bs off k, None)
    | None => exists x, sr_NextData r off = Ret (x, Some EOF)
    end.
Proof.
  intros Hoff. unfold sr_NextData.
  destruct (lookup_byte off Hoff) as [(-> & _ & Hn)|(o & n & d & ri & ei & -> & Hc & _ & _ & _ & Hlt & Hn & _ & _ & _ & H1 & H2)];
    cbn [mbind outcome_bind].
  - exists None. split; [|eauto]. intros k Hk. by apply table_content_None, Hn.
  - rewrite Hc. set (b := off / bs) in *. exists (Some (Z.max o b)). split.
    + split; [lia|]. split; [|intros k Hk; apply table_content_None, H1; lia].
      apply not_eq_None_Some, next_key_content. rewrite H2 by lia. eauto.
    + unfold byte_offset. fold b. destruct (Z.leb_spec o b).
      * by rewrite Z.max_r, Z.eqb_refl by lia.
      * rewrite Z.max_l, (proj2 (Z.eqb_neq o b)) by lia. done.
Qed.

Lemma next_hole_loop_ok fuel : forall off,
  0 <= off -> (runs_after (flat gs) (off / bs) < fuel)%nat ->
  exists k, next_hole_loop fuel r off = Ret (byte_offset bs off k, None) /\ next_empty_spec c (off / bs) k.
Proof.
  induction fuel as [|fuel IH]; intros off Hoff Hf; [lia|]. cbn [next_hole_loop].
  assert (Hhere : data_index 0 (flat gs) (off / bs) = None ->
    exists k, Ret (off, None) = Ret (byte_offset bs off k, @None error) /\ next_empty_spec c (off / bs) k).
  { intros Hn. exists (off / bs). unfold byte_offset. rewrite Z.eqb_refl. split; [done|].
    split; [lia|]. split; [by apply table_content_None|]. intros; lia. }
  destruct (lookup_byte off Hoff) as [(-> & _ & Hn)|(o & n & d & ri & ei & -> & Hc & Hlt & _ & Hin & Hltb & Hn & Ho & _ & _ & H1 & H2)];
    cbn [mbind outcome_bind].
  - apply Hhere, Hn. lia.
  - rewrite Hc. destruct (Z.leb_spec o (off / bs)); cbn [negb]; [|apply Hhere, H1; lia].
    cbn [rie_offset rie_length entry_for]. rewrite <- Z.mul_add_distr_r.
    assert (Hb : (o + n) * bs / bs = o + n) by (apply Z.div_mul; lia).
    destruct (IH ((o + n) * bs)) as (k & -> & Hk); [nia| |].
    { rewrite Hb. pose proof (runs_after_lt _ _ _ _ Hin Hltb). lia. }
    rewrite Hb in Hk. destruct Hk as (Hle & Hnone & Hsome). exists k. split.
    + rewrite byte_offset_aligned by lia. unfold byte_offset.
      by rewrite (proj2 (Z.eqb_neq k (off / bs))) by lia.
    + split; [lia|]. split; [done|]. intros j Hj. destruct (decide (j < o + n)); [|apply Hsome; lia].
      apply not_eq_None_Some, next_key_content. rewrite H2 by lia. eauto.
Qed.

Lemma sr_NextHole_ok off :
  0 <= off ->
  exists k, sr_NextHole r off = Ret (byte_offset bs off k, None) /\ next_empty_spec c (off / bs) k.
Proof.
  intros Hoff. apply next_hole_loop_ok; [done|].
  unfold runs_after. pose proof (length_filter (fun e : run => off / bs < e.1 + e.2) (flat gs)).
  pose proof (len_entries_of gs) as Hl. rewrite (tr_buf _ _ _ _ Hr). unfold len in Hl. lia.
Qed.

(** Reading a part of an entry. *)
Lemma read_entry_ok o n d ri ei p off :
  (forall k, o <= k < o + n -> data_index 0 (flat gs) k = Some (d + (k - o))) ->
  0 <= o -> 0 <= d -> d + n <= run_total (flat gs) -> o * bs <= off < (o + n) * bs -> 0 < len p ->
  let m := Z.min (len p) ((o + n) * bs - off) in
  read_entry r (entry_for bs o n d ri ei) p off =
  Ret (read_bytes bs c off m ++ drop (Z.to_nat m) p, m, None).
Proof.
  intros Hidx Ho Hd Hdn Hoff Hp m. destruct (tr_data _ _ _ _ Hr) as (pre & Hf & Hdo).
  unfold read_entry. cbn [rie_offset rie_length rie_dataOffset rie_eType entry_for].
  rewrite <- Z.mul_add_distr_r.
  assert ((if (o + n) * bs - off <? len p then (o + n) * bs - off else len p) = m) as ->.
  { unfold m. destruct (Z.ltb_spec ((o + n) * bs - off) (len p)); lia. }
  assert (Hm : 0 < m <= len p) by lia. rewrite slice_to_ok by lia. cbn [mbind outcome_bind].
  rewrite Hdo. set (pos := d * bs + (off - o * bs)).
  assert (Hpos : 0 <= pos /\ pos + m <= len data) by (unfold pos; nia).
  set (a := take (Z.to_nat pos) data). set (b := take (Z.to_nat m) (drop (Z.to_nat pos) data)).
  assert (Ha : len a = pos) by (apply len_take; lia).
  assert (Hb : len b = m) by (apply len_take; rewrite len_drop; lia).
  assert (Hsplit : f_bytes (sr_r r) = (pre ++ a) ++ b ++ drop (Z.to_nat m) (drop (Z.to_nat pos) data)).
  { rewrite Hf, <- app_assoc. f_equal. unfold a, b. by rewrite take_drop, take_drop. }
  replace (off - o * bs + (len pre + d * bs)) with (len (pre ++ a)) by (rewrite len_app; unfold pos in *; lia).
  rewrite (file_read_mid _ (pre ++ a) b _ _ Hsplit) by (rewrite len_take; lia).
  rewrite Hb, Z.eqb_refl, andb_true_r. do 3 f_equal.
  - f_equal. unfold b, pos. symmetry. apply read_run with (n := n); try done; lia.
  - destruct (_ && _); [by rewrite bool_decide_eq_true_2|done].
Qed.

(** The zeros before an entry. *)
Lemma zeros_before o n d ri ei p off :
  rie_Contains (entry_for bs o n d ri ei) off = (o <=? off / bs) ->
  (forall k, off / bs <= k < o -> data_index 0 (flat gs) k = None) -> 0 <= off -> 0 < len p ->
  let z := if rie_Contains (entry_for bs o n d ri ei) off then 0
           else if rie_offset (entry_for bs o n d ri ei) - off <? len p
                then rie_offset (entry_for bs o n d ri ei) - off else len p in
  0 <= z <= len p /\ (z = len p \/ o * bs <= off + z) /\ off + z <= Z.max off (o * bs) /\
  slice_to p z = Ret (take (Z.to_nat z) p) /\ clear (take (Z.to_nat z) p) = read_bytes bs c off z.
Proof.
  intros Hc Hnone Hoff Hp z. pose proof (block_bounds bs Hbs off).
  assert (Hz : 0 <= z <= len p /\ (z = len p \/ o * bs <= off + z) /\ off + z <= Z.max off (o * bs)).
  { unfold z. rewrite Hc. cbn [rie_offset entry_for].
    destruct (Z.leb_spec o (off / bs)), (Z.ltb_spec (o * bs - off) (len p)); nia. }
  destruct Hz as (Hz1 & Hz2 & Hz3). split; [done|]. split; [done|]. split; [done|].
  split; [by apply slice_to_ok|]. unfold clear. rewrite len_take by done. symmetry.
  destruct (Z.leb_spec o (off / bs)) as [Ho|Ho].
  - assert (z = 0) as -> by (unfold z; by rewrite Hc). done.
  - apply read_hole; [done|apply Hz1|]. intros k Hk1 Hk2. apply Hnone. split; [done|]. nia.
Qed.

Lemma read_at_loop_ok fuel : forall pre p off br,
  len p < Z.of_nat fuel -> 0 <= off ->
  let m := Z.max 0 (Z.min (len p) (table_end * bs - off)) in
  read_at_loop fuel r pre p off br =
  Ret (pre ++ read_bytes bs c off m ++ drop (Z.to_nat m) p, br + m,
       if m <? len p then Some EOF else None).
Proof.
  induction fuel as [|fuel IH]; intros pre p off br Hf Hoff m; [pose proof (len_nonneg p); lia|].
  cbn [read_at_loop]. destruct (Z.eqb_spec (len p) 0) as [Hz|Hz].
  { replace m with 0 by lia. rewrite Hz, (len_0_nil p Hz). cbn. by rewrite app_nil_r, Z.add_0_r. }
  pose proof (len_nonneg p).
  destruct (lookup_byte off Hoff) as
    [(-> & Hend & _)|(o & n & d & ri & ei & -> & Hc & Hlt & Hte & _ & _ & Hn & Ho & Hd & Hdn & H1 & H2)];
    cbn [mbind outcome_bind].
  { replace m with 0 by lia. rewrite (proj2 (Z.ltb_lt 0 (len p))) by lia. by rewrite Z.add_0_r. }
  destruct (zeros_before o n d ri ei p off Hc H1 Hoff ltac:(lia)) as (Hz1 & Hz2 & Hz3 & Esl & Ecl).
  set (z := if rie_Contains _ _ then 0 else _) in *. rewrite Esl. cbn [mbind outcome_bind]. rewrite Ecl.
  rewrite len_drop by lia. destruct (Z.eqb_spec (len p - z) 0) as [Hp|Hp].
  { assert (z = len p) by lia. replace m with z by nia. rewrite H0, Z.ltb_irrefl, <- H0.
    rewrite drop_ge, app_nil_r by (unfold len in *; lia). done. }
  destruct Hz2 as [|Hz2]; [lia|].
  rewrite read_entry_ok by (try done; rewrite ?len_drop by lia; nia).
  set (q := drop (Z.to_nat z) p). assert (Hq : len q = len p - z) by (apply len_drop; lia).
  cbn [mbind outcome_bind]. set (m1 := Z.min (len q) ((o + n) * bs - (off + z))).
  assert (Hm1 : 0 < m1 <= len q) by lia.
  rewrite take_len_eq, drop_len_eq by (apply len_read_bytes; lia).
  rewrite IH by (rewrite ?len_drop by lia; lia). rewrite len_drop by lia.
  set (m2 := Z.max 0 _). assert (Hm : m = z + (m1 + m2)) by nia.
  rewrite Hm, !read_bytes_app by lia. rewrite <- !app_assoc. unfold q. rewrite !drop_drop.
  rewrite !Z2Nat.inj_add by lia. fold q. rewrite Hq, !Z.add_assoc.
  assert ((m2 <? len p - z - m1) = (z + m1 + m2 <? len p)) as ->; [|done].
  destruct (Z.ltb_spec m2 (len p - z - m1)), (Z.ltb_spec (z + m1 + m2) (len p)); lia.
Qed.

Lemma sr_ReadAt_ok p off :
  0 <= off ->
  let m := Z.max 0 (Z.min (len p) (table_end * bs - off)) in
  sr_ReadAt r p off =
  Ret (read_bytes bs c off m ++ drop (Z.to_nat m) p, m, if m <? len p then Some EOF else None).
Proof. intros Hoff. apply (read_at_loop_ok (S (length p)) [] p off 0); [unfold len; lia|done]. Qed.

(** The reader meets the contract, for a device that ends at or after its last
    block. *)
Lemma table_reader_ok limit :
  table_end <= limit -> hole_reader_ok bs limit r c.
Proof.
  intros Hlim. split.
  - by apply (table_sized bs Hbs (flat gs) data flat_ok).
  - intros k Hk. apply not_eq_None_Some, next_key_content in Hk as [i Hi].
    pose proof (data_index_range _ _ _ _ _ _ flat_ok Hi) as [Hk _]. unfold table_end in Hlim. lia.
  - intros off Hoff. apply sr_NextData_ok. lia.
  - intros off Hoff. apply sr_NextHole_ok. lia.
  - intros p off Hoff Hp Hall. exists None. split; [|by left]. cbn [ReadAt sparse_hole_reader].
    rewrite sr_ReadAt_ok by done.
    assert (off + len p <= table_end * bs).
    { destruct (Hall ((off + len p - 1) / bs)) as [b Hb].
      { split; [apply Z.div_le_mono; lia|lia]. }
      assert (c ((off + len p - 1) / bs) <> None) as Hs%next_key_content by congruence.
      destruct Hs as [i Hi]. pose proof (data_index_range _ _ _ _ _ _ flat_ok Hi) as [Hk _].
      pose proof (block_bounds bs Hbs (off + len p - 1)). unfold table_end. nia. }
    rewrite Z.max_r, Z.min_l, Z.ltb_irrefl by lia.
    by rewrite drop_ge, app_nil_r by (unfold len in *; lia).
Qed.
End reader.
