(* ===== verification/SparseTheorems.v ===== *)
(** * Round trips of sparse tables

    What [internal/sparseblock] promises: the file that [Build] writes is loaded
    by [Load] into a reader of the blocks that were added. *)
From S2P Require Import Prelude RangeMap BlockReader GoStd Adaptor SparseFormat SparseBuilder SparseReader SparseTable.
Local Open Scope Z_scope.

(** ** The blocks that were added *)
Fixpoint adds_content (bs : Z) (adds : list add) (k : Z) : option bytes :=
  match adds with
  | [] => None
  | ((o, n), r) :: adds' =>
      if (o <=? k) && (k <? o + n)
      then Some (take (Z.to_nat bs) (drop (Z.to_nat ((k - o) * bs)) (rd_bytes r)))
      else adds_content bs adds' k
  end.

(** [for ... { b.AddBlocks(offset, length, r) }] *)
Fixpoint add_all (b : Builder) (adds : list add) : outcome Builder :=
  match adds with
  | [] => Ret b
  | ((o, n), r) :: adds' => b' ← AddBlocks b o n r; add_all b' adds'
  end.

Lemma adds_data_cons bs (a : add) adds :
  adds_data bs (a :: adds) = take (Z.to_nat (a.1.2 * bs)) (rd_bytes a.2) ++ adds_data bs adds.
Proof. done. Qed.

Lemma len_adds_data bs adds :
  0 < bs -> adds_complete bs adds -> len (adds_data bs adds) = run_total adds.*1 * bs.
Proof.
  intros Hbs. induction 1 as [|[[o n] r] adds [Hn Hr] Hc IH]; [done|]. rewrite adds_data_cons.
  cbn [fst snd] in *. rewrite len_app, IH, len_take by nia.
  change (((o, n, r) :: adds).*1) with ((o, n) :: adds.*1).
  change (run_total ((o, n) :: adds.*1)) with (n + run_total adds.*1). lia.
Qed.

Lemma data_block_adds bs adds : 0 < bs -> adds_complete bs adds -> forall pre d k m lo,
  runs_ok m lo adds.*1 -> 0 <= d -> len pre = d * bs ->
  data_block bs (pre ++ adds_data bs adds) <$> data_index d adds.*1 k = adds_content bs adds k.
Proof.
  intros Hbs. induction 1 as [|[[o n] r] adds [Hn Hr] Hc IH]; intros pre d k m lo Hok Hd Hpre; [done|].
  cbn in Hok. destruct Hok as (Hlo & Hnm & Hok). cbn [fst snd] in *. rewrite adds_data_cons. cbn [fst snd].
  cbn [fmap list_fmap fst data_index adds_content]. destruct (_ && _) eqn:Ek.
  - apply andb_true_iff in Ek as [Ek1 Ek2]. cbn. f_equal. unfold data_block.
    rewrite drop_app_ge by (unfold len in Hpre; nia).
    replace (Z.to_nat ((d + (k - o)) * bs) - length pre)%nat with (Z.to_nat ((k - o) * bs))
      by (unfold len in Hpre; nia).
    rewrite drop_app_le by (rewrite length_take; unfold len in Hr; nia).
    rewrite take_app_le by (rewrite length_drop, length_take; unfold len in Hr; nia).
    rewrite !take_drop_commute, take_take. do 2 f_equal. nia.
  - rewrite app_assoc. apply (IH _ (d + n) k m (o + n)); [done|lia|].
    rewrite len_app, Hpre, len_take by nia. lia.
Qed.

Lemma table_content_adds bs gs adds k m :
  0 < bs -> adds_complete bs adds -> runs_ok m 0 adds.*1 ->
  (forall k, data_index 0 (flat gs) k = data_index 0 adds.*1 k) ->
  table_content bs (flat gs) (adds_data bs adds) k = adds_content bs adds k.
Proof.
  intros Hbs Hc Hok Hidx. unfold table_content. rewrite Hidx.
  apply (data_block_adds bs adds Hbs Hc [] 0 k m 0 Hok); done.
Qed.

Lemma add_all_ok bs adds : forall gs adds0 b,
  builder_ok bs gs adds0 b -> runs_ok (2 ^ 48) (bd_prevEnd b) adds.*1 ->
  runs_end (bd_prevEnd b) adds.*1 <= 2 ^ 48 ->
  exists b' gs', add_all b adds = Ret b' /\ builder_ok bs gs' (adds0 ++ adds) b'.
Proof.
  induction adds as [|[[o n] r] adds IH]; intros gs adds0 b Hb Hok Hend.
  { exists b, gs. rewrite app_nil_r. done. }
  cbn in Hok, Hend. destruct Hok as (Ho & Hn & Hok). pose proof (runs_end_ge _ _ _ Hok).
  destruct (AddBlocks_ok bs gs adds0 b o n r Hb) as (b1 & gs1 & E1 & _ & Hb1 & Hp1); [lia..|].
  destruct (IH gs1 (adds0 ++ [((o, n), r)]) b1 Hb1) as (b2 & gs2 & E2 & Hb2);
    [by rewrite Hp1|by rewrite Hp1|].
  exists b2, gs2. cbn [add_all]. rewrite E1. split; [done|]. by rewrite <- app_assoc in Hb2.
Qed.

Lemma run_total_length m lo l : runs_ok m lo l -> Z.of_nat (length l) <= run_total l.
Proof.
  revert lo. induction l as [|[o n] l IH]; intros lo; cbn; [lia|]. intros (_ & Hn & Hl%IH).
  unfold run_total in *. lia.
Qed.

(** ** Build, then load *)
Section roundtrip.
Context `{!HeaderCodec} `{!HeaderCodecLaws}.

(** Calls of [AddBlocks] that [Builder] accepts: in order, within 2^48 blocks,
    with readers that deliver their blocks, fewer than 2^28 blocks in all, which
    keeps the sizes of the index within the 32 bits [readIndex] computes them in,
    and byte offsets within [int64]. *)
Record table_adds (bs : Z) (adds : list add) : Prop := {
  ta_blockSize : 512 <= bs <= 1024 * 1024;
  ta_nonempty : adds <> [];
  ta_order : runs_ok (2 ^ 48) 0 adds.*1;
  ta_end : runs_end 0 adds.*1 <= 2 ^ 48;
  ta_complete : adds_complete bs adds;
  ta_size : run_total adds.*1 < 2 ^ 28;
  ta_bytes : runs_end 0 adds.*1 * bs < 2 ^ 63;
}.

Lemma builder_load bs gs adds b eager :
  builder_ok bs gs adds b -> table_adds bs adds ->
  exists tbl r, gs <> [] /\ Build b = Ret (tbl, None) /\ Load (MkFile tbl eager) = Ret (inl r) /\
    table_reader bs gs (adds_data bs adds) r /\
    sr_header r = table_header bs gs (run_total adds.*1) (runs_end 0 adds.*1).
Proof.
  intros Hb [Hbs Hne Hord Hend Hcomp Hsize _].
  pose proof Hb as [_ _ _ _ _ Hgr Hfull Hge Hprev (_ & _ & _ & Ht) _].
  pose proof (run_total_length _ _ _ (proj1 (groups_end_flat _ _ Hgr))) as Hfl.
  pose proof (flat_length gs Hfull) as Hlen.
  pose proof (run_total_length _ _ _ Hord) as Hpos. rewrite length_fmap in Hpos.
  assert (0 < length adds)%nat by (destruct adds; cbn; [done|lia]).
  assert (Hgs : gs <> []) by (intros ->; cbn in Ht; lia).
  destruct (Build_ok bs gs adds b Hb) as (hb & Hhb & Eu & Ebuild); [lia|lia|lia|done|].
  destruct (Load_ok bs gs (adds_data bs adds) hb (run_total adds.*1) (bd_prevEnd b) eager)
    as (r & El & Hr & Hh); [done|done|lia|done|done| |lia|lia|done|done|].
  { rewrite len_adds_data by (done || lia). nia. }
  exists (table_file hb gs (adds_data bs adds)), r. rewrite Hprev in Hh. done.
Qed.

Lemma loaded_reader_ok bs gs adds b r limit :
  builder_ok bs gs adds b -> table_adds bs adds -> gs <> [] ->
  table_reader bs gs (adds_data bs adds) r -> runs_end 0 adds.*1 <= limit ->
  hole_reader_ok bs limit r (adds_content bs adds).
Proof.
  intros [_ _ _ _ _ Hgr Hfull Hge Hprev (_ & _ & _ & Ht) Hidx] [Hbs _ Hord Hend Hcomp Hsize _] Hne Hr Hlim.
  apply (hole_reader_ok_ext bs limit r (table_content bs (flat gs) (adds_data bs adds))).
  - intros k. by apply (table_content_adds bs gs adds k (2 ^ 48)); [lia|..].
  - apply (table_reader_ok bs gs); try done; [lia| |].
    + rewrite len_adds_data by (done || lia). by rewrite Ht.
    + unfold table_end. pose proof (proj2 (groups_end_flat _ _ Hgr)). lia.
Qed.

Lemma build_load bs adds eager :
  table_adds bs adds ->
  exists b tbl gs r,
    add_all (NewBuilder bs) adds = Ret b /\ builder_ok bs gs adds b /\ gs <> [] /\
    Build b = Ret (tbl, None) /\ Load (MkFile tbl eager) = Ret (inl r) /\
    table_reader bs gs (adds_data bs adds) r /\
    sr_header r = table_header bs gs (run_total adds.*1) (runs_end 0 adds.*1).
Proof.
  intros Hta. destruct (add_all_ok bs adds [] [] (NewBuilder bs) (NewBuilder_ok bs)) as (b & gs & Eb & Hb);
    [apply Hta..|].
  destruct (builder_load bs gs adds b eager Hb Hta) as (tbl & r & Hl). exists b, tbl, gs, r. naive_solver.
Qed.

(** C18: writing runs of blocks with a [Builder] and loading the file gives a
    reader of exactly those blocks: [NextData], [NextHole] and [ReadAt] meet the
    contract of a hole reader with the contents added, on any device that ends at
    or after the last block, and the sizes are those of the table. *)
Theorem sparse_table_roundtrip bs adds eager limit :
  table_adds bs adds -> runs_end 0 adds.*1 <= limit ->
  exists b tbl r,
    add_all (NewBuilder bs) adds = Ret b /\ Build b = Ret (tbl, None) /\
    Load (MkFile tbl eager) = Ret (inl r) /\
    hole_reader_ok bs limit r (adds_content bs adds) /\
    sr_Size r = runs_end 0 adds.*1 * bs /\ sr_DataSize r = run_total adds.*1 * bs.
Proof.
  intros Hta Hlim. destruct (build_load bs adds eager Hta) as (b & tbl & gs & r & Eb & Hb & Hne & Ebu & El & Hr & Hh).
  exists b, tbl, r. split; [done|]. split; [done|]. split; [done|]. split.
  - by apply (loaded_reader_ok bs gs adds b).
  - destruct Hta as [_ _ Hord Hend _ Hsize _]. unfold sr_Size, sr_DataSize. rewrite Hh. cbn.
    pose proof (run_total_nonneg _ _ _ Hord). pose proof (runs_end_ge _ _ _ Hord).
    by rewrite !i64_small by lia.
Qed.

Lemma runs_end_present d m lo l :
  runs_ok m lo l -> l <> [] -> is_Some (data_index d l (runs_end lo l - 1)).
Proof.
  revert d lo. induction l as [|[o n] l IH]; intros d lo; [done|]. cbn. intros (Hlo & Hn & Hl) _.
  destruct l as [|e l].
  - cbn. rewrite (proj2 (Z.leb_le _ _)), (proj2 (Z.ltb_lt _ _)) by lia. eauto.
  - destruct (_ && _); [by eauto|]. by apply IH.
Qed.

Lemma table_end_adds bs gs adds b :
  builder_ok bs gs adds b -> runs_ok (2 ^ 48) 0 adds.*1 -> adds <> [] ->
  table_end gs = runs_end 0 adds.*1.
Proof.
  intros [_ _ _ _ _ Hgr Hfull Hge Hprev _ Hidx] Hord Hne. unfold table_end.
  destruct (groups_end_flat _ _ Hgr) as [Hok Hle].
  destruct (runs_end_present 0 _ 0 adds.*1 Hord) as [i Hi]; [by destruct adds|].
  rewrite <- Hidx in Hi. pose proof (data_index_range _ _ _ _ _ _ Hok Hi). lia.
Qed.

(** C19: [ReadAt] of a loaded table, at any offset and for any buffer: the bytes
    of the blocks that were added, zeros in the holes between them, as far as the
    last block; past it the buffer is untouched and the error is [io.EOF]. *)
Theorem sparse_read_at bs adds eager p off :
  table_adds bs adds -> 0 <= off ->
  exists b tbl r,
    add_all (NewBuilder bs) adds = Ret b /\ Build b = Ret (tbl, None) /\
    Load (MkFile tbl eager) = Ret (inl r) /\
    let m := Z.max 0 (Z.min (len p) (runs_end 0 adds.*1 * bs - off)) in
    sr_ReadAt r p off =
    Ret (read_bytes bs (adds_content bs adds) off m ++ drop (Z.to_nat m) p, m,
         if m <? len p then Some EOF else None).
Proof.
  intros Hta Hoff. destruct (build_load bs adds eager Hta) as (b & tbl & gs & r & Eb & Hb & Hne & Ebu & El & Hr & Hh).
  destruct Hta as [Hbs Hnea Hord Hend Hcomp Hsize _].
  pose proof Hb as [_ _ _ _ _ Hgr Hfull Hge Hprev (_ & _ & _ & Ht) Hidx].
  exists b, tbl, r. split; [done|]. split; [done|]. split; [done|].
  rewrite <- (table_end_adds bs gs adds b Hb Hord Hnea).
  rewrite (sr_ReadAt_ok bs gs (adds_data bs adds)); try done; [|lia|].
  - cbn zeta. do 4 f_equal. unfold read_bytes. apply list_fmap_ext. intros i x _. unfold byte_at, image.
    by rewrite (table_content_adds bs gs adds _ (2 ^ 48)) by (done || lia).
  - rewrite len_adds_data by (done || lia). by rewrite Ht.
Qed.

Lemma write_data_short bs adds o n r es w k :
  0 < bs -> adds_complete bs adds -> 0 <= n -> len (rd_bytes r) < n * bs ->
  exists w', write_data bs ((add_entry <$> adds) ++ add_entry ((o, n), r) :: es) w k =
             (w', inl (default ErrShortRead (rd_err r))).
Proof.
  intros Hbs Hc Hn Hr. revert w k. induction Hc as [|[[o' n'] r'] adds [Hn' Hr'] Hc IH]; intros w k.
  - cbn -[Z.mul take]. unfold ReadFrom. rewrite (proj2 (Z.ltb_lt _ _)) by lia.
    destruct (rd_err r); [by eauto|]. rewrite take_ge by (unfold len in *; nia).
    rewrite (proj2 (Z.eqb_neq _ _)) by lia. cbn. eauto.
  - cbn -[Z.mul take] in *. unfold ReadFrom. rewrite (proj2 (Z.ltb_ge _ _)) by lia.
    rewrite len_take by nia. rewrite Z.eqb_refl. cbn [negb]. apply IH.
Qed.

(** When the reader of an added run ends early, [Build] fails with the
    reader's error, or with [ErrShortRead] when the reader just ends. *)
Theorem build_short_read bs adds o n r after b :
  0 < bs < 2 ^ 32 -> runs_ok (2 ^ 48) 0 (adds ++ ((o, n), r) :: after).*1 ->
  runs_end 0 (adds ++ ((o, n), r) :: after).*1 <= 2 ^ 48 ->
  run_total (adds ++ ((o, n), r) :: after).*1 < 2 ^ 32 ->
  adds_complete bs adds -> len (rd_bytes r) < n * bs ->
  add_all (NewBuilder bs) (adds ++ ((o, n), r) :: after) = Ret b ->
  exists w, Build b = Ret (w, Some (default ErrShortRead (rd_err r))).
Proof.
  intros Hbs Hord Hend Hsize Hcomp Hr Eb.
  destruct (add_all_ok bs (adds ++ ((o, n), r) :: after) [] [] (NewBuilder bs) (NewBuilder_ok bs))
    as (b' & gs & Eb' & Hb); [done..|]. cbn [app] in Hb. assert (b' = b) as -> by congruence.
  pose proof Hb as [_ Hbs' Hent _ _ Hgr Hfull _ _ (_ & _ & _ & Ht) _].
  pose proof (run_total_length _ _ _ (proj1 (groups_end_flat _ _ Hgr))) as Hfl.
  pose proof (flat_length gs Hfull) as Hlen.
  destruct (builder_header_eq bs gs _ b Hb Hbs) as [_ Hfits]; [lia|lia|].
  destruct (pb_roundtrip _ Hfits) as (hb & Em & _). unfold Build. rewrite Em, Hbs', Hent, fmap_app.
  assert (0 <= n).
  { rewrite fmap_app, runs_ok_app in Hord. destruct Hord as [_ Hord]. cbn in Hord. lia. }
  destruct (write_data_short bs adds o n r (add_entry <$> after)
    (writeIndex b (bd_w b ++ Magic ++ le_put 4 (u32 (len hb)) ++ hb)) 0) as (w' & Ew); [lia|done..|].
  cbn [fmap list_fmap]. rewrite Ew. eauto.
Qed.
End roundtrip.

(** ** A codec

    An encoding of the header as nine 64-bit words, for the examples; it shows
    that the laws of the codec can hold. *)
Definition header_fields (h : Header) : list Z :=
  [Version h; BlockSize h; NumRangeEntries h; RangeEntrySize h; NumBlockEntries h; BlockEntrySize h;
   TotalBlocks h; TotalDataBlocks h; EndBlock h].

Fixpoint words (b : bytes) (n : nat) : list Z :=
  match n with
  | O => []
  | S n => le_get (take 8 b) :: words (drop 8 b) n
  end.

Lemma words_put l :
  Forall (fun x => 0 <= x < 2 ^ 64) l -> words (mjoin (le_put 8 <$> l)) (length l) = l.
Proof.
  induction 1 as [|x l Hx Hl IH]; [done|]. cbn [length words].
  change (mjoin (le_put 8 <$> x :: l)) with (le_put 8 x ++ mjoin (le_put 8 <$> l)).
  rewrite (take_app_length' (le_put 8 x)) by (by rewrite length_le_put).
  rewrite (drop_app_length' (le_put 8 x)) by (by rewrite length_le_put).
  by rewrite IH, le_get_put by done.
Qed.

#[export] Instance word_codec : HeaderCodec := {
  pb_marshal h := inl (mjoin (le_put 8 <$> header_fields h));
  pb_unmarshal b :=
    match words b 9 with
    | [v; bs; nr; rs; nb; es; tb; td; e] =>
        if (length b =? 72)%nat then inl (MkHeader v bs nr rs nb es tb td e) else inr ErrUnmarshal
    | _ => inr ErrUnmarshal
    end;
}.

#[export] Instance word_codec_laws : HeaderCodecLaws.
Proof.
  split. intros h Hh. eexists. split; [done|].
  assert (Hl : length (mjoin (le_put 8 <$> header_fields h)) = 72%nat).
  { unfold header_fields. cbn -[le_put]. rewrite !length_app, !length_le_put. done. }
  split; [unfold len; rewrite Hl; lia|]. unfold pb_unmarshal, word_codec.
  assert (Hw : words (mjoin (le_put 8 <$> header_fields h)) 9 = header_fields h).
  { apply (words_put (header_fields h)). unfold header_fits in Hh. unfold header_fields.
    repeat (apply Forall_cons_2; [lia|]). apply Forall_nil_2. }
  rewrite Hw, Hl. by destruct h.
Qed.

(** ** Witnesses *)
Definition example_table : list add :=
  [((1, 1), MkIoReader (replicate 512 7) None); ((3, 2), MkIoReader (replicate 1030 9) None)].

Lemma example_table_adds : table_adds 512 example_table.
Proof.
  split; [lia|done|cbn; lia|cbn; lia| |cbn; lia|cbn; lia].
  repeat (apply Forall_cons_2; [cbn -[len replicate]; unfold len; rewrite length_replicate; lia|]).
  apply Forall_nil_2.
Qed.

Lemma sparse_table_roundtrip_witness :
  exists b tbl r, add_all (NewBuilder 512) example_table = Ret b /\ Build b = Ret (tbl, None) /\
    Load (MkFile tbl true) = Ret (inl r) /\ sr_Size r = 2560 /\
    hole_reader_ok 512 6 r (adds_content 512 example_table).
Proof.
  destruct (sparse_table_roundtrip 512 example_table true 6 example_table_adds ltac:(cbn; lia))
    as (b & tbl & r & E1 & E2 & E3 & Hok & Hs & _).
  exists b, tbl, r. split; [exact E1|]. split; [exact E2|]. split; [exact E3|]. split; [exact Hs|exact Hok].
Defined.

Lemma sparse_read_at_witness :
  exists b tbl r, add_all (NewBuilder 512) example_table = Ret b /\ Build b = Ret (tbl, None) /\
    Load (MkFile tbl false) = Ret (inl r) /\
    sr_ReadAt r (zeros 4) 1534 = Ret ([0; 0; 9; 9], 4, None).
Proof.
  destruct (sparse_read_at 512 example_table false (zeros 4) 1534 example_table_adds ltac:(lia))
    as (b & tbl & r & E1 & E2 & E3 & E4).
  exists b, tbl, r. split; [exact E1|]. split; [exact E2|]. split; [exact E3|].
  rewrite E4. vm_compute. reflexivity.
Defined.

Lemma build_short_read_witness :
  exists b w, add_all (NewBuilder 512) [((1, 1), MkIoReader [7] None)] = Ret b /\
    Build b = Ret (w, Some ErrShortRead).
Proof.
  destruct (add_all (NewBuilder 512) [((1, 1), MkIoReader [7] None)]) as [b| |] eqn:E;
    [|vm_compute in E; discriminate E|vm_compute in E; discriminate E].
  destruct (build_short_read 512 [] 1 1 (MkIoReader [7] None) [] b) as [w Hw];
    [lia|cbn; lia|cbn; lia|cbn; lia|apply Forall_nil_2|reflexivity|exact E|].
  exists b, w. split; [reflexivity|exact Hw].
Defined.
