(* ===== verification/SparseBuildFrom.v ===== *)
(** * Building a table from a reader

    [internal/sparseblock/build_from_reader.go]: [BuildFromReader] copies the
    blocks of a [t.HoleReaderAt] into a table. Compaction uses it to rewrite the
    live blocks of logs and tables. *)
From S2P Require Import Prelude RangeMap BlockReader GoStd Adaptor SparseFormat SparseBuilder SparseReader SparseTable.
From S2P Require Import SparseTheorems.
Local Open Scope Z_scope.

Definition MaxInt64 : Z := 2 ^ 63 - 1.

Section build_from.
Context {H : Type} `{!HoleReaderAt H} `{!HeaderCodec}.

(** [io.NewSectionReader(src, off, n)]: what it delivers when [Build] copies it.
    [io.EOF] ends it. *)
Definition section_reader (src : H) (off n : Z) : outcome io_reader :=
  '(buf, got, err) ← ReadAt src (zeros n) off;
  Ret (MkIoReader (take (Z.to_nat got) buf)
         match err with Some EOF => None | e => e end).

(** The loop: the builder and the number of runs, or an error. *)
Fixpoint build_loop (fuel : nat) (src : H) (blockSize maxDataSize : Z) (b : Builder)
    (offset dataBytes count : Z) : outcome (Builder * Z + error) :=
  match fuel with
  | O => OutOfFuel
  | S fuel =>
      if dataBytes <? maxDataSize then
        '(startOffset, err) ← NextData src offset;
        match err with
        | Some EOF => Ret (inl (b, count))
        | Some _ => Panic
        | None =>
            '(endOffset, err) ← NextHole src startOffset;
            match err with
            | Some _ => Panic
            | None =>
                let length := endOffset - startOffset in
                let cut := maxDataSize <? dataBytes + length in
                let length := if cut then maxDataSize - dataBytes else length in
                let endOffset := if cut then startOffset + length else endOffset in
                if cut && (length <? blockSize) then Ret (inl (b, count))
                else if negb (Z.rem startOffset blockSize =? 0) || negb (Z.rem length blockSize =? 0)
                then Ret (inr ErrNotAligned)
                else
                  r ← section_reader src startOffset length;
                  b ← AddBlocks b (Z.quot startOffset blockSize) (Z.quot length blockSize) r;
                  build_loop fuel src blockSize maxDataSize b endOffset (dataBytes + length) (count + 1)
            end
        end
      else Ret (inl (b, count))
  end.

(** [opts.MaxDataSize] is [maxOpt], 0 when [opts] is nil. The function that logs
    the build time, deferred before [Build], divides by [count]. *)
Definition BuildFromReader (fuel : nat) (src : H) (blockSize maxOpt : Z) :
    outcome (bytes * option error) :=
  let maxDataSize := if 0 <? maxOpt then maxOpt else MaxInt64 in
  res ← build_loop fuel src blockSize maxDataSize (NewBuilder blockSize) 0 0 0;
  match res with
  | inr err => Ret ([], Some err)
  | inl (b, count) =>
      out ← Build b;
      if count =? 0 then Panic else Ret out
  end.
End build_from.

(** ** Copying a reader *)
Section copy.
Context {H : Type} `{!HoleReaderAt H} `{!HeaderCodec} `{!HeaderCodecLaws}.
Context (bs nb : Z) (Hbs : 512 <= bs <= 1024 * 1024) (Hnb : 0 <= nb <= 2 ^ 48) (Hbytes : nb * bs < MaxInt64).
Context (src : H) (c : content) (Hsrc : hole_reader_ok bs nb src c).

(** The runs of [c] below block [pos] have been added. *)
Record copied (adds : list add) (b : Builder) (pos : Z) : Prop := {
  cp_builder : exists gs, builder_ok bs gs adds b;
  cp_order : runs_ok (2 ^ 48) 0 adds.*1;
  cp_end : runs_end 0 adds.*1 <= pos;
  cp_complete : adds_complete bs adds;
  cp_content k : adds_content bs adds k = if k <? pos then c k else None;
}.

Lemma adds_content_app adds1 adds2 k :
  adds_content bs (adds1 ++ adds2) k =
  match adds_content bs adds1 k with Some b => Some b | None => adds_content bs adds2 k end.
Proof. induction adds1 as [|[[o n] r] adds1 IH]; cbn; [done|]. by destruct (_ && _). Qed.

Lemma section_reader_ok s h :
  0 <= s < h -> (forall k, s <= k < h -> is_Some (c k)) ->
  section_reader src (s * bs) ((h - s) * bs) =
  Ret (MkIoReader (read_bytes bs c (s * bs) ((h - s) * bs)) None).
Proof.
  intros Hs Hk. unfold section_reader.
  assert (Hz : len (zeros ((h - s) * bs)) = (h - s) * bs) by (apply len_zeros; nia).
  destruct (ho_ReadAt _ _ _ _ Hsrc (zeros ((h - s) * bs)) (s * bs)) as (err & -> & Herr);
    [nia|nia| |].
  { intros k. rewrite Hz, Z.div_mul by lia.
    replace (s * bs + (h - s) * bs - 1) with (bs - 1 + (h - 1) * bs) by lia.
    rewrite Z.div_add, Z.div_small by lia. intros. apply Hk. lia. }
  cbn [mbind outcome_bind]. rewrite Hz, take_read_bytes by nia.
  by destruct Herr as [->|[-> _]].
Qed.

(** One run joins the table. *)
Lemma copied_run adds b pos s h :
  copied adds b pos -> 0 <= pos <= s -> s < h -> h <= nb ->
  (forall k, pos <= k < s -> c k = None) -> (forall k, s <= k < h -> is_Some (c k)) ->
  let r := MkIoReader (read_bytes bs c (s * bs) ((h - s) * bs)) None in
  exists b', AddBlocks b s (h - s) r = Ret b' /\ copied (adds ++ [((s, h - s), r)]) b' h.
Proof.
  intros [(gs & Hb) Hord Hend Hcomp Hcont] Hpos Hsh Hh Hgap Hrun r.
  destruct (AddBlocks_ok bs gs adds b s (h - s) r Hb) as (b' & gs' & E & _ & Hb' & _);
    [rewrite (bo_prevEnd _ _ _ _ Hb); lia|lia|lia|].
  exists b'. split; [done|]. split.
  - eauto.
  - rewrite fmap_app, runs_ok_app. split; [done|]. cbn. lia.
  - rewrite fmap_app, runs_end_app. cbn. lia.
  - apply Forall_app. split; [done|]. repeat constructor; cbn -[Z.mul len]; [lia|].
    rewrite len_read_bytes by nia. lia.
  - intros k. rewrite adds_content_app, Hcont. cbn [adds_content].
    destruct (Z.ltb_spec k pos) as [Hk|Hk].
    + rewrite (proj2 (Z.ltb_lt k h)), (proj2 (Z.leb_gt s k)) by lia. cbn. by destruct (c k).
    + destruct (Z.leb_spec s k) as [Hk2|Hk2]; cbn.
      2: { rewrite Hgap by lia. by destruct (k <? h). }
      replace (s + (h - s)) with h by lia. destruct (Z.ltb_spec k h) as [Hk3|Hk3]; [|done].
      rewrite drop_read_bytes, take_read_bytes by nia.
      replace (s * bs + (k - s) * bs) with (k * bs) by lia.
      rewrite <- image_bytes by (lia || apply Hsrc). destruct (Hrun k) as [x Hx]; [lia|].
      unfold image. by rewrite Hx.
Qed.

Lemma run_total_bound adds b pos : copied adds b pos -> 0 <= run_total adds.*1 <= pos.
Proof.
  intros [_ Hord Hend _ _]. pose proof (run_total_end _ _ _ Hord). pose proof (run_total_nonneg _ _ _ Hord).
  lia.
Qed.

Lemma build_loop_ok fuel : forall adds b pos,
  copied adds b pos -> 0 <= pos <= nb -> nb - pos < Z.of_nat fuel ->
  exists adds' b', build_loop fuel src bs MaxInt64 b (pos * bs) (run_total adds.*1 * bs)
                     (Z.of_nat (length adds)) = Ret (inl (b', Z.of_nat (length adds'))) /\
    copied adds' b' nb.
Proof.
  induction fuel as [|fuel IH]; intros adds b pos Hcp Hpos Hf; [lia|]. cbn [build_loop].
  pose proof (run_total_bound _ _ _ Hcp) as Ht.
  assert (run_total adds.*1 * bs <= nb * bs) by nia.
  rewrite (proj2 (Z.ltb_lt (run_total adds.*1 * bs) MaxInt64)) by lia.
  destruct (ho_NextData _ _ _ _ Hsrc (pos * bs)) as ([s|] & Hk & E); [nia| |];
    rewrite Z.div_mul in Hk by lia.
  - rewrite E, byte_offset_aligned by lia. cbn [mbind outcome_bind].
    destruct Hk as (Hle & Hs & Hgap). pose proof (ho_range _ _ _ _ Hsrc s Hs).
    destruct (ho_NextHole _ _ _ _ Hsrc (s * bs)) as (h & -> & Hh); [nia|].
    rewrite Z.div_mul in Hh by lia. destruct Hh as (Hsh & Hch & Hrun).
    rewrite byte_offset_aligned by lia. cbn [mbind outcome_bind].
    assert (s <> h). { intros ->. rewrite Hch in Hs. by destruct Hs. }
    assert (h <= nb). { pose proof (ho_range _ _ _ _ Hsrc (h - 1) (Hrun (h - 1) ltac:(lia))). lia. }
    replace (h * bs - s * bs) with ((h - s) * bs) by lia.
    assert (run_total adds.*1 * bs + (h - s) * bs <= nb * bs) by nia.
    rewrite (proj2 (Z.ltb_ge MaxInt64 (run_total adds.*1 * bs + (h - s) * bs))) by lia. cbn [andb].
    rewrite !Z.rem_mul, !Z.quot_mul by lia. cbn [negb orb Z.eqb].
    rewrite section_reader_ok by (done || lia). cbn [mbind outcome_bind].
    destruct (copied_run adds b pos s h Hcp) as (b' & Eb & Hcp'); [lia|lia|lia|done|done|].
    rewrite Eb. cbn [mbind outcome_bind].
    destruct (IH _ b' h Hcp') as (adds' & b'' & E' & Hcp''); [lia|lia|].
    exists adds', b''. split; [|done]. rewrite <- E'. f_equal.
    + rewrite fmap_app, run_total_app. cbn. lia.
    + rewrite length_app. cbn. lia.
  - destruct E as [x ->]. cbn [mbind outcome_bind]. exists adds, b. split; [done|].
    destruct Hcp as [Hb Hord Hend Hcomp Hcont]. split; try done; [lia|].
    intros k. rewrite Hcont. cbn in Hk. destruct (Z.ltb_spec k pos), (Z.ltb_spec k nb); try done; try lia.
    symmetry. apply Hk. lia.
Qed.

(** The number of blocks of the source. *)
Definition block_count : Z := Z.of_nat (length (filter (fun k => is_Some (c k)) (seqZ 0 nb))).

Definition runs_keys (l : list run) : list Z := mjoin ((fun e : run => seqZ e.1 e.2) <$> l).

Lemma elem_of_runs_keys l k : k ∈ runs_keys l <-> exists e : run, e ∈ l /\ e.1 <= k < e.1 + e.2.
Proof.
  unfold runs_keys. rewrite list_elem_of_join. setoid_rewrite list_elem_of_fmap. split.
  - intros (ks & Hk & e & -> & He). apply elem_of_seqZ in Hk. eauto.
  - intros (e & He & Hk). eexists. split; [|by exists e]. by apply elem_of_seqZ.
Qed.

Lemma runs_keys_NoDup m lo l : runs_ok m lo l -> NoDup (runs_keys l).
Proof.
  revert lo. induction l as [|[o n] l IH]; intros lo; cbn; [constructor|]. intros (_ & _ & Hl).
  apply NoDup_app. split; [apply NoDup_seqZ|]. split; [|by apply (IH (o + n))].
  intros k Hk%elem_of_seqZ (e & He & Hke)%elem_of_runs_keys.
  pose proof (runs_ok_bounds _ _ _ _ Hl He). lia.
Qed.

Lemma length_runs_keys m lo l : runs_ok m lo l -> Z.of_nat (length (runs_keys l)) = run_total l.
Proof.
  revert lo. induction l as [|[o n] l IH]; intros lo; [done|]. cbn [runs_ok]. intros (_ & Hn & Hl%IH).
  change (runs_keys ((o, n) :: l)) with (seqZ o n ++ runs_keys l).
  change (run_total ((o, n) :: l)) with (n + run_total l).
  rewrite length_app, length_seqZ, Nat2Z.inj_add, Hl. lia.
Qed.

Lemma adds_content_key adds k : k ∈ runs_keys adds.*1 -> is_Some (adds_content bs adds k).
Proof.
  induction adds as [|[[o n] r] adds IH]; [by intros ?%elem_of_nil|].
  change (runs_keys (((o, n, r) :: adds).*1)) with (seqZ o n ++ runs_keys adds.*1).
  rewrite elem_of_app, elem_of_seqZ. cbn [adds_content].
  intros [Hk|Hk]; [|destruct (_ && _); [by eauto|by apply IH]].
  rewrite (proj2 (Z.leb_le o k)), (proj2 (Z.ltb_lt k (o + n))) by lia. cbn. eauto.
Qed.

Lemma copied_total adds b : copied adds b nb -> run_total adds.*1 <= block_count.
Proof.
  intros [_ Hord _ _ Hcont]. rewrite <- (length_runs_keys _ _ _ Hord). unfold block_count.
  apply inj_le, submseteq_length, NoDup_submseteq; [by apply (runs_keys_NoDup _ _ _ Hord)|].
  intros k Hk%adds_content_key. rewrite Hcont in Hk. destruct (Z.ltb_spec k nb); [|by destruct Hk].
  apply list_elem_of_filter. split; [done|]. apply elem_of_seqZ. pose proof (ho_range _ _ _ _ Hsrc k Hk). lia.
Qed.

Lemma copied_new : copied [] (NewBuilder bs) 0.
Proof.
  split; [exists []; apply NewBuilder_ok|done|done|constructor|].
  intros k. cbn. destruct (Z.ltb_spec k 0); [|done]. destruct (c k) eqn:E; [|done].
  pose proof (ho_range _ _ _ _ Hsrc k ltac:(eauto)). lia.
Qed.

Lemma build_loop_all fuel :
  nb < Z.of_nat fuel ->
  exists adds b, build_loop fuel src bs MaxInt64 (NewBuilder bs) 0 0 0 =
                   Ret (inl (b, Z.of_nat (length adds))) /\ copied adds b nb.
Proof. intros Hf. apply (build_loop_ok fuel [] (NewBuilder bs) 0 copied_new); lia. Qed.

(** [BuildFromReader] and [Load], with the statistics the load logs. *)
Lemma build_from_reader_ok fuel eager :
  nb < Z.of_nat fuel -> 0 < block_count < 2 ^ 28 ->
  exists tbl r, BuildFromReader fuel src bs 0 = Ret (tbl, None) /\
    Load (MkFile tbl eager) = Ret (inl r) /\ hole_reader_ok bs nb r c /\ sr_LogLoadStats r = Ret tt.
Proof.
  intros Hf Hcount. destruct (build_loop_all fuel Hf) as (adds & b & E & Hcp).
  pose proof (copied_total adds b Hcp) as Ht. pose proof Hcp as [(gs & Hb) Hord Hend Hcomp Hcont].
  assert (Hne : adds <> []).
  { intros ->. unfold block_count in Hcount. rewrite filter_none in Hcount; [cbn in Hcount; lia|].
    intros k Hk%elem_of_seqZ Hs. specialize (Hcont k). cbn in Hcont.
    rewrite (proj2 (Z.ltb_lt k nb)) in Hcont by lia. rewrite <- Hcont in Hs. by destruct Hs. }
  assert (Hta : table_adds bs adds).
  { pose proof (runs_end_ge _ _ _ Hord). unfold MaxInt64 in Hbytes.
    split; [done|done|done|lia|done|lia|]. assert (runs_end 0 adds.*1 * bs <= nb * bs) by nia. lia. }
  destruct (builder_load bs gs adds b eager Hb Hta) as (tbl & r & Hgs & Ebu & El & Hr & Hhd).
  assert (Hok : hole_reader_ok bs nb r c).
  { apply (hole_reader_ok_ext bs nb r (adds_content bs adds)).
    - intros k. rewrite Hcont. destruct (Z.ltb_spec k nb); [done|]. destruct (c k) eqn:Ek; [|done].
      pose proof (ho_range _ _ _ _ Hsrc k ltac:(eauto)). lia.
    - by apply (loaded_reader_ok bs gs adds b). }
  exists tbl, r. unfold BuildFromReader. change (0 <? 0) with false. cbn iota. rewrite E.
  cbn [mbind outcome_bind]. rewrite Ebu. cbn [mbind outcome_bind].
  rewrite (proj2 (Z.eqb_neq _ 0)) by (destruct adds; cbn; [done|lia]).
  split; [done|]. split; [done|]. split; [done|].
  unfold sr_LogLoadStats. rewrite Hhd. cbn. pose proof Hb as [_ _ _ _ _ _ Hfull _ _ _ _].
  pose proof (flat_length gs Hfull). destruct gs; [done|]. rewrite !(proj2 (Z.eqb_neq _ 0)) by (cbn in *; lia). done.
Qed.

(** A source without a block. *)
Lemma build_from_empty fuel :
  nb < Z.of_nat fuel -> (forall k, c k = None) -> BuildFromReader fuel src bs 0 = Panic.
Proof.
  intros Hf Hempty. destruct (build_loop_all fuel Hf) as (adds & b & E & Hcp).
  pose proof Hcp as [(gs & Hb) Hord Hend Hcomp Hcont].
  assert (adds = []) as ->.
  { destruct adds as [|[[o n] r] adds]; [done|]. exfalso. cbn in Hord. specialize (Hcont o). cbn in Hcont.
    rewrite (proj2 (Z.leb_le o o)), (proj2 (Z.ltb_lt o (o + n))), Hempty in Hcont by lia.
    by destruct (o <? nb). }
  pose proof Hb as [_ _ _ _ _ Hgr Hfull _ _ (_ & _ & _ & Ht) _].
  assert (gs = []) as ->.
  { destruct gs as [|g gs]; [done|]. pose proof (flat_length _ Hfull) as Hl. cbn in Hl, Ht.
    pose proof (run_total_length _ _ _ (proj1 (groups_end_flat _ _ Hgr))). cbn in *. lia. }
  destruct (Build_ok bs [] [] b Hb) as (hb & _ & _ & Ebu); [lia|done|done|constructor|].
  unfold BuildFromReader. change (0 <? 0) with false. cbn iota. rewrite E. cbn [mbind outcome_bind].
  rewrite Ebu. done.
Qed.
(** C21: [BuildFromReader] copies a reader: if the source has a block, the table
    it writes loads into a reader with exactly the contents of the source. One
    iteration per run of blocks is enough. A source without a block makes it
    panic: the statistics it logs after the build divide by the number of runs. *)
Theorem build_from_reader_copies fuel eager :
  nb < Z.of_nat fuel ->
  (0 < block_count < 2 ^ 28 ->
   exists tbl r, BuildFromReader fuel src bs 0 = Ret (tbl, None) /\ Load (MkFile tbl eager) = Ret (inl r) /\
     hole_reader_ok bs nb r c /\ reader_ok bs nb (NewBlockReader r bs) c) /\
  ((forall k, c k = None) -> BuildFromReader fuel src bs 0 = Panic).
Proof.
  intros Hf. split; [|by apply build_from_empty]. intros Hcount.
  destruct (build_from_reader_ok fuel eager Hf Hcount) as (tbl & r & E & El & Hok & _).
  exists tbl, r. split; [done|]. split; [done|]. split; [done|]. apply block_reader_contract; [lia|lia|done].
Qed.
End copy.

(** ** Witnesses *)
Definition example_src : HoleReader mem_reader :=
  NewHoleReader (MemReader 512 4 {[1 := 7; 3 := 9]} (fun _ => false)) 512.
Definition example_empty : HoleReader mem_reader :=
  NewHoleReader (MemReader 512 4 ∅ (fun _ => false)) 512.

Lemma example_src_ok : hole_reader_ok 512 4 example_src (mem_content (ahr_br example_src)).
Proof. apply hole_adaptor_contract; [lia|]. by apply (mem_reader_ok (ahr_br example_src)). Qed.

Lemma example_empty_ok : hole_reader_ok 512 4 example_empty (fun _ => None).
Proof.
  apply (hole_reader_ok_ext 512 4 example_empty (mem_content (ahr_br example_empty))).
  - intros k. unfold mem_content. by case_bool_decide.
  - apply hole_adaptor_contract; [lia|]. by apply (mem_reader_ok (ahr_br example_empty)).
Qed.

Lemma build_from_reader_copies_witness :
  (exists tbl r, BuildFromReader 5 example_src 512 0 = Ret (tbl, None) /\ Load (MkFile tbl true) = Ret (inl r) /\
     reader_ok 512 4 (NewBlockReader r 512) (mem_content (ahr_br example_src))) /\
  BuildFromReader 5 example_empty 512 0 = Panic.
Proof.
  split.
  - destruct (build_from_reader_copies 512 4 ltac:(lia) ltac:(lia) ltac:(unfold MaxInt64; lia) example_src
      (mem_content (ahr_br example_src)) example_src_ok 5 true) as [H _]; [lia|].
    destruct H as (tbl & r & E1 & E2 & _ & Hr); [vm_compute; split; reflexivity|].
    exists tbl, r. split; [exact E1|]. split; [exact E2|exact Hr].
  - destruct (build_from_reader_copies 512 4 ltac:(lia) ltac:(lia) ltac:(unfold MaxInt64; lia) example_empty
      (fun _ => None) example_empty_ok 5 true) as [_ H]; [lia|]. apply H. reflexivity.
Defined.
