(* ===== verification/WaitBarrier.v ===== *)
(** * The wait barrier

    [internal/util/wait_barrier.go]: [WaitBarrier] lets an operation wait for
    the users of a shared resource that started before it, without stopping the
    ones that start later. The [sync.WaitGroup]s it allocates are cells of a
    heap, because a context keeps the one it was counted in after the barrier
    has replaced it. The operations run under the barrier's own lock, so each
    locked section is one step; the wait between the two halves of [Barrier] is
    what other goroutines interleave with. *)
From S2P Require Import Prelude.
Local Open Scope Z_scope.

(** ** The operations *)

(** [wb_heap] holds the counters of the wait groups by address; [new] takes the
    next address. *)
Record WaitBarrier := MkWaitBarrier {
  wb_wg : option nat;
  wb_heap : list Z;
}.

Definition NewWaitBarrier : WaitBarrier := MkWaitBarrier None [].

(** [WaitGroup.Add] panics when the counter would become negative. *)
Definition wg_Add (h : list Z) (g : nat) (delta : Z) : outcome (list Z) :=
  c ← of_option (h !! g);
  if c + delta <? 0 then Panic else Ret (<[g := c + delta]> h).

Definition wg_Done (h : list Z) (g : nat) : outcome (list Z) := wg_Add h g (-1).

(** [Start] returns the wait group of the new [WaitBarrierContext]. *)
Definition wb_Start (b : WaitBarrier) : outcome (WaitBarrier * nat) :=
  let '(g, h) := match wb_wg b with
                 | Some g => (g, wb_heap b)
                 | None => (length (wb_heap b), wb_heap b ++ [0])
                 end in
  h ← wg_Add h g 1; Ret (MkWaitBarrier (Some g) h, g).

Definition wbc_Done (b : WaitBarrier) (g : nat) : outcome WaitBarrier :=
  h ← wg_Done (wb_heap b) g; Ret (MkWaitBarrier (wb_wg b) h).

(** [BarrierWithUnlock] up to [wg.Wait()]: the wait group to wait for and the
    one that has been put in its place, or [None] when there is none to wait
    for. *)
Definition wb_Enter (b : WaitBarrier) : outcome (WaitBarrier * option (nat * nat)) :=
  match wb_wg b with
  | None => Ret (b, None)
  | Some wg =>
      let barrierWg := length (wb_heap b) in
      h ← wg_Add (wb_heap b ++ [0]) barrierWg 1;
      Ret (MkWaitBarrier (Some barrierWg) h, Some (wg, barrierWg))
  end.

(** [wg.Wait()] returns when the counter is zero. *)
Definition wb_can_leave (b : WaitBarrier) (wg : nat) : bool :=
  bool_decide (wb_heap b !! wg = Some 0).

(** [barrierWg.Done()] *)
Definition wb_Leave (b : WaitBarrier) (barrierWg : nat) : outcome WaitBarrier :=
  wbc_Done b barrierWg.

(** ** Interleavings

    A system of goroutines around one barrier: the contexts that have not been
    [Done] with their wait groups, and the calls of [Barrier] that are waiting,
    each with its second wait group and the contexts that were active when it
    was entered. Contexts are numbered in the order they start. *)
Record barrier_system := MkSystem {
  sy_wb : WaitBarrier;
  sy_active : gmap nat nat;
  sy_waiting : gmap nat (nat * gset nat);
  sy_next : nat;
}.

Definition barrier_initial : barrier_system := MkSystem NewWaitBarrier ∅ ∅ 0.

Definition bar_start (s : barrier_system) : outcome (barrier_system * nat) :=
  '(b, g) ← wb_Start (sy_wb s);
  Ret (MkSystem b (<[sy_next s := g]> (sy_active s)) (sy_waiting s) (S (sy_next s)), sy_next s).

Definition bar_done (s : barrier_system) (i : nat) : outcome barrier_system :=
  g ← of_option (sy_active s !! i); b ← wbc_Done (sy_wb s) g;
  Ret (MkSystem b (delete i (sy_active s)) (sy_waiting s) (sy_next s)).

(** The wait group the call waits for, when it does not return at once. *)
Definition bar_enter (s : barrier_system) : outcome (barrier_system * option nat) :=
  '(b, o) ← wb_Enter (sy_wb s);
  Ret match o with
      | None => (s, None)
      | Some (wg, barrierWg) =>
          (MkSystem b (sy_active s) (<[wg := (barrierWg, dom (sy_active s))]> (sy_waiting s)) (sy_next s),
           Some wg)
      end.

(** The return of a waiting call, which is blocked while its wait group is in
    use. *)
Definition bar_leave (s : barrier_system) (wg : nat) : option (outcome barrier_system) :=
  match sy_waiting s !! wg with
  | None => None
  | Some (barrierWg, _) =>
      if wb_can_leave (sy_wb s) wg
      then Some (b ← wb_Leave (sy_wb s) barrierWg;
                 Ret (MkSystem b (sy_active s) (delete wg (sy_waiting s)) (sy_next s)))
      else None
  end.

Inductive barrier_step : relation barrier_system :=
  | step_start s s' i : bar_start s = Ret (s', i) -> barrier_step s s'
  | step_done s s' i : bar_done s i = Ret s' -> barrier_step s s'
  | step_enter s s' wg : bar_enter s = Ret (s', wg) -> barrier_step s s'
  | step_leave s s' wg : bar_leave s wg = Some (Ret s') -> barrier_step s s'.

(** ** The invariant *)
Definition users (active : gmap nat nat) (g : nat) : Z :=
  Z.of_nat (size (filter (fun ig : nat * nat => ig.2 = g) active)).

(** The hold a waiting barrier has on the wait group it has installed. *)
Definition held (waiting : gmap nat (nat * gset nat)) (g : nat) : Z :=
  match g with
  | O => 0
  | S g' => if bool_decide (is_Some (waiting !! g')) then 1 else 0
  end.

Record barrier_inv (s : barrier_system) : Prop := {
  inv_len : length (wb_heap (sy_wb s)) = match wb_wg (sy_wb s) with Some g => S g | None => O end;
  inv_active i g : sy_active s !! i = Some g ->
    (i < sy_next s /\ g < length (wb_heap (sy_wb s)))%nat;
  inv_waiting g bg must : sy_waiting s !! g = Some (bg, must) ->
    bg = S g /\ (bg < length (wb_heap (sy_wb s)))%nat /\
    forall i, i ∈ must -> (i < sy_next s)%nat /\ forall g', sy_active s !! i = Some g' -> (g' <= g)%nat;
  inv_count g c : wb_heap (sy_wb s) !! g = Some c ->
    c = users (sy_active s) g + held (sy_waiting s) g;
  inv_left g i g' : (S g < length (wb_heap (sy_wb s)))%nat -> sy_waiting s !! g = None ->
    sy_active s !! i = Some g' -> (g < g')%nat;
}.

Lemma users_empty g : users ∅ g = 0.
Proof. unfold users. by rewrite map_filter_empty, map_size_empty. Qed.

Lemma users_insert active i g g' :
  active !! i = None -> users (<[i := g]> active) g' = users active g' + (if decide (g = g') then 1 else 0).
Proof.
  intros Hi. unfold users. case_decide as Hg.
  - rewrite map_filter_insert_True, map_size_insert_None by (done || by apply map_lookup_filter_None; left).
    lia.
  - rewrite map_filter_insert_False, delete_id by done. lia.
Qed.

Lemma users_delete active i g g' :
  active !! i = Some g -> users (delete i active) g' = users active g' - (if decide (g = g') then 1 else 0).
Proof.
  intros Hi. rewrite <- (insert_delete_id active i g Hi) at 2.
  rewrite users_insert by apply lookup_delete_eq. lia.
Qed.

Lemma users_nonneg active g : 0 <= users active g.
Proof. unfold users. lia. Qed.

Lemma users_pos active i g : active !! i = Some g -> 0 < users active g.
Proof.
  intros Hi. pose proof (users_delete active i g g Hi). rewrite decide_True in * by done.
  pose proof (users_nonneg (delete i active) g). lia.
Qed.

Lemma users_fresh active g :
  (forall i g', active !! i = Some g' -> g' <> g) -> users active g = 0.
Proof.
  intros Hf. unfold users. rewrite map_empty_filter_2; [by rewrite map_size_empty|].
  intros i g' Hi. by apply (Hf i).
Qed.

Lemma held_nonneg waiting g : 0 <= held waiting g.
Proof. destruct g; cbn; [lia|]. case_bool_decide; lia. Qed.

Lemma held_insert waiting wg p g :
  waiting !! wg = None -> held (<[wg := p]> waiting) g = held waiting g + (if decide (g = S wg) then 1 else 0).
Proof.
  intros Hw. destruct g as [|g]; cbn; [by rewrite decide_False by lia|].
  destruct (decide (g = wg)) as [->|Hne].
  - rewrite decide_True, lookup_insert_eq, Hw by done. cbn. done.
  - rewrite decide_False, lookup_insert_ne by (done || lia). lia.
Qed.

Lemma held_delete waiting wg p g :
  waiting !! wg = Some p -> held (delete wg waiting) g = held waiting g - (if decide (g = S wg) then 1 else 0).
Proof.
  intros Hw. rewrite <- (insert_delete_id waiting wg p Hw) at 2.
  rewrite held_insert by apply lookup_delete_eq. lia.
Qed.

Lemma wg_Add_ok h g c delta :
  h !! g = Some c -> 0 <= c + delta -> wg_Add h g delta = Ret (<[g := c + delta]> h).
Proof. intros Hg Hc. unfold wg_Add. rewrite Hg. cbn. by rewrite (proj2 (Z.ltb_ge _ _)). Qed.

Lemma barrier_inv_initial : barrier_inv barrier_initial.
Proof. by split. Qed.

Lemma inv_fresh s : barrier_inv s -> sy_active s !! sy_next s = None.
Proof.
  intros Hi. destruct (sy_active s !! sy_next s) as [g|] eqn:E; [|done].
  apply (inv_active s Hi) in E. lia.
Qed.

(** Counters after an update of one wait group. *)
Lemma wg_count_update (h : list Z) g d (f f' : nat -> Z) :
  (forall g' c, h !! g' = Some c -> c = f g') ->
  (forall g', f' g' = f g' + (if decide (g' = g) then d else 0)) ->
  forall g' c, <[g := f g + d]> h !! g' = Some c -> c = f' g'.
Proof.
  intros Hh Hf g' c Hc. rewrite Hf. destruct (decide (g' = g)) as [->|Hne].
  - apply list_lookup_insert_Some in Hc as [(_ & <- & _)|[? _]]; done.
  - rewrite list_lookup_insert_ne in Hc by done. rewrite (Hh _ _ Hc). lia.
Qed.

Lemma wg_count_new (h : list Z) (f : nat -> Z) :
  (forall g c, h !! g = Some c -> c = f g) -> f (length h) = 0 ->
  forall g c, (h ++ [0]) !! g = Some c -> c = f g.
Proof.
  intros Hh Hf g c [Hg|[Hl Hg]]%lookup_app_Some; [by apply Hh|].
  apply list_lookup_singleton_Some in Hg as [? <-]. by replace g with (length h) by lia.
Qed.

Definition wg_count (s : barrier_system) (g : nat) : Z := users (sy_active s) g + held (sy_waiting s) g.

Lemma wg_count_nonneg s g : 0 <= wg_count s g.
Proof. pose proof (users_nonneg (sy_active s) g). pose proof (held_nonneg (sy_waiting s) g). unfold wg_count. lia. Qed.

Lemma wg_count_fresh s : barrier_inv s -> wg_count s (length (wb_heap (sy_wb s))) = 0.
Proof.
  intros Hi. unfold wg_count. rewrite users_fresh.
  - destruct (length _) as [|n] eqn:El; [done|]. cbn. case_bool_decide as Hs; [|done].
    destruct Hs as [[bg must] Hs]. apply (inv_waiting s Hi) in Hs. lia.
  - intros i g Hg ->. apply (inv_active s Hi) in Hg. lia.
Qed.

Lemma heap_count s g :
  barrier_inv s -> (g < length (wb_heap (sy_wb s)))%nat -> wb_heap (sy_wb s) !! g = Some (wg_count s g).
Proof.
  intros Hi Hg. destruct (lookup_lt_is_Some_2 _ _ Hg) as [c Hc]. rewrite Hc. f_equal.
  by apply (inv_count s Hi).
Qed.

Lemma wb_Start_ok s :
  barrier_inv s -> exists b g, wb_Start (sy_wb s) = Ret (b, g) /\
    barrier_inv (MkSystem b (<[sy_next s := g]> (sy_active s)) (sy_waiting s) (S (sy_next s))).
Proof.
  intros Hi. pose proof (inv_fresh s Hi) as Hn.
  assert (exists g h, match wb_wg (sy_wb s) with Some g => (g, wb_heap (sy_wb s))
            | None => (length (wb_heap (sy_wb s)), wb_heap (sy_wb s) ++ [0]) end = (g, h) /\
          length h = S g /\ (length (wb_heap (sy_wb s)) <= length h)%nat /\
          (forall i g', sy_active s !! i = Some g' -> g' <= g)%nat /\
          (forall g' c, h !! g' = Some c -> c = wg_count s g') /\
          (forall g', S g' < length h -> sy_waiting s !! g' = None ->
             S g' < length (wb_heap (sy_wb s)))%nat) as (g & h & E & Hl & Hle & Hact & Hc & Hw).
  { pose proof (inv_len s Hi) as Hl. destruct (wb_wg (sy_wb s)) as [g|].
    - exists g, (wb_heap (sy_wb s)). split; [done|]. split; [done|]. split; [done|].
      split; [intros i g' Hg%(inv_active s Hi); lia|]. split; [apply (inv_count s Hi)|done].
    - eexists _, _. split; [done|]. rewrite length_app. cbn. split; [lia|]. split; [lia|].
      split; [intros i g' Hg%(inv_active s Hi); lia|]. split; [|lia].
      apply wg_count_new; [apply (inv_count s Hi)|by apply wg_count_fresh]. }
  unfold wb_Start. rewrite E. destruct (lookup_lt_is_Some_2 h g) as [c Hcg]; [lia|].
  rewrite (wg_Add_ok _ _ c) by (done || (rewrite (Hc _ _ Hcg); pose proof (wg_count_nonneg s g); lia)).
  cbn. eexists _, _. split; [done|]. split; cbn.
  - by rewrite length_insert.
  - intros i g'. rewrite length_insert. destruct (decide (i = sy_next s)) as [->|].
    + rewrite lookup_insert_eq. intros [= <-]. lia.
    + rewrite lookup_insert_ne by done. intros Hg%(inv_active s Hi). lia.
  - intros g' bg must Hg. rewrite length_insert.
    destruct (inv_waiting s Hi _ _ _ Hg) as (-> & Hb & Hm). split; [done|]. split; [lia|].
    intros i Him. destruct (Hm i Him). split; [lia|]. intros g''. rewrite lookup_insert_ne by lia. auto.
  - rewrite (Hc _ _ Hcg). apply (wg_count_update h g 1 (wg_count s)); [done|].
    intros g'. unfold wg_count. rewrite users_insert by done.
    repeat case_decide; subst; lia || congruence.
  - intros g' i g''. rewrite length_insert. intros Hg' Hwn. destruct (decide (i = sy_next s)) as [->|].
    + rewrite lookup_insert_eq. intros [= <-]. lia.
    + rewrite lookup_insert_ne by done. apply (inv_left s Hi); auto.
Qed.

Lemma wbc_Done_ok s i g :
  barrier_inv s -> sy_active s !! i = Some g -> exists b, wbc_Done (sy_wb s) g = Ret b /\
    barrier_inv (MkSystem b (delete i (sy_active s)) (sy_waiting s) (sy_next s)).
Proof.
  intros Hi Hg. pose proof (users_pos _ _ _ Hg) as Hp. pose proof (held_nonneg (sy_waiting s) g).
  unfold wbc_Done, wg_Done. rewrite (wg_Add_ok _ _ (wg_count s g)).
  2:{ apply heap_count; [done|]. apply (inv_active s Hi) in Hg. lia. }
  2:{ unfold wg_count. lia. }
  cbn. eexists. split; [done|]. split; cbn; rewrite ?length_insert.
  - apply Hi.
  - intros j g' [_ Hj]%lookup_delete_Some. by apply (inv_active s Hi).
  - intros g' bg must Hw. destruct (inv_waiting s Hi _ _ _ Hw) as (-> & Hb & Hm).
    split; [done|]. split; [done|]. intros j Hj. destruct (Hm j Hj). split; [done|].
    intros g'' [_ ?]%lookup_delete_Some. auto.
  - apply (wg_count_update _ g (-1) (wg_count s)); [apply (inv_count s Hi)|].
    intros g'. unfold wg_count. erewrite users_delete by done.
    repeat case_decide; subst; lia || congruence.
  - intros g' j g'' Hl Hw [_ Hj]%lookup_delete_Some. by apply (inv_left s Hi _ j).
Qed.

Lemma wb_Enter_ok s b wg barrierWg :
  barrier_inv s -> wb_Enter (sy_wb s) = Ret (b, Some (wg, barrierWg)) ->
  barrier_inv (MkSystem b (sy_active s) (<[wg := (barrierWg, dom (sy_active s))]> (sy_waiting s)) (sy_next s)).
Proof.
  intros Hi. unfold wb_Enter. pose proof (inv_len s Hi) as Hl.
  destruct (wb_wg (sy_wb s)) as [cur|] eqn:Ew; [|done]. remember (wb_heap (sy_wb s)) as h eqn:Eh.
  rewrite (wg_Add_ok _ _ 0); [|by rewrite lookup_app_r, Nat.sub_diag by done|done].
  intros [= <- <- <-]. assert (sy_waiting s !! cur = None) as Hn.
  { apply eq_None_not_Some. intros [[bg must] Hw]. apply (inv_waiting s Hi) in Hw. rewrite <- Eh in Hw. lia. }
  pose proof (inv_active s Hi) as Ha. rewrite <- Eh in Ha.
  split; cbn; rewrite ?length_insert, ?length_app; cbn.
  - lia.
  - intros i g Hg%Ha. lia.
  - intros g bg must. destruct (decide (g = cur)) as [->|].
    + rewrite lookup_insert_eq. intros [= <- <-]. split; [done|]. split; [lia|].
      intros i [g' Hg']%elem_of_dom. pose proof (Ha _ _ Hg'). split; [lia|].
      intros g''. rewrite Hg'. intros [= <-]. lia.
    + rewrite lookup_insert_ne by done. intros Hw. destruct (inv_waiting s Hi _ _ _ Hw) as (-> & Hb & Hm).
      rewrite <- Eh in Hb. split; [done|]. split; [lia|]. done.
  - assert (Hz : wg_count s (length h) = 0) by (subst h; by apply wg_count_fresh).
    replace (0 + 1) with (wg_count s (length h) + 1) by lia.
    apply (wg_count_update (h ++ [0]) (length h) 1 (wg_count s)).
    + apply wg_count_new; [subst h; apply (inv_count s Hi)|done].
    + intros g'. unfold wg_count. rewrite held_insert by done. rewrite Hl. lia.
  - intros g i g' Hg Hw Hg'. destruct (decide (g = cur)) as [->|].
    + by rewrite lookup_insert_eq in Hw.
    + rewrite lookup_insert_ne in Hw by done. apply (inv_left s Hi _ i); [rewrite <- Eh; lia|done..].
Qed.

(** A waiting barrier that can leave has no user of an older wait group left. *)
Lemma left_behind s wg i g :
  barrier_inv s -> is_Some (sy_waiting s !! wg) -> wb_can_leave (sy_wb s) wg = true ->
  sy_active s !! i = Some g -> (wg < g)%nat.
Proof.
  intros Hi [[bg must] Hw] Hc Hg. unfold wb_can_leave in Hc. apply bool_decide_eq_true in Hc.
  destruct (inv_waiting s Hi _ _ _ Hw) as (-> & Hb & Hm).
  pose proof (inv_count s Hi _ _ Hc) as H0. pose proof (users_nonneg (sy_active s) wg).
  pose proof (held_nonneg (sy_waiting s) wg). assert (g <> wg) as Hne.
  { intros ->. pose proof (users_pos _ _ _ Hg). lia. }
  destruct wg as [|wg]; [lia|]. assert (sy_waiting s !! wg = None) as Hn.
  { apply eq_None_not_Some. intros Hs. cbn in *. rewrite bool_decide_eq_true_2 in * by done. lia. }
  pose proof (inv_left s Hi wg i g ltac:(lia) Hn Hg). lia.
Qed.

Lemma wb_Leave_ok s wg barrierWg must :
  barrier_inv s -> sy_waiting s !! wg = Some (barrierWg, must) -> wb_can_leave (sy_wb s) wg = true ->
  exists b, wb_Leave (sy_wb s) barrierWg = Ret b /\
    barrier_inv (MkSystem b (sy_active s) (delete wg (sy_waiting s)) (sy_next s)).
Proof.
  intros Hi Hw Hc. pose proof (left_behind s wg) as Hleft.
  destruct (inv_waiting s Hi _ _ _ Hw) as (-> & Hb & Hm).
  unfold wb_Leave, wbc_Done, wg_Done. rewrite (wg_Add_ok _ _ (wg_count s (S wg))).
  2:{ by apply heap_count. }
  2:{ pose proof (users_nonneg (sy_active s) (S wg)). unfold wg_count. cbn.
      rewrite bool_decide_eq_true_2 by eauto. lia. }
  cbn. eexists. split; [done|]. split; cbn; rewrite ?length_insert.
  - apply Hi.
  - apply Hi.
  - intros g bg must' [_ Hg]%lookup_delete_Some. by apply (inv_waiting s Hi).
  - apply (wg_count_update _ (S wg) (-1) (wg_count s)); [apply (inv_count s Hi)|].
    intros g. unfold wg_count. erewrite held_delete by done. case_decide; lia.
  - intros g i g' Hg Hn Hg'. destruct (decide (g = wg)) as [->|Hne].
    + eapply Hleft; eauto.
    + rewrite lookup_delete_ne in Hn by done. by apply (inv_left s Hi _ i).
Qed.

Lemma bar_enter_Ret s s' o :
  bar_enter s = Ret (s', o) ->
  (o = None /\ s' = s) \/
  exists b wg barrierWg, o = Some wg /\ wb_Enter (sy_wb s) = Ret (b, Some (wg, barrierWg)) /\
    s' = MkSystem b (sy_active s) (<[wg := (barrierWg, dom (sy_active s))]> (sy_waiting s)) (sy_next s).
Proof.
  unfold bar_enter. intros ([b o'] & E & E')%bind_Ret. destruct o' as [[wg bw]|]; injection E' as <- <-.
  - right. eauto 6.
  - by left.
Qed.

(** A call of [Barrier] returns at once only when no context was ever started. *)
Lemma bar_enter_idle s s' : barrier_inv s -> bar_enter s = Ret (s', None) -> sy_active s = ∅.
Proof.
  intros Hi E. unfold bar_enter, wb_Enter in E. pose proof (inv_len s Hi) as Hl.
  destruct (wb_wg (sy_wb s)) as [g|].
  - by apply bind_Ret in E as ([b [[]|]] & (? & ? & ?)%bind_Ret & ?).
  - apply map_empty. intros i. destruct (sy_active s !! i) as [g|] eqn:Eg; [|done].
    apply (inv_active s Hi) in Eg. lia.
Qed.

Lemma bar_enter_fresh s s' wg :
  barrier_inv s -> bar_enter s = Ret (s', Some wg) -> sy_waiting s !! wg = None.
Proof.
  intros Hi E. unfold bar_enter, wb_Enter in E. pose proof (inv_len s Hi) as Hl.
  destruct (wb_wg (sy_wb s)) as [g|]; [|done].
  apply bind_Ret in E as ([b [[]|]] & (h & _ & [= <- <- <-])%bind_Ret & [= _ <-]).
  apply eq_None_not_Some. intros [[bg must] Hw]. apply (inv_waiting s Hi) in Hw. lia.
Qed.

Lemma bar_leave_Some s s' wg :
  bar_leave s wg = Some (Ret s') ->
  exists b barrierWg must, sy_waiting s !! wg = Some (barrierWg, must) /\ wb_can_leave (sy_wb s) wg = true /\
    wb_Leave (sy_wb s) barrierWg = Ret b /\
    s' = MkSystem b (sy_active s) (delete wg (sy_waiting s)) (sy_next s).
Proof.
  unfold bar_leave. destruct (sy_waiting s !! wg) as [[bw must]|]; [|done].
  destruct (wb_can_leave _ _); [|done]. destruct (wb_Leave (sy_wb s) bw) as [b| |] eqn:E; [|done..].
  intros [= <-]. eauto 8.
Qed.

Lemma bar_start_Ret s s' i :
  bar_start s = Ret (s', i) ->
  exists b g, wb_Start (sy_wb s) = Ret (b, g) /\ i = sy_next s /\
    s' = MkSystem b (<[i := g]> (sy_active s)) (sy_waiting s) (S i).
Proof. unfold bar_start. intros ([b g] & E & [= <- <-])%bind_Ret. eauto. Qed.

Lemma bar_done_Ret s s' i :
  bar_done s i = Ret s' ->
  exists b g, sy_active s !! i = Some g /\ wbc_Done (sy_wb s) g = Ret b /\
    s' = MkSystem b (delete i (sy_active s)) (sy_waiting s) (sy_next s).
Proof.
  unfold bar_done. intros (g & Eg & (b & E & [= <-])%bind_Ret)%bind_Ret.
  destruct (sy_active s !! i); [|done]. injection Eg as ->. eauto.
Qed.

Lemma barrier_step_inv s s' : barrier_inv s -> barrier_step s s' -> barrier_inv s'.
Proof.
  intros Hi Hs. destruct Hs as [s s' i E|s s' i E|s s' o E|s s' wg E].
  - apply bar_start_Ret in E as (b & g & E & -> & ->).
    destruct (wb_Start_ok s Hi) as (b' & g' & E' & ?). congruence.
  - apply bar_done_Ret in E as (b & g & Hg & E & ->).
    destruct (wbc_Done_ok s i g Hi Hg) as (b' & E' & ?). congruence.
  - apply bar_enter_Ret in E as [[_ ->]|(b & wg & bw & _ & E & ->)]; [done|]. by apply wb_Enter_ok.
  - apply bar_leave_Some in E as (b & bw & must & Hw & Hc & E & ->).
    destruct (wb_Leave_ok s wg bw must Hi Hw Hc) as (b' & E' & ?). congruence.
Qed.

Lemma barrier_reachable_inv s : rtc barrier_step barrier_initial s -> barrier_inv s.
Proof. apply rtc_invariant; [apply barrier_step_inv|apply barrier_inv_initial]. Qed.

(** Entering the barrier keeps the calls that wait there. *)
Lemma bar_enter_waiting (b b' : barrier_system) wg g x :
  barrier_inv b -> bar_enter b = Ret (b', wg) -> sy_waiting b !! g = Some x ->
  sy_waiting b' !! g = Some x /\ wg <> Some g.
Proof.
  intros Hi E Hg. destruct wg as [wg|].
  - pose proof (bar_enter_fresh _ _ _ Hi E) as Hf. assert (g <> wg) by congruence.
    apply bar_enter_Ret in E as [[? _]|(b1 & wg1 & bw & [= <-] & _ & ->)]; [done|]. cbn.
    rewrite lookup_insert_ne by done. split; congruence.
  - apply bar_enter_Ret in E as [[_ ->]|(b1 & wg1 & bw & ? & _)]; done.
Qed.

Lemma bar_enter_active (b b' : barrier_system) wg : bar_enter b = Ret (b', wg) -> sy_active b' = sy_active b.
Proof. intros [[_ ->]|(b1 & wg1 & bw & _ & _ & ->)]%bar_enter_Ret; done. Qed.

Lemma bar_enter_new (b b' : barrier_system) wg :
  bar_enter b = Ret (b', Some wg) -> exists bw, sy_waiting b' !! wg = Some (bw, dom (sy_active b)).
Proof.
  intros [[? _]|(b1 & wg1 & bw & [= <-] & _ & ->)]%bar_enter_Ret; [done|]. cbn.
  rewrite lookup_insert_eq. eauto.
Qed.

Lemma bar_leave_waiting (b b' : barrier_system) wg g :
  bar_leave b wg = Some (Ret b') -> g <> wg -> sy_waiting b' !! g = sy_waiting b !! g.
Proof. intros (? & ? & ? & _ & _ & _ & ->)%bar_leave_Some Hg. cbn. by apply lookup_delete_ne. Qed.

Lemma bar_leave_active (b b' : barrier_system) wg :
  bar_leave b wg = Some (Ret b') -> sy_active b' = sy_active b.
Proof. by intros (? & ? & ? & _ & _ & _ & ->)%bar_leave_Some. Qed.

Lemma bar_leave_waits s s' wg barrierWg must :
  barrier_inv s -> sy_waiting s !! wg = Some (barrierWg, must) -> bar_leave s wg = Some (Ret s') ->
  forall i, i ∈ must -> sy_active s !! i = None.
Proof.
  intros Hi Hw (b & bw & m & Hw' & Hc & E & ->)%bar_leave_Some i Hm.
  assert (m = must) as -> by congruence.
  destruct (sy_active s !! i) as [g|] eqn:Eg; [|done].
  destruct (inv_waiting s Hi _ _ _ Hw) as (_ & _ & Hall). destruct (Hall i Hm) as [_ Hle].
  pose proof (Hle g Eg). pose proof (left_behind s wg i g Hi (mk_is_Some _ _ Hw) Hc Eg). lia.
Qed.


(** No interleaving makes a wait group's counter negative: in a
    reachable state [Start], [Done] of an active context and both halves of
    [Barrier] return. *)
Theorem barrier_never_panics s :
  rtc barrier_step barrier_initial s ->
  (exists r, bar_start s = Ret r) /\ (exists r, bar_enter s = Ret r) /\
  (forall i, is_Some (sy_active s !! i) -> exists s', bar_done s i = Ret s') /\
  (forall wg o, bar_leave s wg = Some o -> exists s', o = Ret s').
Proof.
  intros Hr%barrier_reachable_inv. split_and!.
  - unfold bar_start. destruct (wb_Start_ok s Hr) as (? & ? & -> & _). cbn. eauto.
  - unfold bar_enter, wb_Enter. destruct (wb_wg (sy_wb s)); [|cbn; eauto].
    rewrite (wg_Add_ok _ _ 0); [cbn; eauto|by rewrite lookup_app_r, Nat.sub_diag by done|done].
  - intros i [g Hg]. unfold bar_done. rewrite Hg. cbn.
    destruct (wbc_Done_ok s i g Hr Hg) as (? & -> & _). cbn. eauto.
  - intros wg o. unfold bar_leave. destruct (sy_waiting s !! wg) as [[bw must]|] eqn:Hw; [|done].
    destruct (wb_can_leave _ _) eqn:Hc; [|done]. intros [= <-].
    destruct (wb_Leave_ok s wg bw must Hr Hw Hc) as (? & -> & _). cbn. eauto.
Qed.

(** With no context active, the oldest waiting barrier can leave. *)
Lemma oldest_can_leave s wg :
  barrier_inv s -> sy_active s = ∅ -> is_Some (sy_waiting s !! wg) ->
  exists wg', is_Some (sy_waiting s !! wg') /\ wb_can_leave (sy_wb s) wg' = true.
Proof.
  intros Hi Ha. induction wg as [|wg IH]; intros Hs.
  - exists O. split; [done|]. apply bool_decide_eq_true. destruct Hs as [[bg must] Hw].
    destruct (inv_waiting s Hi _ _ _ Hw) as (-> & Hb & _). rewrite heap_count by (done || lia).
    unfold wg_count. by rewrite Ha, users_empty.
  - destruct (decide (is_Some (sy_waiting s !! wg))) as [Hp|Hp]; [auto|].
    exists (S wg). split; [done|]. apply bool_decide_eq_true. destruct Hs as [[bg must] Hw].
    destruct (inv_waiting s Hi _ _ _ Hw) as (-> & Hb & _). rewrite heap_count by (done || lia).
    unfold wg_count. cbn. by rewrite Ha, users_empty, bool_decide_eq_false_2.
Qed.


(** ** Witnesses *)

(** One context, and a barrier that waits for it. *)
Definition example_waiting : barrier_system :=
  MkSystem (MkWaitBarrier (Some 1%nat) [1; 1]) {[0%nat := 0%nat]} {[0%nat := (1%nat, {[0%nat]})]} 1.

Definition example_left : barrier_system :=
  MkSystem (MkWaitBarrier (Some 1%nat) [0; 1]) ∅ {[0%nat := (1%nat, {[0%nat]})]} 1.

Lemma example_waiting_reachable : rtc barrier_step barrier_initial example_waiting.
Proof.
  eapply rtc_l; [by eapply step_start|]. eapply rtc_l; [by eapply step_enter|]. apply rtc_refl.
Qed.

Lemma example_left_reachable : rtc barrier_step barrier_initial example_left.
Proof.
  eapply rtc_r; [exact example_waiting_reachable|]. by apply (step_done example_waiting _ 0).
Qed.


Lemma barrier_never_panics_witness : exists r, bar_start example_waiting = Ret r.
Proof. destruct (barrier_never_panics example_waiting example_waiting_reachable) as [H _]. exact H. Defined.

