(* ===== verification/OneRunner.v ===== *)
(** * The one-at-a-time runner

    [internal/util/one_runner.go]: [OneRunner] runs a function in the background,
    never twice at the same time; a request that comes while it runs causes one
    more run afterwards. Every locked section is one step. The runs of the
    function, the requests and the goroutines that execute [do] are recorded so
    that the theorems can speak of overlapping and of lost requests. *)
From S2P Require Import Prelude.

(** ** The operations *)
Record OneRunner := MkOneRunner {
  or_running : bool;
  or_run : bool;
}.

Definition NewOneRunner : OneRunner := MkOneRunner false false.

(** [Go] and the locked part of [Run]; the second result is whether the caller
    starts [do], in a goroutine or itself. *)
Definition or_Go (r : OneRunner) : OneRunner * bool :=
  if or_running r then (MkOneRunner true true, false) else (MkOneRunner true true, true).

Definition or_Run (r : OneRunner) : OneRunner * bool :=
  let doRun := negb (or_running r) in (MkOneRunner true true, doRun).

(** The locked section of the loop of [do]; the second result is [run], which
    decides between calling [f] and returning. *)
Definition or_do (r : OneRunner) : OneRunner * bool :=
  let run := or_run r in
  (MkOneRunner (if run then or_running r else false) false, run).

Definition or_Running (r : OneRunner) : bool := or_running r.

(** [Wait] returns when its loop finds [running] unset. *)
Definition or_can_return (r : OneRunner) : bool := negb (or_running r).

(** ** Interleavings *)

(** A goroutine executing [do] is about to take the lock or inside [f]. *)
Inductive phase := AtLock | InF.

Inductive event := Requested | Started | Finished.

Record runner_system := MkRunnerSystem {
  rn_runner : OneRunner;
  rn_workers : list phase;
  rn_trace : list event;      (* newest first *)
}.

Definition runner_initial : runner_system := MkRunnerSystem NewOneRunner [] [].

Definition spawn (doRun : bool) (ws : list phase) : list phase := if doRun then ws ++ [AtLock] else ws.

(** The steps of the goroutine that executes [do]. *)
Inductive do_step : relation runner_system :=
  | do_call s ws1 ws2 r :
      rn_workers s = ws1 ++ AtLock :: ws2 -> or_do (rn_runner s) = (r, true) ->
      do_step s (MkRunnerSystem r (ws1 ++ InF :: ws2) (Started :: rn_trace s))
  | do_exit s ws1 ws2 r :
      rn_workers s = ws1 ++ AtLock :: ws2 -> or_do (rn_runner s) = (r, false) ->
      do_step s (MkRunnerSystem r (ws1 ++ ws2) (rn_trace s))
  | do_finish s ws1 ws2 :
      rn_workers s = ws1 ++ InF :: ws2 ->
      do_step s (MkRunnerSystem (rn_runner s) (ws1 ++ AtLock :: ws2) (Finished :: rn_trace s)).

Inductive runner_step : relation runner_system :=
  | runner_go s r doRun :
      or_Go (rn_runner s) = (r, doRun) ->
      runner_step s (MkRunnerSystem r (spawn doRun (rn_workers s)) (Requested :: rn_trace s))
  | runner_run s r doRun :
      or_Run (rn_runner s) = (r, doRun) ->
      runner_step s (MkRunnerSystem r (spawn doRun (rn_workers s)) (Requested :: rn_trace s))
  | runner_do s s' : do_step s s' -> runner_step s s'.

(** ** What the trace says *)

(** Some request has no run that started after it. *)
Fixpoint unserved (tr : list event) : bool :=
  match tr with
  | [] => false
  | Requested :: _ => true
  | Started :: _ => false
  | Finished :: tr => unserved tr
  end.

(** The runs in progress after every event of the trace, newest first. *)
Fixpoint runs_in_progress (tr : list event) : Z :=
  match tr with
  | [] => 0
  | Requested :: tr => runs_in_progress tr
  | Started :: tr => runs_in_progress tr + 1
  | Finished :: tr => runs_in_progress tr - 1
  end.

(** At every point of the trace at most one run was in progress. *)
Fixpoint never_overlaps (tr : list event) : Prop :=
  match tr with
  | [] => True
  | _ :: tr' => (0 <= runs_in_progress tr <= 1)%Z /\ never_overlaps tr'
  end.

(** ** The invariant *)

(** The runs in progress among the goroutines executing [do]. *)
Definition in_f (ws : list phase) : Z := match ws with [InF] => 1 | _ => 0 end.

Record runner_inv (s : runner_system) : Prop := {
  ri_workers : match rn_workers s with
               | [] => or_running (rn_runner s) = false /\ or_run (rn_runner s) = false
               | [_] => or_running (rn_runner s) = true
               | _ => False
               end;
  ri_unserved : unserved (rn_trace s) = or_run (rn_runner s);
  ri_in_progress : runs_in_progress (rn_trace s) = in_f (rn_workers s);
  ri_trace : never_overlaps (rn_trace s);
}.

Lemma in_f_range ws : (0 <= in_f ws <= 1)%Z.
Proof. destruct ws as [|[] []]; cbn; lia. Qed.

Lemma or_Run_Go r : or_Run r = or_Go r.
Proof. unfold or_Run, or_Go. by destruct (or_running r). Qed.

Lemma runner_request s r doRun :
  runner_inv s -> or_Go (rn_runner s) = (r, doRun) ->
  runner_inv (MkRunnerSystem r (spawn doRun (rn_workers s)) (Requested :: rn_trace s)).
Proof.
  intros [Hw Hu Hp Ht] E. pose proof (in_f_range (rn_workers s)). unfold or_Go in E.
  destruct (rn_workers s) as [|w [|]] eqn:Ew; [destruct Hw as [Hw Hn]| |done];
    rewrite Hw in E; injection E as <- <-; split; cbn in *; rewrite ?Hp; try done.
Qed.

Lemma worker_only s ws1 w ws2 :
  runner_inv s -> rn_workers s = ws1 ++ w :: ws2 -> ws1 = [] /\ ws2 = [] /\ or_running (rn_runner s) = true.
Proof.
  intros [Hw _ _ _] E. rewrite E in Hw. by destruct ws1 as [|? [|]], ws2.
Qed.

Lemma do_step_inv s s' : runner_inv s -> do_step s s' -> runner_inv s'.
Proof.
  intros Hi Hs. destruct Hs as [s ws1 ws2 r Ew E|s ws1 ws2 r Ew E|s ws1 ws2 Ew];
    destruct (worker_only s _ _ _ Hi Ew) as (-> & -> & Hr); destruct Hi as [_ Hu Hp Ht]; rewrite Ew in Hp.
  - unfold or_do in E. injection E as <- Erun. rewrite Erun, Hr in *. by split; cbn in *; rewrite ?Hp.
  - unfold or_do in E. injection E as <- Erun. rewrite Erun in *. by split; cbn in *.
  - by split; cbn in *; rewrite ?Hp.
Qed.

Lemma runner_step_inv s s' : runner_inv s -> runner_step s s' -> runner_inv s'.
Proof.
  intros Hi Hs. destruct Hs as [s r d E|s r d E|s s' Hs].
  - by apply runner_request.
  - rewrite or_Run_Go in E. by apply runner_request.
  - by eapply do_step_inv.
Qed.

Lemma runner_reachable_inv s : rtc runner_step runner_initial s -> runner_inv s.
Proof. apply rtc_invariant; [apply runner_step_inv|by split]. Qed.

(** C35: in every interleaving of requests and background steps, at most one
    goroutine executes [do], it exists exactly while [running] is set, no two
    runs of [f] overlap, and when [Wait] can return no run is in progress and
    every request was followed by the start of a run. *)
Theorem one_runner_serves s :
  rtc runner_step runner_initial s ->
  (length (rn_workers s) <= 1)%nat /\ never_overlaps (rn_trace s) /\
  or_Running (rn_runner s) = bool_decide (rn_workers s <> []) /\
  (or_can_return (rn_runner s) = true ->
   unserved (rn_trace s) = false /\ runs_in_progress (rn_trace s) = 0%Z).
Proof.
  intros [Hw Hu Hp Ht]%runner_reachable_inv. unfold or_can_return, or_Running.
  rewrite Hu, Hp. destruct (rn_workers s) as [|w [|]]; [|rewrite Hw|done].
  - destruct Hw as [-> ->]. cbn; split_and!; (done || lia).
  - cbn; split_and!; (done || lia).
Qed.

Lemma runner_worker_step s w :
  runner_inv s -> rn_workers s = [w] ->
  exists s', do_step s s' /\ runner_inv s' /\
    match w with
    | AtLock => if or_run (rn_runner s) then rn_workers s' = [InF] /\ or_run (rn_runner s') = false
                else rn_workers s' = []
    | InF => rn_workers s' = [AtLock] /\ or_run (rn_runner s') = or_run (rn_runner s)
    end.
Proof.
  intros Hi Ew.
  enough (exists s', do_step s s' /\ match w with
    | AtLock => if or_run (rn_runner s) then rn_workers s' = [InF] /\ or_run (rn_runner s') = false
                else rn_workers s' = []
    | InF => rn_workers s' = [AtLock] /\ or_run (rn_runner s') = or_run (rn_runner s)
    end) as (s' & Hs & Hw).
  { exists s'. split; [done|]. split; [by eapply do_step_inv|done]. }
  destruct w.
  - destruct (or_run (rn_runner s)) eqn:Er; eexists.
    + split; [eapply (do_call s [] []); [done|]; unfold or_do; by rewrite Er|done].
    + split; [eapply (do_exit s [] []); [done|]; unfold or_do; by rewrite Er|done].
  - eexists. split; [by eapply (do_finish s [] [])|done].
Qed.

Lemma runner_drains_from s ws :
  runner_inv s -> rn_workers s = ws ->
  exists n s', nsteps do_step n s s' /\ (n <= 4)%nat /\ or_can_return (rn_runner s') = true.
Proof.
  intros Hi Ew.
  assert (Hdone : forall s, runner_inv s -> rn_workers s = [] -> or_can_return (rn_runner s) = true).
  { intros s0 [Hw _ _ _] E. rewrite E in Hw. unfold or_can_return. by destruct Hw as [-> _]. }
  assert (Hidle : forall s, runner_inv s -> rn_workers s = [AtLock] -> or_run (rn_runner s) = false ->
    exists s', do_step s s' /\ or_can_return (rn_runner s') = true).
  { intros s0 Hi0 E0 Er. destruct (runner_worker_step s0 _ Hi0 E0) as (s1 & ? & ? & H1).
    rewrite Er in H1. eauto. }
  assert (Hlock : forall s, runner_inv s -> rn_workers s = [AtLock] ->
    exists n s', nsteps do_step n s s' /\ (n <= 3)%nat /\ or_can_return (rn_runner s') = true).
  { intros s0 Hi0 E0. destruct (or_run (rn_runner s0)) eqn:Er.
    - destruct (runner_worker_step s0 _ Hi0 E0) as (s1 & Hs1 & Hi1 & H1). rewrite Er in H1.
      destruct H1 as [E1 Er1]. destruct (runner_worker_step s1 _ Hi1 E1) as (s2 & Hs2 & Hi2 & E2 & Er2).
      destruct (Hidle s2 Hi2 E2) as (s3 & Hs3 & Hc); [congruence|].
      exists 3%nat, s3. split; [|done]. by repeat (eapply nsteps_l; [eassumption|]); constructor.
    - destruct (Hidle s0 Hi0 E0 Er) as (s1 & Hs1 & Hc). exists 1%nat, s1.
      split; [by apply nsteps_once|]. split; [lia|done]. }
  destruct ws as [|[] []].
  - exists 0%nat, s. split; [constructor|]. split; [lia|by apply Hdone].
  - destruct (Hlock s Hi Ew) as (n & s' & ? & ? & ?). exists n, s'. split; [done|]. split; [lia|done].
  - destruct Hi as [Hw _ _ _]. by rewrite Ew in Hw.
  - destruct (runner_worker_step s _ Hi Ew) as (s1 & Hs1 & Hi1 & E1 & _).
    destruct (Hlock s1 Hi1 E1) as (n & s' & ? & ? & ?). exists (S n), s'.
    split; [by eapply nsteps_l|]. split; [lia|done].
  - destruct Hi as [Hw _ _ _]. by rewrite Ew in Hw.
Qed.


(** ** Witnesses: a second request arrives while [f] runs *)
Definition example_busy : runner_system :=
  MkRunnerSystem (MkOneRunner true true) [InF] [Requested; Started; Requested].

Lemma example_busy_reachable : rtc runner_step runner_initial example_busy.
Proof.
  eapply rtc_l; [by apply runner_go|]. eapply rtc_l; [by apply runner_do, (do_call _ [] [])|].
  eapply rtc_l; [by apply runner_go|]. apply rtc_refl.
Qed.

Lemma one_runner_serves_witness : never_overlaps (rn_trace example_busy).
Proof. destruct (one_runner_serves example_busy example_busy_reachable) as (_ & H & _). exact H. Defined.

