(* ===== verification/Tracker.v ===== *)
(** * The reader tracker

    [internal/tracker/reader.go]: the readers of a device, in three layers: the
    write logs, the readers waiting to be indexed, and the primary index. Reads
    go through a stack of all of them. A background goroutine moves the waiting
    readers into the index, a compaction replaces tables of the index, and the
    stack is rebuilt under the tracker's lock whenever a layer changes.

    The first part has the operations, one definition for each section of code
    that runs under the lock. The second part lets them interleave: a state
    holds the tracker, the goroutines in the middle of an operation and the
    reads in progress, and a step is one locked section. *)
From S2P Require Import Prelude Bits RangeMap BlockReader StackedBlockReader BlockMap BlockMapPush.
From S2P Require Import BlockMapLive BlockMapTheorems WaitBarrier.
Local Open Scope Z_scope.

(** ** The state

    A [t.BlockHoleReader] is a pointer. The stack that a read holds shares the
    primary index with the tracker, which changes it while the read runs: the
    stack has references, and [resolve] gives what they refer to now. *)
Section tracker.
Context {R : Type} `{!EqDecision R} `{!Countable R} {HR : BlockHoleReader R}.
Context {M : Type} `{!RangeMap Z M}.
Context {BS : Type} `{!BitSet BS}.

Inductive ref := RefReader (r : R) | RefPrimary.

(** [compactionState] is set while a compaction runs; the object it points to
    holds nothing but the tracker. *)
Record Tracker := MkTracker {
  tk_blockSize : Z;
  tk_numBlocks : Z;
  tk_readerStack : list ref;
  tk_primaryIndex : Reader R M BS;
  tk_pendingReaders : list R;
  tk_writers : list R;
  tk_compactionState : bool;
}.

Definition buildReaderStack (t : Tracker) : Tracker :=
  let rs := (RefReader <$> tk_writers t) ++ (RefReader <$> tk_pendingReaders t) ++ [RefPrimary] in
  MkTracker (tk_blockSize t) (tk_numBlocks t) rs (tk_primaryIndex t) (tk_pendingReaders t)
    (tk_writers t) (tk_compactionState t).

Definition NewTracker (blockSize numBlocks : Z) : Tracker :=
  buildReaderStack (MkTracker blockSize numBlocks [] (NewReader blockSize numBlocks) [] [] false).

Definition set_primaryIndex (t : Tracker) (p : Reader R M BS) : Tracker :=
  MkTracker (tk_blockSize t) (tk_numBlocks t) (tk_readerStack t) p (tk_pendingReaders t)
    (tk_writers t) (tk_compactionState t).
Definition set_pendingReaders (t : Tracker) (l : list R) : Tracker :=
  MkTracker (tk_blockSize t) (tk_numBlocks t) (tk_readerStack t) (tk_primaryIndex t) l
    (tk_writers t) (tk_compactionState t).
Definition set_writers (t : Tracker) (l : list R) : Tracker :=
  MkTracker (tk_blockSize t) (tk_numBlocks t) (tk_readerStack t) (tk_primaryIndex t)
    (tk_pendingReaders t) l (tk_compactionState t).
Definition set_compactionState (t : Tracker) (b : bool) : Tracker :=
  MkTracker (tk_blockSize t) (tk_numBlocks t) (tk_readerStack t) (tk_primaryIndex t)
    (tk_pendingReaders t) (tk_writers t) b.

(** ** The operations *)
Definition tk_PushWriter (t : Tracker) (w : R) : Tracker :=
  buildReaderStack (set_writers t (w :: tk_writers t)).

(** [RemoveWriter] up to its wait for the active readers; [None] when the writer
    is not found, and then nothing changes. *)
Definition tk_RemoveWriter (t : Tracker) (w : R) : option Tracker :=
  if bool_decide (w ∈ tk_writers t)
  then Some (buildReaderStack (set_writers t (delete_first w (tk_writers t))))
  else None.

Definition tk_PushReader (t : Tracker) (r : R) : Tracker :=
  buildReaderStack (set_pendingReaders t (r :: tk_pendingReaders t)).

(** [readerMergeLoop]: the loop waits while this is false. *)
Definition merge_ready (t : Tracker) : bool :=
  negb (bool_decide (tk_pendingReaders t = [])) && negb (tk_compactionState t).

(** The clone of the pending readers, and the order in which they are indexed. *)
Definition merge_order (rs : list R) : list R := reverse rs.

(** The section after the merge: [slices.DeleteFunc] and the new stack. *)
Definition merge_finish (t : Tracker) (rs : list R) : Tracker :=
  buildReaderStack
    (set_pendingReaders t (filter (fun e => e ∉ rs) (tk_pendingReaders t))).

(** [StartCompaction]: [Some (t, true)] when the compaction starts, [Some (t, false)]
    when it returns [nil], and [None] while it waits. *)
Definition tk_StartCompaction (t : Tracker) : option (Tracker * bool) :=
  if tk_compactionState t then Some (t, false)
  else if bool_decide (tk_pendingReaders t = []) then Some (set_compactionState t true, true)
  else None.

Definition cs_Done (t : Tracker) : Tracker := set_compactionState t false.
Definition cs_LiveBlocks (t : Tracker) : outcome (gmap (option R) Z) := GetLiveBlocks (tk_primaryIndex t).
Definition cs_LiveBytesReader (t : Tracker) (rs : list R) : outcome (Reader R M BS) :=
  ReaderForLiveBytes (tk_primaryIndex t) rs.
Definition cs_ListReaders (t : Tracker) : list R := ListReaders (tk_primaryIndex t).
Definition cs_Reader (t : Tracker) : Reader R M BS := tk_primaryIndex t.

(** [PushCompactedReader], in one piece. *)
Definition cs_PushCompactedReader (t : Tracker) (r : R) : outcome Tracker :=
  p ← PushReader (tk_primaryIndex t) r; Ret (set_primaryIndex t p).

(** [RemoveUnusedReader], after its barrier. *)
Definition cs_RemoveUnusedReader (t : Tracker) (r : R) : outcome Tracker :=
  p ← RemoveTable (tk_primaryIndex t) r; Ret (set_primaryIndex t p).

(** ** Reading *)
Inductive stacked := Plain (r : R) | Primary (p : Reader R M BS).

#[export] Instance stacked_reader : BlockHoleReader stacked := {
  ReadBlocks x := match x with Plain r => ReadBlocks r | Primary p => ReadBlocks p end;
  NextBlockData x := match x with Plain r => NextBlockData r | Primary p => NextBlockData p end;
  NextBlockHole x := match x with Plain r => NextBlockHole r | Primary p => NextBlockHole p end;
}.

Definition resolve (t : Tracker) (rf : ref) : stacked :=
  match rf with RefReader r => Plain r | RefPrimary => Primary (tk_primaryIndex t) end.

(** [r.ReadBlocks(p, off)] of the stack [r] that the read took under the lock. *)
Definition tk_ReadFrom (t : Tracker) (stack : list ref) (p : bytes) (off : Z) :
    outcome (bytes * Z * option error) :=
  sbr_ReadBlocks (NewStackedBlockReader (resolve t <$> stack) (tk_blockSize t) (tk_numBlocks t)) p off.

(** [ReadBlocks] with nothing in between. *)
Definition tk_ReadBlocks (t : Tracker) (p : bytes) (off : Z) : outcome (bytes * Z * option error) :=
  tk_ReadFrom t (tk_readerStack t) p off.
End tracker.
Arguments ref R : clear implicits.
Arguments Tracker R {_ _} M BS.
Arguments stacked R {_ _} M BS.
