(* ===== verification/TrackerSteps.v ===== *)
(** * Interleavings of the reader tracker

    The transition system of [internal/tracker/reader.go] with every goroutine
    that uses it: callers that push and remove readers, the merge goroutine, one
    compaction, the writers, and any number of reads. A step is one section
    under the lock of the tracker or of the index, or one block fetched by a
    read. The order in which the block device calls the tracker, and what it
    promises about the readers it pushes, are the premises of the steps. *)
From S2P Require Import Prelude Bits RangeMap BlockReader StackedBlockReader BlockMap BlockMapPush.
From S2P Require Import BlockMapTheorems WaitBarrier Tracker.
Local Open Scope Z_scope.

Section steps.
Context {R : Type} `{!EqDecision R} `{!Countable R}.
Context {M : Type} `{!RangeMap Z M} `{!RangeMapLaws Z M}.
Context {BS : Type} `{!BitSet BS}.
Context (bs nb : Z).

(** ** Contents *)
Section contents.
Context (C : R -> content) (t : Tracker R M BS).

Definition ref_content (rf : ref R) : content :=
  match rf with RefReader r => C r | RefPrimary => bm_content C (tk_primaryIndex t) end.

(** What a read through a stack sees. *)
Definition stack_content (stack : list (ref R)) : content := overlay (ref_content <$> stack).

(** What the device shows. *)
Definition visible : content := stack_content (tk_readerStack t).

(** The readers under the write logs. *)
Definition below : content :=
  overlay ((C <$> tk_pendingReaders t) ++ [bm_content C (tk_primaryIndex t)]).

(** The reader that a read of a block through a stack uses. *)
Fixpoint provider (stack : list (ref R)) (k : Z) : option R :=
  match stack with
  | [] => None
  | RefReader r :: stack' => if bool_decide (is_Some (C r k)) then Some r else provider stack' k
  | RefPrimary :: stack' =>
      match owner (tk_primaryIndex t) k with Some r => Some r | None => provider stack' k end
  end.

(** A reader that has been handed over as immutable. *)
Definition frozen (r : R) : Prop := r ∈ tk_pendingReaders t \/ r ∈ rs (tk_primaryIndex t).
End contents.

(** ** States *)

(** The merge goroutine: waiting for readers, indexing the readers [rs] of which
    [todo] are left and one may be half done, or waiting at the barrier. *)
Inductive merge_phase :=
  | MergeIdle
  | MergeRun (rs todo : list R) (cur : option (push R))
  | MergeWait (wg : nat).

(** The goroutine of the compaction, between two of its calls or in the middle of
    one: pushing the compacted table, waiting at the barrier of
    [RemoveUnusedReader], or past it. *)
Inductive comp_phase :=
  | CompIdle
  | CompPush (cur : push R)
  | CompWait (wg : nat) (r : R)
  | CompRemove (r : R).

(** A read in progress: the stack it holds, the blocks it has fetched and the
    readers it has fetched them from. [rd_seen k] are the contents that block
    [k] had when the read began and those written to it since. *)
Record read := MkRead {
  rd_stack : list (ref R);
  rd_got : gmap Z (option bytes);
  rd_used : gset R;
  rd_seen : Z -> option bytes -> Prop;
}.

(** [ts_store] holds the methods of the readers as they behave now, since a
    write changes what a write log returns; [ts_content] are the contents they
    have, [ts_known] the readers the tracker has been given and [ts_removed]
    those for which [RemoveUnusedReader] has returned. *)
Record tstate := MkState {
  ts_tracker : Tracker R M BS;
  ts_merge : merge_phase;
  ts_comp : comp_phase;
  ts_barrier : barrier_system;
  ts_reads : gmap nat read;
  ts_store : BlockHoleReader R;
  ts_content : R -> content;
  ts_known : gset R;
  ts_removed : gset R;
}.

Definition set_tracker (s : tstate) t :=
  MkState t (ts_merge s) (ts_comp s) (ts_barrier s) (ts_reads s) (ts_store s) (ts_content s)
    (ts_known s) (ts_removed s).
Definition set_merge (s : tstate) m :=
  MkState (ts_tracker s) m (ts_comp s) (ts_barrier s) (ts_reads s) (ts_store s) (ts_content s)
    (ts_known s) (ts_removed s).
Definition set_comp (s : tstate) c :=
  MkState (ts_tracker s) (ts_merge s) c (ts_barrier s) (ts_reads s) (ts_store s) (ts_content s)
    (ts_known s) (ts_removed s).
Definition set_barrier (s : tstate) b :=
  MkState (ts_tracker s) (ts_merge s) (ts_comp s) b (ts_reads s) (ts_store s) (ts_content s)
    (ts_known s) (ts_removed s).
Definition set_reads (s : tstate) reads :=
  MkState (ts_tracker s) (ts_merge s) (ts_comp s) (ts_barrier s) reads (ts_store s) (ts_content s)
    (ts_known s) (ts_removed s).
Definition set_store (s : tstate) store C :=
  MkState (ts_tracker s) (ts_merge s) (ts_comp s) (ts_barrier s) (ts_reads s) store C
    (ts_known s) (ts_removed s).
Definition learn (s : tstate) (r : R) :=
  MkState (ts_tracker s) (ts_merge s) (ts_comp s) (ts_barrier s) (ts_reads s) (ts_store s)
    (ts_content s) ({[r]} ∪ ts_known s) (ts_removed s).
Definition forget (s : tstate) (r : R) :=
  MkState (ts_tracker s) (ts_merge s) (ts_comp s) (ts_barrier s) (ts_reads s) (ts_store s)
    (ts_content s) (ts_known s) ({[r]} ∪ ts_removed s).

Definition primary (s : tstate) := tk_primaryIndex (ts_tracker s).
Definition set_primary (s : tstate) p := set_tracker s (set_primaryIndex (ts_tracker s) p).

(** New contents of blocks, seen by every read in progress. *)
Definition see (new : Z -> option bytes -> Prop) (rd : read) : read :=
  MkRead (rd_stack rd) (rd_got rd) (rd_used rd) (fun k v => rd_seen rd k v \/ new k v).

Definition begin_read (s : tstate) : read :=
  MkRead (tk_readerStack (ts_tracker s)) ∅ ∅ (fun k v => v = visible (ts_content s) (ts_tracker s) k).

(** The fetch of one block. *)
Definition fetch (s : tstate) (rd : read) (k : Z) : read :=
  MkRead (rd_stack rd)
    (<[k := stack_content (ts_content s) (ts_tracker s) (rd_stack rd) k]> (rd_got rd))
    (match provider (ts_content s) (ts_tracker s) (rd_stack rd) k with
     | Some r => {[r]} ∪ rd_used rd | None => rd_used rd end)
    (rd_seen rd).

(** The merge and the compaction goroutine after entering the barrier. *)
Definition merge_after (wg : option nat) : merge_phase :=
  match wg with Some wg => MergeWait wg | None => MergeIdle end.
Definition comp_after (r : R) (wg : option nat) : comp_phase :=
  match wg with Some wg => CompWait wg r | None => CompRemove r end.

(** ** Steps

    A step either changes what the device shows, by a write to a log or by
    loading a reader, or does not. *)
Inductive label :=
  | Internal
  | Written (w : R) (c : content)
  | Loaded (r : R).

Abbreviation ok_in store r c := (@reader_ok R store bs nb r c).

Inductive tstep : tstate -> label -> tstate -> Prop :=
  (* A new, empty write log. *)
  | t_push_writer s w :
      w ∉ ts_known s -> (forall k, ts_content s w k = None) -> ok_in (ts_store s) w (ts_content s w) ->
      tstep s Internal (set_tracker (learn s w) (tk_PushWriter (ts_tracker s) w))
  (* A write to a log that has not been handed over. *)
  | t_write s w store c :
      w ∈ tk_writers (ts_tracker s) -> ~ frozen (ts_tracker s) w ->
      (forall k, is_Some (ts_content s w k) -> is_Some (c k)) ->
      let C := fun r => if decide (r = w) then c else ts_content s r in
      (forall r, r ∈ ts_known s -> r ∉ ts_removed s -> ok_in store r (C r)) ->
      tstep s (Written w c)
        (set_reads (set_store s store C)
           (see (fun k v => v = c k /\ c k <> ts_content s w k) <$> ts_reads s))
  (* The oldest log is handed over as an immutable reader. *)
  | t_push_frozen s ws r :
      tk_writers (ts_tracker s) = ws ++ [r] -> ~ frozen (ts_tracker s) r ->
      tstep s Internal (set_tracker s (tk_PushReader (ts_tracker s) r))
  (* A reader is loaded while no log is open. *)
  | t_load s r :
      r ∉ ts_known s -> ok_in (ts_store s) r (ts_content s r) -> tk_writers (ts_tracker s) = [] ->
      tstep s (Loaded r)
        (set_reads (set_tracker (learn s r) (tk_PushReader (ts_tracker s) r))
           (see (fun k v => v = ts_content s r k /\ is_Some v) <$> ts_reads s))
  (* A log that has been handed over is removed. *)
  | t_remove_writer s w t b wg :
      frozen (ts_tracker s) w -> tk_RemoveWriter (ts_tracker s) w = Some t ->
      bar_enter (ts_barrier s) = Ret (b, wg) ->
      tstep s Internal (set_barrier (set_tracker s t) b)
  (* The merge goroutine. *)
  | t_merge_begin s :
      ts_merge s = MergeIdle -> merge_ready (ts_tracker s) = true ->
      let rs := tk_pendingReaders (ts_tracker s) in
      tstep s Internal (set_merge s (MergeRun rs (merge_order rs) None))
  | t_merge_push s rs br todo iv p :
      ts_merge s = MergeRun rs (br :: todo) None -> push_begin (primary s) br = Ret (iv, p) ->
      tstep s Internal (set_merge (set_primary s p) (MergeRun rs todo (Some (MkPush br iv [] 0))))
  | t_merge_next s rs todo cur p next :
      ts_merge s = MergeRun rs todo (Some cur) ->
      push_next (HR := ts_store s) (primary s) cur = Ret (p, next) ->
      tstep s Internal (set_merge (set_primary s p) (MergeRun rs todo next))
  | t_merge_end s rs b wg :
      ts_merge s = MergeRun rs [] None -> bar_enter (ts_barrier s) = Ret (b, wg) ->
      tstep s Internal
        (set_merge (set_barrier (set_tracker s (merge_finish (ts_tracker s) rs)) b) (merge_after wg))
  | t_merge_wake s wg b :
      ts_merge s = MergeWait wg -> bar_leave (ts_barrier s) wg = Some (Ret b) ->
      tstep s Internal (set_merge (set_barrier s b) MergeIdle)
  (* A compaction; the table it pushes has contents the index already has. *)
  | t_compact_start s t :
      tk_StartCompaction (ts_tracker s) = Some (t, true) ->
      tstep s Internal (set_tracker s t)
  | t_compact_push s r iv p :
      tk_compactionState (ts_tracker s) = true -> ts_comp s = CompIdle ->
      r ∉ ts_known s -> ok_in (ts_store s) r (ts_content s r) ->
      (forall k b, ts_content s r k = Some b -> bm_content (ts_content s) (primary s) k = Some b) ->
      push_begin (primary s) r = Ret (iv, p) ->
      tstep s Internal (set_comp (set_primary (learn s r) p) (CompPush (MkPush r iv [] 0)))
  | t_compact_next s cur p next :
      ts_comp s = CompPush cur -> push_next (HR := ts_store s) (primary s) cur = Ret (p, next) ->
      tstep s Internal
        (set_comp (set_primary s p) match next with Some cur => CompPush cur | None => CompIdle end)
  (* [RemoveUnusedReader] of a reader without live blocks. *)
  | t_remove_begin s r b wg :
      tk_compactionState (ts_tracker s) = true -> ts_comp s = CompIdle ->
      r ∈ rs (primary s) -> (forall k, owner (primary s) k <> Some r) ->
      r ∉ tk_writers (ts_tracker s) ->
      bar_enter (ts_barrier s) = Ret (b, wg) ->
      tstep s Internal (set_comp (set_barrier s b) (comp_after r wg))
  | t_remove_wake s wg r b :
      ts_comp s = CompWait wg r -> bar_leave (ts_barrier s) wg = Some (Ret b) ->
      tstep s Internal (set_comp (set_barrier s b) (CompRemove r))
  | t_remove_table s r t :
      ts_comp s = CompRemove r -> cs_RemoveUnusedReader (ts_tracker s) r = Ret t ->
      tstep s Internal (set_comp (set_tracker (forget s r) t) CompIdle)
  | t_compact_done s :
      tk_compactionState (ts_tracker s) = true -> ts_comp s = CompIdle ->
      tstep s Internal (set_tracker s (cs_Done (ts_tracker s)))
  (* Reads. *)
  | t_read_begin s b i :
      bar_start (ts_barrier s) = Ret (b, i) ->
      tstep s Internal (set_reads (set_barrier s b) (<[i := begin_read s]> (ts_reads s)))
  | t_read_fetch s i rd k :
      ts_reads s !! i = Some rd ->
      tstep s Internal (set_reads s (<[i := fetch s rd k]> (ts_reads s)))
  | t_read_end s i b :
      bar_done (ts_barrier s) i = Ret b ->
      tstep s Internal (set_reads (set_barrier s b) (delete i (ts_reads s)))
  (* [RemoveWriter] returns. *)
  | t_writer_removed s wg b :
      ts_merge s <> MergeWait wg -> (forall r, ts_comp s <> CompWait wg r) ->
      bar_leave (ts_barrier s) wg = Some (Ret b) ->
      tstep s Internal (set_barrier s b).

(** A new tracker, with any readers still to come. *)
Definition tracker_initial (store : BlockHoleReader R) (C : R -> content) : tstate :=
  MkState (NewTracker bs nb) MergeIdle CompIdle barrier_initial ∅ store C ∅ ∅.

Definition any_step (s s' : tstate) : Prop := exists l, tstep s l s'.

Definition reachable (s : tstate) : Prop :=
  exists store C, rtc any_step (tracker_initial store C) s.
End steps.
Arguments merge_phase R : clear implicits.
Arguments comp_phase R : clear implicits.
Arguments read R {_ _}.
Arguments tstate R {_ _} M BS.
Arguments label R : clear implicits.
