(* ===== verification/TrackerInv.v ===== *)
(** * The layers of the tracker

    What every reachable state of the tracker satisfies: which readers are in
    which layer, how far the merge and the compaction are, and what the index
    holds. It is kept by every step. *)
From S2P Require Import Prelude Bits RangeMap BlockReader StackedBlockReader BlockMap BlockMapPush.
From S2P Require Import BlockMapLive BlockMapTheorems WaitBarrier Tracker TrackerSteps.
Local Open Scope Z_scope.

Section inv.
Context {R : Type} `{!EqDecision R} `{!Countable R}.
Context {M : Type} `{!RangeMap Z M} `{!RangeMapLaws Z M}.
Context {BS : Type} `{!BitSet BS} `{!BitSetLaws BS}.
Context (bs nb : Z) (Hbs : 0 < bs) (Hnb : 0 <= nb <= 2 ^ 48).
Implicit Types (s : tstate R M BS) (t : Tracker R M BS) (p : Reader R M BS) (C : R -> content).

Abbreviation wf := (bm_wf bs nb).
Abbreviation ok_in store r c := (@reader_ok R store bs nb r c).

(** ** Contents of the layers *)
Lemma overlay_is_Some C (l : list R) r k :
  r ∈ l -> is_Some (C r k) -> is_Some (overlay (C <$> l) k).
Proof.
  intros Hr Hk. rewrite top_owner_content. destruct (top_owner C l k) as [b|] eqn:E.
  - by apply top_owner_Some in E as [_ ?].
  - rewrite top_owner_None in E. rewrite E in Hk by done. by destruct Hk.
Qed.

Lemma below_eq C t k :
  below C t k = match overlay (C <$> tk_pendingReaders t) k with
                | Some b => Some b | None => bm_content C (tk_primaryIndex t) k end.
Proof. unfold below. rewrite overlay_app. cbn. by destruct (bm_content _ _ k). Qed.

Definition built t : Prop :=
  tk_readerStack t =
  (RefReader <$> tk_writers t) ++ (RefReader <$> tk_pendingReaders t) ++ [RefPrimary].

Lemma plain_content C t (l : list R) : ref_content C t <$> (RefReader <$> l) = C <$> l.
Proof. by rewrite <- list_fmap_compose. Qed.

Lemma stack_content_plain C t (l : list R) k :
  stack_content C t ((RefReader <$> l) ++ [RefPrimary]) k =
  match overlay (C <$> l) k with Some b => Some b | None => bm_content C (tk_primaryIndex t) k end.
Proof.
  unfold stack_content. rewrite fmap_app, plain_content, overlay_app. cbn.
  by destruct (bm_content _ _ k).
Qed.

Lemma visible_eq C t k :
  built t ->
  visible C t k = match overlay (C <$> tk_writers t) k with Some b => Some b | None => below C t k end.
Proof.
  unfold visible. intros ->. rewrite app_assoc, <- fmap_app, stack_content_plain, below_eq, fmap_app, overlay_app.
  by destruct (overlay (C <$> tk_writers t) k).
Qed.

(** ** Advancing the index *)
Lemma advance_coherent C br p p' :
  coherent C p -> advances bs nb (C br) br p p' -> coherent C p'.
Proof. intros Hc Ha k b Hk. destruct (av_owner _ _ _ _ _ _ Ha k) as [E|[E Hs]]; [eapply Hc|]; congruence. Qed.

Lemma advance_content C br p p' k :
  advances bs nb (C br) br p p' ->
  bm_content C p' k = bm_content C p k \/ (bm_content C p' k = C br k /\ is_Some (C br k)).
Proof.
  intros Ha. unfold bm_content. destruct (av_owner _ _ _ _ _ _ Ha k) as [->|[-> Hs]]; [by left|by right].
Qed.

Lemma same_owner_content C p p' k : owner p' k = owner p k -> bm_content C p' k = bm_content C p k.
Proof. unfold bm_content. by intros ->. Qed.

(** What lies under the logs does not change while a pending reader is added to
    the index, or a reader whose contents the index has. *)
Lemma below_advance C t p' br :
  br ∈ tk_pendingReaders t -> advances bs nb (C br) br (tk_primaryIndex t) p' ->
  forall k, below C (set_primaryIndex t p') k = below C t k.
Proof.
  intros Hbr Ha k. rewrite !below_eq. cbn. destruct (overlay _ k) eqn:E; [done|].
  destruct (advance_content C br _ _ k Ha) as [->|[_ Hs]]; [done|].
  by destruct (overlay_is_Some C (tk_pendingReaders t) br k Hbr Hs); simplify_eq.
Qed.

Lemma below_same C t p' :
  (forall k, bm_content C p' k = bm_content C (tk_primaryIndex t) k) ->
  forall k, below C (set_primaryIndex t p') k = below C t k.
Proof. intros Hs k. rewrite !below_eq. cbn. by rewrite Hs. Qed.

(** ** The invariant *)
Definition cur_readers (cur : option (push R)) : list R :=
  match cur with Some cur => [pu_br cur] | None => [] end.

(** The merge: [new] readers have been pushed since it began, the readers
    [done] are in the index, one is being added and the others are not in it
    yet. *)
Record merging C (pend : list R) p (qs todo : list R) (cur : option (push R)) (new done : list R) : Prop := {
  mg_pending : pend = new ++ qs;
  mg_nonempty : qs <> [];
  mg_order : reverse qs = done ++ cur_readers cur ++ todo;
  mg_absent r : r ∈ new \/ r ∈ todo -> r ∉ rs p;
  mg_done k b : overlay (C <$> reverse done) k = Some b ->
    bm_content C p k = Some b \/ exists c, cur = Some c /\ owner p k = Some (pu_br c);
  mg_cur c : cur = Some c -> pushing nb (C (pu_br c)) p c;
}.

Definition merge_inv C (pend : list R) p (compacting : bool) (m : merge_phase R) : Prop :=
  match m with
  | MergeRun qs todo cur => compacting = false /\ exists new done, merging C pend p qs todo cur new done
  | MergeIdle | MergeWait _ => forall r, r ∈ pend -> r ∉ rs p
  end.

Definition unused_in (writers pend : list R) p (r : R) : Prop :=
  r ∈ rs p /\ (forall k, owner p k <> Some r) /\ (r ∉ writers) /\ (r ∉ pend).

Definition comp_inv C (writers pend : list R) p (compacting : bool) (c : comp_phase R) : Prop :=
  match c with
  | CompIdle => True
  | CompPush cur =>
      compacting = true /\ pushing nb (C (pu_br cur)) p cur /\
      forall k b, C (pu_br cur) k = Some b -> bm_content C p k = Some b
  | CompWait _ r | CompRemove r => compacting = true /\ unused_in writers pend p r
  end.

(** A log that has been handed over and not removed yet is the oldest, and
    everything it has is also under the logs. *)
Definition handed_over C t : Prop :=
  forall w, w ∈ tk_writers t -> frozen t w ->
    (exists ws, tk_writers t = ws ++ [w]) /\ forall k b, C w k = Some b -> below C t k = Some b.

Record layers s : Prop := {
  ly_size : tk_blockSize (ts_tracker s) = bs /\ tk_numBlocks (ts_tracker s) = nb;
  ly_built : built (ts_tracker s);
  ly_wf : wf (primary s);
  ly_coherent : coherent (ts_content s) (primary s);
  ly_writers : NoDup (tk_writers (ts_tracker s));
  ly_pending : NoDup (tk_pendingReaders (ts_tracker s));
  ly_known r : r ∈ tk_writers (ts_tracker s) \/ frozen (ts_tracker s) r ->
    r ∈ ts_known s /\ r ∉ ts_removed s;
  ly_removed : ts_removed s ⊆ ts_known s;
  ly_ok r : r ∈ ts_known s -> r ∉ ts_removed s -> ok_in (ts_store s) r (ts_content s r);
  ly_merge : merge_inv (ts_content s) (tk_pendingReaders (ts_tracker s)) (primary s)
               (tk_compactionState (ts_tracker s)) (ts_merge s);
  ly_comp : comp_inv (ts_content s) (tk_writers (ts_tracker s)) (tk_pendingReaders (ts_tracker s))
              (primary s) (tk_compactionState (ts_tracker s)) (ts_comp s);
  ly_handed : handed_over (ts_content s) (ts_tracker s);
}.

Lemma pushing_rs c p cur : wf p -> pushing nb c p cur -> pu_br cur ∈ rs p.
Proof.
  intros Hwf Hp. apply (wf_rs _ _ p Hwf). exists (pu_iv cur). apply (wf_inverse _ _ p Hwf), Hp.
Qed.

Lemma layers_initial store C : layers (tracker_initial bs nb store C).
Proof.
  split; cbn; try done.
  - by apply NewReader_wf.
  - intros k br. by rewrite NewReader_owner.
  - constructor.
  - constructor.
  - intros r [Hr|[Hr|Hr]]; by apply elem_of_nil in Hr.
  - intros r Hr. by apply elem_of_nil in Hr.
  - intros w Hw. by apply elem_of_nil in Hw.
Qed.

(** ** The calls of the block device *)

Lemma fresh_not_frozen s r :
  layers s -> r ∉ ts_known s -> (r ∉ tk_writers (ts_tracker s)) /\ ~ frozen (ts_tracker s) r.
Proof. intros Hl Hr. split; intros H; apply Hr, (ly_known s Hl); auto. Qed.

Lemma push_writer_layers s w :
  layers s -> w ∉ ts_known s -> ok_in (ts_store s) w (ts_content s w) ->
  layers (set_tracker (learn s w) (tk_PushWriter (ts_tracker s) w)).
Proof.
  intros Hl Hw Hok. destruct (fresh_not_frozen s w Hl Hw) as [Hww Hwf].
  destruct Hl as [Hsz Hb Hpw Hco Hnw Hnp Hkn Hrm Hrok Hm Hc Hh]. split; cbn; try done.
  - by constructor.
  - intros r Hr. destruct (decide (r = w)) as [->|Hne]; [set_solver|].
    destruct (Hkn r); [|set_solver]. destruct Hr as [Hr|Hr]; [left; set_solver|by right].
  - set_solver.
  - intros r Hr Hnr. destruct (decide (r = w)) as [->|]; [done|]. apply Hrok; set_solver.
  - destruct (ts_comp s) as [|cur|wg r|r]; try done; cbn in *; destruct Hc as (? & ? & ? & ? & ?);
      (split; [done|]; split; [done|]; split; [done|]; split; [|done]);
      apply not_elem_of_cons; (split; [|done]); intros ->; apply Hwf; by right.
  - intros w' Hw' Hf. change (frozen (ts_tracker s) w') in Hf.
    apply elem_of_cons in Hw' as [->|Hw']; [done|].
    destruct (Hh w' Hw' Hf) as [[ws E] Hbl]. split; [|done]. exists (w :: ws). cbn. by rewrite E.
Qed.

(** Contents that differ only at [w]. *)
Definition differ_at (w : R) C C' : Prop := forall r, r <> w -> C' r = C r.

Lemma overlay_differ w C C' (l : list R) k :
  differ_at w C C' -> w ∉ l -> overlay (C' <$> l) k = overlay (C <$> l) k.
Proof.
  intros Hd Hw. f_equal. apply list_fmap_ext. intros i r Hr. apply Hd. intros ->.
  by apply Hw, list_elem_of_lookup_2 with i.
Qed.

Lemma bm_content_differ w C C' p k :
  wf p -> differ_at w C C' -> w ∉ rs p -> bm_content C' p k = bm_content C p k.
Proof.
  intros Hwf Hd Hw. unfold bm_content. destruct (owner p k) as [r|] eqn:E; [cbn|done].
  rewrite Hd; [done|]. intros ->. by apply Hw, (owner_rs bs nb _ k).
Qed.

Lemma below_differ w C C' t k :
  wf (tk_primaryIndex t) -> differ_at w C C' -> ~ frozen t w -> below C' t k = below C t k.
Proof.
  intros Hwf Hd Hw. rewrite !below_eq, (overlay_differ w C), (bm_content_differ w C); try done.
  - intros ?. apply Hw. by right.
  - intros ?. apply Hw. by left.
Qed.

Lemma write_layers s w store c reads :
  layers s -> w ∈ tk_writers (ts_tracker s) -> ~ frozen (ts_tracker s) w ->
  let C := fun r => if decide (r = w) then c else ts_content s r in
  (forall r, r ∈ ts_known s -> r ∉ ts_removed s -> ok_in store r (C r)) ->
  layers (set_reads (set_store s store C) reads).
Proof.
  intros Hl Hw Hnf C Hok. assert (Hd : differ_at w (ts_content s) C).
  { intros r Hr. unfold C. by rewrite decide_False. }
  assert (Hnp : w ∉ tk_pendingReaders (ts_tracker s)) by (intros ?; apply Hnf; by left).
  assert (Hnr : w ∉ rs (primary s)) by (intros ?; apply Hnf; by right).
  destruct Hl as [Hsz Hb Hpw Hco Hnw Hndp Hkn Hrm Hrok Hm Hc Hh]. split; cbn; try done.
  - intros k r Hr. rewrite Hd; [by eapply Hco|]. intros ->. by apply Hnr, (owner_rs bs nb _ k).
  - destruct (ts_merge s) as [|qs todo cur|wg]; [done| |done].
    destruct Hm as (Hcs & new & done & Hm). split; [done|]. exists new, done.
    assert (Hq : forall r, r ∈ qs -> r <> w).
    { intros r Hr ->. apply Hnp. rewrite (mg_pending _ _ _ _ _ _ _ _ Hm). set_solver. }
    destruct Hm as [Hp Hne Ho Ha Hdn Hcu]. split; try done.
    + intros k b. rewrite (overlay_differ w (ts_content s)), (bm_content_differ w (ts_content s)); auto.
      intros Hwd. apply (Hq w); [|done]. rewrite <- elem_of_reverse, Ho. apply elem_of_reverse in Hwd. set_solver.
    + intros cu ->. rewrite Hd; [by apply Hcu|]. apply Hq. rewrite <- elem_of_reverse, Ho. cbn. set_solver.
  - destruct (ts_comp s) as [|cur|wg r|r]; try done. destruct Hc as (Hcs & Hp & Hcc).
    assert (pu_br cur <> w). { intros <-. apply Hnr. by eapply pushing_rs. }
    cbn. rewrite Hd by done. split; [done|]. split; [done|]. intros k b.
    rewrite (bm_content_differ w (ts_content s)) by done. apply Hcc.
  - intros w' Hw' Hf. destruct (Hh w' Hw' Hf) as [? Hbl]. split; [done|]. intros k b.
    change (ts_tracker (set_reads (set_store s store C) reads)) with (ts_tracker s).
    rewrite (below_differ w (ts_content s)) by done. rewrite Hd; [apply Hbl|]. by intros ->.
Qed.

(** Pushing a reader that is not in any lower layer. *)
Lemma push_reader_layers s r reads :
  layers s -> ~ frozen (ts_tracker s) r -> r ∈ ts_known s -> r ∉ ts_removed s ->
  (forall w, w ∈ tk_writers (ts_tracker s) -> w = r /\ (exists ws, tk_writers (ts_tracker s) = ws ++ [w]) \/
                                             ~ frozen (ts_tracker s) w /\ w <> r) ->
  layers (set_reads (set_tracker s (tk_PushReader (ts_tracker s) r)) reads).
Proof.
  intros Hl Hnf Hk Hnrm Hws.
  assert (Hnp : r ∉ tk_pendingReaders (ts_tracker s)) by (intros ?; apply Hnf; by left).
  assert (Hnr : r ∉ rs (primary s)) by (intros ?; apply Hnf; by right).
  destruct Hl as [Hsz Hb Hpw Hco Hnw Hndp Hkn Hrm Hrok Hm Hc Hh]. split; cbn; try done.
  - by constructor.
  - intros q Hq. destruct (decide (q = r)) as [->|Hne]; [done|]. apply Hkn.
    destruct Hq as [Hq|[Hq|Hq]]; [by left| |right; by right].
    cbn in Hq. apply elem_of_cons in Hq as [?|Hq]; [done|]. right. by left.
  - destruct (ts_merge s) as [|qs todo cur|wg]; cbn in *.
    + intros q [->|Hq]%elem_of_cons; auto.
    + destruct Hm as (Hcs & new & done & [Hp Hne Ho Ha Hdn Hcu]). split; [done|]. exists (r :: new), done.
      split; try done; [cbn; by rewrite Hp|]. intros q [[->|Hq]%elem_of_cons|Hq]; auto.
    + intros q [->|Hq]%elem_of_cons; auto.
  - destruct (ts_comp s) as [|cur|wg q|q]; try done; cbn in *; destruct Hc as (? & ? & ? & ? & ?);
      (split; [done|]; split; [done|]; split; [done|]; split; [done|]);
      apply not_elem_of_cons; (split; [|done]); by intros ->.
  - intros w Hw Hf. change (w ∈ tk_writers (ts_tracker s)) in Hw.
    destruct (Hws w Hw) as [[-> Hlast]|[Hnw' Hne]].
    + split; [done|]. intros k b Hb'. rewrite below_eq. cbn. by rewrite Hb'.
    + exfalso. apply Hnw'. destruct Hf as [Hf|Hf]; [|by right].
      cbn in Hf. apply elem_of_cons in Hf as [?|Hf]; [done|by left].
Qed.

Lemma learn_layers s r :
  layers s -> ok_in (ts_store s) r (ts_content s r) -> layers (learn s r).
Proof.
  intros [Hsz Hb Hpw Hco Hnw Hndp Hkn Hrm Hrok Hm Hc Hh] Hok. split; cbn; try done.
  - intros q Hq. destruct (Hkn q Hq). set_solver.
  - set_solver.
  - intros q Hq Hnq. destruct (decide (q = r)) as [->|]; [done|]. apply Hrok; set_solver.
Qed.

Lemma push_frozen_layers s ws r :
  layers s -> tk_writers (ts_tracker s) = ws ++ [r] -> ~ frozen (ts_tracker s) r ->
  layers (set_tracker s (tk_PushReader (ts_tracker s) r)).
Proof.
  intros Hl E Hnf. destruct (ly_known s Hl r) as [Hk Hnrm]; [left; rewrite E; set_solver|].
  refine (push_reader_layers s r (ts_reads s) Hl Hnf Hk Hnrm _).
  intros w Hw. destruct (decide (w = r)) as [->|Hne]; [left; eauto|right]. split; [|done]. intros Hf.
  destruct (ly_handed s Hl w Hw Hf) as [[ws' E'] _]. rewrite E in E'.
  apply app_inj_tail in E' as [_ E']. congruence.
Qed.

Lemma load_layers s r reads :
  layers s -> r ∉ ts_known s -> ok_in (ts_store s) r (ts_content s r) -> tk_writers (ts_tracker s) = [] ->
  layers (set_reads (set_tracker (learn s r) (tk_PushReader (ts_tracker s) r)) reads).
Proof.
  intros Hl Hr Hok Hw. destruct (fresh_not_frozen s r Hl Hr) as [_ Hnf].
  pose proof (ly_removed s Hl) as Hrm. apply (push_reader_layers (learn s r)); cbn; try done.
  - by apply learn_layers.
  - set_solver.
  - set_solver.
  - rewrite Hw. intros w Hw'. by apply elem_of_nil in Hw'.
Qed.

Lemma remove_writer_layers s w t b :
  layers s -> frozen (ts_tracker s) w -> tk_RemoveWriter (ts_tracker s) w = Some t ->
  layers (set_barrier (set_tracker s t) b).
Proof.
  intros Hl Hf E. unfold tk_RemoveWriter in E. case_bool_decide as Hw; [|done]. injection E as <-.
  destruct Hl as [Hsz Hb Hpw Hco Hnw Hndp Hkn Hrm Hrok Hm Hc Hh].
  assert (Hdel : forall r, r ∈ delete_first w (tk_writers (ts_tracker s)) <->
                           r ∈ tk_writers (ts_tracker s) /\ r <> w).
  { intros r. rewrite delete_first_filter by done. rewrite list_elem_of_filter. tauto. }
  split; cbn; try done.
  - rewrite delete_first_filter by done. by apply NoDup_filter.
  - intros r [Hr%Hdel|Hr]; apply Hkn; [left; tauto|by right].
  - destruct (ts_comp s) as [|cur|wg q|q]; try done; cbn in *; destruct Hc as (? & ? & ? & ? & ?);
      (split; [done|]; split; [done|]; split; [done|]; split; [|done]); rewrite Hdel; tauto.
  - intros w' [Hw' Hne]%Hdel Hf'. exfalso. destruct (Hh w' Hw' Hf') as [[ws E'] _].
    destruct (Hh w Hw Hf) as [[ws2 E2] _]. rewrite E2 in E'. apply app_inj_tail in E' as [_ E']. congruence.
Qed.

(** ** The merge goroutine *)
Lemma comp_idle C writers pend p c : comp_inv C writers pend p false c -> c = CompIdle.
Proof. destruct c as [|cur|wg r|r]; cbn; naive_solver. Qed.

Lemma merge_begin_layers s :
  layers s -> ts_merge s = MergeIdle -> merge_ready (ts_tracker s) = true ->
  let qs := tk_pendingReaders (ts_tracker s) in
  layers (set_merge s (MergeRun qs (merge_order qs) None)).
Proof.
  intros [Hsz Hb Hpw Hco Hnw Hndp Hkn Hrm Hrok Hm Hc Hh] E [Hne Hcs]%andb_true_iff qs.
  apply negb_true_iff in Hcs, Hne. apply bool_decide_eq_false in Hne. rewrite E in Hm.
  split; cbn; try done. split; [done|]. exists [], []. split; cbn; try done.
  - intros r [Hr|Hr]; [by apply elem_of_nil in Hr|]. apply Hm. unfold merge_order in Hr. by rewrite elem_of_reverse in Hr.
Qed.

(** Changing the index by a push of a reader of the lower layers. *)
Lemma advance_layers s p' br m c :
  layers s -> wf p' -> coherent (ts_content s) p' ->
  br ∈ ts_known s -> br ∉ ts_removed s ->
  (forall r, r ∈ rs p' -> r ∈ rs (primary s) \/ r = br) ->
  (br ∈ tk_writers (ts_tracker s) -> frozen (ts_tracker s) br) ->
  (forall k, below (ts_content s) (set_primaryIndex (ts_tracker s) p') k =
             below (ts_content s) (ts_tracker s) k) ->
  merge_inv (ts_content s) (tk_pendingReaders (ts_tracker s)) p' (tk_compactionState (ts_tracker s)) m ->
  comp_inv (ts_content s) (tk_writers (ts_tracker s)) (tk_pendingReaders (ts_tracker s)) p'
    (tk_compactionState (ts_tracker s)) c ->
  layers (set_comp (set_merge (set_primary s p') m) c).
Proof.
  intros [Hsz Hb Hpw Hco Hnw Hndp Hkn Hrm Hrok Hm Hc Hh] Hwf Hco' Hbk Hbr Hrs Hbw Hbel Hm' Hc'.
  split; cbn; try done.
  - intros r [Hr|[Hr|Hr]]; [apply Hkn; by left|apply Hkn; right; by left|].
    cbn in Hr. destruct (Hrs r Hr) as [Hr'| ->]; [apply Hkn; right; by right|done].
  - intros w Hw Hf. destruct (Hh w Hw) as [Hlast Hbl].
    + destruct Hf as [Hf|Hf]; [by left|]. cbn in Hf. destruct (Hrs w Hf) as [?| ->]; [by right|by apply Hbw].
    + split; [done|]. intros k b Hk. change (below (ts_content s) (set_primaryIndex (ts_tracker s) p') k = Some b).
      rewrite Hbel. by apply Hbl.
Qed.

Lemma merging_elem C pend p qs todo cur new done r :
  merging C pend p qs todo cur new done -> r ∈ done ++ cur_readers cur ++ todo -> r ∈ pend.
Proof. intros Hm. rewrite <- (mg_order _ _ _ _ _ _ _ _ Hm), (mg_pending _ _ _ _ _ _ _ _ Hm), elem_of_reverse. set_solver. Qed.

Lemma pending_known s r : layers s -> r ∈ tk_pendingReaders (ts_tracker s) -> r ∈ ts_known s /\ r ∉ ts_removed s.
Proof. intros Hl Hr. apply (ly_known s Hl). right. by left. Qed.

Lemma merge_push_layers s qs br todo iv p :
  layers s -> ts_merge s = MergeRun qs (br :: todo) None -> push_begin (primary s) br = Ret (iv, p) ->
  layers (set_merge (set_primary s p) (MergeRun qs todo (Some (MkPush br iv [] 0)))).
Proof.
  intros Hl E Ep. pose proof (ly_merge s Hl) as Hm. rewrite E in Hm. destruct Hm as (Hcs & new & done & Hm).
  assert (Hbr : br ∈ tk_pendingReaders (ts_tracker s)).
  { eapply merging_elem; [done|]. cbn. set_solver. }
  destruct (pending_known s br Hl Hbr) as [Hbk Hbrm].
  pose proof (ly_ok s Hl br Hbk Hbrm) as Hok.
  destruct (push_begin_ok bs nb Hbs Hnb _ _ _ _ (ly_wf s Hl) Ep) as (Hnr & Hwf & Hrs & Hv & Ho).
  refine (advance_layers s p br (MergeRun qs todo (Some (MkPush br iv [] 0))) (ts_comp s) Hl Hwf _ Hbk Hbrm _ _ _ _ _).
  - intros k r. rewrite Ho. apply (ly_coherent s Hl).
  - intros r. rewrite Hrs. set_solver.
  - intros _. by left.
  - apply below_same. intros k. apply same_owner_content, Ho.
  - pose proof (ly_pending s Hl) as Hnd. destruct Hm as [Hp Hne Hord Ha Hdn Hcu].
    split; [done|]. exists new, done. split; try done.
    + intros r Hr. rewrite Hrs, elem_of_app, list_elem_of_singleton. intros [Hr'| ->].
      { apply (Ha r); [|done]. set_solver. }
      destruct Hr as [Hr|Hr].
      * rewrite Hp in Hnd. apply NoDup_app in Hnd as (_ & Hd & _). apply (Hd br Hr).
        rewrite <- elem_of_reverse, Hord. cbn. set_solver.
      * assert (NoDup (reverse qs)) as Hndq.
        { rewrite reverse_Permutation. rewrite Hp in Hnd. by apply NoDup_app in Hnd as (_ & _ & ?). }
        rewrite Hord in Hndq. cbn in Hndq. apply NoDup_app in Hndq as (_ & _ & Hndq).
        by apply NoDup_cons in Hndq as [? _].
    + intros k b Hk. left. rewrite (same_owner_content _ (primary s)) by apply Ho.
      destruct (Hdn k b Hk) as [?|(? & ? & _)]; done.
    + intros c [= <-]. by eapply (pushing_begin bs nb Hnb (HR := ts_store s)).
  - pose proof (ly_comp s Hl) as Hc. rewrite Hcs in Hc. apply comp_idle in Hc. by rewrite Hc.
Qed.

Lemma merge_next_layers s qs todo cur p next :
  layers s -> ts_merge s = MergeRun qs todo (Some cur) ->
  push_next (HR := ts_store s) (primary s) cur = Ret (p, next) ->
  layers (set_merge (set_primary s p) (MergeRun qs todo next)) /\
  advances bs nb (ts_content s (pu_br cur)) (pu_br cur) (primary s) p /\
  pu_br cur ∈ tk_pendingReaders (ts_tracker s).
Proof.
  intros Hl E Ep. pose proof (ly_merge s Hl) as Hm. rewrite E in Hm. destruct Hm as (Hcs & new & done & Hm).
  assert (Hbr : pu_br cur ∈ tk_pendingReaders (ts_tracker s)).
  { eapply merging_elem; [done|]. cbn. set_solver. }
  destruct (pending_known s _ Hl Hbr) as [Hbk Hbrm]. pose proof (ly_ok s Hl _ Hbk Hbrm) as Hok.
  destruct (push_next_ok bs nb Hnb (HR := ts_store s) (ts_content s (pu_br cur)) (primary s) cur)
    as (p' & next' & Ep' & Hav & Hnext); [apply Hl|by apply (mg_cur _ _ _ _ _ _ _ _ Hm)|done|].
  rewrite Ep in Ep'. injection Ep' as <- <-. split; [|done].
  refine (advance_layers s p (pu_br cur) (MergeRun qs todo next) (ts_comp s) Hl (av_wf _ _ _ _ _ _ Hav) _ Hbk Hbrm _ _ _ _ _).
  - eapply advance_coherent; [apply Hl|done].
  - intros r. rewrite (av_rs _ _ _ _ _ _ Hav). by left.
  - intros _. by left.
  - by eapply below_advance.
  - assert (Hnew : forall r, r ∈ new \/ r ∈ todo -> r ∉ rs p).
    { intros r Hr. rewrite (av_rs _ _ _ _ _ _ Hav). by apply (mg_absent _ _ _ _ _ _ _ _ Hm). }
    destruct Hm as [Hp Hne Hord Ha Hdn Hcu]. split; [done|].
    assert (Hdone : forall k b, overlay (ts_content s <$> reverse done) k = Some b ->
              bm_content (ts_content s) p k = Some b \/ owner p k = Some (pu_br cur)).
    { intros k b Hk. destruct (Hdn k b Hk) as [Hb|(c & [= <-] & Ho)].
      - destruct (av_owner _ _ _ _ _ _ Hav k) as [Ho|[Ho _]]; [left|by right].
        by rewrite (same_owner_content _ (primary s)).
      - right. by apply (av_kept _ _ _ _ _ _ Hav). }
    destruct next as [cur'|].
    + destruct Hnext as (Hb' & Hpg & _). exists new, done. split; try done.
      * cbn. rewrite Hb'. done.
      * intros k b Hk. destruct (Hdone k b Hk) as [?|Ho]; [by left|right].
        exists cur'. by rewrite Hb'.
      * intros c [= <-]. by rewrite Hb'.
    + exists new, (done ++ [pu_br cur]). split; try done.
      * rewrite Hord. cbn. by rewrite <- app_assoc.
      * intros k b. rewrite reverse_app. cbn. intros Hk. left. unfold bm_content.
        destruct (ts_content s (pu_br cur) k) as [b'|] eqn:Ek.
        -- injection Hk as <-. rewrite Hnext by (by eexists). done.
        -- destruct (Hdone k b Hk) as [Hb|Ho]; [done|]. exfalso.
           eapply advance_coherent in Ho; [|apply Hl|done]. rewrite Ek in Ho. by destruct Ho.
  - pose proof (ly_comp s Hl) as Hc. rewrite Hcs in Hc. apply comp_idle in Hc. by rewrite Hc.
Qed.

Lemma merge_finish_pending t (new qs : list R) :
  NoDup (tk_pendingReaders t) -> tk_pendingReaders t = new ++ qs ->
  tk_pendingReaders (merge_finish t qs) = new.
Proof.
  intros Hnd E. cbn. rewrite E, filter_app. rewrite E in Hnd. apply NoDup_app in Hnd as (_ & Hd & _).
  rewrite (filter_none _ qs), app_nil_r; [|by intros x Hx Hn].
  by apply filter_all.
Qed.

Lemma merge_finish_below C t (new qs : list R) :
  NoDup (tk_pendingReaders t) -> tk_pendingReaders t = new ++ qs ->
  (forall k b, overlay (C <$> qs) k = Some b -> bm_content C (tk_primaryIndex t) k = Some b) ->
  forall k, below C (merge_finish t qs) k = below C t k.
Proof.
  intros Hnd E Hq k. rewrite !below_eq, (merge_finish_pending t new qs) by done. rewrite E.
  rewrite fmap_app, overlay_app. destruct (overlay (C <$> new) k); [done|]. cbn.
  destruct (overlay (C <$> qs) k) eqn:Eq; [|done]. by apply Hq.
Qed.

Lemma merge_end_below s qs :
  layers s -> ts_merge s = MergeRun qs [] None ->
  (forall k, below (ts_content s) (merge_finish (ts_tracker s) qs) k = below (ts_content s) (ts_tracker s) k) /\
  exists new, tk_pendingReaders (merge_finish (ts_tracker s) qs) = new /\
    tk_pendingReaders (ts_tracker s) = new ++ qs /\ forall r, r ∈ new -> r ∉ rs (primary s).
Proof.
  intros Hl E. pose proof (ly_merge s Hl) as Hm. rewrite E in Hm.
  destruct Hm as (Hcs & new & done & [Hp Hne Hord Ha Hdn Hcu]). cbn in Hord. rewrite app_nil_r in Hord.
  pose proof (ly_pending s Hl) as Hnd. split.
  - apply (merge_finish_below _ _ new); [done|done|]. intros k b Hk.
    destruct (Hdn k b) as [?|(? & ? & _)]; [|done..]. by rewrite <- Hord, reverse_involutive.
  - exists new. split; [by apply merge_finish_pending|]. split; [done|]. auto.
Qed.

Lemma merge_end_layers s qs b wg :
  layers s -> ts_merge s = MergeRun qs [] None ->
  layers (set_merge (set_barrier (set_tracker s (merge_finish (ts_tracker s) qs)) b) (merge_after wg)).
Proof.
  intros Hl E. destruct (merge_end_below s qs Hl E) as (Hbel & new & Hnew & Hp & Habs).
  assert (Hcs : tk_compactionState (ts_tracker s) = false).
  { pose proof (ly_merge s Hl) as Hm. rewrite E in Hm. apply Hm. }
  destruct Hl as [Hsz Hb Hpw Hco Hnw Hndp Hkn Hrm Hrok Hm Hc Hh].
  assert (Hfr : forall r, frozen (merge_finish (ts_tracker s) qs) r -> frozen (ts_tracker s) r).
  { intros r [Hr|Hr]; [left|by right]. rewrite Hnew in Hr. rewrite Hp. set_solver. }
  split; try done.
  - change (NoDup (tk_pendingReaders (merge_finish (ts_tracker s) qs))). rewrite Hnew.
    rewrite Hp in Hndp. by apply NoDup_app in Hndp as (? & _).
  - intros r [Hr|Hr]; apply Hkn; [by left|right; by apply Hfr].
  - change (merge_inv (ts_content s) (tk_pendingReaders (merge_finish (ts_tracker s) qs)) (primary s)
              (tk_compactionState (ts_tracker s)) (merge_after wg)).
    rewrite Hnew. by destruct wg.
  - rewrite Hcs in Hc. apply comp_idle in Hc. cbn. by rewrite Hc.
  - intros w Hw Hf. destruct (Hh w Hw (Hfr w Hf)) as [? Hbl]. split; [done|]. intros k b' Hk.
    change (below (ts_content s) (merge_finish (ts_tracker s) qs) k = Some b'). rewrite Hbel. by apply Hbl.
Qed.

(** ** The compaction *)
Lemma no_merge C pend p qs todo cur : ~ merge_inv C pend p true (MergeRun qs todo cur).
Proof. by intros [? _]. Qed.

(** While a compaction runs the merge is not in the middle of its work. *)
Lemma merge_paused C pend p m :
  merge_inv C pend p true m -> (forall r, r ∈ pend -> r ∉ rs p) /\ forall p' b,
    (forall r, r ∈ pend -> r ∉ rs p') -> merge_inv C pend p' b m.
Proof. destruct m as [|qs todo cur|wg]; cbn; [auto| |auto]. by intros [? _]. Qed.

Lemma compact_start_layers s t :
  layers s -> tk_StartCompaction (ts_tracker s) = Some (t, true) -> layers (set_tracker s t).
Proof.
  intros Hl E. unfold tk_StartCompaction in E.
  destruct (tk_compactionState (ts_tracker s)) eqn:Ecs; [done|]. case_bool_decide as Hp; [|done].
  injection E as <-. destruct Hl as [Hsz Hb Hpw Hco Hnw Hndp Hkn Hrm Hrok Hm Hc Hh].
  rewrite Ecs in Hc. apply comp_idle in Hc. split; cbn; try done; [|by rewrite Hc].
  destruct (ts_merge s) as [|qs todo cur|wg]; [done| |done].
  destruct Hm as (_ & new & done & [Hpd Hne _ _ _ _]). rewrite Hp in Hpd.
  symmetry in Hpd. apply app_nil in Hpd as [_ ?]. done.
Qed.

Lemma compact_push_layers s r iv p :
  layers s -> tk_compactionState (ts_tracker s) = true ->
  r ∉ ts_known s -> ok_in (ts_store s) r (ts_content s r) ->
  (forall k b, ts_content s r k = Some b -> bm_content (ts_content s) (primary s) k = Some b) ->
  push_begin (primary s) r = Ret (iv, p) ->
  layers (set_comp (set_primary (learn s r) p) (CompPush (MkPush r iv [] 0))).
Proof.
  intros Hl Hcs Hr Hok Hcon Ep. destruct (fresh_not_frozen s r Hl Hr) as [Hrw Hrf].
  destruct (push_begin_ok bs nb Hbs Hnb _ _ _ _ (ly_wf s Hl) Ep) as (Hnr & Hwf & Hrs & Hv & Ho).
  pose proof (ly_removed s Hl) as Hrm.
  assert (Hsame : forall k, bm_content (ts_content s) p k = bm_content (ts_content s) (primary s) k).
  { intros k. apply same_owner_content, Ho. }
  apply (advance_layers (learn s r) p r (ts_merge s) (CompPush (MkPush r iv [] 0))); cbn.
  - by apply learn_layers.
  - done.
  - intros k q. rewrite Ho. apply (ly_coherent s Hl).
  - set_solver.
  - set_solver.
  - intros q. rewrite Hrs. set_solver.
  - done.
  - by apply below_same.
  - pose proof (ly_merge s Hl) as Hm. rewrite Hcs in Hm |- *. apply merge_paused in Hm as [Hab Hm].
    apply Hm. intros q Hq. rewrite Hrs, elem_of_app, list_elem_of_singleton.
    intros [?| ->]; [by apply (Hab q)|]. apply Hrf. by left.
  - split; [done|]. split; [by eapply (pushing_begin bs nb Hnb (HR := ts_store s))|].
    cbn. intros k b. rewrite Hsame. apply Hcon.
Qed.

Lemma compact_next_layers s cur p next :
  layers s -> ts_comp s = CompPush cur ->
  push_next (HR := ts_store s) (primary s) cur = Ret (p, next) ->
  layers (set_comp (set_primary s p) match next with Some cur => CompPush cur | None => CompIdle end) /\
  forall k, bm_content (ts_content s) p k = bm_content (ts_content s) (primary s) k.
Proof.
  intros Hl E Ep. pose proof (ly_comp s Hl) as Hc. rewrite E in Hc. destruct Hc as (Hcs & Hpg & Hcon).
  pose proof (pushing_rs _ _ _ (ly_wf s Hl) Hpg) as Hrs.
  assert (Hfr : frozen (ts_tracker s) (pu_br cur)) by (by right).
  destruct (ly_known s Hl (pu_br cur)) as [Hk Hnrm]; [by right|].
  pose proof (ly_ok s Hl _ Hk Hnrm) as Hok.
  destruct (push_next_ok bs nb Hnb (HR := ts_store s) (ts_content s (pu_br cur)) (primary s) cur)
    as (p' & next' & Ep' & Hav & Hnext); [apply Hl|done|done|].
  rewrite Ep in Ep'. injection Ep' as <- <-.
  assert (Hsame : forall k, bm_content (ts_content s) p k = bm_content (ts_content s) (primary s) k).
  { intros k. destruct (advance_content (ts_content s) _ _ _ k Hav) as [->|[-> [b Hb]]]; [done|].
    rewrite Hb. symmetry. by apply Hcon. }
  split; [|done].
  refine (advance_layers s p (pu_br cur) (ts_merge s) _ Hl (av_wf _ _ _ _ _ _ Hav) _ Hk Hnrm _ _ _ _ _).
  - eapply advance_coherent; [apply Hl|done].
  - intros r. rewrite (av_rs _ _ _ _ _ _ Hav). by left.
  - done.
  - by apply below_same.
  - pose proof (ly_merge s Hl) as Hm. rewrite Hcs in Hm |- *. apply merge_paused in Hm as [Hab Hm].
    apply Hm. by rewrite (av_rs _ _ _ _ _ _ Hav).
  - destruct next as [cur'|]; [|done]. destruct Hnext as (Hb' & Hpg' & _). cbn. rewrite Hb'.
    split; [done|]. split; [done|]. intros k b. rewrite Hsame. apply Hcon.
Qed.

Lemma set_comp_layers s b c :
  layers s ->
  comp_inv (ts_content s) (tk_writers (ts_tracker s)) (tk_pendingReaders (ts_tracker s)) (primary s)
    (tk_compactionState (ts_tracker s)) c ->
  layers (set_comp (set_barrier s b) c).
Proof. intros [Hsz Hb Hpw Hco Hnw Hndp Hkn Hrm Hrok Hm Hc Hh] Hc'. by split. Qed.

Lemma remove_begin_layers s r b wg :
  layers s -> tk_compactionState (ts_tracker s) = true -> r ∈ rs (primary s) ->
  (forall k, owner (primary s) k <> Some r) -> r ∉ tk_writers (ts_tracker s) ->
  layers (set_comp (set_barrier s b) (comp_after r wg)).
Proof.
  intros Hl Hcs Hr Hdead Hw. apply set_comp_layers; [done|].
  pose proof (ly_merge s Hl) as Hm. rewrite Hcs in Hm. apply merge_paused in Hm as [Hab _].
  assert (r ∉ tk_pendingReaders (ts_tracker s)) by (intros Hp; by apply (Hab r Hp)).
  by destruct wg.
Qed.

Lemma remove_wake_layers s wg r b :
  layers s -> ts_comp s = CompWait wg r -> layers (set_comp (set_barrier s b) (CompRemove r)).
Proof. intros Hl E. apply set_comp_layers; [done|]. pose proof (ly_comp s Hl) as Hc. by rewrite E in Hc. Qed.

Lemma remove_table_layers s r t :
  layers s -> ts_comp s = CompRemove r -> cs_RemoveUnusedReader (ts_tracker s) r = Ret t ->
  layers (set_comp (set_tracker (forget s r) t) CompIdle) /\
  forall k, owner (tk_primaryIndex t) k = owner (primary s) k.
Proof.
  intros Hl E Et. pose proof (ly_comp s Hl) as Hc. rewrite E in Hc. destruct Hc as (Hcs & Hr & Hdead & Hw & Hp).
  destruct (RemoveTable_ok bs nb Hbs Hnb (primary s) r (ly_wf s Hl) Hr Hdead) as (p & Ep & Hwf & Hrs & Ho).
  unfold cs_RemoveUnusedReader in Et. fold (primary s) in Et. rewrite Ep in Et. injection Et as <-. split; [|done].
  assert (Hbel : forall k, below (ts_content s) (set_primaryIndex (ts_tracker s) p) k =
                           below (ts_content s) (ts_tracker s) k).
  { apply below_same. intros k. apply same_owner_content, Ho. }
  assert (Hin : forall q, q ∈ rs p <-> q <> r /\ q ∈ rs (primary s)).
  { intros q. by rewrite Hrs, list_elem_of_filter. }
  destruct Hl as [Hsz Hb Hpw Hco Hnw Hndp Hkn Hrm Hrok Hm Hc Hh]. split; cbn; try done.
  - intros k q. cbn. rewrite Ho. apply Hco.
  - intros q Hq. assert (q <> r /\ (q ∈ tk_writers (ts_tracker s) \/ frozen (ts_tracker s) q)) as [Hne Hq'].
    { destruct Hq as [Hq|[Hq|Hq]]; cbn in Hq.
      - split; [by intros ->|by left].
      - split; [by intros ->|right; by left].
      - apply Hin in Hq as [? ?]. split; [done|right; by right]. }
    destruct (Hkn q Hq'). set_solver.
  - assert (r ∈ ts_known s) by (apply (Hkn r); right; by right). set_solver.
  - intros q Hq Hnq. apply Hrok; set_solver.
  - rewrite Hcs in Hm |- *. apply merge_paused in Hm as [Hab Hm]. apply Hm. intros q Hq [_ Hq']%Hin.
    by apply (Hab q).
  - intros w Hw' Hf. destruct (Hh w Hw') as [Hlast Hbl].
    + destruct Hf as [Hf|Hf]; [by left|]. cbn in Hf. apply Hin in Hf as [_ ?]. by right.
    + split; [done|]. intros k b Hk. change (below (ts_content s) (set_primaryIndex (ts_tracker s) p) k = Some b).
      rewrite Hbel. by apply Hbl.
Qed.

Lemma compact_done_layers s :
  layers s -> tk_compactionState (ts_tracker s) = true -> ts_comp s = CompIdle ->
  layers (set_tracker s (cs_Done (ts_tracker s))).
Proof.
  intros [Hsz Hb Hpw Hco Hnw Hndp Hkn Hrm Hrok Hm Hc Hh] Hcs E. split; cbn; try done; [|by rewrite E].
  rewrite Hcs in Hm. apply merge_paused in Hm as [Hab Hm]. auto.
Qed.

(** Steps that touch only the barrier, the reads or the phase of a goroutine. *)
Lemma barrier_reads_layers s b reads : layers s -> layers (set_reads (set_barrier s b) reads).
Proof. intros [Hsz Hb Hpw Hco Hnw Hndp Hkn Hrm Hrok Hm Hc Hh]. by split. Qed.

Lemma merge_wake_layers s wg b :
  layers s -> ts_merge s = MergeWait wg -> layers (set_merge (set_barrier s b) MergeIdle).
Proof. intros [Hsz Hb Hpw Hco Hnw Hndp Hkn Hrm Hrok Hm Hc Hh] E. rewrite E in Hm. by split. Qed.

(** The invariant is kept by every step. *)
Lemma tstep_layers s l s' : layers s -> tstep bs nb s l s' -> layers s'.
Proof.
  intros Hl Hs. destruct Hs.
  - by apply push_writer_layers.
  - by apply write_layers.
  - by eapply push_frozen_layers.
  - by apply load_layers.
  - by eapply remove_writer_layers.
  - by apply merge_begin_layers.
  - by eapply merge_push_layers.
  - by eapply merge_next_layers.
  - by apply merge_end_layers.
  - by eapply merge_wake_layers.
  - by apply compact_start_layers.
  - by apply compact_push_layers.
  - by eapply compact_next_layers.
  - by apply remove_begin_layers.
  - by eapply remove_wake_layers.
  - by eapply remove_table_layers.
  - by apply compact_done_layers.
  - by apply barrier_reads_layers.
  - apply (barrier_reads_layers s (ts_barrier s)). done.
  - by apply barrier_reads_layers.
  - apply (barrier_reads_layers s b (ts_reads s)). done.
Qed.

Lemma reachable_layers s : reachable bs nb s -> layers s.
Proof.
  intros (store & C & Hr). eapply rtc_invariant; [|apply layers_initial|exact Hr].
  intros s1 s2 Hl [l Hs]. by eapply tstep_layers.
Qed.
End inv.
