(* ===== verification/TrackerReads.v ===== *)
(** * What the reader tracker guarantees

    The theorems on the interleavings of [internal/tracker/reader.go]: what the
    device shows changes only by writes, a read returns for every block what it
    held at some moment of the read, the merge and a compaction exclude each
    other, and a reader that has been removed is not in use. *)
From S2P Require Import Prelude Bits RangeMap BitmapRangeMap BlockReader StackedBlockReader BlockMap.
From S2P Require Import BlockMapPush BlockMapLive BlockMapTheorems WaitBarrier Tracker TrackerSteps TrackerInv.
Local Open Scope Z_scope.

Section reads.
Context {R : Type} `{!EqDecision R} `{!Countable R}.
Context {M : Type} `{!RangeMap Z M} `{!RangeMapLaws Z M}.
Context {BS : Type} `{!BitSet BS} `{!BitSetLaws BS}.
Context (bs nb : Z) (Hbs : 0 < bs) (Hnb : 0 <= nb <= 2 ^ 48).
Implicit Types (s : tstate R M BS) (t : Tracker R M BS) (p : Reader R M BS) (C : R -> content).

Abbreviation layers := (layers bs nb).
Abbreviation tstep := (tstep bs nb).
Abbreviation vis s := (visible (ts_content s) (ts_tracker s)).

(** ** What the device shows *)
Lemma visible_layers C C' t t' k :
  built t -> built t' -> overlay (C' <$> tk_writers t') k = overlay (C <$> tk_writers t) k ->
  below C' t' k = below C t k -> visible C' t' k = visible C t k.
Proof. intros Hb Hb' Hw Hbl. rewrite !visible_eq by done. by rewrite Hw, Hbl. Qed.

Lemma shown_write s w store c reads k :
  layers s -> w ∈ tk_writers (ts_tracker s) -> ~ frozen (ts_tracker s) w ->
  (forall k, is_Some (ts_content s w k) -> is_Some (c k)) ->
  let C := fun r => if decide (r = w) then c else ts_content s r in
  let s' := set_reads (set_store s store C) reads in
  (vis s' k = vis s k \/ vis s' k = c k /\ c k <> ts_content s w k) /\
  forall ws, tk_writers (ts_tracker s) = w :: ws ->
    vis s' k = match c k with Some b => Some b | None => vis s k end.
Proof.
  intros Hl Hw Hnf Hgrow C s'. assert (Hd : differ_at w (ts_content s) C).
  { intros r Hr. unfold C. by rewrite decide_False. }
  assert (Hcw : C w = c) by (unfold C; by rewrite decide_True).
  pose proof (ly_built bs nb s Hl) as Hb. unfold s'. cbn.
  rewrite !visible_eq, (below_differ bs nb w (ts_content s)) by (done || apply Hl).
  pose proof (ly_writers bs nb s Hl) as Hnd. apply list_elem_of_split in Hw as (ws1 & ws2 & E).
  rewrite E in Hnd |- *. apply NoDup_app in Hnd as (_ & Hn1 & [Hn2 _]%NoDup_cons).
  assert (w ∉ ws1) by (intros ?; by apply (Hn1 w); [|left]).
  rewrite !fmap_app, !overlay_app, (overlay_differ w (ts_content s) C ws1) by done. cbn.
  rewrite Hcw, (overlay_differ w (ts_content s) C ws2) by done. split.
  - destruct (overlay (ts_content s <$> ws1) k) as [b|]; [by left|].
    destruct (decide (c k = ts_content s w k)) as [<-|Hne]; [by left|].
    destruct (c k) as [b|] eqn:Ec; [by right|]. left.
    destruct (ts_content s w k) as [b|] eqn:Ew; [|done].
    destruct (Hgrow k) as [? ?]; [by rewrite Ew|]. by rewrite Ec in *.
  - intros ws E'. assert (ws1 = []) as ->; [|cbn].
    { destruct ws1 as [|x ws1]; [done|]. cbn in E'. injection E' as -> _. set_solver. }
    destruct (c k) as [b|] eqn:Ec; [done|]. destruct (ts_content s w k) as [b|] eqn:Ew; [|done].
    destruct (Hgrow k) as [? ?]; [by rewrite Ew|]. by rewrite Ec in *.
Qed.

Lemma shown_push_frozen s ws r k :
  layers s -> tk_writers (ts_tracker s) = ws ++ [r] ->
  vis (set_tracker s (tk_PushReader (ts_tracker s) r)) k = vis s k.
Proof.
  intros Hl E. rewrite !visible_eq by (done || apply Hl). cbn -[below]. rewrite E.
  rewrite !fmap_app, !overlay_app. destruct (overlay (ts_content s <$> ws) k); [done|]. cbn -[below].
  rewrite !below_eq. cbn. by destruct (ts_content s r k).
Qed.

Lemma shown_remove_writer s w t b k :
  layers s -> frozen (ts_tracker s) w -> tk_RemoveWriter (ts_tracker s) w = Some t ->
  vis (set_barrier (set_tracker s t) b) k = vis s k.
Proof.
  intros Hl Hf Et. pose proof Et as Et'. unfold tk_RemoveWriter in Et'. case_bool_decide as Hw; [|done].
  injection Et' as <-. destruct (ly_handed bs nb s Hl w Hw Hf) as [[ws E] Hbl].
  pose proof (ly_writers bs nb s Hl) as Hnd. rewrite !visible_eq by (done || apply Hl). cbn -[below].
  rewrite delete_first_filter by done. rewrite E in Hnd |- *. apply NoDup_app in Hnd as (_ & Hn & _).
  rewrite filter_app, filter_all by (intros x Hx ->; apply (Hn w); [done|set_solver]).
  rewrite (filter_none _ [w]) by (intros x ->%list_elem_of_singleton; tauto). rewrite app_nil_r, fmap_app, overlay_app.
  destruct (overlay (ts_content s <$> ws) k); [done|]. cbn -[below].
  destruct (ts_content s w k) as [b'|] eqn:Ek; [|done]. by apply Hbl.
Qed.

Lemma shown_primary s p m c k :
  layers s ->
  below (ts_content s) (set_primaryIndex (ts_tracker s) p) k = below (ts_content s) (ts_tracker s) k ->
  vis (set_comp (set_merge (set_primary s p) m) c) k = vis s k.
Proof. intros Hl Hbl. by apply visible_layers; [apply Hl|apply Hl|..]. Qed.

(** What the stack of the tracker shows, what a read would fetch next from a
    block, and whether the merge goroutine is in the middle of its work. *)
Definition shown s : content := visible (ts_content s) (ts_tracker s).
Definition next_fetch s (rd : read R) : content := stack_content (ts_content s) (ts_tracker s) (rd_stack rd).
Definition indexing s : Prop := exists qs todo cur, ts_merge s = MergeRun qs todo cur.

(** C28: the contents of the device are those its writers wrote. Whatever
    the goroutines do, a step that is neither a write nor the loading of a
    reader changes no block that the tracker's stack shows: not the rotation of
    a log, not a piece of a merge or of a compaction, and not the removal of a
    table. Loading lays the loaded reader over what was there, a write changes
    only blocks it writes, and a write to the newest log shows at once. *)
Theorem tracker_contents s l s' :
  reachable bs nb s -> tstep s l s' -> forall k,
  match l with
  | Internal => shown s' k = shown s k
  | Loaded r => shown s' k = match ts_content s r k with Some b => Some b | None => shown s k end
  | Written w c =>
      (shown s' k = shown s k \/ shown s' k = c k /\ c k <> ts_content s w k) /\
      forall ws, tk_writers (ts_tracker s) = w :: ws ->
        shown s' k = match c k with Some b => Some b | None => shown s k end
  end.
Proof.
  unfold shown. intros Hr%(reachable_layers bs nb Hbs Hnb) Hs k. pose proof (ly_built bs nb s Hr) as Hb.
  destruct Hs as [s w Hw He Hok|s w store c Hw Hnf Hg C Hok|s ws r E Hnf|s r Hnk Hok E|s w t b wg Hf Et Eb
    |s Em Hrd|s qs br todo iv p Em Ep|s qs todo cur p next Em Ep|s qs b wg Em Eb|s wg b Em Eb|s t Et
    |s r iv p Hcs Ec Hrk Hok Hcon Ep|s cur p next Ec Ep|s r b wg Hcs Ec Hrp Hd Hw Eb|s wg r b Ec Eb|s r t Ec Et
    |s Hcs Ec|s b i Eb|s i rd k' Ei|s i b Eb|s wg b Hm Hc Eb].
  - apply visible_layers; try done. cbn. by rewrite He.
  - by apply shown_write.
  - by apply shown_push_frozen with ws.
  - rewrite !visible_eq by done. cbn -[below]. rewrite E. cbn -[below]. rewrite !below_eq. cbn.
    by destruct (ts_content s r k).
  - by eapply shown_remove_writer.
  - done.
  - apply (shown_primary s p (MergeRun qs todo (Some (MkPush br iv [] 0))) (ts_comp s)); [done|]. apply below_same. intros j. apply same_owner_content.
    apply (push_begin_ok bs nb Hbs Hnb _ _ _ _ (ly_wf bs nb s Hr) Ep).
  - destruct (merge_next_layers bs nb Hbs Hnb s _ _ _ _ _ Hr Em Ep) as (_ & Hav & Hbr).
    apply (shown_primary s p (MergeRun qs todo next) (ts_comp s)); [done|]. by eapply below_advance.
  - apply visible_layers; try done. by apply (merge_end_below bs nb s qs Hr Em).
  - done.
  - unfold tk_StartCompaction in Et. destruct (tk_compactionState _); [done|]. case_bool_decide; [|done].
    by injection Et as <-.
  - apply (shown_primary s p (ts_merge s) (ts_comp s)); [done|]. apply below_same. intros j. apply same_owner_content.
    apply (push_begin_ok bs nb Hbs Hnb _ _ _ _ (ly_wf bs nb s Hr) Ep).
  - destruct (compact_next_layers bs nb Hnb s _ _ _ Hr Ec Ep) as (_ & Hsame).
    apply (shown_primary s p (ts_merge s) (ts_comp s)); [done|]. by apply below_same.
  - done.
  - done.
  - destruct (remove_table_layers bs nb Hbs Hnb s r t Hr Ec Et) as [Hl' Ho].
    apply visible_layers; [done|apply Hl'|..].
    + unfold cs_RemoveUnusedReader in Et. apply bind_Ret in Et as (p & _ & [= <-]). done.
    + unfold cs_RemoveUnusedReader in Et. apply bind_Ret in Et as (p & _ & [= <-]).
      apply below_same. intros j. apply same_owner_content, Ho.
  - done.
  - done.
  - done.
  - done.
  - done.
Qed.

(** ** Reads in progress *)

(** The stack of a read shows contents that the read may return, and a reader
    that was given to the tracker after the read began holds nothing but such
    contents. *)
Record regular C t (rd : read R) : Prop := {
  rg_shape : exists l, rd_stack rd = (RefReader <$> l) ++ [RefPrimary];
  rg_now k : rd_seen rd k (stack_content C t (rd_stack rd) k);
  rg_got k v : rd_got rd !! k = Some v -> rd_seen rd k v;
  rg_new r : r ∈ tk_writers t \/ r ∈ tk_pendingReaders t ->
    RefReader r ∈ rd_stack rd \/ forall k, is_Some (C r k) -> rd_seen rd k (C r k);
}.

Lemma elem_of_plain (l : list R) r :
  RefReader r ∈ (RefReader <$> l) ++ [RefPrimary] <-> r ∈ l.
Proof.
  rewrite elem_of_app, list_elem_of_fmap, list_elem_of_singleton. split.
  - intros [(x & [= ->] & Hx)|Hx]; done.
  - intros Hr. left. eauto.
Qed.

(** A change of the layers that adds no reader with contents, and takes the
    index forward by blocks of readers the tracker has. *)
Lemma regular_step C t t' rd :
  regular C t rd ->
  (forall r, r ∈ tk_writers t' \/ r ∈ tk_pendingReaders t' ->
     (r ∈ tk_writers t \/ r ∈ tk_pendingReaders t) \/ forall k, C r k = None) ->
  (forall k, bm_content C (tk_primaryIndex t') k = bm_content C (tk_primaryIndex t) k \/
     exists br, br ∈ tk_pendingReaders t /\ bm_content C (tk_primaryIndex t') k = C br k /\ is_Some (C br k)) ->
  regular C t' rd.
Proof.
  intros [[l El] Hnow Hgot Hnew] Hrs Hp. split; [eauto| |done|].
  - intros k. specialize (Hnow k). rewrite El, stack_content_plain in Hnow |- *.
    destruct (overlay (C <$> l) k) as [b|] eqn:Eo; [done|].
    destruct (Hp k) as [->|(br & Hbr & -> & Hs)]; [done|].
    destruct (Hnew br (or_intror Hbr)) as [Hin|Hin]; [|by apply Hin].
    rewrite El, elem_of_plain in Hin. apply (overlay_is_Some C l br k Hin) in Hs. rewrite Eo in Hs. by destruct Hs.
  - intros r Hr. destruct (Hrs r Hr) as [Hr'|Hn]; [by apply Hnew|]. right. intros k. rewrite Hn. by intros [? ?].
Qed.

Lemma regular_same C t t' rd :
  regular C t rd -> tk_writers t' = tk_writers t -> tk_pendingReaders t' = tk_pendingReaders t ->
  (forall k, bm_content C (tk_primaryIndex t') k = bm_content C (tk_primaryIndex t) k) -> regular C t' rd.
Proof. intros Hr Ew Ep Hc. apply (regular_step C t); [done| |by left]. rewrite Ew, Ep. by left. Qed.

(** A write: the new contents are seen. *)
Lemma regular_write C C' t rd w c :
  bm_wf bs nb (tk_primaryIndex t) -> ~ frozen t w -> differ_at w C C' -> C' w = c ->
  (forall k, is_Some (C w k) -> is_Some (c k)) ->
  regular C t rd -> regular C' t (see (fun k v => v = c k /\ c k <> C w k) rd).
Proof.
  intros Hwf Hnf Hd Hcw Hgrow [[l El] Hnow Hgot Hnew].
  assert (Hnr : w ∉ rs (tk_primaryIndex t)) by (intros ?; apply Hnf; by right).
  assert (Hother : forall r k, C' r k = C r k \/ (r = w /\ C' r k = c k /\ c k <> C w k)).
  { intros r k. destruct (decide (r = w)) as [->|Hne]; [|left; by rewrite Hd].
    rewrite Hcw. destruct (decide (c k = C w k)); auto. }
  split; cbn -[stack_content]; [eauto| |intros k v Hk; left; by apply Hgot|].
  - intros k. specialize (Hnow k). rewrite El in Hnow |- *. rewrite stack_content_plain in Hnow |- *.
    rewrite (bm_content_differ bs nb w C) by done.
    enough (overlay (C' <$> l) k = overlay (C <$> l) k \/
            overlay (C' <$> l) k = c k /\ c k <> C w k /\ is_Some (c k)) as [->|(-> & Hne & [b Hb])].
    { by left. }
    { right. rewrite Hb in Hne |- *. done. }
    clear -Hother Hgrow. induction l as [|r l IH]; cbn; [by left|].
    destruct (Hother r k) as [->|(-> & E & Hne)].
    + destruct (C r k); [by left|exact IH].
    + rewrite E. destruct (c k) as [b|] eqn:Ec; [right; eauto|].
      destruct (C w k) as [b|] eqn:Ew; [|done]. destruct (Hgrow k) as [? ?]; [by rewrite Ew|]. by rewrite Ec in *.
  - intros r Hr. destruct (Hnew r Hr) as [?|Hs]; [by left|right]. intros k Hk.
    destruct (Hother r k) as [E|(-> & E & Hne)]; [|right; by rewrite E].
    left. rewrite E in Hk |- *. by apply Hs.
Qed.

(** Loading a reader: its contents are seen. *)
Lemma regular_load C t rd r :
  regular C t rd ->
  regular C (tk_PushReader t r) (see (fun k v => v = C r k /\ is_Some v) rd).
Proof.
  intros [[l El] Hnow Hgot Hnew]. split; cbn; [eauto|intros k; left; apply Hnow|intros k v Hk; left; by apply Hgot|].
  intros q Hq. assert (q = r \/ (q ∈ tk_writers t \/ q ∈ tk_pendingReaders t)) as [->|Hq'].
  { destruct Hq as [?|[?|?]%elem_of_cons]; auto. }
  - right. intros k Hk. by right.
  - destruct (Hnew q Hq') as [?|Hs]; [by left|right]. intros k Hk. left. by apply Hs.
Qed.

Lemma regular_fetch s rd k :
  regular (ts_content s) (ts_tracker s) rd -> regular (ts_content s) (ts_tracker s) (fetch s rd k).
Proof.
  intros [Hsh Hnow Hgot Hnew]. split; cbn; try done. intros k' v [[<- <-]|[_ Hk]]%lookup_insert_Some; auto.
Qed.

Lemma regular_begin s : built (ts_tracker s) -> regular (ts_content s) (ts_tracker s) (begin_read s).
Proof.
  intros Hb. split; cbn; try done.
  - rewrite Hb, app_assoc, <- fmap_app. eauto.
  - intros r Hr. left. rewrite Hb, app_assoc, <- fmap_app, elem_of_plain, elem_of_app. done.
Qed.

Definition all_regular s : Prop :=
  forall i rd, ts_reads s !! i = Some rd -> regular (ts_content s) (ts_tracker s) rd.

Lemma tstep_regular s l s' : layers s -> all_regular s -> tstep s l s' -> all_regular s'.
Proof.
  intros Hr Ha Hs. pose proof (ly_wf bs nb s Hr) as Hwf.
  destruct Hs as [s w Hw He Hok|s w store c Hw Hnf Hg C Hok|s ws r E Hnf|s r Hnk Hok E|s w t b wg Hf Et Eb
    |s Em Hrd|s qs br todo iv p Em Ep|s qs todo cur p next Em Ep|s qs b wg Em Eb|s wg b Em Eb|s t Et
    |s r iv p Hcs Ec Hrk Hok Hcon Ep|s cur p next Ec Ep|s r b wg Hcs Ec Hrp Hd Hw Eb|s wg r b Ec Eb|s r t Ec Et
    |s Hcs Ec|s b i Eb|s i rd k' Ei|s i b Eb|s wg b Hm Hc Eb]; intros j rd0 Hj; cbn in Hj; try exact (Ha j rd0 Hj).
  - apply (regular_step _ (ts_tracker s)); [by eapply Ha| |by left]. cbn.
    intros q [[->|?]%elem_of_cons|?]; auto.
  - apply lookup_fmap_Some in Hj as (rd1 & <- & Hj). apply (regular_write (ts_content s)); try done.
    + intros q Hq. cbn. unfold C. by rewrite decide_False.
    + cbn. unfold C. by rewrite decide_True.
    + by eapply Ha.
  - apply (regular_step _ (ts_tracker s)); [by eapply Ha| |by left]. cbn.
    intros q [?|[->|?]%elem_of_cons]; auto. left. left. rewrite E. set_solver.
  - apply lookup_fmap_Some in Hj as (rd1 & <- & Hj). apply regular_load. by eapply Ha.
  - unfold tk_RemoveWriter in Et. case_bool_decide; [|done]. injection Et as <-.
    apply (regular_step _ (ts_tracker s)); [by eapply Ha| |by left]. cbn.
    rewrite delete_first_filter by apply Hr. intros q [[_ ?]%list_elem_of_filter|?]; auto.
  - apply (regular_same _ (ts_tracker s)); [by eapply Ha|done|done|]. intros k. apply same_owner_content.
    apply (push_begin_ok bs nb Hbs Hnb _ _ _ _ Hwf Ep).
  - destruct (merge_next_layers bs nb Hbs Hnb s _ _ _ _ _ Hr Em Ep) as (_ & Hav & Hbr).
    apply (regular_step _ (ts_tracker s)); [by eapply Ha|by left|]. intros k.
    destruct (advance_content bs nb (ts_content s) _ _ _ k Hav) as [?|[? ?]]; [by left|right; eauto].
  - apply (regular_step _ (ts_tracker s)); [by eapply Ha| |by left]. cbn.
    intros q [?|[_ ?]%list_elem_of_filter]; auto.
  - unfold tk_StartCompaction in Et. destruct (tk_compactionState _); [done|]. case_bool_decide; [|done].
    injection Et as <-. apply (regular_same _ (ts_tracker s)); try done. by eapply Ha.
  - apply (regular_same _ (ts_tracker s)); [by eapply Ha|done|done|]. intros k. apply same_owner_content.
    apply (push_begin_ok bs nb Hbs Hnb _ _ _ _ Hwf Ep).
  - destruct (compact_next_layers bs nb Hnb s _ _ _ Hr Ec Ep) as (_ & Hsame).
    apply (regular_same _ (ts_tracker s)); [by eapply Ha|done..].
  - destruct (remove_table_layers bs nb Hbs Hnb s r t Hr Ec Et) as [_ Ho].
    unfold cs_RemoveUnusedReader in Et. apply bind_Ret in Et as (p & _ & [= <-]).
    apply (regular_same _ (ts_tracker s)); [by eapply Ha|done|done|]. intros k. apply same_owner_content, Ho.
  - apply (regular_same _ (ts_tracker s)); try done. by eapply Ha.
  - apply lookup_insert_Some in Hj as [[_ <-]|[_ Hj]]; [|exact (Ha _ _ Hj)].
    exact (regular_begin s (ly_built bs nb s Hr)).
  - apply lookup_insert_Some in Hj as [[_ <-]|[_ Hj]]; [|exact (Ha _ _ Hj)].
    exact (regular_fetch s rd k' (Ha _ _ Ei)).
  - apply lookup_delete_Some in Hj as [_ Hj]. exact (Ha _ _ Hj).
Qed.

Lemma reachable_regular s : reachable bs nb s -> layers s /\ all_regular s.
Proof.
  intros (store & C & Hr).
  eapply (rtc_invariant _ (fun s => layers s /\ all_regular s)); [| |exact Hr].
  - intros s1 s2 [Hl Ha] [l Hs]. split; [by eapply tstep_layers|by eapply tstep_regular].
  - split; [by apply layers_initial|]. intros i rd Hi. cbn in Hi. by rewrite lookup_empty in Hi.
Qed.

(** C29: every block that a read has fetched holds what the device showed
    when the read began or what was written to the block since, and so does
    every block it can still fetch, however many rotations, merges, compactions
    and removals happen while it runs. *)
Theorem tracker_reads_regular s i rd :
  reachable bs nb s -> ts_reads s !! i = Some rd ->
  (forall k v, rd_got rd !! k = Some v -> rd_seen rd k v) /\
  (forall k, rd_seen rd k (next_fetch s rd k)).
Proof. intros [_ Ha]%reachable_regular Hi. specialize (Ha i rd Hi). split; apply Ha. Qed.

(** C31: while a compaction is active the merge goroutine is not in the
    middle of indexing readers, and while it indexes readers no compaction is
    active or in the middle of a call: the index has one writer at a time. *)
Theorem tracker_single_indexer s :
  reachable bs nb s ->
  (tk_compactionState (ts_tracker s) = true -> ~ indexing s) /\
  (indexing s -> tk_compactionState (ts_tracker s) = false /\ ts_comp s = CompIdle).
Proof.
  intros [Hl _]%reachable_regular. pose proof (ly_merge bs nb s Hl) as Hm. pose proof (ly_comp bs nb s Hl) as Hc.
  split.
  - intros Hcs (qs & todo & cur & E). rewrite Hcs, E in Hm. by destruct Hm.
  - intros (qs & todo & cur & E). rewrite E in Hm. destruct Hm as [Hcs _]. split; [done|]. rewrite Hcs in Hc.
    by apply comp_idle in Hc.
Qed.
End reads.
