(* ===== verification/TrackerUse.v ===== *)
(** * Readers in use

    Why the barrier makes it safe to close a reader: no read in progress uses a
    reader that [RemoveUnusedReader] has removed. And what a read through the
    tracker returns when nothing interferes with it. *)
From S2P Require Import Prelude Bits RangeMap BitmapRangeMap BlockReader StackedBlockReader BlockMap.
From S2P Require Import BlockMapPush BlockMapLive BlockMapTheorems WaitBarrier Tracker TrackerSteps TrackerInv TrackerReads.
Local Open Scope Z_scope.

Section use.
Context {R : Type} `{!EqDecision R} `{!Countable R}.
Context {M : Type} `{!RangeMap Z M} `{!RangeMapLaws Z M}.
Context {BS : Type} `{!BitSet BS} `{!BitSetLaws BS}.
Context (bs nb : Z) (Hbs : 0 < bs) (Hnb : 0 <= nb <= 2 ^ 48).
Implicit Types (s : tstate R M BS) (t : Tracker R M BS) (p : Reader R M BS) (C : R -> content).

Abbreviation layers := (layers bs nb).
Abbreviation tstep := (tstep bs nb).

(** The readers a read in progress can touch. *)
Definition uses (rd : read R) (r : R) : Prop := r ∈ rd_used rd \/ RefReader r ∈ rd_stack rd.

Record use_inv s : Prop := {
  ui_barrier : barrier_inv (ts_barrier s);
  ui_active i : is_Some (ts_reads s !! i) <-> is_Some (sy_active (ts_barrier s) !! i);
  ui_merge wg : ts_merge s = MergeWait wg -> is_Some (sy_waiting (ts_barrier s) !! wg);
  ui_comp wg r : ts_comp s = CompWait wg r ->
    is_Some (sy_waiting (ts_barrier s) !! wg) /\ ts_merge s <> MergeWait wg;
  ui_known i rd r : ts_reads s !! i = Some rd -> uses rd r -> r ∈ ts_known s /\ r ∉ ts_removed s;
  ui_wait i rd r wg : ts_reads s !! i = Some rd -> uses rd r -> ts_comp s = CompWait wg r ->
    exists bw must, sy_waiting (ts_barrier s) !! wg = Some (bw, must) /\ i ∈ must;
  ui_remove i rd r : ts_reads s !! i = Some rd -> uses rd r -> ts_comp s <> CompRemove r;
}.

Lemma use_initial store C : use_inv (tracker_initial bs nb store C : tstate R M BS).
Proof.
  split; cbn; try done.
  - intros i. by rewrite !lookup_empty.
Qed.

(** A step that leaves the barrier and the reads alone. *)
Lemma use_still s t m store C known removed :
  use_inv s ->
  (forall wg, m = MergeWait wg -> ts_merge s = MergeWait wg) ->
  (forall r, r ∈ ts_known s -> r ∈ known) ->
  (forall i rd r, ts_reads s !! i = Some rd -> uses rd r -> r ∈ removed -> r ∈ ts_removed s) ->
  use_inv (MkState t m (ts_comp s) (ts_barrier s) (ts_reads s) store C known removed).
Proof.
  intros [Hb Ha Hm Hc Hk Hw Hr] Hm' Hkn Hrm. split; cbn; try done.
  - intros wg E. by apply Hm, Hm'.
  - intros wg r E. destruct (Hc wg r E) as [? Hne]. split; [done|]. intros E'. by apply Hne, Hm'.
  - intros i rd r Hi Hu. destruct (Hk i rd r Hi Hu). split; [auto|]. eauto.
Qed.

(** A step of the compaction that waits for no read. *)
Lemma use_comp s t c known removed :
  use_inv s -> (forall wg r, c <> CompWait wg r) -> (forall r, c <> CompRemove r) ->
  (forall r, r ∈ ts_known s -> r ∈ known) ->
  (forall i rd r, ts_reads s !! i = Some rd -> uses rd r -> r ∈ removed -> r ∈ ts_removed s) ->
  use_inv (MkState t (ts_merge s) c (ts_barrier s) (ts_reads s) (ts_store s) (ts_content s) known removed).
Proof.
  intros [Hb Ha Hm Hc Hk Hw Hr] Hcw Hcr Hkn Hrm. split; cbn; try done.
  - intros wg r E. by destruct (Hcw wg r).
  - intros i rd r Hi Hu. destruct (Hk i rd r Hi Hu). split; [auto|]. eauto.
  - intros i rd r wg _ _ E. by destruct (Hcw wg r).
Qed.

(** Reads that change what they have seen only. *)
Lemma use_see s new : use_inv s -> use_inv (set_reads s (see new <$> ts_reads s)).
Proof.
  intros [Hb Ha Hm Hc Hk Hw Hr].
  assert (Hl : forall i rd r, (see new <$> ts_reads s) !! i = Some rd -> uses rd r ->
    exists rd', ts_reads s !! i = Some rd' /\ uses rd' r).
  { intros i rd r (rd' & <- & Hi)%lookup_fmap_Some Hu. eauto. }
  split; cbn; try done.
  - intros i. rewrite lookup_fmap, fmap_is_Some. apply Ha.
  - intros i rd r Hi Hu. destruct (Hl _ _ _ Hi Hu) as (? & ? & ?). eauto.
  - intros i rd r wg Hi Hu. destruct (Hl _ _ _ Hi Hu) as (? & ? & ?). eauto.
  - intros i rd r Hi Hu. destruct (Hl _ _ _ Hi Hu) as (? & ? & ?). eauto.
Qed.

(** ** At the barrier *)
Lemma read_active s i rd : use_inv s -> ts_reads s !! i = Some rd -> i ∈ dom (sy_active (ts_barrier s)).
Proof. intros Hu Hi. apply elem_of_dom, (ui_active s Hu). eauto. Qed.

Lemma use_enter s t m c b wg :
  use_inv s -> bar_enter (ts_barrier s) = Ret (b, wg) ->
  (forall g, m = MergeWait g -> ts_merge s = MergeWait g \/ wg = Some g) ->
  (forall g r, c = CompWait g r -> ts_comp s = CompWait g r \/ wg = Some g) ->
  (forall r, c = CompRemove r -> ts_comp s = CompRemove r \/ wg = None) ->
  m = ts_merge s \/ c = ts_comp s ->
  use_inv (MkState t m c b (ts_reads s) (ts_store s) (ts_content s) (ts_known s) (ts_removed s)).
Proof.
  intros Hu E Hm' Hcw Hcr Hone. pose proof Hu as [Hb Ha Hm Hc Hk Hw Hr].
  assert (Hkeep : forall g, is_Some (sy_waiting (ts_barrier s) !! g) ->
            is_Some (sy_waiting b !! g) /\ wg <> Some g).
  { intros g [x Hx]. destruct (bar_enter_waiting _ _ _ _ _ Hb E Hx). eauto. }
  assert (Hnew : forall g, wg = Some g -> is_Some (sy_waiting b !! g)).
  { intros g ->. destruct (bar_enter_new _ _ _ E) as [bw ->]. eauto. }
  split; cbn; try done.
  - eapply barrier_step_inv; [done|]. by eapply step_enter.
  - intros i. by rewrite (bar_enter_active _ _ _ E).
  - intros g Eg. destruct (Hm' g Eg) as [E'|E']; [by apply Hkeep, Hm|by apply Hnew].
  - intros g r Eg. destruct (Hcw g r Eg) as [E'|E'].
    + destruct (Hc g r E') as [Hs Hne]. split; [by apply Hkeep|].
      intros E2. destruct (Hm' g E2) as [?|E3]; [done|]. by apply Hkeep in Hs as [_ ?].
    + split; [by apply Hnew|]. intros E2. destruct Hone as [-> | ->].
      * by destruct (Hkeep g (Hm g E2)).
      * destruct (Hc g r Eg) as [Hs _]. by destruct (Hkeep g Hs).
  - intros i rd r g Hi Hur Eg. destruct (Hcw g r Eg) as [E'| ->].
    + destruct (Hw i rd r g Hi Hur E') as (bw & must & Hwt & Him). exists bw, must. split; [|done].
      by eapply bar_enter_waiting.
    + destruct (bar_enter_new _ _ _ E) as [bw Hbw]. exists bw, (dom (sy_active (ts_barrier s))). split; [done|]. by apply (read_active s i rd).
  - intros i rd r Hi Hur Eg. destruct (Hcr r Eg) as [E'| ->]; [by eapply Hr|].
    pose proof (read_active s i rd Hu Hi) as Hd. rewrite (bar_enter_idle _ _ Hb E) in Hd. set_solver.
Qed.

Lemma use_leave s m c b wg :
  use_inv s -> bar_leave (ts_barrier s) wg = Some (Ret b) ->
  (forall g, m = MergeWait g -> ts_merge s = MergeWait g /\ g <> wg) ->
  (forall g r, c = CompWait g r -> ts_comp s = CompWait g r /\ g <> wg) ->
  (forall r, c = CompRemove r -> ts_comp s = CompRemove r \/ ts_comp s = CompWait wg r) ->
  use_inv (MkState (ts_tracker s) m c b (ts_reads s) (ts_store s) (ts_content s) (ts_known s) (ts_removed s)).
Proof.
  intros Hu E Hm' Hcw Hcr. pose proof Hu as [Hb Ha Hm Hc Hk Hw Hr]. split; cbn; try done.
  - eapply barrier_step_inv; [done|]. by eapply step_leave.
  - intros i. by rewrite (bar_leave_active _ _ _ E).
  - intros g [E' Hne]%Hm'. rewrite (bar_leave_waiting _ _ _ _ E Hne). auto.
  - intros g r [E' Hne]%Hcw. rewrite (bar_leave_waiting _ _ _ _ E Hne). destruct (Hc g r E') as [? Hnm].
    split; [done|]. by intros [? _]%Hm'.
  - intros i rd r g Hi Hur [E' Hne]%Hcw. rewrite (bar_leave_waiting _ _ _ _ E Hne). eauto.
  - intros i rd r Hi Hur [E'|E']%Hcr; [by eapply Hr|].
    destruct (Hw i rd r wg Hi Hur E') as (bw & must & Hwt & Him).
    pose proof (bar_leave_waits _ _ _ _ _ Hb Hwt E i Him) as Hn.
    apply (read_active s i rd Hu), elem_of_dom in Hi. rewrite Hn in Hi. by destruct Hi.
Qed.

(** ** Reads *)
Lemma provider_uses C t (stack : list (ref R)) k r :
  provider C t stack k = Some r -> RefReader r ∈ stack \/ owner (tk_primaryIndex t) k = Some r.
Proof.
  induction stack as [|[q|] stack IH]; cbn; [done| |].
  - case_bool_decide; [intros [= <-]; left; by left|]. intros [?|?]%IH; [left; by right|by right].
  - destruct (owner _ k) as [q|]; [by right|]. intros [?|?]%IH; [left; by right|by right].
Qed.

Lemma use_begin s b i :
  layers s -> use_inv s -> bar_start (ts_barrier s) = Ret (b, i) ->
  use_inv (set_reads (set_barrier s b) (<[i := begin_read s]> (ts_reads s))).
Proof.
  intros Hl Hu E. pose proof Hu as [Hb Ha Hm Hc Hk Hw Hr].
  assert (Hbi : barrier_inv b) by (eapply barrier_step_inv; [done|by eapply step_start]).
  apply bar_start_Ret in E as (wb & g & _ & -> & ->).
  assert (Hnew : forall r, uses (begin_read s) r ->
            r ∈ tk_writers (ts_tracker s) \/ r ∈ tk_pendingReaders (ts_tracker s)).
  { intros r [Hr'|Hr']; [set_solver|]. cbn in Hr'.
    rewrite (ly_built bs nb s Hl), app_assoc, <- fmap_app, elem_of_plain, elem_of_app in Hr'. done. }
  assert (Hcn : forall r, uses (begin_read s) r ->
            ts_comp s <> CompRemove r /\ forall wg, ts_comp s <> CompWait wg r).
  { intros r Hur. pose proof (ly_comp bs nb s Hl) as Hci.
    split; [|intros wg]; intros E'; rewrite E' in Hci; destruct Hci as (_ & _ & _ & ? & ?);
      by destruct (Hnew r Hur). }
  split; cbn; try done.
  - intros j. destruct (decide (j = sy_next (ts_barrier s))) as [->|].
    + by rewrite !lookup_insert_eq.
    + rewrite !lookup_insert_ne by done. apply Ha.
  - intros j rd r [[_ <-]|[_ Hj]]%lookup_insert_Some Hur; [|by eapply Hk].
    apply (ly_known bs nb s Hl). destruct (Hnew r Hur); [by left|right; by left].
  - intros j rd r wg [[_ <-]|[_ Hj]]%lookup_insert_Some Hur; [|by eapply Hw].
    intros E'. by destruct (Hcn r Hur) as [_ []%(fun H => H wg)].
  - intros j rd r [[_ <-]|[_ Hj]]%lookup_insert_Some Hur; [|by eapply Hr]. by apply Hcn.
Qed.

Lemma use_fetch s i rd k :
  layers s -> use_inv s -> ts_reads s !! i = Some rd ->
  use_inv (set_reads s (<[i := fetch s rd k]> (ts_reads s))).
Proof.
  intros Hl Hu Hi. pose proof Hu as [Hb Ha Hm Hc Hk Hw Hr].
  assert (Hold : forall r, uses (fetch s rd k) r -> uses rd r \/ owner (primary s) k = Some r).
  { intros r [Hr'|Hr']; [|left; by right]. cbn in Hr'.
    destruct (provider _ _ _ _) as [q|] eqn:E; [|left; by left].
    apply elem_of_union in Hr' as [->%elem_of_singleton|?]; [|left; by left].
    apply provider_uses in E as [?|?]; [left; by right|by right]. }
  assert (Hdead : forall r, owner (primary s) k = Some r ->
            ts_comp s <> CompRemove r /\ forall wg, ts_comp s <> CompWait wg r).
  { intros r Ho. pose proof (ly_comp bs nb s Hl) as Hci.
    split; [|intros wg]; intros E'; rewrite E' in Hci; destruct Hci as (_ & _ & Hd & _); by apply (Hd k). }
  split; cbn; try done.
  - intros j. destruct (decide (j = i)) as [->|].
    + rewrite lookup_insert_eq, <- Ha, Hi. by split; eauto.
    + rewrite lookup_insert_ne by done. apply Ha.
  - intros j rd' r [[_ <-]|[_ Hj]]%lookup_insert_Some Hur; [|by eapply Hk].
    destruct (Hold r Hur) as [?|Ho]; [by eapply Hk|].
    apply (ly_known bs nb s Hl). right. right. by apply (owner_rs bs nb _ k); [apply Hl|].
  - intros j rd' r wg [[<- <-]|[_ Hj]]%lookup_insert_Some Hur; [|by eapply Hw].
    destruct (Hold r Hur) as [?|Ho]; [by eapply Hw|]. intros E'.
    by destruct (Hdead r Ho) as [_ []%(fun H => H wg)].
  - intros j rd' r [[_ <-]|[_ Hj]]%lookup_insert_Some Hur; [|by eapply Hr].
    destruct (Hold r Hur) as [?|Ho]; [by eapply Hr|]. by apply Hdead.
Qed.

Lemma use_end s i b :
  use_inv s -> bar_done (ts_barrier s) i = Ret b ->
  use_inv (set_reads (set_barrier s b) (delete i (ts_reads s))).
Proof.
  intros Hu E. pose proof Hu as [Hb Ha Hm Hc Hk Hw Hr].
  assert (Hbi : barrier_inv b) by (eapply barrier_step_inv; [done|by eapply step_done]).
  apply bar_done_Ret in E as (wb & g & Hg & _ & ->). split; cbn; try done.
  - intros j. destruct (decide (j = i)) as [->|].
    + by rewrite !lookup_delete_eq.
    + rewrite !lookup_delete_ne by done. apply Ha.
  - intros j rd r [_ Hj]%lookup_delete_Some. by eapply Hk.
  - intros j rd r wg [_ Hj]%lookup_delete_Some. by eapply Hw.
  - intros j rd r [_ Hj]%lookup_delete_Some. by eapply Hr.
Qed.

Lemma tstep_use s l s' : layers s -> use_inv s -> tstep s l s' -> use_inv s'.
Proof.
  intros Hl Hu Hs.
  destruct Hs as [s w Hw He Hok|s w store c Hw Hnf Hg C Hok|s ws r E Hnf|s r Hnk Hok E|s w t b wg Hf Et Eb
    |s Em Hrd|s qs br todo iv p Em Ep|s qs todo cur p next Em Ep|s qs b wg Em Eb|s wg b Em Eb|s t Et
    |s r iv p Hcs Ec Hrk Hok Hcon Ep|s cur p next Ec Ep|s r b wg Hcs Ec Hrp Hd Hw Eb|s wg r b Ec Eb|s r t Ec Et
    |s Hcs Ec|s b i Eb|s i rd k' Ei|s i b Eb|s wg b Hm Hc Eb].
  - apply (use_still s); try done. set_solver.
  - apply (use_see (set_store s store C)). by apply (use_still s).
  - by apply (use_still s).
  - apply (use_see (set_tracker (learn s r) (tk_PushReader (ts_tracker s) r))).
    apply (use_still s); try done. set_solver.
  - apply (use_enter s t (ts_merge s) (ts_comp s) b wg); auto.
  - apply (use_still s); [done|by intros|done|done].
  - apply (use_still s); [done|by intros|done|done].
  - apply (use_still s); [done|by intros|done|done].
  - apply (use_enter s _ (merge_after wg) (ts_comp s) b wg); auto.
    intros g. destruct wg; [|done]. intros [= ->]. by right.
  - apply (use_leave s MergeIdle (ts_comp s) b wg); auto; [done|].
    intros g r E. split; [done|]. intros ->. destruct (ui_comp s Hu wg r E) as [_ ?]. done.
  - by apply (use_still s).
  - apply (use_comp s); try done. set_solver.
  - apply (use_comp s); try done; by destruct next.
  - apply (use_enter s (ts_tracker s) (ts_merge s) (comp_after r wg) b wg); auto.
    + intros g q. destruct wg; [|done]. intros [= -> ->]. by right.
    + intros q. destruct wg; [done|]. by right.
  - apply (use_leave s (ts_merge s) (CompRemove r) b wg); auto.
    + intros g E. split; [done|]. intros ->. by destruct (ui_comp s Hu wg r Ec).
    + done.
    + intros q [= <-]. by right.
  - apply (use_comp s); try done. intros i rd q Hi Hq. cbn.
    intros [->%elem_of_singleton|?]%elem_of_union; [|done]. by destruct (ui_remove s Hu i rd r Hi Hq).
  - by apply (use_still s).
  - by apply use_begin.
  - by apply use_fetch.
  - by apply use_end.
  - apply (use_leave s (ts_merge s) (ts_comp s) b wg); auto.
    + intros g E. split; [done|]. by intros ->.
    + intros g r E. split; [done|]. intros ->. by apply (Hc r).
Qed.

Lemma reachable_use s : reachable bs nb s -> layers s /\ use_inv s.
Proof.
  intros (store & C & Hr).
  eapply (rtc_invariant _ (fun s => layers s /\ use_inv s)); [| |exact Hr].
  - intros s1 s2 [Hl Hu] [l Hs]. split; [by eapply tstep_layers|by eapply tstep_use].
  - split; [by apply layers_initial|apply use_initial].
Qed.

(** C30: when [RemoveUnusedReader] has returned for a reader, or has passed
    its barrier, no read in progress holds it in its stack, has fetched a block
    from it, or will be sent to it by the index: it can be closed and its file
    deleted. *)
Theorem tracker_removed_unused s i rd r :
  reachable bs nb s -> ts_reads s !! i = Some rd ->
  r ∈ ts_removed s \/ ts_comp s = CompRemove r ->
  ~ uses rd r /\ forall k, provider (ts_content s) (ts_tracker s) (rd_stack rd) k <> Some r.
Proof.
  intros [Hl Hu]%reachable_use Hi Hr.
  assert (Hn : ~ uses rd r).
  { intros Hur. destruct Hr as [Hr|Hr]; [by destruct (ui_known s Hu i rd r Hi Hur)|].
    by destruct (ui_remove s Hu i rd r Hi Hur). }
  split; [done|]. intros k [Hk|Hk]%provider_uses; [apply Hn; by right|].
  destruct Hr as [Hr|Hr].
  - destruct (ly_known bs nb s Hl r); [|done]. right. right. by apply (owner_rs bs nb _ k); [apply Hl|].
  - pose proof (ly_comp bs nb s Hl) as Hc. rewrite Hr in Hc. destruct Hc as (_ & _ & Hd & _). by apply (Hd k).
Qed.

(** ** Reading at one instant *)
Lemma resolve_ok s rf :
  layers s -> rf ∈ tk_readerStack (ts_tracker s) ->
  @reader_ok _ (stacked_reader (HR := ts_store s)) bs nb (resolve (ts_tracker s) rf)
    (ref_content (ts_content s) (ts_tracker s) rf).
Proof.
  intros Hl Hrf.
  assert (Hok : forall r, r ∈ tk_writers (ts_tracker s) \/ frozen (ts_tracker s) r ->
            @reader_ok _ (ts_store s) bs nb r (ts_content s r)).
  { intros r Hr. destruct (ly_known bs nb s Hl r Hr). by apply Hl. }
  destruct rf as [r|].
  - assert (r ∈ tk_writers (ts_tracker s) \/ frozen (ts_tracker s) r) as Hr.
    { rewrite (ly_built bs nb s Hl), app_assoc, <- fmap_app, elem_of_plain, elem_of_app in Hrf.
      destruct Hrf; [by left|right; by left]. }
    destruct (Hok r Hr) as [H1 H2 H3 H4 H5]. by split.
  - assert (@reader_ok _ (@blockmap_reader _ _ _ (ts_store s) _ _ _) bs nb (primary s)
      (bm_content (ts_content s) (primary s))) as [H1 H2 H3 H4 H5]; [|by split].
    apply (bm_reader_ok (BlockHoleReader0 := ts_store s)); [done|done|apply Hl|apply Hl|].
    intros r Hr. apply Hok. right. by right.
Qed.

(** The bytes of the blocks that the tracker shows. *)
Definition device_bytes s (off n : Z) : bytes :=
  read_image (image bs (visible (ts_content s) (ts_tracker s))) off n.

(** C32: a read of the tracker inside the device, with nothing in between,
    returns the blocks that the stack shows, zeros where it shows none, and no
    error. *)
Theorem tracker_ReadBlocks s buf off n :
  reachable bs nb s -> 0 <= off -> 0 <= n -> off + n <= nb -> len buf = n * bs ->
  tk_ReadBlocks (HR := ts_store s) (ts_tracker s) buf off =
  Ret (device_bytes s off n, n, None).
Proof.
  intros [Hl _]%reachable_use Ho Hn Hin Hlen. unfold tk_ReadBlocks, tk_ReadFrom.
  destruct (ly_size bs nb s Hl) as [-> ->].
  rewrite (stacked_read_inside bs nb Hbs ltac:(lia) _
    (ref_content (ts_content s) (ts_tracker s) <$> tk_readerStack (ts_tracker s)) buf off n); try done.
  apply Forall2_fmap, Forall_Forall2_diag, Forall_forall. intros rf Hrf. by apply resolve_ok.
Qed.
End use.
