(* ===== verification/TrackerExample.v ===== *)
(** * A run of the tracker

    A device of 6 blocks of 2 bytes: two readers are loaded and merged into the
    index, a compaction removes the one that has no blocks while a read is
    running, and a second read follows. The theorems on the tracker are applied
    at its states. *)
From S2P Require Import Prelude Bits RangeMap BitmapRangeMap BlockReader StackedBlockReader BlockMap.
From S2P Require Import BlockMapPush BlockMapLive BlockMapTheorems WaitBarrier Tracker TrackerSteps TrackerInv.
From S2P Require Import TrackerReads TrackerUse.
Local Open Scope Z_scope.

Abbreviation tracker_state := (tstate positive (BitmapRangeMap Z (Z -> bool) fun_bits) fun_bits).

Definition example_start : tracker_state := tracker_initial 2 6 example_reader example_content.

Lemma run_step (s s' s'' : tracker_state) l :
  tstep 2 6 s l s' -> rtc (any_step 2 6) s' s'' -> rtc (any_step 2 6) s s''.
Proof. intros Hs Hr. eapply rtc_l; [|exact Hr]. by exists l. Qed.

(** Reader 1 is loaded and is being read. *)
Definition example_loaded : tracker_state :=
  let s := set_tracker (learn example_start 1%positive) (tk_PushReader (ts_tracker example_start) 1%positive) in
  set_reads s ∅.

Lemma example_loaded_step : tstep 2 6 example_start (Loaded 1%positive) example_loaded.
Proof. apply (t_load 2 6 example_start 1%positive); [set_solver|apply example_ok|done]. Qed.

Lemma example_loaded_reachable : reachable 2 6 example_loaded.
Proof. exists example_reader, example_content. eapply run_step; [apply example_loaded_step|apply rtc_refl]. Qed.

Lemma tracker_contents_witness :
  shown example_loaded 0 = Some [1; 1].
Proof.
  rewrite (tracker_contents 2 6 ltac:(lia) ltac:(lia) example_start (Loaded 1%positive) example_loaded);
    [reflexivity| |apply example_loaded_step].
  exists example_reader, example_content. apply rtc_refl.
Defined.

Lemma tracker_ReadBlocks_witness :
  tk_ReadBlocks (HR := example_reader) (ts_tracker example_loaded) (zeros 4) 2 = Ret ([1; 1; 0; 0], 2, None).
Proof.
  rewrite (tracker_ReadBlocks 2 6 ltac:(lia) ltac:(lia) example_loaded (zeros 4) 2 2);
    [reflexivity|apply example_loaded_reachable|lia|lia|lia|reflexivity].
Defined.

(** Reader 5, which has no blocks, is loaded, merged and removed by a compaction
    while the read 0 runs; the read 1 begins afterwards. *)
Abbreviation example_map := (Reader positive (BitmapRangeMap Z (Z -> bool) fun_bits) fun_bits).

Lemma example_register :
  exists iv (p : example_map), push_begin (NewReader 2 6) 5%positive = Ret (iv, p) /\ bm_wf 2 6 p /\
    rs p = [5%positive] /\ forall k, owner p k = None.
Proof.
  assert (Hwf : bm_wf 2 6 (NewReader 2 6 : example_map)) by (apply NewReader_wf; lia).
  destruct (fetchOrAddValueIndex_ok 2 6 ltac:(lia) ltac:(lia) (NewReader 2 6 : example_map) 5%positive Hwf)
    as (iv & p & E & _); [set_solver|cbn; lia|].
  assert (Ep : push_begin (NewReader 2 6 : example_map) 5%positive = Ret (iv, p)) by exact E.
  exists iv, p. destruct (push_begin_ok 2 6 ltac:(lia) ltac:(lia) _ _ _ _ Hwf Ep) as (_ & Hp & Hrs & _ & Ho).
  split; [done|]. split; [done|]. split; [done|]. intros k. by rewrite Ho, NewReader_owner.
Qed.

Lemma example_push_next iv (p : example_map) :
  push_next (HR := example_reader) p (MkPush 5%positive iv [] 0) = Ret (p, None).
Proof. cbn. by rewrite set_rangeMap_id. Qed.

Lemma remove_unused_eq (t : Tracker positive (BitmapRangeMap Z (Z -> bool) fun_bits) fun_bits) r p :
  RemoveTable (tk_primaryIndex t) r = Ret p -> cs_RemoveUnusedReader t r = Ret (set_primaryIndex t p).
Proof. unfold cs_RemoveUnusedReader. by intros ->. Qed.

Definition ex_tracker (p : example_map) (pend : list positive) (comp : bool) :=
  set_compactionState (buildReaderStack (MkTracker 2 6 [] p pend [] false)) comp.

Definition ex_state p pend comp m c b reads removed : tracker_state :=
  MkState (ex_tracker p pend comp) m c b reads example_reader example_content ({[5%positive]} ∪ ∅) removed.

(** The barrier with the read 0, with a call that waits for it, after the read,
    after the call, and with the read 1. *)
Definition ex_bar1 := MkSystem (MkWaitBarrier (Some 0%nat) [1]) {[0%nat := 0%nat]} ∅ 1.
Definition ex_bar2 :=
  MkSystem (MkWaitBarrier (Some 1%nat) [1; 1]) {[0%nat := 0%nat]} {[0%nat := (1%nat, {[0%nat]})]} 1.
Definition ex_bar3 := MkSystem (MkWaitBarrier (Some 1%nat) [0; 1]) ∅ {[0%nat := (1%nat, {[0%nat]})]} 1.
Definition ex_bar4 := MkSystem (MkWaitBarrier (Some 1%nat) [0; 0]) ∅ ∅ 1.
Definition ex_bar5 := MkSystem (MkWaitBarrier (Some 1%nat) [0; 1]) {[1%nat := 1%nat]} ∅ 2.

Lemma ex_barrier :
  bar_start barrier_initial = Ret (ex_bar1, 0%nat) /\ bar_enter ex_bar1 = Ret (ex_bar2, Some 0%nat) /\
  bar_done ex_bar2 0 = Ret ex_bar3 /\ bar_leave ex_bar3 0 = Some (Ret ex_bar4) /\
  bar_start ex_bar4 = Ret (ex_bar5, 1%nat).
Proof. vm_compute. split_and!; reflexivity. Qed.

Lemma example_merged iv p :
  push_begin (NewReader 2 6) 5%positive = Ret (iv, p) ->
  rtc (any_step 2 6) example_start (ex_state p [] true MergeIdle CompIdle barrier_initial ∅ ∅).
Proof.
  intros Ep. eapply run_step; [apply (t_load 2 6 _ 5%positive); [set_solver|apply example_ok|done]|].
  change (rtc (any_step 2 6)
    (ex_state (NewReader 2 6) [5%positive] false MergeIdle CompIdle barrier_initial ∅ ∅)
    (ex_state p [] true MergeIdle CompIdle barrier_initial ∅ ∅)).
  eapply run_step; [apply t_merge_begin; reflexivity|].
  eapply run_step; [eapply (t_merge_push 2 6 _ [5%positive] 5%positive []); [reflexivity|exact Ep]|].
  eapply run_step; [eapply (t_merge_next 2 6 _ [5%positive] []); [reflexivity|apply example_push_next]|].
  eapply run_step; [eapply (t_merge_end 2 6 _ [5%positive] barrier_initial None); reflexivity|].
  eapply run_step; [eapply t_compact_start; reflexivity|]. apply rtc_refl.
Qed.

Lemma example_removed :
  exists (s : tracker_state) rd, reachable 2 6 s /\ ts_reads s !! 1%nat = Some rd /\
    5%positive ∈ ts_removed s /\ tk_compactionState (ts_tracker s) = true.
Proof.
  destruct example_register as (iv & p & Ep & Hp & Hrs & Ho).
  assert (Hin : 5%positive ∈ rs p) by (rewrite Hrs; set_solver).
  assert (Hdead : forall k, owner p k <> Some 5%positive) by (intros k; by rewrite Ho).
  destruct (RemoveTable_ok 2 6 ltac:(lia) ltac:(lia) p 5%positive Hp Hin Hdead) as (p' & Ep' & _).
  destruct ex_barrier as (E1 & E2 & E3 & E4 & E5).
  pose (s0 := ex_state p [] true MergeIdle CompIdle barrier_initial ∅ ∅).
  pose (s1 := set_reads (set_barrier s0 ex_bar1) (<[0%nat := begin_read s0]> ∅)).
  pose (s2 := set_comp (set_barrier s1 ex_bar2) (CompWait 0 5%positive)).
  pose (s3 := set_reads (set_barrier s2 ex_bar3) (delete 0%nat (<[0%nat := begin_read s0]> ∅))).
  pose (s4 := set_comp (set_barrier s3 ex_bar4) (CompRemove 5%positive)).
  pose (s5 := set_comp (set_tracker (forget s4 5%positive) (set_primaryIndex (ts_tracker s4) p')) CompIdle).
  exists (set_reads (set_barrier s5 ex_bar5) (<[1%nat := begin_read s5]> (ts_reads s5))), (begin_read s5).
  split; [exists example_reader, example_content|].
  - etransitivity; [exact (example_merged iv p Ep)|].
    eapply (run_step s0 s1); [exact (t_read_begin 2 6 s0 ex_bar1 0 E1)|].
    eapply (run_step s1 s2); [exact (t_remove_begin 2 6 s1 5%positive ex_bar2 (Some 0%nat) eq_refl eq_refl Hin
      Hdead (not_elem_of_nil _) E2)|].
    eapply (run_step s2 s3); [exact (t_read_end 2 6 s2 0 ex_bar3 E3)|].
    eapply (run_step s3 s4); [exact (t_remove_wake 2 6 s3 0 5%positive ex_bar4 eq_refl E4)|].
    eapply (run_step s4 s5); [exact (t_remove_table 2 6 s4 5%positive _ eq_refl (remove_unused_eq (ts_tracker s4) _ p' Ep'))|].
    eapply (run_step s5); [exact (t_read_begin 2 6 s5 ex_bar5 1 E5)|]. apply rtc_refl.
  - cbn [ts_reads set_reads]. rewrite lookup_insert_eq. split; [done|]. split; [|done].
    apply elem_of_union. left. by apply elem_of_singleton.
Qed.

Lemma tracker_reads_regular_witness :
  exists (s : tracker_state) rd, ts_reads s !! 1%nat = Some rd /\
    forall k, rd_seen rd k (next_fetch s rd k).
Proof.
  destruct example_removed as (s & rd & Hr & Hi & _). exists s, rd. split; [exact Hi|].
  destruct (tracker_reads_regular 2 6 ltac:(lia) ltac:(lia) s 1%nat rd Hr Hi) as [_ H]. exact H.
Defined.

Lemma tracker_single_indexer_witness :
  exists s : tracker_state, tk_compactionState (ts_tracker s) = true /\
    ~ indexing s.
Proof.
  destruct example_removed as (s & rd & Hr & _ & _ & Hc). exists s. split; [exact Hc|].
  destruct (tracker_single_indexer 2 6 ltac:(lia) ltac:(lia) s Hr) as [H _]. exact (H Hc).
Defined.

Lemma tracker_removed_unused_witness :
  exists (s : tracker_state) rd, ts_reads s !! 1%nat = Some rd /\ 5%positive ∈ ts_removed s /\
    ~ uses rd 5%positive.
Proof.
  destruct example_removed as (s & rd & Hr & Hi & Hrm & _). exists s, rd. split; [exact Hi|].
  split; [exact Hrm|].
  destruct (tracker_removed_unused 2 6 ltac:(lia) ltac:(lia) s 1%nat rd 5%positive Hr Hi (or_introl Hrm)) as [H _].
  exact H.
Defined.
