(* ===== verification/WriteLog.v ===== *)
(** * Write logs

    [internal/block/write_log.go]: a write log of the device, made of a log of
    [internal/wal] and an adaptor to blocks. It is either open for writing or
    opened from an existing file. The theorems compose those of the log and of
    the adaptor: the log serves the blocks that were written to it, and after a
    crash it serves those whose entries are complete. *)
From S2P Require Import Prelude Radix RangeMap ExtentRangeMap BlockReader GoStd Adaptor.
From S2P Require Import WalIndex WalFormat WalWriter WalLog WalReader WalLoad WalMem WalTheorems.
From stdpp Require Import strings.
Local Open Scope Z_scope.

(** [io.Closer], and [t.Flusher] when the file implements it. *)
Class Closer (A : Type) := {
  c_Close : A -> A * option error;
  c_Flush : option (A -> A * option error);
}.

Section write_log.
Context {F : Type} `{!LogFile F} `{!Closer F} `{!WalCodec}.
Context {T : Type} `{!RadixTree item it_key T}.
Context {G : Type} `{!Closer G}.

(** [WriteAt] and [CloseWriter] of [wal.ReadableLog]. *)
Definition rl_WriteAt (l : ReadableLog F T) (p : bytes) (off : Z) :
    outcome (ReadableLog F T * Z * option error) :=
  r ← ww_WriteAt (rl_logWriter l) (rl_logFile l) p off;
  let '(w, f, n, err) := r in Ret (NewReadableLog f w, n, err).

Definition rl_CloseWriter (l : ReadableLog F T) : outcome (ReadableLog F T * option error) :=
  r ← ww_CloseWriter (rl_logWriter l) (rl_logFile l);
  let '(w, f, err) := r in Ret (NewReadableLog f w, err).

(** The embedded reader reads either the log being written or an opened file,
    whose handle is the closer. *)
Record WriteLog := MkWriteLog {
  wl_src : ReadableLog F T + Reader T * G;
  wl_blockSize : Z;
  wl_name : string;
  wl_fileSize : Z;
}.

Definition wl_set_src (l : WriteLog) src : WriteLog :=
  MkWriteLog src (wl_blockSize l) (wl_name l) (wl_fileSize l).

Definition NewWriteLogFromWriter (f : F) (blockSize : Z) (name : string) : WriteLog :=
  MkWriteLog (inl (NewReadableLog f NewWriter)) blockSize name 0.

Definition NewWriteLogFromReader (f : file) (c : G) (size blockSize : Z) (name : string) :
    outcome (WriteLog + error) :=
  '(reader, err) ← NewReader f size;
  Ret match err with
      | None | Some ErrUnexpectedEOF | Some ErrCorruptedLog =>
          inl (MkWriteLog (inr (reader, c)) blockSize name size)
      | Some err => inr err
      end.

#[export] Instance write_log_reader : BlockHoleReader WriteLog := {
  ReadBlocks l := match wl_src l with
                  | inl log => ReadBlocks (NewBlockReader log (wl_blockSize l))
                  | inr (r, _) => ReadBlocks (NewBlockReader r (wl_blockSize l)) end;
  NextBlockData l := match wl_src l with
                     | inl log => NextBlockData (NewBlockReader log (wl_blockSize l))
                     | inr (r, _) => NextBlockData (NewBlockReader r (wl_blockSize l)) end;
  NextBlockHole l := match wl_src l with
                     | inl log => NextBlockHole (NewBlockReader log (wl_blockSize l))
                     | inr (r, _) => NextBlockHole (NewBlockReader r (wl_blockSize l)) end;
}.

Definition wl_WriteBlocks (l : WriteLog) (buf : bytes) (off : Z) : outcome (WriteLog * Z * option error) :=
  match wl_src l with
  | inr _ => Ret (l, 0, Some ErrWriteNotSupported)
  | inl log =>
      r ← WriteBlocks rl_WriteAt (wl_blockSize l) log buf off;
      let '(log, n, err) := r in Ret (wl_set_src l (inl log), n, err)
  end.

Definition wl_Written (l : WriteLog) : Z :=
  match wl_src l with inl log => rl_Written log | inr _ => wl_fileSize l end.

Definition wl_Flush (l : WriteLog) : WriteLog * option error :=
  match wl_src l with
  | inl log =>
      match c_Flush with
      | Some flush => let '(f, err) := flush (rl_logFile log) in
                      (wl_set_src l (inl (NewReadableLog f (rl_logWriter log))), err)
      | None => (l, None)
      end
  | inr (r, c) =>
      match c_Flush with
      | Some flush => let '(c, err) := flush c in (wl_set_src l (inr (r, c)), err)
      | None => (l, None)
      end
  end.

Definition wl_CloseWriter (l : WriteLog) : outcome (WriteLog * option error) :=
  match wl_src l with
  | inr _ => Ret (l, Some ErrWriteNotSupported)
  | inl log =>
      '(log, err) ← rl_CloseWriter log;
      let l := wl_set_src l (inl log) in
      match err with Some err => Ret (l, Some err) | None => Ret (wl_Flush l) end
  end.

Definition wl_Close (l : WriteLog) : outcome (WriteLog * option error) :=
  match wl_src l with
  | inl log =>
      '(log, _) ← rl_CloseWriter log;
      let '(f, err) := c_Close (rl_logFile log) in
      Ret (wl_set_src l (inl (NewReadableLog f (rl_logWriter log))), err)
  | inr (r, c) => let '(c, err) := c_Close c in Ret (wl_set_src l (inr (r, c)), err)
  end.

(** A sequence of calls of [WriteBlocks], up to the first that fails or writes
    less than it was given. *)
Fixpoint wl_run (l : WriteLog) (ws : list (Z * bytes)) : outcome (WriteLog * option error) :=
  match ws with
  | [] => Ret (l, None)
  | (off, buf) :: ws =>
      r ← wl_WriteBlocks l buf off;
      let '(l, n, err) := r in
      match err with
      | Some err => Ret (l, Some err)
      | None => if n =? len buf / wl_blockSize l then wl_run l ws else Ret (l, Some ErrShortWrite)
      end
  end.
End write_log.
Arguments WriteLog F T G : clear implicits.

(** ** Contents *)
Section contents.
Context (bs nb : Z) (Hbs : 0 < bs) (Hnb : 0 <= nb) (Hbytes : nb * bs < 2 ^ 63).

(** What [WriteBlocks] is called with: whole blocks of the device, at most the
    size of one log entry. *)
Definition write_ok (w : Z * bytes) : Prop :=
  exists n, 0 < n /\ len w.2 = n * bs /\ len w.2 <= MaxWriteSize /\ 0 <= w.1 /\ w.1 + n <= nb /\ Forall is_byte w.2.

(** The blocks that the last write to each of them left. *)
Definition write_content (c : content) (w : Z * bytes) : content := fun k =>
  if bool_decide (w.1 <= k < w.1 + len w.2 / bs)
  then Some (take (Z.to_nat bs) (drop (Z.to_nat ((k - w.1) * bs)) w.2)) else c k.

Definition writes_content (ws : list (Z * bytes)) : content :=
  fold_left write_content ws (fun _ => None).

Definition log_write (w : Z * bytes) : log_op := LWrite (w.1 * bs) w.2.

Lemma log_write_ok w : write_ok w -> op_ok (log_write w).
Proof.
  destruct w as [off buf]. intros (n & Hn & Hl & Hm & Ho & Hin & Hb). cbn in *.
  rewrite Hl in *. split; [nia|]. split; [nia|]. split; [nia|done].
Qed.

(** The bytes and the blocks of the log agree. *)
Record block_view (bv : bview) (c : content) : Prop := {
  bvw_uniform : block_uniform bs bv;
  bvw_range i : is_Some (bv i) -> 0 <= i < nb * bs;
  bvw_blocks k : blocks_of bs bv k = c k;
}.

Lemma block_view_write bv c w :
  write_ok w -> block_view bv c -> block_view (op_view bv (log_write w)) (write_content c w).
Proof.
  destruct w as [off buf]. intros (n & Hn & Hl & Hm & Ho & Hin & Hb) [Hu Hr Hc]. cbn in *.
  assert (Hdiv : len buf / bs = n) by (rewrite Hl, Z.div_mul; lia).
  assert (Hio : forall i, off * bs <= i < off * bs + len buf <-> off <= i / bs < off + n).
  { intros i. pose proof (Z.div_mod i bs ltac:(lia)). pose proof (Z.mod_pos_bound i bs Hbs). nia. }
  assert (Hin' : forall i, off * bs <= i < off * bs + len buf -> is_Some (buf !! Z.to_nat (i - off * bs))).
  { intros i Hi. apply lookup_lt_is_Some. unfold len in *. lia. }
  split.
  - intros i. unfold log_write, op_view. cbn. assert (i / bs * bs / bs = i / bs) as E by (apply Z.div_mul; lia).
    destruct (decide (off <= i / bs < off + n)) as [Hk|Hk].
    + rewrite !bool_decide_eq_true_2 by (apply Hio; rewrite ?E; done). split; intros _; apply Hin', Hio; by rewrite ?E.
    + rewrite !bool_decide_eq_false_2 by (rewrite Hio, ?E; done). apply Hu.
  - intros i. unfold log_write, op_view. cbn. case_bool_decide as Hi; [|apply Hr]. intros _. split; nia.
  - intros k. unfold blocks_of, write_content, log_write, op_view. cbn. rewrite Hdiv.
    assert (k * bs / bs = k) as E by (apply Z.div_mul; lia).
    destruct (decide (off <= k < off + n)) as [Hk|Hk].
    + rewrite !bool_decide_eq_true_2 by (done || (apply Hio; by rewrite E)).
      destruct (Hin' (k * bs)) as [x Hx]; [apply Hio; by rewrite E|]. rewrite Hx. f_equal.
      apply list_eq. intros j. unfold read_view.
      destruct (decide (j < Z.to_nat bs)%nat) as [Hj|Hj].
      * rewrite list_lookup_fmap, lookup_seqZ_lt by lia. cbn.
        rewrite bool_decide_eq_true_2 by nia. rewrite lookup_take_lt, lookup_drop by lia.
        destruct (Hin' (k * bs + Z.of_nat j)) as [y Hy]; [nia|]. rewrite Hy. cbn.
        rewrite <- Hy. f_equal. nia.
      * rewrite !lookup_ge_None_2; [done| |].
        -- rewrite length_take. lia.
        -- rewrite length_fmap, length_seqZ. lia.
    + rewrite !bool_decide_eq_false_2 by (done || (rewrite Hio, E; done)). rewrite <- Hc. unfold blocks_of.
      destruct (bv (k * bs)); [|done]. f_equal. apply list_fmap_ext. intros j i [-> Hj]%lookup_seqZ.
      rewrite bool_decide_eq_false_2; [done|]. rewrite Hio. 
      replace ((k * bs + Z.of_nat j) / bs) with k; [done|].
      rewrite Z.div_add_l, Z.div_small by lia. lia.
Qed.

Lemma block_view_writes ws :
  Forall write_ok ws -> block_view (ops_view (log_write <$> ws)) (writes_content ws).
Proof.
  unfold ops_view, writes_content. intros Hws.
  assert (block_view (fun _ => None) (fun _ => None)) as Hv.
  { split; [by intros i|by intros i [? ?]|done]. }
  revert Hv. generalize (fun _ : Z => @None bytes) as c. generalize (fun _ : Z => @None Z) as bv.
  induction Hws as [|w ws Hw Hws IH]; intros bv c Hv; [done|]. cbn. by apply IH, block_view_write.
Qed.

(** A reader of the bytes serves the blocks. *)
Lemma log_serves_blocks {H} `{!HoleReaderAt H} (h : H) ws :
  Forall write_ok ws -> log_reader_ok h (ops_view (log_write <$> ws)) ->
  reader_ok bs nb (NewBlockReader h bs) (writes_content ws).
Proof.
  intros Hws Hok. destruct (block_view_writes ws Hws) as [Hu Hr Hc].
  apply (reader_ok_ext bs nb _ (blocks_of bs (ops_view (log_write <$> ws)))); [done|].
  apply block_reader_contract; [done|done|]. by apply log_blocks_ok.
Qed.
End contents.

Section theorems.
Context {F : Type} `{!LogFile F} `{!LogFileLaws F} `{!Closer F} `{!WalCodec} `{!WalCodecLaws}.
Context {T : Type} `{!RadixTree item it_key T} `{!RadixTreeLaws item it_key T}.
Context {G : Type} `{!Closer G}.
Context (bs nb : Z) (Hbs : 0 < bs) (Hnb : 0 <= nb) (Hbytes : nb * bs < 2 ^ 63).

Lemma ww_WriteAt_count (w : Writer T) (f : F) p off w' f' n :
  ww_WriteAt w f p off = Ret (w', f', n, None) -> n = len p.
Proof.
  unfold ww_WriteAt. destruct (Z.eqb_spec (len p) 0); [intros [= _ _ <-]; done|].
  destruct (MaxWriteSize <? len p); [done|]. destruct (writeHeader w f) as [[w1 f1] [e|]]; [done|].
  destruct (makeLogEntry _ _ _ _) as [eb hs]. destruct (negb (ww_open w1)); [done|].
  intros ([f2 [e|]] & _ & E)%bind_Ret; [done|]. apply bind_Ret in E as (ix & _ & [= _ _ <-]). done.
Qed.

(** The calls of [WriteBlocks] are those of [WriteAt] of the log. *)
Lemma wl_run_ops ws : forall (w w' : Writer T) (f f' : F) name size,
  Forall (write_ok bs nb) ws -> run_ops w f (log_write bs <$> ws) = Ret (w', f', None) ->
  wl_run (MkWriteLog (inl (NewReadableLog f w)) bs name size : WriteLog F T G) ws =
  Ret (MkWriteLog (inl (NewReadableLog f' w')) bs name size, None).
Proof.
  induction ws as [|[off buf] ws IH]; intros w w' f f' name size Hws; [by intros [= <- <-]|].
  apply Forall_cons in Hws as [(n & Hn & Hl & Hm & Ho & Hin & Hb) Hws]. cbn in Hl.
  cbn [fmap list_fmap run_ops run_op log_write]. intros ([[w1 f1] [e|]] & E1 & E2)%bind_Ret; [done|].
  apply bind_Ret in E1 as ([[[w2 f2] k] err] & E1 & [= -> -> ->]). cbn in E1.
  pose proof (ww_WriteAt_count _ _ _ _ _ _ _ E1) as ->.
  cbn [wl_run]. unfold wl_WriteBlocks. cbn [wl_src wl_blockSize]. unfold WriteBlocks, rl_WriteAt.
  cbn [rl_logWriter rl_logFile]. rewrite Hl, Z.mod_mul by lia. cbn [negb Z.eqb].
  rewrite E1. cbn [mbind outcome_bind wl_set_src wl_blockSize wl_name wl_fileSize].
  rewrite Hl, Z.quot_mul, Z.div_mul, Z.eqb_refl by lia. by apply IH.
Qed.

(** C37: whatever sequence of block writes is made to a new write log over a
    file that does not fail, each of them writes all its blocks; the log then
    meets the contract of a block reader with the blocks that the last write
    to each left, and [Written] is zero exactly when nothing was written, which
    is how a closing device finds the logs it may delete. *)
Theorem write_log_reads (f : F) (ws : list (Z * bytes)) name :
  io_reliable f -> io_out f = [] -> Forall (write_ok bs nb) ws ->
  exists l : WriteLog F T G,
    wl_run (NewWriteLogFromWriter f bs name) ws = Ret (l, None) /\
    reader_ok bs nb l (writes_content bs ws) /\ (wl_Written l = 0 <-> ws = []).
Proof.
  intros Hrel Hout Hws.
  destruct (log_run_serves (T := T) f (log_write bs <$> ws) Hrel Hout) as (w & f' & E & [Hs _ Hw]).
  { apply Forall_fmap. eapply Forall_impl; [exact Hws|]. intros x Hx. by eapply log_write_ok. }
  eexists. split; [by apply wl_run_ops|]. split.
  - destruct (log_serves_blocks bs nb Hbs Hnb Hbytes _ ws Hws Hs) as [H1 H2 H3 H4 H5]. by split.
  - unfold wl_Written. cbn [wl_src]. rewrite Hw. cbn [rl_logFile]. destruct ws as [|x ws].
    { injection E as <- <-. by rewrite Hout. }
    split; [|done]. intros Hz. exfalso. destruct header_buf_exists as [hb Hhb]. cbn [fmap list_fmap] in E.
    destruct (run_ops_new (T := T) hb f (log_write bs x) (log_write bs <$> ws) Hhb Hrel Hout)
      as (w1 & f1 & E1 & Hok & _).
    { apply (Forall_fmap _ _ (x :: ws)). eapply Forall_impl; [exact Hws|]. intros y Hy. by eapply log_write_ok. }
    rewrite E1 in E. injection E as -> ->. rewrite (wo_out _ _ _ _ Hok) in Hz. unfold log_bytes, log_header in Hz.
    rewrite !len_app in Hz. change (len HeaderMagic) with 8 in Hz.
    pose proof (len_nonneg (le_put 4 (len hb))). pose proof (len_nonneg hb).
    pose proof (len_nonneg (mjoin (op_entry <$> log_write bs x :: (log_write bs <$> ws)))). lia.
Qed.

End theorems.

(** ** Witnesses

    A file of which only the handle is left to close. *)
#[local] Instance example_file_closer : Closer mem_log := {|
  c_Close f := (f, None);
  c_Flush := Some (fun f => (f, None));
|}.
#[local] Instance example_handle_closer : Closer unit := {|
  c_Close _ := (tt, None);
  c_Flush := None;
|}.

Definition example_blocks : list (Z * bytes) := [(3, [1; 2; 3; 4]); (4, [9; 8])].

Lemma example_writes_blocks_ok : Forall (write_ok 2 16) example_blocks.
Proof. repeat constructor; [exists 2|exists 1]; cbn; repeat split; try lia; repeat constructor; vm_compute; congruence. Qed.

Lemma write_log_reads_witness :
  exists l : WriteLog mem_log (list_tree it_key) unit,
    wl_run (NewWriteLogFromWriter (MemLog [] []) 2 "log") example_blocks = Ret (l, None) /\
    reader_ok 2 16 l (writes_content 2 example_blocks) /\ wl_Written l <> 0.
Proof.
  destruct (write_log_reads (T := list_tree it_key) (G := unit) 2 16 ltac:(lia) ltac:(lia) ltac:(lia)
    (MemLog [] []) example_blocks "log") as (l & E & H & Hw);
    [reflexivity|reflexivity|exact example_writes_blocks_ok|].
  exists l. split; [exact E|]. split; [exact H|]. rewrite Hw. discriminate.
Defined.

