(* ===== verification/TrackerWriter.v ===== *)
(** * The writer tracker

    [internal/tracker/writer.go]: the write log that takes the writes of the
    device, and the logs that wait to be compacted. Each operation is first
    given as one piece, with nothing in between; the second part splits the
    operations into their locked sections and lets them interleave. *)
From S2P Require Import Prelude BlockReader WaitBarrier.
From stdpp Require Import strings.
Local Open Scope Z_scope.

(** The interface [TrackedWriter]. *)
Class TrackedWriter (X : Type) := {
  tw_WriteBlocks : X -> bytes -> Z -> outcome (X * Z * option error);
  tw_Close : X -> outcome (X * option error);
  tw_Flush : X -> outcome (X * option error);
  tw_CloseWriter : X -> outcome (X * option error);
  tw_Name : X -> string;
  tw_Written : X -> Z;
}.

(** ** The operations

    The tracked writers are pointers [W] into a heap of objects [X]. *)
Section writer.
Context {W : Type} `{!EqDecision W} `{!Countable W}.
Context {X : Type} `{!TrackedWriter X}.

Record Writer := MkWriter {
  wt_blockSize : Z;
  wt_activeWriter : option W;
  wt_writeCount : Z;
  wt_pendingWriters : list W;
}.

Definition NewWriterTracker (blockSize : Z) : Writer := MkWriter blockSize None 0 [].

Definition set_active (m : Writer) (w : option W) : Writer :=
  MkWriter (wt_blockSize m) w (wt_writeCount m) (wt_pendingWriters m).
Definition set_count (m : Writer) (n : Z) : Writer :=
  MkWriter (wt_blockSize m) (wt_activeWriter m) n (wt_pendingWriters m).
Definition set_pending (m : Writer) (l : list W) : Writer :=
  MkWriter (wt_blockSize m) (wt_activeWriter m) (wt_writeCount m) l.

Definition wt_PushPending (m : Writer) (wl : W) : Writer :=
  set_pending m (wt_pendingWriters m ++ [wl]).

(** [RemovePending] up to its barrier. *)
Definition wt_RemovePending (m : Writer) (p : list W) : Writer :=
  set_pending m (fold_left (fun l rp => delete_first rp l) p (wt_pendingWriters m)).

Definition wt_Pending (m : Writer) : list W := wt_pendingWriters m.
Definition wt_LogWritten (m : Writer) : Z := wt_writeCount m.

(** The section of [PushNewLog] under both locks. *)
Definition push_swap (m : Writer) (wl : W) : Writer * option W :=
  let oldWriter := wt_activeWriter m in
  let m := set_active m (Some wl) in
  match oldWriter with
  | None => (m, None)
  | Some old => (set_pending m (wt_pendingWriters m ++ [old]), Some old)
  end.

(** [m.writeCount.Add(int64(n * m.blockSize))] when [n > 0]. *)
Definition count_write (m : Writer) (n : Z) : Writer :=
  if 0 <? n then set_count m (i64 (wt_writeCount m + i64 (n * wt_blockSize m))) else m.

(** The writers that [Flush] flushes. *)
Definition flush_list (m : Writer) : list W :=
  wt_pendingWriters m ++ match wt_activeWriter m with Some w => [w] | None => [] end.

(** The first section of [Close]. *)
Definition close_swap (m : Writer) : Writer :=
  let oldWriter := wt_activeWriter m in
  let m := set_active m None in
  match oldWriter with
  | None => m
  | Some old => set_pending (set_count m 0) (wt_pendingWriters m ++ [old])
  end.

Abbreviation heap := (gmap W X).

(** A method call on one of the objects. *)
Definition call {B} (h : heap) (w : W) (f : X -> outcome (X * B)) : outcome (heap * B) :=
  x ← of_option (h !! w); '(x, b) ← f x; Ret (<[w := x]> h, b).

Definition write_call (buf : bytes) (index : Z) (x : X) : outcome (X * (Z * option error)) :=
  r ← tw_WriteBlocks x buf index; let '(x, n, err) := r in Ret (x, (n, err)).

Definition wt_WriteBlocks (m : Writer) (h : heap) (buf : bytes) (index : Z) :
    outcome (Writer * heap * Z * option error) :=
  match wt_activeWriter m with
  | None => Ret (m, h, 0, Some ErrNoWriter)
  | Some w =>
      r ← call h w (write_call buf index);
      let '(h, (n, err)) := r in Ret (count_write m n, h, n, err)
  end.

(** [PushNewLog] and the goroutine it starts, which closes the old writer. *)
Definition wt_PushNewLog (m : Writer) (h : heap) (wl : W) : outcome (Writer * heap * option W) :=
  let '(m, old) := push_swap m wl in
  match old with
  | None => Ret (m, h, None)
  | Some old => '(h, _) ← call h old tw_CloseWriter; Ret (set_count m 0, h, Some old)
  end.

Fixpoint flush_all (h : heap) (ws : list W) : outcome heap :=
  match ws with
  | [] => Ret h
  | w :: ws => '(h, _) ← call h w tw_Flush; flush_all h ws
  end.

Definition wt_Flush (m : Writer) (h : heap) : outcome (heap * option error) :=
  h ← flush_all h (flush_list m); Ret (h, None).

(** The loop of [Close], for one writer and for all. *)
Definition close_one (h : heap) (w : W) (emptyLogs : list string) : outcome (heap * list string) :=
  x ← of_option (h !! w);
  let name := tw_Name x in
  '(h, _) ← call h w tw_Close;
  x ← of_option (h !! w);
  Ret (h, if tw_Written x =? 0 then emptyLogs ++ [name] else emptyLogs).

Fixpoint close_all (h : heap) (ws : list W) (emptyLogs : list string) : outcome (heap * list string) :=
  match ws with
  | [] => Ret (h, emptyLogs)
  | w :: ws => '(h, emptyLogs) ← close_one h w emptyLogs; close_all h ws emptyLogs
  end.

Definition wt_Close (m : Writer) (h : heap) : outcome (Writer * heap * list string * option error) :=
  let m := close_swap m in
  '(h, emptyLogs) ← close_all h (wt_pendingWriters m) []; Ret (m, h, emptyLogs, None).

(** ** Interleavings

    A call of [WriteBlocks], by the context it holds of [activeWriterWb]: before
    the call of the log, before the count, and before its deferred [Done]. *)
Inductive write_phase :=
  | WriteRun (w : option W) (buf : bytes) (index : Z)
  | WriteCount (w : W) (n : Z) (err : option error)
  | WriteEnd (w : option W) (n : Z) (err : option error).

(** The holders of a context of [pendingWritersWb]: a rotation that is retiring
    a log, the goroutine that closes it, and a [Flush] with the logs it still
    has to flush and its context of [activeWriterWb]. *)
Inductive user :=
  | Retiring (w : W)
  | LogCloser (w : W) (returned : bool)
  | Flusher (todo : list W) (active : option nat).

(** The goroutine that maintains the device, which rotates and compacts the logs
    and closes the tracker: [PushSwapped] holds [activeWriterLock], and
    [CloseWait], [CloseEnter] and [CloseRun] hold [pendingWritersLock]. *)
Inductive main_phase :=
  | Idle
  | PushSwapped (old : W) (done : nat)
  | PushWait (old : W) (done wg : nat)
  | PushReset (old : W) (done : nat)
  | RemoveWait (p : list W) (wg : nat)
  | CloseWait (old : option W) (wg : nat)
  | CloseEnter
  | CloseWaitPending (wg : nat)
  | CloseLock
  | CloseRun (todo : list W) (emptyLogs : list string)
  | Closed (emptyLogs : list string).

Definition closing (p : main_phase) : bool :=
  match p with
  | CloseWait _ _ | CloseEnter | CloseWaitPending _ | CloseLock | CloseRun _ _ | Closed _ => true
  | _ => false
  end.

Definition holds_active (p : main_phase) : bool :=
  match p with PushSwapped _ _ => true | _ => false end.

(** [ws_known] are the logs the tracker was given, [ws_removed] those for which
    [RemovePending] has returned, and [ws_counted] the bytes of the calls of
    [WriteBlocks] on each log that have been counted. *)
Record wstate := MkWState {
  ws_writer : Writer;
  ws_heap : heap;
  ws_main : main_phase;
  ws_awb : barrier_system;
  ws_pwb : barrier_system;
  ws_writes : gmap nat write_phase;
  ws_users : gmap nat user;
  ws_known : gset W;
  ws_removed : gset W;
  ws_counted : W -> Z;
}.

Definition wset_writer (s : wstate) m := MkWState m (ws_heap s) (ws_main s) (ws_awb s) (ws_pwb s)
  (ws_writes s) (ws_users s) (ws_known s) (ws_removed s) (ws_counted s).
Definition wset_heap (s : wstate) h := MkWState (ws_writer s) h (ws_main s) (ws_awb s) (ws_pwb s)
  (ws_writes s) (ws_users s) (ws_known s) (ws_removed s) (ws_counted s).
Definition wset_main (s : wstate) p := MkWState (ws_writer s) (ws_heap s) p (ws_awb s) (ws_pwb s)
  (ws_writes s) (ws_users s) (ws_known s) (ws_removed s) (ws_counted s).
Definition wset_awb (s : wstate) b := MkWState (ws_writer s) (ws_heap s) (ws_main s) b (ws_pwb s)
  (ws_writes s) (ws_users s) (ws_known s) (ws_removed s) (ws_counted s).
Definition wset_pwb (s : wstate) b := MkWState (ws_writer s) (ws_heap s) (ws_main s) (ws_awb s) b
  (ws_writes s) (ws_users s) (ws_known s) (ws_removed s) (ws_counted s).
Definition wset_writes (s : wstate) l := MkWState (ws_writer s) (ws_heap s) (ws_main s) (ws_awb s) (ws_pwb s)
  l (ws_users s) (ws_known s) (ws_removed s) (ws_counted s).
Definition wset_users (s : wstate) l := MkWState (ws_writer s) (ws_heap s) (ws_main s) (ws_awb s) (ws_pwb s)
  (ws_writes s) l (ws_known s) (ws_removed s) (ws_counted s).
(** A log the tracker is given. *)
Definition wlearn (s : wstate) w x := MkWState (ws_writer s) (<[w := x]> (ws_heap s)) (ws_main s) (ws_awb s)
  (ws_pwb s) (ws_writes s) (ws_users s) ({[w]} ∪ ws_known s) (ws_removed s) (ws_counted s).
Definition wremoved (s : wstate) (p : list W) := MkWState (ws_writer s) (ws_heap s) (ws_main s) (ws_awb s)
  (ws_pwb s) (ws_writes s) (ws_users s) (ws_known s) (list_to_set p ∪ ws_removed s) (ws_counted s).
Definition wcounted (s : wstate) w n := MkWState (ws_writer s) (ws_heap s) (ws_main s) (ws_awb s)
  (ws_pwb s) (ws_writes s) (ws_users s) (ws_known s) (ws_removed s)
  (fun w' => if decide (w' = w) then ws_counted s w + n else ws_counted s w').

(** The phase after entering a barrier, when there is something to wait for and
    when there is not. *)
Definition after_enter (wait : nat -> main_phase) (go : main_phase) (wg : option nat) : main_phase :=
  match wg with Some wg => wait wg | None => go end.

(** ** Steps

    The device rotates and compacts its logs from one goroutine, does not flush
    or rotate any more once it has begun to close the tracker, and gives the
    tracker only new logs. *)
Inductive wstep : wstate -> wstate -> Prop :=
  (* [PushPending] *)
  | w_push_pending s w x :
      ws_main s = Idle -> w ∉ ws_known s ->
      wstep s (wset_writer (wlearn s w x) (wt_PushPending (ws_writer s) w))
  (* [PushNewLog] *)
  | w_push_first s w x m :
      ws_main s = Idle -> w ∉ ws_known s -> push_swap (ws_writer s) w = (m, None) ->
      wstep s (wset_writer (wlearn s w x) m)
  | w_push_swap s w x m old b d :
      ws_main s = Idle -> w ∉ ws_known s -> push_swap (ws_writer s) w = (m, Some old) ->
      bar_start (ws_pwb s) = Ret (b, d) ->
      wstep s (wset_main (wset_users (wset_pwb (wset_writer (wlearn s w x) m) b)
                            (<[d := Retiring old]> (ws_users s))) (PushSwapped old d))
  | w_push_enter s old d b wg :
      ws_main s = PushSwapped old d -> bar_enter (ws_awb s) = Ret (b, wg) ->
      wstep s (wset_main (wset_awb s b) (after_enter (PushWait old d) (PushReset old d) wg))
  | w_push_wake s old d wg b :
      ws_main s = PushWait old d wg -> bar_leave (ws_awb s) wg = Some (Ret b) ->
      wstep s (wset_main (wset_awb s b) (PushReset old d))
  | w_push_return s old d :
      ws_main s = PushReset old d ->
      wstep s (wset_main (wset_users (wset_writer s (set_count (ws_writer s) 0))
                            (<[d := LogCloser old false]> (ws_users s))) Idle)
  (* The goroutine that closes the old writer. *)
  | w_closer_run s d old h err :
      ws_users s !! d = Some (LogCloser old false) -> call (ws_heap s) old tw_CloseWriter = Ret (h, err) ->
      wstep s (wset_users (wset_heap s h) (<[d := LogCloser old true]> (ws_users s)))
  | w_closer_done s d old b :
      ws_users s !! d = Some (LogCloser old true) -> bar_done (ws_pwb s) d = Ret b ->
      wstep s (wset_users (wset_pwb s b) (delete d (ws_users s)))
  (* [RemovePending] of logs that are pending. *)
  | w_remove s p b wg :
      ws_main s = Idle -> (forall w, w ∈ p -> w ∈ wt_pendingWriters (ws_writer s)) ->
      bar_enter (ws_pwb s) = Ret (b, wg) ->
      let s1 := wset_pwb (wset_writer s (wt_RemovePending (ws_writer s) p)) b in
      wstep s match wg with
              | Some wg => wset_main s1 (RemoveWait p wg)
              | None => wremoved s1 p
              end
  | w_remove_wake s p wg b :
      ws_main s = RemoveWait p wg -> bar_leave (ws_pwb s) wg = Some (Ret b) ->
      wstep s (wset_main (wremoved (wset_pwb s b) p) Idle)
  (* [WriteBlocks] *)
  | w_write_begin s buf index b a :
      holds_active (ws_main s) = false -> bar_start (ws_awb s) = Ret (b, a) ->
      wstep s (wset_writes (wset_awb s b)
                 (<[a := WriteRun (wt_activeWriter (ws_writer s)) buf index]> (ws_writes s)))
  | w_write_none s a buf index :
      ws_writes s !! a = Some (WriteRun None buf index) ->
      wstep s (wset_writes s (<[a := WriteEnd None 0 (Some ErrNoWriter)]> (ws_writes s)))
  | w_write_call s a w buf index h n err :
      ws_writes s !! a = Some (WriteRun (Some w) buf index) ->
      call (ws_heap s) w (write_call buf index) = Ret (h, (n, err)) ->
      wstep s (wset_writes (wset_heap s h) (<[a := WriteCount w n err]> (ws_writes s)))
  | w_write_count s a w n err :
      ws_writes s !! a = Some (WriteCount w n err) ->
      wstep s (wset_writes (wset_writer (wcounted s w (Z.max 0 (n * wt_blockSize (ws_writer s))))
                              (count_write (ws_writer s) n))
                 (<[a := WriteEnd (Some w) n err]> (ws_writes s)))
  | w_write_done s a w n err b :
      ws_writes s !! a = Some (WriteEnd w n err) -> bar_done (ws_awb s) a = Ret b ->
      wstep s (wset_writes (wset_awb s b) (delete a (ws_writes s)))
  (* [Flush] *)
  | w_flush_begin_idle s b d :
      closing (ws_main s) = false -> holds_active (ws_main s) = false ->
      wt_activeWriter (ws_writer s) = None -> bar_start (ws_pwb s) = Ret (b, d) ->
      wstep s (wset_users (wset_pwb s b) (<[d := Flusher (flush_list (ws_writer s)) None]> (ws_users s)))
  | w_flush_begin s w b d b' a :
      closing (ws_main s) = false -> holds_active (ws_main s) = false ->
      wt_activeWriter (ws_writer s) = Some w ->
      bar_start (ws_pwb s) = Ret (b, d) -> bar_start (ws_awb s) = Ret (b', a) ->
      wstep s (wset_users (wset_awb (wset_pwb s b) b')
                 (<[d := Flusher (flush_list (ws_writer s)) (Some a)]> (ws_users s)))
  | w_flush_one s d l1 w l2 o h err :
      ws_users s !! d = Some (Flusher (l1 ++ w :: l2) o) -> call (ws_heap s) w tw_Flush = Ret (h, err) ->
      wstep s (wset_users (wset_heap s h) (<[d := Flusher (l1 ++ l2) o]> (ws_users s)))
  | w_flush_active_done s d a b :
      ws_users s !! d = Some (Flusher [] (Some a)) -> bar_done (ws_awb s) a = Ret b ->
      wstep s (wset_users (wset_awb s b) (<[d := Flusher [] None]> (ws_users s)))
  | w_flush_done s d b :
      ws_users s !! d = Some (Flusher [] None) -> bar_done (ws_pwb s) d = Ret b ->
      wstep s (wset_users (wset_pwb s b) (delete d (ws_users s)))
  (* [Close] *)
  | w_close s b wg :
      ws_main s = Idle -> bar_enter (ws_awb s) = Ret (b, wg) ->
      wstep s (wset_main (wset_awb (wset_writer s (close_swap (ws_writer s))) b)
                 (after_enter (CloseWait (wt_activeWriter (ws_writer s))) CloseEnter wg))
  | w_close_wake s old wg b :
      ws_main s = CloseWait old wg -> bar_leave (ws_awb s) wg = Some (Ret b) ->
      wstep s (wset_main (wset_awb s b) CloseEnter)
  | w_close_enter s b wg :
      ws_main s = CloseEnter -> bar_enter (ws_pwb s) = Ret (b, wg) ->
      wstep s (wset_main (wset_pwb s b) (after_enter CloseWaitPending CloseLock wg))
  | w_close_wake_pending s wg b :
      ws_main s = CloseWaitPending wg -> bar_leave (ws_pwb s) wg = Some (Ret b) ->
      wstep s (wset_main (wset_pwb s b) CloseLock)
  | w_close_lock s :
      ws_main s = CloseLock -> wstep s (wset_main s (CloseRun (wt_pendingWriters (ws_writer s)) []))
  | w_close_one s w todo l h l' :
      ws_main s = CloseRun (w :: todo) l -> close_one (ws_heap s) w l = Ret (h, l') ->
      wstep s (wset_main (wset_heap s h) (CloseRun todo l'))
  | w_close_return s l :
      ws_main s = CloseRun [] l -> wstep s (wset_main s (Closed l)).

Definition writer_initial (blockSize : Z) : wstate :=
  MkWState (NewWriterTracker blockSize) ∅ Idle barrier_initial barrier_initial ∅ ∅ ∅ ∅ (fun _ => 0).

End writer.
Arguments Writer W : clear implicits.
Arguments write_phase W : clear implicits.
Arguments user W : clear implicits.
Arguments main_phase W : clear implicits.
Arguments wstate W {_ _} X.
