(* ===== verification/TrackerWriterInv.v ===== *)
(** * The invariant of the writer tracker

    Which goroutines can be using which log in every interleaving of
    [internal/tracker/writer.go], and what the counter of written bytes is. *)
From S2P Require Import Prelude BlockReader WaitBarrier TrackerWriter.
Local Open Scope Z_scope.

Section invariant.
Context {W : Type} `{!EqDecision W} `{!Countable W}.
Context {X : Type} `{!TrackedWriter X}.

(** ** What the goroutines use *)
Definition writes_to (p : write_phase W) : option W :=
  match p with WriteRun w _ _ => w | WriteCount w _ _ => Some w | WriteEnd w _ _ => w end.

Definition uses (u : user W) (w : W) : Prop :=
  match u with Retiring w' => w' = w | LogCloser w' _ => w' = w | Flusher todo _ => w ∈ todo end.

(** No goroutine is in a write to the log, or can begin one. *)
Definition unwritten (s : wstate W X) (w : W) : Prop :=
  wt_activeWriter (ws_writer s) <> Some w /\ forall a p, ws_writes s !! a = Some p -> writes_to p <> Some w.

(** No goroutine flushes the log or closes its writer. *)
Definition unused (s : wstate W X) (w : W) : Prop := forall d u, ws_users s !! d = Some u -> ~ uses u w.

(** The log that a rotation is retiring. *)
Definition retiring (p : main_phase W) : option W :=
  match p with PushSwapped w _ | PushWait w _ _ | PushReset w _ => Some w | _ => None end.
(** The log whose writes the maintenance goroutine is waiting for. *)
Definition draining (p : main_phase W) : option W :=
  match p with
  | PushSwapped w _ | PushWait w _ _ => Some w
  | CloseWait w _ => w
  | _ => None
  end.

(** What a wait at a barrier covers. *)
Definition waits_for (b : barrier_system) (wg : nat) (P : nat -> Prop) : Prop :=
  exists bw must, sy_waiting b !! wg = Some (bw, must) /\ forall i, P i -> i ∈ must.

Definition writing (writes : gmap nat (write_phase W)) (a : nat) : Prop :=
  exists p, writes !! a = Some p /\ is_Some (writes_to p).

Definition user_of (users : gmap nat (user W)) (p : list W) (d : nat) : Prop :=
  exists u w, users !! d = Some u /\ w ∈ p /\ uses u w.

(** The phase of the maintenance goroutine against the other goroutines. *)
Definition main_ok (m : Writer W) (p : main_phase W) (awb pwb : barrier_system)
    (writes : gmap nat (write_phase W)) (users : gmap nat (user W)) (known : gset W) : Prop :=
  match p with
  | Idle => True
  | PushSwapped old d | PushReset old d => users !! d = Some (Retiring old)
  | PushWait old d wg =>
      users !! d = Some (Retiring old) /\
      waits_for awb wg (fun a => exists p, writes !! a = Some p /\ writes_to p = Some old)
  | RemoveWait l wg =>
      waits_for pwb wg (user_of users l) /\
      forall w, w ∈ l -> w ∈ known /\ wt_activeWriter m <> Some w /\ w ∉ wt_pendingWriters m
  | CloseWait _ wg => waits_for awb wg (writing writes)
  | CloseEnter => True
  | CloseWaitPending wg => waits_for pwb wg (fun d => is_Some (users !! d))
  | CloseLock | CloseRun _ _ | Closed _ => users = ∅
  end.

Record writer_inv (m : Writer W) (p : main_phase W) (awb pwb : barrier_system)
    (writes : gmap nat (write_phase W)) (users : gmap nat (user W)) (known removed : gset W) : Prop := {
  wi_awb : barrier_inv awb;
  wi_pwb : barrier_inv pwb;
  wi_write_ctx a : is_Some (writes !! a) -> is_Some (sy_active awb !! a);
  wi_user_ctx d : is_Some (users !! d) -> is_Some (sy_active pwb !! d);
  wi_flush_ctx d l a : users !! d = Some (Flusher l (Some a)) -> writes !! a = None /\ (a < sy_next awb)%nat;
  wi_writes a ph w : writes !! a = Some ph -> writes_to ph = Some w ->
    w ∈ known /\ (wt_activeWriter m = Some w \/ draining p = Some w);
  wi_active w : wt_activeWriter m = Some w -> w ∈ known /\ (w ∉ wt_pendingWriters m) /\ w ∉ removed;
  wi_pending : NoDup (wt_pendingWriters m);
  wi_pending_known w : w ∈ wt_pendingWriters m -> w ∈ known /\ w ∉ removed;
  wi_retiring w : retiring p = Some w -> w ∈ known /\ wt_activeWriter m <> Some w;
  wi_draining w : draining p = Some w -> w ∈ known /\ (w ∉ removed) /\ wt_activeWriter m <> Some w;
  wi_closing : closing p = true -> wt_activeWriter m = None;
  wi_users d u w : users !! d = Some u -> uses u w -> w ∈ known /\ w ∉ removed;
  wi_closer d w r : users !! d = Some (LogCloser w r) -> wt_activeWriter m <> Some w /\ draining p <> Some w;
  wi_removed w : w ∈ removed -> w ∈ known;
  wi_main : main_ok m p awb pwb writes users known;
}.

Definition winv (s : wstate W X) : Prop :=
  writer_inv (ws_writer s) (ws_main s) (ws_awb s) (ws_pwb s) (ws_writes s) (ws_users s) (ws_known s) (ws_removed s).

(** ** Steps of the barriers *)
Lemma bar_start_facts (b b' : barrier_system) i :
  barrier_inv b -> bar_start b = Ret (b', i) ->
  barrier_inv b' /\ sy_active b !! i = None /\ i = sy_next b /\ sy_next b' = S i /\
  sy_waiting b' = sy_waiting b /\ exists g, sy_active b' = <[i := g]> (sy_active b).
Proof.
  intros Hi E. assert (barrier_inv b') by (eapply barrier_step_inv; [done|by eapply step_start]).
  apply bar_start_Ret in E as (wb & g & _ & -> & ->). split; [done|]. split; [by apply inv_fresh|]. cbn. eauto.
Qed.

Lemma bar_done_facts (b b' : barrier_system) i :
  barrier_inv b -> bar_done b i = Ret b' ->
  barrier_inv b' /\ sy_active b' = delete i (sy_active b) /\ sy_waiting b' = sy_waiting b /\ sy_next b' = sy_next b.
Proof.
  intros Hi E. assert (barrier_inv b') by (eapply barrier_step_inv; [done|by eapply step_done]).
  apply bar_done_Ret in E as (wb & g & _ & _ & ->). done.
Qed.

Lemma bar_enter_facts (b b' : barrier_system) wg :
  barrier_inv b -> bar_enter b = Ret (b', wg) ->
  barrier_inv b' /\ sy_active b' = sy_active b /\ sy_next b' = sy_next b /\
  match wg with
  | Some wg => waits_for b' wg (fun i => is_Some (sy_active b !! i))
  | None => sy_active b = ∅
  end.
Proof.
  intros Hi E. split; [eapply barrier_step_inv; [done|by eapply step_enter]|].
  split; [by eapply bar_enter_active|]. split.
  { apply bar_enter_Ret in E as [[_ ->]|(b1 & wg1 & bw & _ & _ & ->)]; done. }
  destruct wg as [wg|]; [|by eapply bar_enter_idle].
  destruct (bar_enter_new _ _ _ E) as [bw Hw]. exists bw, (dom (sy_active b)). split; [done|].
  intros i. apply elem_of_dom.
Qed.

Lemma bar_leave_facts (b b' : barrier_system) wg P :
  barrier_inv b -> bar_leave b wg = Some (Ret b') -> waits_for b wg P ->
  (forall i, P i -> is_Some (sy_active b !! i)) ->
  barrier_inv b' /\ sy_active b' = sy_active b /\ sy_next b' = sy_next b /\ forall i, ~ P i.
Proof.
  intros Hi E (bw & must & Hw & Hm) Ha. split; [eapply barrier_step_inv; [done|by eapply step_leave]|].
  split; [by eapply bar_leave_active|]. split.
  { by apply bar_leave_Some in E as (? & ? & ? & _ & _ & _ & ->). }
  intros i Hp. pose proof (bar_leave_waits _ _ _ _ _ Hi Hw E i (Hm i Hp)) as Hn. destruct (Ha i Hp). congruence.
Qed.

Lemma waits_for_mono (b b' : barrier_system) wg (P P' : nat -> Prop) :
  waits_for b wg P -> sy_waiting b' = sy_waiting b -> (forall i, P' i -> P i) -> waits_for b' wg P'.
Proof. intros (bw & must & Hw & Hm) E HP. exists bw, must. rewrite E. eauto. Qed.

(** ** Steps of the writes and of the users *)
Lemma waits_for_same (b b' : barrier_system) wg P :
  waits_for b wg P -> sy_waiting b' = sy_waiting b -> waits_for b' wg P.
Proof. intros. by eapply waits_for_mono. Qed.

(** The phase of the maintenance goroutine survives what needs no new wait. *)
Lemma main_ok_mono m p awb awb' pwb pwb' writes writes' users users' known :
  main_ok m p awb pwb writes users known ->
  sy_waiting awb' = sy_waiting awb -> sy_waiting pwb' = sy_waiting pwb ->
  (forall a ph w, writes' !! a = Some ph -> writes_to ph = Some w ->
     (exists ph', writes !! a = Some ph' /\ writes_to ph' = Some w) \/ wt_activeWriter m = Some w) ->
  (forall d u, users' !! d = Some u ->
     (exists u', users !! d = Some u' /\ forall w, uses u w -> uses u' w) \/
     closing p = false /\ forall w, uses u w -> wt_activeWriter m = Some w \/ w ∈ wt_pendingWriters m) ->
  (forall d w, users !! d = Some (Retiring w) -> users' !! d = Some (Retiring w)) ->
  (forall w, retiring p = Some w -> wt_activeWriter m <> Some w) ->
  (closing p = true -> wt_activeWriter m = None) ->
  main_ok m p awb' pwb' writes' users' known.
Proof.
  intros Hm Ea Ep Hw Hu Hr Hret Hcl.
  destruct p as [|old d|old d wg|old d|l wg|old wg| |wg| |todo l|l]; cbn in *; try done; auto.
  - destruct Hm as [Hd Hm]. split; [auto|]. eapply waits_for_mono; [done|done|].
    intros a (ph & Ha & Hph). destruct (Hw a ph old Ha Hph) as [?|?]; [done|].
    by destruct (Hret old eq_refl).
  - destruct Hm as [Hm Hl]. split; [|done]. eapply waits_for_mono; [done|done|].
    intros d (u & w & Hd & Hin & Huw). destruct (Hu d u Hd) as [(u' & Hd' & Hs)|[_ Hs]].
    + exists u', w. auto.
    + destruct (Hl w Hin) as (_ & Hne & Hnp). by destruct (Hs w Huw).
  - eapply waits_for_mono; [done|done|]. intros a (ph & Ha & [w Hph]).
    destruct (Hw a ph w Ha Hph) as [(ph' & Ha' & Hph')|He].
    + exists ph'. split; [done|]. by exists w.
    + rewrite Hcl in He; done.
  - eapply waits_for_mono; [done|done|]. intros d [u Hd].
    destruct (Hu d u Hd) as [(u' & Hd' & _)|[? _]]; [|done]. eauto.
  - apply map_empty. intros d. destruct (users' !! d) as [u|] eqn:Ed; [|done].
    destruct (Hu d u Ed) as [(u' & Hd' & _)|[? _]]; [|done]. by rewrite Hm in Hd'.
  - apply map_empty. intros d. destruct (users' !! d) as [u|] eqn:Ed; [|done].
    destruct (Hu d u Ed) as [(u' & Hd' & _)|[? _]]; [|done]. by rewrite Hm in Hd'.
  - apply map_empty. intros d. destruct (users' !! d) as [u|] eqn:Ed; [|done].
    destruct (Hu d u Ed) as [(u' & Hd' & _)|[? _]]; [|done]. by rewrite Hm in Hd'.
Qed.

Lemma elem_of_remove_all (q l : list W) :
  NoDup l ->
  NoDup (fold_left (fun l x => delete_first x l) q l) /\
  forall w, w ∈ fold_left (fun l x => delete_first x l) q l <-> w ∈ l /\ w ∉ q.
Proof.
  revert l. induction q as [|x q IH]; intros l Hl; cbn; [split; [done|set_solver]|].
  destruct (IH (delete_first x l)) as [Hn Hq].
  { rewrite delete_first_filter by done. by apply NoDup_filter. }
  split; [done|]. intros w. rewrite Hq, delete_first_filter, list_elem_of_filter by done. set_solver.
Qed.

Lemma flush_list_elem (m : Writer W) w : w ∈ flush_list m <-> w ∈ wt_pendingWriters m \/ wt_activeWriter m = Some w.
Proof.
  unfold flush_list. rewrite elem_of_app. destruct (wt_activeWriter m); [rewrite list_elem_of_singleton|];
    [|set_solver]. naive_solver.
Qed.

Section steps.
Context (m : Writer W) (p : main_phase W) (awb pwb : barrier_system).
Context (writes : gmap nat (write_phase W)) (users : gmap nat (user W)) (known removed : gset W).
Context (Hinv : writer_inv m p awb pwb writes users known removed).

(** The counter does not matter here. *)
Lemma winv_count n : writer_inv (count_write m n) p awb pwb writes users known removed.
Proof.
  unfold count_write. destruct (0 <? n); [|done].
  destruct Hinv as [H1 H2 H3 H4 H5 H6 H7 H8 H9 H10 H11 H12 H13 H14 H15 H16]. by split.
Qed.

(** A write moves on. *)
Lemma winv_write_phase a ph ph' :
  writes !! a = Some ph -> writes_to ph' = writes_to ph ->
  writer_inv m p awb pwb (<[a := ph']> writes) users known removed.
Proof.
  intros Ha Hph. destruct Hinv as [H1 H2 H3 H4 H5 H6 H7 H8 H9 H10 H11 H12 H13 H14 H15 H16].
  assert (Hback : forall a' q w, <[a := ph']> writes !! a' = Some q -> writes_to q = Some w ->
            exists q', writes !! a' = Some q' /\ writes_to q' = Some w).
  { intros a' q w [[<- <-]|[? ?]]%lookup_insert_Some Hq; [|eauto]. exists ph. split; congruence. }
  split; try done.
  - intros a' [q Hq]. apply H3. apply lookup_insert_Some in Hq as [[<- _]|[_ ?]]; eauto.
  - intros d l a' Hd. destruct (H5 d l a' Hd). split; [|done]. rewrite lookup_insert_ne; congruence.
  - intros a' q w Hq Hw. destruct (Hback a' q w Hq Hw) as (q' & ? & ?). eauto.
  - eapply main_ok_mono; eauto. naive_solver.
Qed.

(** A write begins and ends. *)
Lemma winv_write_begin awb' a buf index :
  bar_start awb = Ret (awb', a) ->
  writer_inv m p awb' pwb (<[a := WriteRun (wt_activeWriter m) buf index]> writes) users known removed.
Proof.
  destruct Hinv as [H1 H2 H3 H4 H5 H6 H7 H8 H9 H10 H11 H12 H13 H14 H15 H16].
  intros (Hi & Hf & -> & Hn & Hw & g & Ha)%bar_start_facts; [|done]. split; try done.
  - intros a' [q Hq]. rewrite Ha. apply lookup_insert_is_Some'.
    apply lookup_insert_Some in Hq as [[<- _]|[_ Hq]]; eauto.
  - intros d l a' Hd. destruct (H5 d l a' Hd). rewrite lookup_insert_ne by lia. split; [done|lia].
  - intros a' q w [[<- <-]|[_ Hq]]%lookup_insert_Some Hqw; [|eauto]. cbn in Hqw. apply H7 in Hqw as Hk. naive_solver.
  - eapply main_ok_mono; eauto; [|naive_solver]. intros a' q w [[<- <-]|[_ Hq]]%lookup_insert_Some Hqw; [|eauto]. auto.
Qed.

Lemma winv_write_done awb' a :
  bar_done awb a = Ret awb' -> writer_inv m p awb' pwb (delete a writes) users known removed.
Proof.
  destruct Hinv as [H1 H2 H3 H4 H5 H6 H7 H8 H9 H10 H11 H12 H13 H14 H15 H16].
  intros (Hi & Ha & Hw & Hn)%bar_done_facts; [|done]. split; try done.
  - intros a' [q Hq]. apply lookup_delete_Some in Hq as [Hne Hq]. rewrite Ha, lookup_delete_ne by done. eauto.
  - intros d l a' Hd. destruct (H5 d l a' Hd). rewrite Hn. split; [|done]. apply lookup_delete_None. by right.
  - intros a' q w [_ Hq]%lookup_delete_Some. eauto.
  - eapply main_ok_mono; eauto; [|naive_solver]. intros a' q w [_ Hq]%lookup_delete_Some. eauto.
Qed.

(** A flush is done with its context of the active log. *)
Lemma winv_flush_active awb' d a :
  users !! d = Some (Flusher [] (Some a)) -> bar_done awb a = Ret awb' ->
  writer_inv m p awb' pwb writes users known removed.
Proof.
  intros Hd. destruct Hinv as [H1 H2 H3 H4 H5 H6 H7 H8 H9 H10 H11 H12 H13 H14 H15 H16].
  intros (Hi & Ha & Hw & Hn)%bar_done_facts; [|done]. destruct (H5 _ _ _ Hd) as [Hno _]. split; try done.
  - intros a' Hq. rewrite Ha, lookup_delete_ne; [auto|]. intros <-. destruct Hq. congruence.
  - intros d' l a' Hd'. rewrite Hn. eauto.
  - eapply main_ok_mono; eauto; naive_solver.
Qed.

(** A user moves on. *)
Lemma winv_user_phase d u u' :
  users !! d = Some u -> (forall w, u <> Retiring w) -> (forall w, uses u' w -> uses u w) ->
  (forall w r, u' = LogCloser w r -> exists r', u = LogCloser w r') ->
  (forall l a, u' = Flusher l (Some a) -> exists l', u = Flusher l' (Some a)) ->
  writer_inv m p awb pwb writes (<[d := u']> users) known removed.
Proof.
  intros Hd Hnr Hus Hcl Hfl. destruct Hinv as [H1 H2 H3 H4 H5 H6 H7 H8 H9 H10 H11 H12 H13 H14 H15 H16].
  split; try done.
  - intros d' [q Hq]. apply H4. apply lookup_insert_Some in Hq as [[<- _]|[_ ?]]; eauto.
  - intros d' l a [[<- E]|[_ E]]%lookup_insert_Some; [|eauto]. destruct (Hfl _ _ E) as [l' ->]. eauto.
  - intros d' q w [[<- <-]|[_ E]]%lookup_insert_Some Hq; eauto.
  - intros d' w r [[<- E]|[_ E]]%lookup_insert_Some; [|eauto]. destruct (Hcl _ _ E) as [l' ->]. eauto.
  - eapply main_ok_mono; eauto.
    + intros d' q [[<- <-]|[_ E]]%lookup_insert_Some; left; eauto.
    + intros d' w E. rewrite lookup_insert_ne; [done|]. intros <-. rewrite Hd in E. injection E as ->. by eapply Hnr.
    + naive_solver.
Qed.

Lemma winv_user_done pwb' d u :
  users !! d = Some u -> (forall w, u <> Retiring w) -> bar_done pwb d = Ret pwb' ->
  writer_inv m p awb pwb' writes (delete d users) known removed.
Proof.
  intros Hd Hnr. destruct Hinv as [H1 H2 H3 H4 H5 H6 H7 H8 H9 H10 H11 H12 H13 H14 H15 H16].
  intros (Hi & Ha & Hw & Hn)%bar_done_facts; [|done]. split; try done.
  - intros a' [q Hq]. apply lookup_delete_Some in Hq as [Hne Hq]. rewrite Ha, lookup_delete_ne by done. eauto.
  - intros d' l a [_ E]%lookup_delete_Some. eauto.
  - intros d' q w [_ E]%lookup_delete_Some. eauto.
  - intros d' q w [_ E]%lookup_delete_Some. eauto.
  - eapply main_ok_mono; eauto.
    + intros d' q [_ E]%lookup_delete_Some. left; eauto.
    + intros d' w E. rewrite lookup_delete_ne; [done|]. intros <-. rewrite Hd in E. injection E as ->. by eapply Hnr.
    + naive_solver.
Qed.

(** A flush begins. *)
Lemma winv_flush_begin pwb' d o :
  closing p = false -> bar_start pwb = Ret (pwb', d) ->
  (forall a, o = Some a -> writes !! a = None /\ (a < sy_next awb)%nat) ->
  writer_inv m p awb pwb' writes (<[d := Flusher (flush_list m) o]> users) known removed.
Proof.
  intros Hc E Ho. destruct Hinv as [H1 H2 H3 H4 H5 H6 H7 H8 H9 H10 H11 H12 H13 H14 H15 H16].
  apply bar_start_facts in E as (Hi & Hf & -> & Hn & Hw & g & Ha); [|done].
  assert (Hnone : users !! sy_next pwb = None).
  { apply eq_None_not_Some. intros [? ?]%H4. congruence. }
  assert (Hfl : forall w, w ∈ flush_list m -> w ∈ known /\ w ∉ removed).
  { intros w [?|?]%flush_list_elem; [auto|]. destruct (H7 w) as (? & ? & ?); auto. }
  split; try done.
  - intros d' [q Hq]. rewrite Ha. apply lookup_insert_is_Some'.
    apply lookup_insert_Some in Hq as [[<- _]|[_ Hq]]; eauto.
  - intros d' l a [[<- [= _ ->]]|[_ E]]%lookup_insert_Some; eauto.
  - intros d' u w [[<- <-]|[_ E]]%lookup_insert_Some Hu; eauto.
  - intros d' w r [[<- E]|[_ E]]%lookup_insert_Some; [done|]. eauto.
  - eapply main_ok_mono; eauto.
    + intros d' u [[<- <-]|[_ E]]%lookup_insert_Some; [right|left; eauto]. split; [done|].
      intros w Hu%flush_list_elem. naive_solver.
    + intros d' w E. rewrite lookup_insert_ne; [done|]. intros <-. congruence.
    + naive_solver.
Qed.

(** A context of the active log for a flush. *)
Lemma winv_active_start awb' a :
  bar_start awb = Ret (awb', a) -> writer_inv m p awb' pwb writes users known removed /\
    writes !! a = None /\ (a < sy_next awb')%nat.
Proof.
  intros E. destruct Hinv as [H1 H2 H3 H4 H5 H6 H7 H8 H9 H10 H11 H12 H13 H14 H15 H16].
  apply bar_start_facts in E as (Hi & Hf & -> & Hn & Hw & g & Ha); [|done]. split.
  - split; try done.
    + intros a' Hq. rewrite Ha. apply lookup_insert_is_Some'. eauto.
    + intros d' l a' E. destruct (H5 _ _ _ E). split; [done|lia].
    + eapply main_ok_mono; eauto; naive_solver.
  - split; [|lia]. apply eq_None_not_Some. intros [? ?]%H3. congruence.
Qed.

(** ** Steps of the maintenance goroutine *)
Lemma winv_push_pending w :
  p = Idle -> w ∉ known -> writer_inv (wt_PushPending m w) p awb pwb writes users ({[w]} ∪ known) removed.
Proof.
  intros -> Hw. destruct Hinv as [H1 H2 H3 H4 H5 H6 H7 H8 H9 H10 H11 H12 H13 H14 H15 H16].
  split; try done; cbn.
  - intros a ph w' Ha Hp. destruct (H6 a ph w' Ha Hp). split; [set_solver|done].
  - intros w' Ha. destruct (H7 w' Ha) as (? & ? & ?). split; [set_solver|]. split; [|done].
    rewrite elem_of_app, list_elem_of_singleton. naive_solver.
  - apply NoDup_app. split; [done|]. split; [|apply NoDup_singleton].
    intros w' Hw' ->%list_elem_of_singleton. by destruct (H9 w Hw').
  - intros w' [Hw'| ->%list_elem_of_singleton]%elem_of_app.
    + destruct (H9 w' Hw'). split; [set_solver|done].
    + split; [set_solver|]. by intros ?%H15.
  - intros d u w' Hd Hu. destruct (H13 d u w' Hd Hu). split; [set_solver|done].
  - intros w' ?%H15. set_solver.
Qed.

Lemma winv_push_first w m' :
  p = Idle -> w ∉ known -> push_swap m w = (m', None) ->
  writer_inv m' p awb pwb writes users ({[w]} ∪ known) removed.
Proof.
  intros -> Hw. destruct Hinv as [H1 H2 H3 H4 H5 H6 H7 H8 H9 H10 H11 H12 H13 H14 H15 H16].
  unfold push_swap. destruct (wt_activeWriter m) eqn:Ea; [done|]. intros [= <-].
  split; try done; cbn.
  - intros a ph w' Ha Hp. by destruct (H6 a ph w' Ha Hp) as [_ [?|?]].
  - intros w' [= <-]. split; [set_solver|]. split; [by intros [? _]%H9|by intros ?%H15].
  - intros w' Hw'. destruct (H9 w' Hw'). split; [set_solver|done].
  - intros d u w' Hd Hu. destruct (H13 d u w' Hd Hu). split; [set_solver|done].
  - intros d w' r Hd. split; [|done]. intros [= <-].
    by destruct (H13 d _ w Hd eq_refl).
  - intros w' ?%H15. set_solver.
Qed.

Lemma winv_push_swap w m' old pwb' d :
  p = Idle -> w ∉ known -> push_swap m w = (m', Some old) -> bar_start pwb = Ret (pwb', d) ->
  writer_inv m' (PushSwapped old d) awb pwb' writes (<[d := Retiring old]> users) ({[w]} ∪ known) removed.
Proof.
  intros -> Hw Es E. destruct Hinv as [H1 H2 H3 H4 H5 H6 H7 H8 H9 H10 H11 H12 H13 H14 H15 H16].
  unfold push_swap in Es. destruct (wt_activeWriter m) as [old'|] eqn:Ea; [|done]. injection Es as <- ->.
  apply bar_start_facts in E as (Hi & Hf & -> & Hn & Hwt & g & Ha); [|done].
  destruct (H7 old eq_refl) as (Hok & Hop & Hor).
  assert (Hne : w <> old) by congruence.
  split; try done; cbn.
  - intros d' [q Hq]. rewrite Ha. apply lookup_insert_is_Some'.
    apply lookup_insert_Some in Hq as [[<- _]|[_ Hq]]; eauto.
  - intros d' l a [[<- ?]|[_ E]]%lookup_insert_Some; [done|eauto].
  - intros a ph w' Hwr Hp. destruct (H6 a ph w' Hwr Hp) as [? [[= <-]|?]]; [|done]. split; [set_solver|auto].
  - intros w' [= <-]. split; [set_solver|]. split; [|by intros ?%H15].
    rewrite elem_of_app, list_elem_of_singleton. intros [[? _]%H9|?]; done.
  - apply NoDup_app. split; [done|]. split; [|apply NoDup_singleton].
    intros w' Hw' ->%list_elem_of_singleton. done.
  - intros w' [Hw'| ->%list_elem_of_singleton]%elem_of_app.
    + destruct (H9 w' Hw'). split; [set_solver|done].
    + split; [set_solver|done].
  - intros w' [= <-]. split; [set_solver|congruence].
  - intros w' [= <-]. split; [set_solver|]. split; [done|congruence].
  - intros d' u w' [[<- <-]|[_ E]]%lookup_insert_Some Hu; [cbn in Hu; subst; split; [set_solver|done]|].
    destruct (H13 d' u w' E Hu). split; [set_solver|done].
  - intros d' w' r [[<- ?]|[_ E]]%lookup_insert_Some; [done|]. destruct (H14 d' w' r E) as [Hna _].
    destruct (H13 d' _ w' E eq_refl). split; congruence.
  - intros w' ?%H15. set_solver.
  - apply lookup_insert_eq.
Qed.

Lemma winv_push_enter awb' old d wg :
  p = PushSwapped old d -> bar_enter awb = Ret (awb', wg) ->
  writer_inv m (after_enter (PushWait old d) (PushReset old d) wg) awb' pwb writes users known removed.
Proof.
  intros -> E. destruct Hinv as [H1 H2 H3 H4 H5 H6 H7 H8 H9 H10 H11 H12 H13 H14 H15 H16].
  apply bar_enter_facts in E as (Hi & Ha & Hn & Hw); [|done]. destruct wg as [wg|]; cbn in *.
  - split; try done; cbn.
    + intros a. rewrite Ha. auto.
    + intros d' l a Hd. rewrite Hn. eauto.
    + split; [done|]. destruct Hw as (bw & must & Hw & Hm). exists bw, must. split; [done|].
      intros a (ph & Hp & _). eauto.
  - assert (Hno : forall a, writes !! a = None).
    { intros a. apply eq_None_not_Some. intros [g Hg]%H3. by rewrite Hw in Hg. }
    split; try done; cbn.
    + intros a. rewrite Ha. auto.
    + intros d' l a Hd. rewrite Hn. eauto.
    + intros a ph w Hp. by rewrite Hno in Hp.
    + intros d' w r Hd. split; [|done]. by destruct (H14 d' w r Hd).
Qed.

Lemma winv_push_wake awb' old d wg :
  p = PushWait old d wg -> bar_leave awb wg = Some (Ret awb') ->
  writer_inv m (PushReset old d) awb' pwb writes users known removed.
Proof.
  intros -> E. destruct Hinv as [H1 H2 H3 H4 H5 H6 H7 H8 H9 H10 H11 H12 H13 H14 H15 [Hd Hm]].
  eapply bar_leave_facts in E as (Hi & Ha & Hn & Hno); [|done|done|].
  2:{ intros a (ph & Hp & _). eauto. }
  split; try done; cbn.
  - intros a. rewrite Ha. auto.
  - intros d' l a Hd'. rewrite Hn. eauto.
  - intros a ph w Hp Hw. destruct (H6 a ph w Hp Hw) as [? [?|[= <-]]]; [auto|]. exfalso. eapply Hno. eauto.
  - intros d' w r Hd'. split; [|done]. by destruct (H14 d' w r Hd').
Qed.

Lemma winv_push_return old d :
  p = PushReset old d ->
  writer_inv (set_count m 0) Idle awb pwb writes (<[d := LogCloser old false]> users) known removed.
Proof.
  intros ->. destruct Hinv as [H1 H2 H3 H4 H5 H6 H7 H8 H9 H10 H11 H12 H13 H14 H15 Hd]. cbn in Hd.
  split; try done; cbn.
  - intros d' [q Hq]. apply H4. apply lookup_insert_Some in Hq as [[<- _]|[_ ?]]; eauto.
  - intros d' l a [[<- ?]|[_ E]]%lookup_insert_Some; [done|eauto].
  - intros d' u w [[<- <-]|[_ E]]%lookup_insert_Some Hu; [|eauto]. eapply H13; [exact Hd|exact Hu].
  - intros d' w r [[<- [= <- _]]|[_ E]]%lookup_insert_Some; [|eauto]. split; [|done]. by apply H10.
Qed.

Lemma winv_remove q pwb' wg :
  p = Idle -> (forall w, w ∈ q -> w ∈ wt_pendingWriters m) -> bar_enter pwb = Ret (pwb', wg) ->
  match wg with
  | Some wg => writer_inv (wt_RemovePending m q) (RemoveWait q wg) awb pwb' writes users known removed
  | None => writer_inv (wt_RemovePending m q) Idle awb pwb' writes users known (list_to_set q ∪ removed)
  end.
Proof.
  intros -> Hq E. destruct Hinv as [H1 H2 H3 H4 H5 H6 H7 H8 H9 H10 H11 H12 H13 H14 H15 H16].
  apply bar_enter_facts in E as (Hi & Ha & Hn & Hw); [|done].
  destruct (elem_of_remove_all q (wt_pendingWriters m) H8) as [Hnd Hin].
  destruct wg as [wg|]; cbn in *; split; try done; cbn.
  - intros d. rewrite Ha. auto.
  - intros w Hac. destruct (H7 w Hac) as (? & ? & ?). rewrite Hin. naive_solver.
  - intros w [? ?]%Hin. auto.
  - split.
    + destruct Hw as (bw & must & Hw & Hm). exists bw, must. split; [done|]. intros d (u & w & Hd & _). eauto.
    + intros w Hw'. rewrite Hin. pose proof (Hq w Hw') as Hp. split; [by apply H9|]. split; [|naive_solver].
      intros Hac. by destruct (H7 w Hac) as (_ & ? & _).
  - intros d. rewrite Ha. auto.
  - intros w Hac. destruct (H7 w Hac) as (? & ? & ?). rewrite Hin.
    split; [done|]. split; [naive_solver|]. rewrite elem_of_union, elem_of_list_to_set. naive_solver.
  - intros w [? ?]%Hin. destruct (H9 w); [done|]. split; [done|]. set_solver.
  - intros d u w Hd. destruct (H4 d) as [g Hg]; [eauto|]. by rewrite Hw in Hg.
  - intros w [?%elem_of_list_to_set|?]%elem_of_union; [|auto]. apply H9. auto.
Qed.

Lemma winv_remove_wake q wg pwb' :
  p = RemoveWait q wg -> bar_leave pwb wg = Some (Ret pwb') ->
  writer_inv m Idle awb pwb' writes users known (list_to_set q ∪ removed).
Proof.
  intros -> E. destruct Hinv as [H1 H2 H3 H4 H5 H6 H7 H8 H9 H10 H11 H12 H13 H14 H15 [Hm Hq]].
  eapply bar_leave_facts in E as (Hi & Ha & Hn & Hno); [|done|done|].
  2:{ intros d (u & w & Hp & _). eauto. }
  split; try done; cbn.
  - intros d. rewrite Ha. auto.
  - intros w Hac. destruct (H7 w Hac) as (? & ? & ?). split; [done|]. split; [done|].
    rewrite elem_of_union, elem_of_list_to_set. intros [Hw%Hq|?]; [|done]. naive_solver.
  - intros w Hp. destruct (H9 w Hp). split; [done|]. rewrite elem_of_union, elem_of_list_to_set.
    intros [Hw%Hq|?]; [|done]. naive_solver.
  - intros d u w Hd Hu. destruct (H13 d u w Hd Hu). split; [done|]. rewrite elem_of_union, elem_of_list_to_set.
    intros [Hw|?]; [|done]. eapply Hno. exists u, w. eauto.
  - intros w [?%elem_of_list_to_set|?]%elem_of_union; [|auto]. by apply Hq.
Qed.

(** [Close]. *)
Lemma winv_close awb' wg :
  p = Idle -> bar_enter awb = Ret (awb', wg) ->
  writer_inv (close_swap m) (after_enter (CloseWait (wt_activeWriter m)) CloseEnter wg) awb' pwb
    writes users known removed.
Proof.
  intros -> E. destruct Hinv as [H1 H2 H3 H4 H5 H6 H7 H8 H9 H10 H11 H12 H13 H14 H15 H16].
  apply bar_enter_facts in E as (Hi & Ha & Hn & Hw); [|done].
  assert (Hact : wt_activeWriter (close_swap m) = None) by (unfold close_swap; by destruct (wt_activeWriter m)).
  assert (Hpend : wt_pendingWriters (close_swap m) = flush_list m).
  { unfold close_swap, flush_list. destruct (wt_activeWriter m); [done|]. by rewrite app_nil_r. }
  assert (Hnd : NoDup (flush_list m)).
  { unfold flush_list. apply NoDup_app. split; [done|]. destruct (wt_activeWriter m) as [w|].
    - split; [|apply NoDup_singleton]. intros w' Hw' ->%list_elem_of_singleton. by destruct (H7 w eq_refl) as (_ & ? & _).
    - split; [set_solver|constructor]. }
  assert (Hfl : forall w, w ∈ flush_list m -> w ∈ known /\ w ∉ removed).
  { intros w [?|?]%flush_list_elem; [auto|]. destruct (H7 w) as (? & ? & ?); auto. }
  destruct wg as [wg|]; cbn in *.
  - split; try done; cbn; rewrite ?Hact, ?Hpend; try done.
    + intros a. rewrite Ha. auto.
    + intros d' l a Hd. rewrite Hn. eauto.
    + intros a ph w Hp Hwr. destruct (H6 a ph w Hp Hwr) as [? [?|?]]; auto.
    + intros w Hd. destruct (H7 w Hd) as (? & ? & ?). done.
    + intros d w r Hd. destruct (H14 d w r Hd). done.
    + destruct Hw as (bw & must & Hw & Hm). exists bw, must. split; [done|]. intros a (ph & Hp & _). eauto.
  - assert (Hno : forall a, writes !! a = None).
    { intros a. apply eq_None_not_Some. intros [g Hg]%H3. by rewrite Hw in Hg. }
    split; try done; cbn; rewrite ?Hact, ?Hpend; try done.
    + intros a. rewrite Ha. auto.
    + intros d' l a Hd. rewrite Hn. eauto.
    + intros a ph w Hp. by rewrite Hno in Hp.
Qed.

Lemma winv_close_wake awb' old wg :
  p = CloseWait old wg -> bar_leave awb wg = Some (Ret awb') ->
  writer_inv m CloseEnter awb' pwb writes users known removed.
Proof.
  intros -> E. destruct Hinv as [H1 H2 H3 H4 H5 H6 H7 H8 H9 H10 H11 H12 H13 H14 H15 H16].
  eapply bar_leave_facts in E as (Hi & Ha & Hn & Hno); [|done|done|].
  2:{ intros a (ph & Hp & _). eauto. }
  split; try done; cbn.
  - intros a. rewrite Ha. auto.
  - intros d' l a Hd'. rewrite Hn. eauto.
  - intros a ph w Hp Hw. exfalso. eapply Hno. exists ph. split; [done|]. by exists w.
  - intros d w r Hd. split; [|done]. by destruct (H14 d w r Hd).
Qed.

Lemma winv_close_enter pwb' wg :
  p = CloseEnter -> bar_enter pwb = Ret (pwb', wg) ->
  writer_inv m (after_enter CloseWaitPending CloseLock wg) awb pwb' writes users known removed.
Proof.
  intros -> E. destruct Hinv as [H1 H2 H3 H4 H5 H6 H7 H8 H9 H10 H11 H12 H13 H14 H15 H16].
  apply bar_enter_facts in E as (Hi & Ha & Hn & Hw); [|done].
  destruct wg as [wg|]; split; try done; cbn.
  - intros a. rewrite Ha. auto.
  - destruct Hw as (bw & must & Hw & Hm). exists bw, must. split; [done|]. eauto.
  - intros a. rewrite Ha. auto.
  - apply map_empty. intros d. apply eq_None_not_Some. intros [g Hg]%H4. by rewrite Hw in Hg.
Qed.

Lemma winv_close_wake_pending pwb' wg :
  p = CloseWaitPending wg -> bar_leave pwb wg = Some (Ret pwb') ->
  writer_inv m CloseLock awb pwb' writes users known removed.
Proof.
  intros -> E. destruct Hinv as [H1 H2 H3 H4 H5 H6 H7 H8 H9 H10 H11 H12 H13 H14 H15 H16].
  eapply bar_leave_facts in E as (Hi & Ha & Hn & Hno); [|done|done|exact H4].
  split; try done; cbn.
  - intros a. rewrite Ha. auto.
  - apply map_empty. intros d. by apply eq_None_not_Some.
Qed.

(** The loop of [Close]. *)
Lemma winv_closing p' :
  users = ∅ -> closing p = true -> draining p = None ->
  match p' with CloseLock | CloseRun _ _ | Closed _ => True | _ => False end ->
  writer_inv m p' awb pwb writes users known removed.
Proof.
  intros Hu Hc Hd Hp. destruct Hinv as [H1 H2 H3 H4 H5 H6 H7 H8 H9 H10 H11 H12 H13 H14 H15 H16].
  destruct p'; try done; split; try done; auto; cbn; rewrite <- ?Hd; eauto.
Qed.
End steps.

(** ** Every step *)
Lemma winv_initial blockSize : winv (writer_initial blockSize).
Proof.
  split; cbn; try done; try set_solver; try apply barrier_inv_initial; try constructor;
    intros ? [? ?]; done.
Qed.

Lemma wstep_inv s s' : winv s -> wstep s s' -> winv s'.
Proof.
  intros Hi Hs. destruct Hs; unfold winv in *; cbn in *.
  - by apply winv_push_pending.
  - eapply winv_push_first; eauto.
  - eapply winv_push_swap; eauto.
  - eapply winv_push_enter; eauto.
  - eapply winv_push_wake; eauto.
  - eapply winv_push_return; eauto.
  - eapply winv_user_phase; eauto; naive_solver.
  - eapply winv_user_done; eauto.
  - pose proof (winv_remove _ _ _ _ _ _ _ _ Hi p b wg H H0 H1) as Hr. destruct wg; cbn; [done|]. by rewrite H.
  - eapply winv_remove_wake; eauto.
  - eapply winv_write_begin; eauto.
  - eapply winv_write_phase; eauto.
  - eapply winv_write_phase; eauto.
  - eapply winv_write_phase; [by apply winv_count|done|done].
  - eapply winv_write_done; eauto.
  - eapply winv_flush_begin; eauto; done.
  - eapply winv_active_start in Hi as (Hi & ? & ?); [|done]. eapply winv_flush_begin; eauto. naive_solver.
  - eapply winv_user_phase; eauto; try naive_solver. cbn. set_solver.
  - eapply winv_flush_active in Hi; [|done..]. eapply winv_user_phase; eauto; naive_solver.
  - eapply winv_user_done; eauto.
  - eapply winv_close; eauto.
  - eapply winv_close_wake; eauto.
  - eapply winv_close_enter; eauto.
  - eapply winv_close_wake_pending; eauto.
  - pose proof (wi_main _ _ _ _ _ _ _ _ Hi) as Hm. rewrite H in *. eapply winv_closing; eauto.
  - pose proof (wi_main _ _ _ _ _ _ _ _ Hi) as Hm. rewrite H in *. eapply winv_closing; eauto.
  - pose proof (wi_main _ _ _ _ _ _ _ _ Hi) as Hm. rewrite H in *. eapply winv_closing; eauto.
Qed.

Lemma writer_reachable_inv blockSize s : rtc wstep (writer_initial blockSize) s -> winv s.
Proof. apply rtc_invariant; [apply wstep_inv|apply winv_initial]. Qed.


(** ** The counter of written bytes *)
(** The bytes counted for some logs. *)
Definition counted_sum (count : W -> Z) (l : list W) : Z := foldr Z.add 0 (count <$> l).

(** No log has been written so much that a sum of two counts overflows. *)
Definition small_counts (s : wstate W X) : Prop :=
  forall w1 w2, ws_counted s w1 + ws_counted s w2 < 2 ^ 63.

(** The logs of which writes can have been counted since the last reset; when a
    [Close] has waited for the writes, there is nothing left to count. *)
Definition count_logs (m : Writer W) (p : main_phase W) : option (list W) :=
  match p with
  | Idle | RemoveWait _ _ => Some (option_list (wt_activeWriter m))
  | PushSwapped old _ | PushWait old _ _ | PushReset old _ => Some (old :: option_list (wt_activeWriter m))
  | CloseWait old _ => Some (option_list old)
  | _ => None
  end.

Definition count_bound (s : wstate W X) : option Z :=
  counted_sum (ws_counted s) <$> count_logs (ws_writer s) (ws_main s).

Record count_inv (blockSize : Z) (s : wstate W X) : Prop := {
  ci_size : wt_blockSize (ws_writer s) = blockSize;
  ci_nonneg w : 0 <= ws_counted s w;
  ci_count : small_counts s ->
    0 <= wt_writeCount (ws_writer s) /\ forall b, count_bound s = Some b -> wt_writeCount (ws_writer s) <= b;
}.

(** Steps that do not count. *)
Lemma count_inv_same bs s s' :
  count_inv bs s -> wt_blockSize (ws_writer s') = wt_blockSize (ws_writer s) -> ws_counted s' = ws_counted s ->
  wt_writeCount (ws_writer s') = wt_writeCount (ws_writer s) ->
  (forall b', count_bound s' = Some b' -> exists b, count_bound s = Some b /\ b <= b') -> count_inv bs s'.
Proof.
  intros [H1 H2 H3] Eb Ec Ew Hb. split; [congruence|intros; by rewrite Ec|].
  intros Hsm. rewrite Ew. destruct H3 as [H0 Hle]; [unfold small_counts in *; by rewrite <- Ec|].
  split; [done|]. intros b' (b & Hbb & ?)%Hb. specialize (Hle b Hbb). lia.
Qed.

(** Steps that reset the counter. *)
Lemma count_inv_reset bs s s' :
  count_inv bs s -> wt_blockSize (ws_writer s') = wt_blockSize (ws_writer s) -> ws_counted s' = ws_counted s ->
  wt_writeCount (ws_writer s') = 0 ->
  (forall b', count_bound s' = Some b' -> 0 <= b') -> count_inv bs s'.
Proof.
  intros [H1 H2 H3] Eb Ec Ew Hb. split; [congruence|intros; by rewrite Ec|]. intros _. rewrite Ew. auto with lia.
Qed.

Lemma counted_sum_nonneg (count : W -> Z) l : (forall w, 0 <= count w) -> 0 <= counted_sum count l.
Proof. intros Hn. unfold counted_sum. induction l as [|w l IH]; cbn; [done|]. specialize (Hn w). lia. Qed.

Lemma counted_sum_add (count : W -> Z) w k l :
  NoDup l ->
  counted_sum (fun w' => if decide (w' = w) then count w + k else count w') l =
  counted_sum count l + if decide (w ∈ l) then k else 0.
Proof.
  unfold counted_sum. induction 1 as [|x l Hx Hl IH]; cbn; [done|]. rewrite IH.
  destruct (decide (x = w)) as [->|Hne].
  - rewrite (decide_False (P := w ∈ l)), (decide_True (P := w ∈ w :: l)) by (done || left). lia.
  - destruct (decide (w ∈ l)) as [Hw|Hw]; [rewrite decide_True by (by right)|rewrite decide_False by set_solver]; lia.
Qed.

(** A write that has not been counted is to one of the logs, of which there are
    at most two. *)
Lemma count_logs_writes s a ph w :
  winv s -> ws_writes s !! a = Some ph -> writes_to ph = Some w ->
  exists l, count_logs (ws_writer s) (ws_main s) = Some l /\ w ∈ l /\ NoDup l /\ (length l <= 2)%nat.
Proof.
  intros Hi Ha Hw. destruct (wi_writes _ _ _ _ _ _ _ _ Hi a ph w Ha Hw) as [_ Hor].
  pose proof (wi_closing _ _ _ _ _ _ _ _ Hi) as Hcl. pose proof (wi_retiring _ _ _ _ _ _ _ _ Hi) as Hrt.
  assert (Hone : forall o : option W, o = Some w -> w ∈ option_list o /\ NoDup (option_list o) /\ (length (option_list o) <= 2)%nat).
  { intros o ->. cbn. split; [left|]. split; [apply NoDup_singleton|lia]. }
  assert (Htwo : forall old, retiring (ws_main s) = Some old -> w = old \/ wt_activeWriter (ws_writer s) = Some w ->
            w ∈ old :: option_list (wt_activeWriter (ws_writer s)) /\
            NoDup (old :: option_list (wt_activeWriter (ws_writer s))) /\
            (length (old :: option_list (wt_activeWriter (ws_writer s))) <= 2)%nat).
  { intros old Hr Hin. destruct (Hrt old Hr) as [_ Hne]. destruct (wt_activeWriter (ws_writer s)) as [v|]; cbn.
    - split; [destruct Hin as [->|[= ->]]; set_solver|]. split; [|lia].
      apply NoDup_cons. split; [rewrite list_elem_of_singleton; congruence|apply NoDup_singleton].
    - split; [destruct Hin as [->|?]; [left|done]|]. split; [apply NoDup_singleton|lia]. }
  destruct (ws_main s) as [|old d|old d wg|old d|l wg|old wg| |wg| |todo l|l]; cbn in *;
    try (rewrite Hcl in Hor by done; by destruct Hor); eexists; (split; [done|]);
    try (apply Htwo; [done|]; destruct Hor as [?|?]; [by right|left; congruence]);
    try (by apply Hone; destruct Hor).
  apply Hone. rewrite Hcl in Hor by done. by destruct Hor.
Qed.

(** The count of a write that has returned. *)
Lemma count_inv_write bs s a w n err writes :
  0 <= bs -> winv s -> count_inv bs s -> ws_writes s !! a = Some (WriteCount w n err) ->
  count_inv bs (wset_writes (wset_writer (wcounted s w (Z.max 0 (n * wt_blockSize (ws_writer s))))
                               (count_write (ws_writer s) n)) writes).
Proof.
  intros Hbs Hi [Hs Hn Hc] Ha. rewrite Hs. set (k := Z.max 0 (n * bs)).
  destruct (count_logs_writes s a _ w Hi Ha eq_refl) as (l & El & Hwl & Hnd & Hlen).
  assert (Hge : forall w', ws_counted s w' <= if decide (w' = w) then ws_counted s w + k else ws_counted s w').
  { intros w'. case_decide; subst; lia. }
  assert (El' : count_logs (count_write (ws_writer s) n) (ws_main s) = Some l).
  { rewrite <- El. unfold count_write. by destruct (0 <? n). }
  split; cbn.
  { unfold count_write. by destruct (0 <? n). }
  { intros w'. specialize (Hge w'). specialize (Hn w'). lia. }
  unfold small_counts, count_bound in *. cbn. rewrite El'. rewrite El in Hc. cbn in *. intros Hsm.
  destruct Hc as [H0 Hle].
  { intros w1 w2. specialize (Hsm w1 w2). pose proof (Hge w1). pose proof (Hge w2). lia. }
  specialize (Hle _ eq_refl). rewrite counted_sum_add, decide_True by done.
  assert (counted_sum (ws_counted s) l + k < 2 ^ 63).
  { rewrite <- (decide_True (P := w ∈ l) k 0) by done. rewrite <- counted_sum_add by done. unfold counted_sum.
    destruct l as [|w1 [|w2 [|]]]; cbn in *; try lia.
    - pose proof (Hsm w1 w1). pose proof (Hge w1). pose proof (Hn w1). lia.
    - pose proof (Hsm w1 w2). lia. }
  unfold count_write. destruct (Z.ltb_spec 0 n); cbn.
  - rewrite Hs. assert (n * bs = k) as -> by (unfold k; nia).
    assert (0 <= k) by lia. pose proof (counted_sum_nonneg (ws_counted s) l Hn). rewrite (i64_small k) by lia. rewrite i64_small by lia.
    split; [lia|]. intros b [= <-]. lia.
  - split; [done|]. intros b [= <-]. lia.
Qed.

Lemma wstep_count bs s s' : 0 <= bs -> winv s -> count_inv bs s -> wstep s s' -> count_inv bs s'.
Proof.
  intros Hbs Hi Hc Hs. pose proof (ci_nonneg _ _ Hc) as Hn. destruct Hs; cbn in *.
  all: try (by eapply count_inv_write).
  all: try (eapply count_inv_same; [exact Hc|done..|]; unfold count_bound; cbn; eauto using Z.le_refl; fail).
  all: unfold push_swap in *.
  - destruct (wt_activeWriter (ws_writer s)) eqn:Ea; [done|]. injection H1 as <-.
    eapply count_inv_same; [exact Hc|done..|]. unfold count_bound; cbn. rewrite H. cbn. rewrite Ea.
    intros b' [= <-]. eexists. split; [done|]. unfold counted_sum; cbn. specialize (Hn w). lia.
  - destruct (wt_activeWriter (ws_writer s)) eqn:Ea; [|done]. injection H1 as <- ->.
    eapply count_inv_same; [exact Hc|done..|]. unfold count_bound; cbn. rewrite H. cbn. rewrite Ea.
    intros b' [= <-]. eexists. split; [done|]. unfold counted_sum; cbn. specialize (Hn w). lia.
  - eapply count_inv_same; [exact Hc|done..|]. unfold count_bound; cbn. rewrite H.
    destruct wg; cbn; eauto using Z.le_refl.
  - eapply count_inv_same; [exact Hc|done..|]. unfold count_bound; cbn. rewrite H. cbn. eauto using Z.le_refl.
  - eapply count_inv_reset; [exact Hc|done..|]. unfold count_bound; cbn. intros b' [= <-].
    by apply counted_sum_nonneg.
  - destruct wg; (eapply count_inv_same; [exact Hc|done..|]); unfold count_bound; cbn; rewrite H; cbn;
      eauto using Z.le_refl.
  - eapply count_inv_same; [exact Hc|done..|]. unfold count_bound; cbn. rewrite H. cbn. eauto using Z.le_refl.
  - destruct (wt_activeWriter (ws_writer s)) as [w|] eqn:Ea.
    + eapply count_inv_reset; [exact Hc|unfold close_swap; cbn; by rewrite ?Ea..|]. unfold count_bound; cbn.
      destruct wg; cbn; [|done]. intros b' [= <-]. specialize (Hn w). lia.
    + eapply count_inv_same; [exact Hc|unfold close_swap; cbn; by rewrite ?Ea..|]. unfold count_bound; cbn.
      rewrite H. cbn. rewrite ?Ea. destruct wg; cbn; [|done]. eauto using Z.le_refl.
  - by eapply count_inv_same; [exact Hc|done..|].
  - eapply count_inv_same; [exact Hc|done..|]. by destruct wg.
  - by eapply count_inv_same; [exact Hc|done..|].
  - by eapply count_inv_same; [exact Hc|done..|].
  - by eapply count_inv_same; [exact Hc|done..|].
  - by eapply count_inv_same; [exact Hc|done..|].
Qed.

Lemma count_inv_initial bs : count_inv bs (writer_initial bs).
Proof. split; [done|done|]. intros _. split; [done|]. intros b [= <-]. done. Qed.

End invariant.
