(* ===== verification/TrackerWriterExample.v ===== *)
(** * A run of the writer tracker

    A write to a first log, a rotation to a second one whose goroutine closes
    the first, and the removal of the first log. *)
From S2P Require Import Prelude BlockReader WaitBarrier TrackerWriter TrackerWriterInv.
From stdpp Require Import strings.
Local Open Scope Z_scope.

(** A log that only counts the blocks it is given. *)
#[local] Instance counting_writer : TrackedWriter Z := {|
  tw_WriteBlocks x buf _ := Ret (x + len buf / 2, len buf / 2, None);
  tw_Close x := Ret (x, None);
  tw_Flush x := Ret (x, None);
  tw_CloseWriter x := Ret (x, None);
  tw_Name _ := "log"%string;
  tw_Written x := x;
|}.

Abbreviation run_state := (wstate positive Z).

(** A step of the run, with the state after it evaluated. *)
Tactic Notation "run_one" uconstr(c) :=
  eapply rtc_l; [eapply c; try (vm_compute; reflexivity); try (apply (bool_decide_unpack _); vm_compute; exact I); try set_solver|];
  lazymatch goal with
  | |- rtc _ ?s _ => let s' := eval vm_compute in s in replace s with s' by (vm_compute; reflexivity)
  end.

(** The write is counted, and the rotation has reset nothing yet. *)
Lemma example_written :
  exists s : run_state, rtc wstep (writer_initial 2) s /\ small_counts s /\
    wt_activeWriter (ws_writer s) = Some 1%positive /\ retiring (ws_main s) = None /\
    wt_LogWritten (ws_writer s) = 4 /\ closing (ws_main s) = false /\
    ws_writer s = MkWriter 2 (Some 1%positive) 4 [].
Proof.
  eexists. split.
  - run_one (w_push_first (writer_initial 2) 1%positive 0).
    run_one (w_write_begin _ [1; 2; 3; 4] 5).
    run_one (w_write_call _ 0%nat).
    run_one (w_write_count _ 0%nat).
    apply rtc_refl.
  - split; [|by vm_compute]. intros w1 w2. cbn. repeat case_match; done.
Qed.


(** The first log has been retired, closed and removed. *)
Lemma example_run_removed :
  exists s : run_state, rtc wstep (writer_initial 2) s /\ 1%positive ∈ ws_removed s.
Proof.
  eexists. split.
  - run_one (w_push_first (writer_initial 2) 1%positive 0).
    run_one (w_write_begin _ [1; 2; 3; 4] 5).
    run_one (w_write_call _ 0%nat).
    run_one (w_write_count _ 0%nat).
    run_one (w_push_swap _ 2%positive 0).
    run_one w_push_enter.
    run_one (w_write_done _ 0%nat).
    run_one w_push_wake.
    run_one w_push_return.
    run_one (w_remove _ [1%positive]).
    run_one (w_closer_run _ 0%nat).
    run_one (w_closer_done _ 0%nat).
    run_one w_remove_wake.
    apply rtc_refl.
  - cbn. set_solver.
Qed.

