(* ===== verification/WriteLogState.v ===== *)
(** * The life of a write log

    The states a write log of [internal/block/write_log.go] goes through in a
    device: created, written to, closed for writing by a rotation, closed, and
    opened again from the bytes of its file. [log_state] is the invariant that
    each operation keeps; it holds the sequence of writes the log has taken. *)
From S2P Require Import Prelude Radix RangeMap ExtentRangeMap BlockReader GoStd Adaptor.
From S2P Require Import WalIndex WalFormat WalWriter WalLog WalReader WalLoad WalClose WalTheorems WriteLog.
From stdpp Require Import strings.
Local Open Scope Z_scope.

(** Flushing or closing a file does not change what has been written to it. *)
Class CloserLaws (F : Type) `{!LogFile F} `{!LogFileLaws F} `{!Closer F} := {
  c_Close_out f f' err : c_Close f = (f', err) -> io_out f' = io_out f;
  c_Flush_out flush f f' err : c_Flush = Some flush -> flush f = (f', err) ->
    io_out f' = io_out f /\ (io_reliable f -> io_reliable f');
}.

Section state.
Context {F : Type} `{!LogFile F} `{!LogFileLaws F} `{!Closer F} `{!CloserLaws F} `{!WalCodec} `{!WalCodecLaws}.
Context {T : Type} `{!RadixTree item it_key T} `{!RadixTreeLaws item it_key T}.
Context {G : Type} `{!Closer G}.
Context (bs nb : Z) (Hbs : 0 < bs) (Hnb : 0 <= nb) (Hbytes : nb * bs < 2 ^ 63).
Implicit Types (l : WriteLog F T G) (ws : list (Z * bytes)).

(** The writer and the file of a log that has taken the writes [ws]: open, or
    closed with its index at the end of the file. *)
Inductive writer_state ws : bool -> Writer T -> F -> Prop :=
  | state_empty b f : ws = [] -> io_out f = [] -> io_reliable f -> writer_state ws b NewWriter f
  | state_open hb w f :
      header_buf hb -> ws <> [] -> writer_ok hb (log_write bs <$> ws) w f -> io_reliable f ->
      writer_state ws true w f
  | state_closed w f :
      ws <> [] -> ww_open w = false -> ww_offset w <> 0 ->
      index_ok (ww_index w) (io_out f) (ops_view (log_write bs <$> ws)) ->
      end_spec (ops_view (log_write bs <$> ws)) (ww_end w) ->
      (exists r : Reader T, NewReader (MkFile (io_out f) false) (len (io_out f)) = Ret (r, None) /\
         log_reader_ok r (ops_view (log_write bs <$> ws))) ->
      writer_state ws false w f.

(** [b] tells whether the log can still take writes. *)
Definition log_state ws (b : bool) l : Prop :=
  Forall (write_ok bs nb) ws /\ wl_blockSize l = bs /\
  exists w f, wl_src l = inl (NewReadableLog f w) /\ writer_state ws b w f.

(** The bytes of the file of a log that is being written. *)
Definition wl_file l : bytes :=
  match wl_src l with inl log => io_out (rl_logFile log) | inr _ => [] end.

(** The index fits the 32-bit size field of the footer. *)
Definition closable l : Prop :=
  match wl_src l with
  | inl log => len (io_out (rl_logFile log)) < 2 ^ 63 /\
               len (index_section (index_ranges (ww_index (rl_logWriter log)))) < 2 ^ 32
  | inr _ => True
  end.

Lemma log_state_ops ws : Forall (write_ok bs nb) ws ->
  Forall op_ok (log_write bs <$> ws) /\ Forall is_write (log_write bs <$> ws).
Proof.
  intros Hws. split; apply Forall_fmap; (eapply Forall_impl; [exact Hws|]); intros y Hy; [|done].
  by eapply log_write_ok.
Qed.

Lemma log_state_new f name : io_reliable f -> io_out f = [] -> log_state [] true (NewWriteLogFromWriter f bs name).
Proof. intros Hrel Hout. split; [constructor|]. split; [done|]. do 2 eexists. split; [done|]. by constructor. Qed.

(** A write. *)
Lemma wl_WriteBlocks_run l off buf l' :
  wl_blockSize l = bs -> len buf / bs * bs = len buf -> wl_run l [(off, buf)] = Ret (l', None) ->
  wl_WriteBlocks l buf off = Ret (l', len buf / bs, None).
Proof.
  intros Hs Hl. cbn. intros ([[l1 n] [e|]] & E & E')%bind_Ret; [done|]. rewrite E.
  assert (wl_blockSize l1 = bs) as Hs1.
  { unfold wl_WriteBlocks in E. destruct (wl_src l); [|done]. by apply bind_Ret in E as ([[? ?] ?] & _ & [= <- _ _]). }
  rewrite Hs1 in E'. destruct (Z.eqb_spec n (len buf / bs)) as [->|]; [|done]. by injection E' as <-.
Qed.

Lemma log_state_write ws l off buf :
  log_state ws true l -> write_ok bs nb (off, buf) ->
  exists l', wl_WriteBlocks l buf off = Ret (l', len buf / bs, None) /\ log_state (ws ++ [(off, buf)]) true l' /\
    wl_name l' = wl_name l /\ (ws <> [] -> wl_file l' = wl_file l ++ op_entry (log_write bs (off, buf))).
Proof.
  intros (Hws & Hs & w & f & Esrc & Hst) Hw.
  assert (Hws' : Forall (write_ok bs nb) (ws ++ [(off, buf)])) by (apply Forall_app; by rewrite Forall_singleton).
  assert (exists w' f', run_ops w f (log_write bs <$> [(off, buf)]) = Ret (w', f', None) /\
            writer_state (ws ++ [(off, buf)]) true w' f' /\
            (ws <> [] -> io_out f' = io_out f ++ op_entry (log_write bs (off, buf)))) as (w' & f' & E & Hst' & Hgrow).
  { pose proof (log_write_ok bs nb Hbs Hbytes _ Hw) as Hop. inversion Hst as [b g -> Hout Hrel|hb v g Hhb Hne Hok Hrel|]; subst.
    - destruct header_buf_exists as [hb Hhb].
      destruct (run_ops_new (T := T) hb f (log_write bs (off, buf)) [] Hhb Hrel Hout) as (w' & f' & E & Hok & Hrel');
        [by apply Forall_singleton|].
      exists w', f'. split; [done|]. split; [by apply (state_open _ hb)|done].
    - destruct (run_ops_ok hb (log_write bs <$> ws) [log_write bs (off, buf)] w f) as (w' & f' & E & Hok' & Hrel');
        [done|done|by apply log_state_ops|by apply Forall_singleton|].
      exists w', f'. split; [done|]. split; [apply (state_open _ hb); [done|by destruct ws|by rewrite fmap_app|done]|].
      intros _. by rewrite (wo_out _ _ _ _ Hok'), (wo_out _ _ _ _ Hok), log_bytes_snoc. }
  pose proof (wl_run_ops (G := G) bs nb Hbs [(off, buf)] w w' f f' (wl_name l) (wl_fileSize l)) as Hrun.
  destruct l as [src bs' name size]. cbn in *. subst.
  destruct Hw as (n & Hn & Hl & Hrest). exists (MkWriteLog (inl (NewReadableLog f' w')) bs name size).
  split; [|split; [|split; [done|exact Hgrow]]].
  - apply wl_WriteBlocks_run; [done|cbn in Hl; rewrite Hl, Z.div_mul by lia; lia|]. apply Hrun; [|done].
    repeat constructor. exists n. split; [done|]. by split.
  - split; [done|]. split; [done|]. by do 2 eexists.
Qed.

(** A flush. *)
Lemma writer_state_file ws b w f f' :
  writer_state ws b w f -> io_out f' = io_out f -> (io_reliable f -> io_reliable f') -> writer_state ws b w f'.
Proof.
  intros Hst Ho Hr. destruct Hst as [b f -> Hout Hrel|hb w f Hhb Hne [? ? Hwo Hof Hix ? ?] Hrel|w f Hne Hop Hof Hi He Hrd].
  - constructor; [done|congruence|auto].
  - apply (state_open _ hb); [done|done| |auto]. split; try done; rewrite Ho; done.
  - constructor; try done; by rewrite Ho.
Qed.

Lemma log_state_flush ws b l l' err :
  log_state ws b l -> wl_Flush l = (l', err) -> log_state ws b l' /\ wl_name l' = wl_name l /\ wl_file l' = wl_file l.
Proof.
  intros (Hws & Hs & w & f & Esrc & Hst). unfold wl_Flush. rewrite Esrc. destruct c_Flush as [flush|] eqn:Ef.
  - cbn [rl_logFile rl_logWriter]. destruct (flush f) as [f' e] eqn:E. intros [= <- _].
    destruct (c_Flush_out flush f f' e Ef E) as [Ho Hr].
    split; [|split; [done|unfold wl_file; cbn; by rewrite Esrc, Ho]].
    split; [done|]. split; [done|]. do 2 eexists. split; [done|]. by eapply writer_state_file.
  - intros [= <- _]. split; [|done]. split; [done|]. split; [done|]. by do 2 eexists.
Qed.

(** Closing the writer: of the log, and of the log with its flush. *)
Lemma writer_state_close ws b w f :
  Forall (write_ok bs nb) ws -> writer_state ws b w f ->
  (b = true -> len (io_out f) < 2 ^ 63 /\ len (index_section (index_ranges (ww_index w))) < 2 ^ 32) ->
  exists w' f' err, ww_CloseWriter w f = Ret (w', f', err) /\ writer_state ws false w' f'.
Proof.
  intros Hws Hst Hsz. destruct (log_state_ops ws Hws) as [Hop Hwr].
  inversion Hst as [b' g -> Hout Hrel|hb v g Hhb Hne Hok Hrel|v g Hne Hcl Hoff Hi He Hrd]; subst.
  - exists NewWriter, f, None. split; [done|]. by constructor.
  - destruct (Hsz eq_refl) as [Hlen Hsec]. destruct (writer_closed_reads hb _ w f Hhb Hok Hrel Hop Hwr Hlen Hsec) as (w' & f' & E & Hcl & (x & Hx) & Hr).
    destruct (ww_CloseWriter_keeps _ _ _ _ _ E) as (Hi & Ho & He).
    exists w', f', None. split; [done|]. constructor; [done|done| | | |].
    + rewrite Ho, (wo_offset _ _ _ _ Hok), (wo_out _ _ _ _ Hok). unfold log_bytes, log_header.
      rewrite !len_app. change (len HeaderMagic) with 8. pose proof (len_nonneg (le_put 4 (len hb))).
      pose proof (len_nonneg hb). pose proof (len_nonneg (mjoin (op_entry <$> (log_write bs <$> ws)))). lia.
    + rewrite Hi, Hx. apply index_ok_mono, Hok.
    + rewrite He. apply Hok.
    + destruct (Hr (len (io_out f'))) as (r & Er & Hrr & _); [by right|]. eauto.
  - exists w, f, (Some ErrWriterClosed). split; [|done]. unfold ww_CloseWriter. by rewrite Hcl.
Qed.

Lemma log_state_CloseWriter ws b l :
  log_state ws b l -> (b = true -> closable l) ->
  exists l' err, wl_CloseWriter l = Ret (l', err) /\ log_state ws false l' /\ wl_name l' = wl_name l.
Proof.
  intros (Hws & Hs & w & f & Esrc & Hst) Hc. unfold closable in Hc. rewrite Esrc in Hc. cbn in Hc.
  destruct (writer_state_close ws b w f Hws Hst) as (w' & f' & err & E & Hst'); [done|].
  unfold wl_CloseWriter, rl_CloseWriter. rewrite Esrc. cbn [rl_logFile rl_logWriter]. rewrite E.
  cbn [mbind outcome_bind]. set (l1 := wl_set_src l (inl (NewReadableLog f' w'))).
  assert (Hl1 : log_state ws false l1).
  { split; [done|]. split; [done|]. by do 2 eexists. }
  destruct err as [e|]; [eauto|].
  destruct (wl_Flush l1) as [l2 e] eqn:Ef. destruct (log_state_flush ws false l1 l2 e Hl1 Ef) as (H1 & H2 & _).
  exists l2, e. split; [done|]. split; [done|]. by rewrite H2.
Qed.

Lemma log_state_Close ws b l :
  log_state ws b l -> (b = true -> closable l) ->
  exists l' err, wl_Close l = Ret (l', err) /\ wl_name l' = wl_name l /\ (wl_Written l' = 0 <-> ws = []) /\
    exists w f, writer_state ws false w f /\ wl_file l' = io_out f.
Proof.
  intros (Hws & Hs & w & f & Esrc & Hst) Hc. unfold closable in Hc. rewrite Esrc in Hc. cbn in Hc.
  destruct (writer_state_close ws b w f Hws Hst) as (w' & f' & err & E & Hst'); [done|].
  unfold wl_Close, rl_CloseWriter. rewrite Esrc. cbn [rl_logFile rl_logWriter]. rewrite E.
  cbn [mbind outcome_bind rl_logFile rl_logWriter]. destruct (c_Close f') as [f2 e] eqn:Ec.
  do 2 eexists. split; [done|]. split; [done|]. split.
  - unfold wl_Written. cbn. unfold ww_LogSize. by inversion Hst'.
  - exists w', f'. split; [done|]. unfold wl_file. cbn. by eapply c_Close_out.
Qed.

(** What the log serves. *)
Lemma log_state_reads ws b l : log_state ws b l -> reader_ok bs nb l (writes_content bs ws).
Proof.
  intros (Hws & Hs & w & f & Esrc & Hst).
  assert (Hr : log_reader_ok (NewReadableLog f w) (ops_view (log_write bs <$> ws))).
  { inversion Hst as [b' g -> Hout Hrel|hb v g Hhb Hne Hok Hrel|v g Hne Hcl Hoff Hi He Hrd]; subst.
    - apply index_reads; [apply index_ok_zero|by left].
    - by eapply writer_reads.
    - by apply index_reads. }
  destruct (log_serves_blocks bs nb Hbs Hnb Hbytes _ ws Hws Hr) as [H1 H2 H3 H4 H5].
  destruct l as [src bs' name size]. cbn in *. subst. by split.
Qed.

Lemma log_state_written ws b l : log_state ws b l -> wl_Written l = 0 <-> ws = [].
Proof.
  intros (Hws & Hs & w & f & Esrc & Hst). unfold wl_Written. rewrite Esrc. unfold rl_Written. cbn. unfold ww_LogSize.
  inversion Hst as [b' g -> Hout Hrel|hb v g Hhb Hne Hok Hrel|v g Hne Hcl Hoff Hi He Hrd]; subst; [done| |done].
  split; [|done]. rewrite (wo_offset _ _ _ _ Hok), (wo_out _ _ _ _ Hok). unfold log_bytes, log_header.
  rewrite !len_app. change (len HeaderMagic) with 8. pose proof (len_nonneg (le_put 4 (len hb))).
  pose proof (len_nonneg hb). pose proof (len_nonneg (mjoin (op_entry <$> (log_write bs <$> ws)))). lia.
Qed.

(** ** Opening the file again *)

(** A log opened from the bytes [b] of a file. *)
Record log_opened (b : bytes) ws l : Prop := {
  lop_reads : reader_ok bs nb l (writes_content bs ws);
  lop_written : wl_Written l = len b;
  lop_src : exists r c, wl_src l = inr (r, c);
}.

(** The bytes of a file that open as a log with the writes [ws]. *)
Definition file_opens (b : bytes) ws : Prop :=
  Forall (write_ok bs nb) ws /\ (b = [] -> ws = []) /\
  forall (c : G) name, exists l, NewWriteLogFromReader (MkFile b false) c (len b) bs name = Ret (inl l) /\
    log_opened b ws l /\ wl_name l = name.

Lemma writer_state_opens ws b w f :
  Forall (write_ok bs nb) ws -> writer_state ws b w f -> (b = true -> no_footer (io_out f)) ->
  file_opens (io_out f) ws.
Proof.
  intros Hws Hst Hnf. destruct (log_state_ops ws Hws) as [Hop Hwr].
  assert (exists (r : Reader T) err, NewReader (MkFile (io_out f) false) (len (io_out f)) = Ret (r, err) /\
    (err = None \/ err = Some ErrUnexpectedEOF) /\ log_reader_ok r (ops_view (log_write bs <$> ws)) /\
    (io_out f = [] -> ws = [])) as (r & err & E & He & Hr & Hemp).
  { inversion Hst as [b' g -> Hout Hrel|hb v g Hhb Hne Hok Hrel|v g Hne Hcl Hoff Hi He (r & Er & Hr)]; subst.
    - rewrite Hout. do 2 eexists. split; [reflexivity|]. split; [by right|]. split; [|done].
      apply (reader_reads _ _ 0); [done|apply index_ok_zero|by left].
    - destruct (NewReader_scan (T := T) hb _ [] (len (io_out f)) Hhb Hop Hwr) as (ix & end_ & fuel & Hi & He & E).
      { right. rewrite app_nil_r. rewrite (wo_out _ _ _ _ Hok) in *. split; [done|]. by apply Hnf. }
      rewrite app_nil_r, <- (wo_out _ _ _ _ Hok) in E. rewrite E. cbn. do 2 eexists. split; [done|]. split; [by left|].
      split.
      + rewrite app_nil_r, <- (wo_out _ _ _ _ Hok) in Hi. by apply (reader_reads _ _ end_).
      + rewrite (wo_out _ _ _ _ Hok). unfold log_bytes, log_header. intros [[H1 _]%app_eq_nil _]%app_eq_nil. done.
    - exists r, None. split; [done|]. split; [by left|]. split; [done|]. intros Hout. exfalso.
      rewrite Hout in Er. by vm_compute in Er. }
  split; [done|]. split; [done|]. intros c name. unfold NewWriteLogFromReader. rewrite E. cbn [mbind outcome_bind].
  exists (MkWriteLog (inr (r, c)) bs name (len (io_out f))).
  split; [by destruct He as [->| ->]|]. split; [|done]. split; [|done|eauto].
  destruct (log_serves_blocks bs nb Hbs Hnb Hbytes r ws Hws Hr) as [H1 H2 H3 H4 H5]. by split.
Qed.

Lemma log_state_opens ws b l :
  log_state ws b l -> (b = true -> no_footer (wl_file l)) -> file_opens (wl_file l) ws.
Proof.
  intros (Hws & Hs & w & f & Esrc & Hst). unfold wl_file. rewrite Esrc. cbn. by apply (writer_state_opens _ b w).
Qed.
End state.
