(* ===== verification/WriteLogSync.v ===== *)
(** * What a flush of a write log makes durable

    [Flush] of [internal/block/write_log.go] syncs the file of the log. A loss of
    power leaves at least the bytes that were synced, and any number of those
    written since. [written_since] separates the writes of a log into those before
    the last flush and those after it, with the length of the file after each;
    [written_since_cut] says which writes a file that was cut opens with. *)
From S2P Require Import Prelude Radix RangeMap ExtentRangeMap BlockReader GoStd Adaptor.
From S2P Require Import WalIndex WalFormat WalWriter WalLog WalReader WalLoad WalTheorems WriteLog WriteLogState.
From stdpp Require Import strings list.
Local Open Scope Z_scope.

(** [io_synced]: the number of bytes of the file that a loss of power leaves.
    Writing keeps them; [Flush] adds the bytes written so far, if the file does
    not fail. *)
Class SyncFile (F : Type) `{!LogFile F} `{!LogFileLaws F} `{!Closer F} := {
  io_synced : F -> Z;
  io_Write_synced (f : F) p f' n err : io_Write f p = (f', n, err) -> io_synced f <= io_synced f';
  lf_WriteMany_synced (f : F) ps f' n err : lf_WriteMany f ps = (f', n, err) -> io_synced f <= io_synced f';
  c_Flush_synced : exists flush, c_Flush = Some flush /\ forall (f f' : F) err,
    flush f = (f', err) -> io_reliable f -> len (io_out f') <= io_synced f';
}.

(** The writes after the last flush, each with the length of the file after it. *)
Abbreviation recent := (list ((Z * bytes) * Z)).

(** The writes whose entries are complete in the first [k] bytes. *)
Definition survivors (k : Z) (since : recent) : list (Z * bytes) := (filter (fun e => e.2 <= k) since).*1.

(** The first [k] bytes do not end inside the offset field of an entry, with
    which a log cannot be opened. *)
Definition clean_cut (k : Z) (since : recent) : Prop :=
  Forall (fun e => ~ (e.2 - len e.1.2 - 8 <= k < e.2 - len e.1.2)) since.

Lemma survivors_split k (s1 s2 : recent) :
  Forall (fun e => e.2 <= k) s1 -> Forall (fun e => k < e.2) s2 -> survivors k (s1 ++ s2) = s1.*1.
Proof.
  intros H1 H2. unfold survivors. rewrite filter_app, Prelude.filter_all, Prelude.filter_none, app_nil_r; [done| |].
  - intros e He. rewrite Forall_forall in H2. specialize (H2 e He). cbn in *. lia.
  - intros e He. rewrite Forall_forall in H1. auto.
Qed.

Section sync.
Context {F : Type} `{!LogFile F} `{!LogFileLaws F} `{!Closer F} `{!CloserLaws F} `{!SyncFile F} `{!WalCodec} `{!WalCodecLaws}.
Context {T : Type} `{!RadixTree item it_key T} `{!RadixTreeLaws item it_key T}.
Context {G : Type} `{!Closer G}.

(** ** Writing keeps what is synced *)
Lemma copy_loop_synced fuel : forall e (f : F) n f' n' err,
  copy_loop fuel e f n = Ret (f', n', err) -> io_synced f <= io_synced f'.
Proof.
  induction fuel as [|fuel IH]; intros e f n f' n' err; [done|]. cbn [copy_loop].
  intros ([[[e1 buf] nr] er] & _ & E)%bind_Ret. destruct (0 <? nr).
  - destruct (io_Write f (take (Z.to_nat nr) buf)) as [[f1 nw] ew] eqn:Ew. apply io_Write_synced in Ew.
    destruct ew as [ew|]; [by injection E as <- _ _|]. destruct (nr =? nw); [|by injection E as <- _ _].
    destruct er as [[]|]; try (by injection E as <- _ _). apply IH in E. lia.
  - destruct er as [[]|]; try (injection E as <- _ _; lia). by apply IH in E.
Qed.

Lemma le_WriteTo_synced e (f : F) f' n err : le_WriteTo e f = (f', n, err) -> io_synced f <= io_synced f'.
Proof.
  unfold le_WriteTo. destruct (io_Write f (le_headerBuf e)) as [[f1 n1] e1] eqn:E1. apply io_Write_synced in E1.
  destruct e1; [by intros [= <- _ _]|]. destruct (len (le_data e) =? 0); [by intros [= <- _ _]|].
  destruct (io_Write f1 (le_data e)) as [[f2 n2] e2] eqn:E2. apply io_Write_synced in E2. intros [= <- _ _]. lia.
Qed.

Lemma writeLogEntry_synced rf e (f : F) f' err : writeLogEntry rf e f = Ret (f', err) -> io_synced f <= io_synced f'.
Proof.
  unfold writeLogEntry, ReadFrom. destruct rf.
  - intros ([[f1 n] e1] & E & [= <- _])%bind_Ret. by eapply copy_loop_synced.
  - destruct (le_WriteTo e f) as [[f1 n] e1] eqn:E. intros [= <- _]. by eapply le_WriteTo_synced.
Qed.

Lemma writeHeader_synced (w : Writer T) (f : F) w' f' err : writeHeader w f = (w', f', err) -> io_synced f <= io_synced f'.
Proof.
  unfold writeHeader. destruct (ww_once w); [by intros [= _ <- _]|]. destruct (negb (ww_open w)); [by intros [= _ <- _]|].
  destruct (wh_marshal wal_header); [|by intros [= _ <- _]].
  destruct (lf_WriteMany f _) as [[f1 n] e] eqn:E. apply lf_WriteMany_synced in E. by intros [= _ <- _].
Qed.

Lemma ww_WriteAt_synced (w : Writer T) (f : F) p off w' f' n err :
  ww_WriteAt w f p off = Ret (w', f', n, err) -> io_synced f <= io_synced f'.
Proof.
  unfold ww_WriteAt. destruct (len p =? 0); [by intros [= _ <- _ _]|].
  destruct (MaxWriteSize <? len p); [by intros [= _ <- _ _]|]. destruct (writeHeader w f) as [[w1 f1] e1] eqn:Eh.
  apply writeHeader_synced in Eh. destruct e1; [by intros [= _ <- _ _]|].
  destruct (makeLogEntry _ _ _ _) as [eb hs]. destruct (negb (ww_open w1)); [by intros [= _ <- _ _]|].
  intros ([f2 e2] & Ee & E)%bind_Ret. apply writeLogEntry_synced in Ee. destruct e2; [injection E as _ <- _ _; lia|].
  apply bind_Ret in E as (ix & _ & [= _ <- _ _]). lia.
Qed.

Implicit Types (l : WriteLog F T G) (ws : list (Z * bytes)) (since : recent).

(** The bytes of the file of a log that are synced. *)
Definition wl_synced l : Z := match wl_src l with inl log => io_synced (rl_logFile log) | inr _ => 0 end.

Lemma wl_WriteBlocks_synced l buf off l' n err :
  wl_WriteBlocks l buf off = Ret (l', n, err) -> wl_synced l <= wl_synced l'.
Proof.
  unfold wl_WriteBlocks, wl_synced. destruct (wl_src l) as [log|x] eqn:Es; [|intros [= <- _ _]; by rewrite Es].
  intros ([[log1 m] e] & E & [= <- _ _])%bind_Ret. cbn. unfold WriteBlocks in E.
  destruct (negb _); [by injection E as <- _ _|]. apply bind_Ret in E as ([[log2 m2] e2] & E & [= <- _ _]).
  unfold rl_WriteAt in E. apply bind_Ret in E as ([[[w f] m3] e3] & E & [= <- _ _]). by eapply ww_WriteAt_synced.
Qed.

Lemma wl_Flush_synced l l' err log :
  wl_src l = inl log -> io_reliable (rl_logFile log) -> wl_Flush l = (l', err) -> len (wl_file l') <= wl_synced l'.
Proof.
  intros Es Hr. unfold wl_Flush. rewrite Es. destruct c_Flush_synced as (flush & -> & Hf).
  destruct (flush (rl_logFile log)) as [f e] eqn:E. intros [= <- _]. unfold wl_file, wl_synced. cbn. by eapply Hf.
Qed.

(** ** The writes since the last flush *)
Context (bs nb : Z) (Hbs : 0 < bs) (Hnb : 0 <= nb) (Hbytes : nb * bs < 2 ^ 63).

(** The length of the entries of writes. *)
Definition entries_len ws : Z := len (mjoin (op_entry <$> (log_write bs <$> ws))).

Lemma entries_len_app ws1 ws2 : entries_len (ws1 ++ ws2) = entries_len ws1 + entries_len ws2.
Proof. unfold entries_len. by rewrite !fmap_app, join_app, len_app. Qed.

Lemma entries_len_cons w ws : entries_len (w :: ws) = 16 + len w.2 + entries_len ws.
Proof.
  unfold entries_len. rewrite !fmap_cons. cbn [mjoin list_join]. rewrite len_app. cbn [log_write op_entry].
  by rewrite len_data_entry.
Qed.

Lemma entries_len_nonneg ws : 0 <= entries_len ws.
Proof. apply len_nonneg. Qed.

Lemma len_log_bytes hb ws : len (log_bytes hb (log_write bs <$> ws)) = len (log_header hb) + entries_len ws.
Proof. apply len_app. Qed.

(** The writes [ws0] before the last flush and those after it. *)
Record written_since ws0 since l : Prop := {
  wsi_state : log_state bs nb (ws0 ++ since.*1) true l;
  wsi_sizes s1 e s2 : since = s1 ++ e :: s2 -> e.2 = len (wl_file l) - entries_len s2.*1;
  wsi_synced : ws0 = [] \/ len (wl_file l) - entries_len since.*1 <= wl_synced l;
}.

Lemma log_state_empty ws b l : log_state bs nb ws b l -> wl_file l = [] -> b = true -> ws = [].
Proof.
  intros (_ & _ & w & f & Esrc & Hst) Hf ->. unfold wl_file in Hf. rewrite Esrc in Hf. cbn in Hf.
  inversion Hst as [b' g -> _ _|hb v g _ _ Hok _|]; subst; [done|].
  rewrite (wo_out _ _ _ _ Hok) in Hf. unfold log_bytes, log_header in Hf. by apply app_eq_nil in Hf as [[? _]%app_eq_nil _].
Qed.

(** The writes that survive are the first ones. *)
Lemma survivors_prefix L k : forall since,
  (forall s1 e s2, since = s1 ++ e :: s2 -> e.2 = L - entries_len s2.*1) -> survivors k since `prefix_of` since.*1.
Proof.
  induction since as [|e since IH]; intros Hsz; [done|]. unfold survivors in *. rewrite filter_cons. case_decide as Hk.
  - cbn [fmap list_fmap]. apply prefix_cons, IH. intros s1 e' s2 Es. apply (Hsz (e :: s1)). by rewrite Es.
  - rewrite Prelude.filter_none; [apply prefix_nil|]. intros e' (s1 & s2 & Es)%list_elem_of_split Hk'.
    rewrite (Hsz [] e since eq_refl), Es, fmap_app, entries_len_app, fmap_cons, entries_len_cons in Hk.
    rewrite (Hsz (e :: s1) e' s2) in Hk' by (by rewrite Es). pose proof (entries_len_nonneg s1.*1). pose proof (len_nonneg e'.1.2). lia.
Qed.

(** A log that holds nothing, a write and a flush. *)
Lemma written_since_empty ws l : log_state bs nb ws true l -> wl_file l = [] -> ws = [] /\ written_since [] [] l.
Proof.
  intros Hl Hf. pose proof (log_state_empty _ _ _ Hl Hf eq_refl) as ->. split; [done|].
  split; [done| |by left]. by intros [|??] ?? ?.
Qed.

Lemma written_since_write ws0 since l off buf :
  written_since ws0 since l -> write_ok bs nb (off, buf) ->
  exists l', wl_WriteBlocks l buf off = Ret (l', len buf / bs, None) /\ wl_name l' = wl_name l /\
    written_since ws0 (since ++ [(off, buf, len (wl_file l'))]) l'.
Proof.
  intros [Hst Hsz Hsy] Hw. destruct (log_state_write bs nb Hbs Hbytes _ l off buf Hst Hw) as (l' & E & Hst' & Hn & Hgrow).
  exists l'. split; [done|]. split; [done|]. pose proof (wl_WriteBlocks_synced _ _ _ _ _ _ E) as Hm.
  assert (Hlen : ws0 ++ since.*1 <> [] -> len (wl_file l') = len (wl_file l) + (16 + len buf)).
  { intros Hne. rewrite (Hgrow Hne), len_app. cbn [log_write op_entry]. by rewrite len_data_entry. }
  split; rewrite ?fmap_app, ?app_assoc; [done| |].
  - intros s1 e s2 Es. destruct (exists_last (l := e :: s2)) as (s' & e' & Ee); [done|].
    rewrite Ee, app_assoc in Es. apply app_inj_tail in Es as [Es <-].
    destruct s' as [|e0 s']; [injection Ee as -> ->; cbn; rewrite Z.sub_0_r; done|].
    injection Ee as -> ->. rewrite fmap_app, entries_len_app. cbn [fmap list_fmap fst]. rewrite entries_len_cons. cbn [snd].
    rewrite Hlen by (rewrite Es, fmap_app; by destruct ws0, s1).
    rewrite (Hsz _ _ _ Es). change (entries_len []) with 0. lia.
  - destruct Hsy as [?|Hsy]; [by left|]. destruct (decide (ws0 = [])) as [?|Hne]; [by left|]. right.
    rewrite entries_len_app. cbn [fmap list_fmap fst]. rewrite entries_len_cons. change (entries_len []) with 0. cbn [snd].
    rewrite Hlen by (by destruct ws0). lia.
Qed.

Lemma written_since_flush ws0 since l l' err :
  written_since ws0 since l -> wl_Flush l = (l', err) -> written_since (ws0 ++ since.*1) [] l'.
Proof.
  intros [Hst _ _] E. destruct (log_state_flush bs nb _ _ _ _ _ Hst E) as (Hst' & _ & Hf).
  split; [by rewrite app_nil_r|by intros [|??] ?? ?|].
  destruct Hst as (_ & _ & w & f & Es & Hw). right. change (entries_len [].*1) with 0. rewrite Z.sub_0_r.
  eapply wl_Flush_synced; [exact Es| |exact E]. by inversion Hw.
Qed.

(** ** A loss of power *)
Lemma cut_writes hb ws0 since l k ws1 ws2 :
  written_since ws0 since l -> wl_file l = log_bytes hb (log_write bs <$> ws0 ++ since.*1) ->
  (ws0 = [] \/ wl_synced l <= k) -> ws0 ++ since.*1 = ws1 ++ ws2 ->
  (k < len (log_header hb) -> ws1 = []) ->
  (len (log_header hb) <= k -> len (log_header hb) + entries_len ws1 <= k /\
     forall w ws3, ws2 = w :: ws3 -> k < len (log_header hb) + entries_len (ws1 ++ [w])) ->
  exists s1 s2, since = s1 ++ s2 /\ ws1 = ws0 ++ s1.*1 /\ ws2 = s2.*1 /\ ws1 = ws0 ++ survivors k since.
Proof.
  intros [_ Hsz Hsy] Hf Hk Ews Hsmall Hbig. rewrite Hf, len_log_bytes, entries_len_app in Hsz, Hsy.
  assert (Hlong : ws0 = [] \/ len (log_header hb) + entries_len ws0 <= k) by (destruct Hsy, Hk; auto; right; lia).
  assert (exists y, ws1 = ws0 ++ y /\ since.*1 = y ++ ws2) as (y & -> & Ey).
  { apply app_eq_app in Ews as (x & [[-> ->]|[-> ->]]); [|by eauto].
    destruct x as [|w x]; [exists []; by rewrite !app_nil_r|]. exfalso.
    pose proof (entries_len_nonneg x). pose proof (entries_len_nonneg ws1).
    destruct Hlong as [?%app_nil|Hlong]; [naive_solver|]. rewrite entries_len_app, entries_len_cons in Hlong.
    pose proof (len_nonneg w.2). destruct Hbig as [_ Hn]; [lia|]. specialize (Hn w (x ++ since.*1) eq_refl).
    rewrite !entries_len_app, entries_len_cons in Hn. change (entries_len []) with 0 in Hn. lia. }
  apply fmap_app_inv in Ey as (s1 & s2 & -> & -> & ->). exists s1, s2. do 3 (split; [done|]). f_equal. symmetry.
  rewrite !fmap_app in *. apply survivors_split; apply Forall_forall; intros e (sa & sb & ->)%list_elem_of_split.
  - destruct (Z.lt_ge_cases k (len (log_header hb))) as [Hlt|Hge].
    { specialize (Hsmall Hlt). rewrite fmap_app in Hsmall. by destruct ws0, sa. }
    destruct (Hbig Hge) as [Hle _]. rewrite (Hsz sa e (sb ++ s2)) by (by rewrite <- app_assoc).
    rewrite !fmap_app in *. rewrite !entries_len_app in *. pose proof (entries_len_nonneg sb.*1). lia.
  - rewrite (Hsz (s1 ++ sa) e sb) by (by rewrite app_assoc). rewrite !fmap_app, !entries_len_app, fmap_cons, entries_len_cons in *.
    pose proof (entries_len_nonneg sa.*1). pose proof (entries_len_nonneg ws0). pose proof (entries_len_nonneg s1.*1).
    pose proof (len_nonneg e.1.2). destruct (Z.lt_ge_cases k (len (log_header hb))); [lia|].
    destruct Hbig as [_ Hn]; [done|]. destruct sa as [|e0 sa].
    + specialize (Hn e.1 sb.*1 eq_refl). rewrite !entries_len_app, entries_len_cons in Hn. change (entries_len []) with 0 in *. lia.
    + specialize (Hn e0.1 _ eq_refl). rewrite !entries_len_app, entries_len_cons in Hn. change (entries_len []) with 0 in *.
      rewrite fmap_cons, entries_len_cons. pose proof (entries_len_nonneg sa.*1). lia.
Qed.

Lemma written_since_cut ws0 since l k :
  written_since ws0 since l -> 0 <= k <= len (wl_file l) -> wl_synced l <= k -> clean_cut k since ->
  no_footer (take (Z.to_nat k) (wl_file l)) ->
  file_opens (F := F) (T := T) (G := G) bs nb (take (Z.to_nat k) (wl_file l)) (ws0 ++ survivors k since).
Proof.
  intros Hsi Hk Hs Hcl Hnf. pose proof (wsi_state _ _ _ Hsi) as Hst.
  pose proof Hst as (Hws & _ & w & f & Esrc & Hw). assert (Hf : wl_file l = io_out f) by (unfold wl_file; by rewrite Esrc).
  inversion Hw as [b' g Hn Hout Hrel|hb v g Hhb Hne Hok Hrel|]; subst.
  { apply app_nil in Hn as [-> Hn]. apply fmap_nil_inv in Hn as ->. rewrite Hf, Hout in *. rewrite take_nil in *.
    change ([] ++ survivors k []) with ([] ++ ([] : recent).*1). rewrite <- Hout in Hnf |- *.
    by apply (writer_state_opens bs nb Hbs Hnb Hbytes _ true NewWriter). }
  pose proof (wo_out _ _ _ _ Hok) as Ho. rewrite Ho in Hf. rewrite Hf in *. clear Hw Hok Ho.
  destruct (log_state_ops bs nb Hbs Hbytes _ Hws) as [Hop Hwr].
  destruct (prefix_recovers (T := T) hb _ k k Hhb Hop Hwr Hk) as (ops1 & ops2 & r & err & Er & Eops & Hr & _ & Hsmall & Hbig);
    [by right|].
  apply fmap_app_inv in Eops as (ws1 & ws2 & -> & -> & Ews).
  destruct (cut_writes hb ws0 since l k ws1 ws2) as (s1 & s2 & Es & E1 & E2 & <-); try done.
  { by right. }
  { intros Hlt. destruct (Hsmall Hlt) as [?%fmap_nil_inv _]. done. }
  { intros Hge. destruct (Hbig Hge) as (H1 & _ & H2). rewrite len_log_bytes in H1. split; [done|].
    intros x ws3 ->. rewrite <- len_log_bytes, fmap_app. by eapply H2. }
  assert (Hws1 : Forall (write_ok bs nb) ws1) by (rewrite Ews in Hws; by apply Forall_app in Hws as [? _]).
  assert (He : err = None \/ err = Some ErrUnexpectedEOF).
  { destruct (Z.lt_ge_cases k (len (log_header hb))) as [Hlt|Hge]; [destruct (Hsmall Hlt); auto|].
    destruct (Hbig Hge) as (Hle & -> & Hlast). rewrite len_log_bytes in *. unfold torn_error.
    destruct (Z.eqb_spec (k - (len (log_header hb) + entries_len ws1)) 0) as [|Hm]; [by left|]. right.
    destruct s2 as [|e s2].
    { cbn in E2. rewrite Ews, E2, app_nil_r in Hk. lia. }
    rewrite Es in Hcl. apply Forall_app in Hcl as [_ [Hc _]%Forall_cons].
    rewrite (wsi_sizes _ _ _ Hsi s1 e s2 Es), Hf, len_log_bytes, Ews, E2, entries_len_app, fmap_cons, entries_len_cons in Hc.
    destruct (Z.leb_spec 8 (k - (len (log_header hb) + entries_len ws1))); [|done].
    destruct (Z.ltb_spec (k - (len (log_header hb) + entries_len ws1)) 16); [|done]. lia. }
  split; [done|]. split.
  { intros Hb. apply (f_equal len) in Hb. rewrite len_take in Hb by lia. change (len []) with 0 in Hb.
    destruct Hsmall as [?%fmap_nil_inv _]; [|done]. unfold log_header. rewrite !len_app. change (len HeaderMagic) with 8.
    pose proof (len_nonneg (le_put 4 (len hb))). pose proof (len_nonneg hb). lia. }
  intros c name. unfold NewWriteLogFromReader. rewrite len_take by lia. rewrite Er. cbn [mbind outcome_bind].
  exists (MkWriteLog (inr (r, c)) bs name k). split; [by destruct He as [->| ->]|]. split; [|done].
  split; [|by unfold wl_Written; cbn [wl_src wl_fileSize]; rewrite len_take by lia|eauto].
  destruct (log_serves_blocks bs nb Hbs Hnb Hbytes r ws1 Hws1 Hr) as [H1 H2 H3 H4 H5]. by split.
Qed.
End sync.
