(* ===== verification/DataFile.v ===== *)
(** * Data files

    [internal/block/data_file.go]: a table of a device, opened from a blob. The
    reads of the table go through the [truncatedreader] of go-util, which makes
    the table as large as the device. *)
From S2P Require Import Prelude RangeMap BlockReader GoStd Adaptor SparseFormat SparseBuilder SparseReader.
From S2P Require Import SparseTable SparseTheorems SparseBuildFrom.
From S2P Require Import WriteLog.
From stdpp Require Import strings.
Local Open Scope Z_scope.

(** [ReadAt] of [truncatedreader.NewReader(r, size)], by the [ReadAt] of [r]. *)
Class TruncatedReader := {
  tr_ReadAt : (bytes -> Z -> outcome (bytes * Z * option error)) -> Z -> bytes -> Z ->
    outcome (bytes * Z * option error);
}.

(** A read inside the size that the reader serves in full is served with the same
    bytes; [io.EOF] can come with it only at the end. *)
Class TruncatedReaderLaws `{!TruncatedReader} := {
  tr_inside ra size p off q err :
    0 <= off -> off + len p <= size -> ra p off = Ret (q, len p, err) ->
    (err = None \/ err = Some EOF /\ off + len p = size) ->
    exists err', tr_ReadAt ra size p off = Ret (q, len p, err') /\
      (err' = None \/ err' = Some EOF /\ off + len p = size);
}.

Section data_file.
Context `{!HeaderCodec} `{!TruncatedReader} {G : Type} `{!Closer G}.

(** The reader and the size of its [truncatedreader]. *)
Record fixedSparseReader := MkFixedSparseReader {
  fs_sf : Reader;
  fs_size : Z;
}.

#[export] Instance fixed_sparse_reader : HoleReaderAt fixedSparseReader := {
  ReadAt r := tr_ReadAt (ReadAt (fs_sf r)) (fs_size r);
  NextData r := NextData (fs_sf r);
  NextHole r := NextHole (fs_sf r);
}.

(** [df_sf] is nil once the file has been closed. The embedded reader stays; it
    holds the same table, which [Close] has emptied. *)
Record DataFile := MkDataFile {
  df_ba : BlockReader fixedSparseReader;
  df_sf : option Reader;
  df_closer : G;
  df_name : string;
}.

#[export] Instance data_file_reader : BlockHoleReader DataFile := {
  ReadBlocks f := ReadBlocks (df_ba f);
  NextBlockData f := NextBlockData (df_ba f);
  NextBlockHole f := NextBlockHole (df_ba f);
}.

Definition NewSparseBlockFromReader (r : file) (c : G) (blockSize size : Z) (name : string) :
    outcome (DataFile + error) :=
  res ← Load r;
  match res with
  | inr err => Ret (inr err)
  | inl sf =>
      _ ← sr_LogLoadStats sf;
      Ret (inl (MkDataFile (NewBlockReader (MkFixedSparseReader sf size) blockSize) (Some sf) c name))
  end.

Definition df_Close (f : DataFile) : outcome (DataFile * option error) :=
  sf ← of_option (df_sf f);
  let fsa := MkFixedSparseReader (sr_Close sf) (fs_size (abr_r (df_ba f))) in
  let ba := NewBlockReader fsa (abr_blockSize (df_ba f)) in
  let '(c, err) := c_Close (df_closer f) in
  Ret (MkDataFile ba None c (df_name f), err).

Definition df_DataSize (f : DataFile) : outcome Z := sf ← of_option (df_sf f); Ret (sr_DataSize sf).

(** Queries of a closed file panic. *)
Lemma df_closed_panics f f' err off :
  df_Close f = Ret (f', err) ->
  NextBlockData f' off = Panic /\ NextBlockHole f' off = Panic /\ df_DataSize f' = Panic.
Proof.
  unfold df_Close. destruct (df_sf f) as [sf|]; cbn [of_option mbind outcome_bind]; [|done].
  destruct (c_Close (df_closer f)) as [c e]. by intros [= <- <-].
Qed.

(** ** A data file reads as its table *)
Context `{!TruncatedReaderLaws}.
Context (bs nb : Z) (Hbs : 0 < bs) (Hnb : 0 <= nb).

Lemma fixed_sparse_ok (sf : Reader) c :
  hole_reader_ok bs nb sf c -> hole_reader_ok bs nb (MkFixedSparseReader sf (nb * bs)) c.
Proof.
  intros [Hs Hr Hd Hh Hrd]. split; [done|done|exact Hd|exact Hh|].
  intros p off Hoff Hlen Hall. destruct (Hrd p off Hoff Hlen Hall) as (err & E & Herr).
  apply (tr_inside (ReadAt sf) (nb * bs) p off _ err); [done| |done|done].
  assert (Hlast : is_Some (c ((off + len p - 1) / bs))).
  { apply Hall. split; [apply Z.div_le_mono; lia|lia]. }
  apply Hr in Hlast. pose proof (Z.div_mod (off + len p - 1) bs ltac:(lia)).
  pose proof (Z.mod_pos_bound (off + len p - 1) bs Hbs). nia.
Qed.

(** A file whose bytes load as a table with the contents [c]. *)
Definition table_loads (b : bytes) (c : content) : Prop :=
  exists sf, Load (MkFile b false) = Ret (inl sf) /\ sr_LogLoadStats sf = Ret tt /\ hole_reader_ok bs nb sf c.

Lemma NewSparseBlockFromReader_ok b c (g : G) name :
  table_loads b c ->
  exists f, NewSparseBlockFromReader (MkFile b false) g bs (nb * bs) name = Ret (inl f) /\
    reader_ok bs nb f c /\ df_name f = name /\ is_Some (df_sf f).
Proof.
  intros (sf & El & Es & Hok). unfold NewSparseBlockFromReader. rewrite El. cbn [mbind outcome_bind]. rewrite Es.
  cbn [mbind outcome_bind]. eexists. split; [done|]. split; [|done].
  pose proof (block_reader_contract bs nb Hbs Hnb _ c (fixed_sparse_ok sf c Hok)) as [Hs Hr Hd Hh Hrd]. by split.
Qed.
End data_file.
Arguments DataFile G : clear implicits.
