(* ===== verification/Storage.v ===== *)
(** * Local storage

    [internal/storage/local/local.go] on an ideal file system: a directory is a
    map from names to the bytes of the files. A blob is written to a temporary
    file and renamed when its writer is closed, so that it appears at once and
    whole; a log file appears, empty, when it is created. [BlobStore] shows that
    the blob writer does this, with failures, cancellations and other writers. *)
From S2P Require Import Prelude BlockReader GoStd.
From stdpp Require Import strings.
Local Open Scope Z_scope.

(** Names of the files; [os] errors are [fs.ErrNotExist] and [fs.ErrExist]. *)
Abbreviation directory := (gmap string bytes).

(** [openFileReader]: the file and the size that [Stat] gives. *)
Definition openFileReader (d : directory) (name : string) : (file * Z) + error :=
  match d !! name with
  | Some b => inl (MkFile b false, len b)
  | None => inr ErrNotExist
  end.

Definition bs_Open (d : directory) (name : string) : (file * Z) + error := openFileReader d name.
Definition ls_Open (d : directory) (name : string) : (file * Z) + error := openFileReader d name.

(** [blobWriter]: [Create] makes the temporary file, writes append to it, and
    [Close] renames it. *)
Record blobWriter := MkBlobWriter { bw_path : string; bw_temp : bytes }.

Definition bs_Create (name : string) : blobWriter := MkBlobWriter name [].
Definition blob_Write (w : blobWriter) (p : bytes) : blobWriter := MkBlobWriter (bw_path w) (bw_temp w ++ p).
Definition blob_Close (d : directory) (w : blobWriter) : directory := <[bw_path w := bw_temp w]> d.

(** [os.Remove] *)
Definition dir_Remove (d : directory) (name : string) : directory * option error :=
  match d !! name with
  | Some _ => (delete name d, None)
  | None => (d, Some ErrNotExist)
  end.

(** [os.OpenFile] with [O_CREATE|O_EXCL]. *)
Definition ls_Create (d : directory) (name : string) : directory + error :=
  match d !! name with
  | Some _ => inr ErrExist
  | None => inl (<[name := []]> d)
  end.
