(* ===== verification/BlobStore.v ===== *)
(** * Writing a blob

    [blobWriter] of [internal/storage/local/local.go], one call of the operating
    system at a time: a blob is written to a temporary file, and [Close] syncs,
    closes and renames it. The goroutine [waitCancel] removes the temporary file
    when the context is cancelled, also while [Close] runs. Any of the calls can
    fail, and any number of writers can be at work. The theorem relates all that
    to the ideal store of [Storage], in which a blob appears whole when its writer
    is closed. *)
From S2P Require Import Prelude BlockReader GoStd Storage.
From stdpp Require Import strings list relations.
Local Open Scope Z_scope.

(** ** A directory

    A name links to a file; an open file is written also when its name is gone. *)
Record fs := MkFs { fs_names : gmap string positive; fs_data : gmap positive bytes }.

Definition fs_bytes (f : fs) (i : positive) : bytes := default [] (fs_data f !! i).

Definition fs_create (f : fs) (n : string) (i : positive) : fs :=
  MkFs (<[n := i]> (fs_names f)) (<[i := []]> (fs_data f)).
Definition fs_append (f : fs) (i : positive) (p : bytes) : fs :=
  MkFs (fs_names f) (<[i := fs_bytes f i ++ p]> (fs_data f)).
Definition fs_remove (f : fs) (n : string) : fs := MkFs (delete n (fs_names f)) (fs_data f).
Definition fs_rename (f : fs) (a b : string) : option fs :=
  i ← fs_names f !! a; Some (MkFs (<[b := i]> (delete a (fs_names f))) (fs_data f)).

Definition tempBlobPrefix : string := ".temp-".
Definition is_temp (n : string) : bool := String.prefix tempBlobPrefix n.

(** ** The writers *)

(** How far [Close] is: before [Sync], after it, after [File.Close], after
    [os.Rename], with only the deferred calls left, and back. [true] is a nil
    error. *)
Inductive close_phase := Writing | Synced | Closed | Renamed | Returning (ok : bool) | Returned (ok : bool).

(** How far [waitCancel] is: waiting for the context, before [os.Remove], before
    [f.Close], and at its end. *)
Inductive wait_phase := Waiting | Removing | Closing | Finished.

Record writer := MkWriter {
  w_path : string;
  w_temp : string;
  w_phase : close_phase;
  w_wait : wait_phase;
  w_open : bool;
  w_cancelled : bool;
}.

Definition at_close (w : writer) (ph : close_phase) (op : bool) : writer :=
  MkWriter (w_path w) (w_temp w) ph (w_wait w) op (w_cancelled w).
Definition at_wait (w : writer) (wt : wait_phase) (op : bool) : writer :=
  MkWriter (w_path w) (w_temp w) (w_phase w) wt op (w_cancelled w).
Definition cancelled (w : writer) : writer :=
  MkWriter (w_path w) (w_temp w) (w_phase w) (w_wait w) (w_open w) true.

(** [w.File == nil] *)
Definition file_nil (w : writer) : bool :=
  match w_phase w with Returning true | Returned true => true | _ => false end.

(** A writer has the number of its file. *)
Record bstate := MkBstate { b_fs : fs; b_writers : gmap positive writer }.

Definition set_writer (s : bstate) (i : positive) (w : writer) : bstate := MkBstate (b_fs s) (<[i := w]> (b_writers s)).
Definition set_both (f : fs) (s : bstate) (i : positive) (w : writer) : bstate := MkBstate f (<[i := w]> (b_writers s)).

(** What a step does to the blobs that can be opened. *)
Inductive event := Silent | Published (i : positive) (b : blobWriter) | Removed (n : string).

(** The temporary names, which [os.CreateTemp] draws at random, are not drawn
    twice. *)
Inductive bstep : bstate -> event -> bstate -> Prop :=
  | s_Create s i t path :
      fs_data (b_fs s) !! i = None -> fs_names (b_fs s) !! t = None ->
      (forall j w, b_writers s !! j = Some w -> w_temp w <> t) -> is_temp t = true -> is_temp path = false ->
      bstep s Silent (set_both (fs_create (b_fs s) t i) s i (MkWriter path t Writing Waiting true false))
  | s_Write s i w p q :
      b_writers s !! i = Some w -> w_phase w = Writing -> w_open w = true -> q `prefix_of` p ->
      bstep s Silent (MkBstate (fs_append (b_fs s) i q) (b_writers s))
  | s_cancel s i w :
      b_writers s !! i = Some w -> bstep s Silent (set_writer s i (cancelled w))
  | s_wait_done s i w :
      b_writers s !! i = Some w -> w_wait w = Waiting -> w_cancelled w = true ->
      bstep s Silent (set_writer s i (at_wait w (if file_nil w then Finished else Removing) (w_open w)))
  | s_wait_remove s i w :
      b_writers s !! i = Some w -> w_wait w = Removing ->
      bstep s Silent (set_both (fs_remove (b_fs s) (w_temp w)) s i (at_wait w Closing (w_open w)))
  | s_wait_close s i w :
      b_writers s !! i = Some w -> w_wait w = Closing -> bstep s Silent (set_writer s i (at_wait w Finished false))
  | s_sync s i w :
      b_writers s !! i = Some w -> w_phase w = Writing -> w_open w = true ->
      bstep s Silent (set_writer s i (at_close w Synced true))
  | s_sync_fail s i w :
      b_writers s !! i = Some w -> w_phase w = Writing -> bstep s Silent (set_writer s i (at_close w (Returning false) false))
  | s_close s i w :
      b_writers s !! i = Some w -> w_phase w = Synced -> w_open w = true ->
      bstep s Silent (set_writer s i (at_close w Closed false))
  | s_close_fail s i w :
      b_writers s !! i = Some w -> w_phase w = Synced -> bstep s Silent (set_writer s i (at_close w (Returning false) false))
  | s_rename s i w f :
      b_writers s !! i = Some w -> w_phase w = Closed -> fs_rename (b_fs s) (w_temp w) (w_path w) = Some f ->
      bstep s (Published i (MkBlobWriter (w_path w) (fs_bytes (b_fs s) i))) (set_both f s i (at_close w Renamed false))
  | s_rename_fail s i w :
      b_writers s !! i = Some w -> w_phase w = Closed -> bstep s Silent (set_writer s i (at_close w (Returning false) false))
  | s_nil s i w :
      b_writers s !! i = Some w -> w_phase w = Renamed -> bstep s Silent (set_writer s i (at_close w (Returning true) false))
  | s_deferred s i w ok :
      b_writers s !! i = Some w -> w_phase w = Returning ok ->
      bstep s Silent (set_both (fs_remove (b_fs s) (w_temp w)) s i (cancelled (at_close w (Returned ok) (w_open w))))
  | s_Remove s n :
      is_temp n = false -> bstep s (Removed n) (MkBstate (fs_remove (b_fs s) n) (b_writers s)).

Inductive bruns : bstate -> list event -> bstate -> Prop :=
  | bruns_nil s : bruns s [] s
  | bruns_snoc s l s1 e s2 : bruns s l s1 -> bstep s1 e s2 -> bruns s (l ++ [e]) s2.

Definition empty_store : bstate := MkBstate (MkFs ∅ ∅) ∅.

(** ** The ideal store *)

(** The blobs that can be opened by their names. *)
Definition visible (f : fs) : directory :=
  fs_bytes f <$> filter (fun x => is_temp x.1 = false) (fs_names f).

Definition apply_event (d : directory) (e : event) : directory :=
  match e with
  | Silent => d
  | Published _ b => blob_Close d b
  | Removed n => (dir_Remove d n).1
  end.

Lemma visible_lookup f n : visible f !! n = if is_temp n then None else fs_bytes f <$> (fs_names f !! n).
Proof.
  unfold visible. rewrite lookup_fmap, map_lookup_filter.
  destruct (fs_names f !! n) as [i|], (is_temp n) eqn:E; simplify_option_eq; congruence.
Qed.

Lemma visible_ext f f' :
  (forall n, is_temp n = false -> fs_bytes f' <$> (fs_names f' !! n) = fs_bytes f <$> (fs_names f !! n)) ->
  visible f' = visible f.
Proof. intros H. apply map_eq. intros n. rewrite !visible_lookup. destruct (is_temp n) eqn:E; auto. Qed.

Lemma visible_remove_temp f n : is_temp n = true -> visible (fs_remove f n) = visible f.
Proof.
  intros Ht. apply visible_ext. intros m Hm. cbn. by rewrite lookup_delete_ne by congruence.
Qed.

Lemma visible_new_data f f' i :
  (forall n, fs_names f !! n = Some i -> is_temp n = true) ->
  (forall n, is_temp n = false -> fs_names f' !! n = fs_names f !! n) ->
  (forall j, j <> i -> fs_bytes f' j = fs_bytes f j) -> visible f' = visible f.
Proof.
  intros Hi Hn Hd. apply visible_ext. intros n Hnt. rewrite Hn by done.
  destruct (fs_names f !! n) as [j|] eqn:E; [|done]. cbn. f_equal. apply Hd. intros ->. rewrite (Hi n E) in Hnt. done.
Qed.

Lemma visible_rename f t path f' i :
  fs_names f !! t = Some i -> is_temp t = true -> is_temp path = false -> fs_rename f t path = Some f' ->
  visible f' = <[path := fs_bytes f i]> (visible f).
Proof.
  intros Ht Htt Hp. unfold fs_rename. rewrite Ht. cbn. intros [= <-]. apply map_eq. intros n.
  rewrite visible_lookup. destruct (decide (n = path)) as [->|Hne].
  - rewrite Hp. cbn. by rewrite !lookup_insert_eq.
  - rewrite lookup_insert_ne, visible_lookup by done. destruct (is_temp n) eqn:En; [done|]. cbn.
    by rewrite lookup_insert_ne, lookup_delete_ne by congruence.
Qed.

Lemma dir_Remove_delete d n : (dir_Remove d n).1 = delete n d.
Proof. unfold dir_Remove. destruct (d !! n) eqn:E; [done|]. cbn. by rewrite delete_id. Qed.

Lemma visible_remove f n : is_temp n = false -> visible (fs_remove f n) = delete n (visible f).
Proof.
  intros Hn. apply map_eq. intros m. rewrite visible_lookup. destruct (decide (m = n)) as [->|Hne].
  - rewrite Hn. cbn. by rewrite !lookup_delete_eq.
  - by rewrite lookup_delete_ne, visible_lookup by done; cbn; rewrite lookup_delete_ne by done.
Qed.

(** ** The invariant *)

(** The phases in which the blob has its name, and in which the temporary file
    can have its own. *)
Definition published (ph : close_phase) : bool :=
  match ph with Renamed | Returning true | Returned true => true | _ => false end.
Definition pending (ph : close_phase) : bool :=
  match ph with Writing | Synced | Closed | Returning false => true | _ => false end.

(** Before the rename and without a cancellation, the file is at its temporary
    name, open unless [Close] has closed it. *)
Definition ready (f : fs) (i : positive) (w : writer) : Prop :=
  match w_phase w with
  | Writing | Synced => fs_names f !! w_temp w = Some i /\ w_open w = true
  | Closed => fs_names f !! w_temp w = Some i
  | _ => True
  end.

Definition told (l : list event) (f : fs) (i : positive) (w : writer) : Prop :=
  if published (w_phase w) then Published i (MkBlobWriter (w_path w) (fs_bytes f i)) ∈ l
  else forall b, Published i b ∉ l.

Record binv (s : bstate) (l : list event) : Prop := {
  bi_data i : is_Some (fs_data (b_fs s) !! i) <-> is_Some (b_writers s !! i);
  bi_names i w : b_writers s !! i = Some w -> is_temp (w_temp w) = true /\ is_temp (w_path w) = false;
  bi_inj i j w w' :
    b_writers s !! i = Some w -> b_writers s !! j = Some w' -> w_temp w = w_temp w' -> i = j;
  bi_temp n i : fs_names (b_fs s) !! n = Some i -> is_temp n = true ->
    exists w, b_writers s !! i = Some w /\ w_temp w = n /\ pending (w_phase w) = true;
  bi_visible n i : fs_names (b_fs s) !! n = Some i -> is_temp n = false ->
    exists w, b_writers s !! i = Some w /\ published (w_phase w) = true;
  bi_ready i w : b_writers s !! i = Some w -> w_wait w = Waiting -> ready (b_fs s) i w;
  bi_told i w : b_writers s !! i = Some w -> told l (b_fs s) i w;
  bi_quiet i b : Published i b ∈ l -> is_Some (b_writers s !! i);
  bi_spec : visible (b_fs s) = fold_left apply_event l ∅;
}.

Lemma binv_empty : binv empty_store [].
Proof. split; cbn; try done; intros *; rewrite ?lookup_empty; try done. by intros ?%elem_of_nil. Qed.

Lemma fold_event l e : fold_left apply_event (l ++ [e]) ∅ = apply_event (fold_left apply_event l ∅) e.
Proof. apply fold_left_app. Qed.

(** The writers of a state in which one has been replaced. *)
Lemma writer_cases (s : bstate) i w' j x (P : Prop) :
  <[i := w']> (b_writers s) !! j = Some x -> (j = i -> x = w' -> P) -> (j <> i -> b_writers s !! j = Some x -> P) -> P.
Proof. intros E Hi Hn. destruct (decide (j = i)) as [->|Hne]; [|rewrite lookup_insert_ne in E by done; auto].
  rewrite lookup_insert_eq in E. injection E as <-. auto.
Qed.

Lemma told_event l e f f' i w w' :
  told l f i w -> published (w_phase w') = published (w_phase w) -> w_path w' = w_path w ->
  (published (w_phase w) = true -> fs_bytes f' i = fs_bytes f i) -> (forall b, e <> Published i b) ->
  told (l ++ [e]) f' i w'.
Proof.
  unfold told. intros Ht -> Ep Hb He. destruct (published (w_phase w)).
  - rewrite Ep, Hb by done. apply elem_of_app. by left.
  - intros b. rewrite elem_of_app, list_elem_of_singleton. intros [Hin|E]; [by eapply Ht|by eapply He].
Qed.

Lemma told_silent l f f' i w w' :
  told l f i w -> published (w_phase w') = published (w_phase w) -> w_path w' = w_path w ->
  fs_bytes f' i = fs_bytes f i -> told (l ++ [Silent]) f' i w'.
Proof. intros. by eapply told_event. Qed.

(** A step that moves one writer on, and perhaps takes the name of its temporary
    file away. *)
Lemma binv_move s l i w w' f' :
  binv s l -> b_writers s !! i = Some w -> w_path w' = w_path w -> w_temp w' = w_temp w ->
  published (w_phase w') = published (w_phase w) ->
  (f' = b_fs s /\ (pending (w_phase w) = true -> pending (w_phase w') = true) \/ f' = fs_remove (b_fs s) (w_temp w)) ->
  (w_wait w' = Waiting -> ready f' i w') ->
  binv (set_both f' s i w') (l ++ [Silent]).
Proof.
  intros [Hd Hn Hi Ht Hv Hr Htold Hq Hs] Hw Ep Et Epub Hf Hrd.
  destruct (Hn i w Hw) as [Hti _].
  assert (Hdat : fs_data f' = fs_data (b_fs s)) by (by destruct Hf as [[-> _]| ->]).
  assert (Hnm : forall n j, fs_names f' !! n = Some j -> fs_names (b_fs s) !! n = Some j /\
    (j = i -> n = w_temp w -> pending (w_phase w') = true \/ pending (w_phase w) = false)).
  { intros n j. destruct Hf as [[-> Hp]| ->]; [intros E; split; [done|]; destruct (pending (w_phase w)); auto|].
    cbn. intros [Hne E]%lookup_delete_Some. by split; [|intros _ ->]. }
  assert (Hby : forall j, fs_bytes f' j = fs_bytes (b_fs s) j) by (intros j; unfold fs_bytes; by rewrite Hdat).
  split; cbn [set_both b_fs b_writers].
  - intros j. rewrite Hdat. destruct (decide (j = i)) as [->|Hne]; [|by rewrite lookup_insert_ne].
    rewrite lookup_insert_eq, Hd, Hw. done.
  - intros j x E. eapply (writer_cases _ _ _ _ _ _ E); [intros -> ->; rewrite Ep, Et; by apply (Hn i)|eauto].
  - intros j k x y E1 E2 E. eapply (writer_cases _ _ _ _ _ _ E1); eapply (writer_cases _ _ _ _ _ _ E2);
      intros; subst; rewrite ?Et in E; eauto; congruence.
  - intros n j E Htn. destruct (Hnm n j E) as [E' Hpd]. destruct (Ht n j E' Htn) as (x & Hx & Hxn & Hxp).
    destruct (decide (j = i)) as [->|Hne]; [|by exists x; rewrite lookup_insert_ne].
    assert (x = w) as -> by congruence. exists w'. rewrite lookup_insert_eq, Et. split; [done|]. split; [done|].
    destruct (Hpd eq_refl (eq_sym Hxn)); congruence.
  - intros n j E Htn. destruct (Hnm n j E) as [E' _]. destruct (Hv n j E' Htn) as (x & Hx & Hxp).
    destruct (decide (j = i)) as [->|Hne]; [|by exists x; rewrite lookup_insert_ne].
    assert (x = w) as -> by congruence. exists w'. by rewrite lookup_insert_eq, Epub.
  - intros j x E Hwt. eapply (writer_cases _ _ _ _ _ _ E); [intros -> ->; auto|]. intros Hne Ex.
    pose proof (Hr j x Ex Hwt) as Hrx. destruct Hf as [[-> _]| ->]; [done|]. unfold ready in *. cbn.
    rewrite lookup_delete_ne; [done|]. intros E'. by apply Hne, (Hi j i x w).
  - intros j x E. eapply (writer_cases _ _ _ _ _ _ E); [intros -> ->|intros _ Ex]; by eapply told_silent; eauto.
  - intros j b. rewrite elem_of_app, list_elem_of_singleton. intros [Hin|[=]].
    destruct (decide (j = i)) as [->|Hne]; [by rewrite lookup_insert_eq|rewrite lookup_insert_ne by done; eauto].
  - rewrite fold_event, <- Hs. cbn. destruct Hf as [[-> _]| ->]; [done|]. by apply visible_remove_temp.
Qed.

Lemma own_name s l i w k : binv s l -> b_writers s !! i = Some w -> fs_names (b_fs s) !! w_temp w = Some k -> k = i.
Proof.
  intros Hinv Hw Hk. destruct (bi_names _ _ Hinv i w Hw) as [Ht _].
  destruct (bi_temp _ _ Hinv _ _ Hk Ht) as (x & Hx & Ex & _). by apply (bi_inj _ _ Hinv k i x w).
Qed.

(** Only its temporary name links to the file of a writer that has not renamed it. *)
Lemma unpublished_names s l i w n :
  binv s l -> b_writers s !! i = Some w -> published (w_phase w) = false -> fs_names (b_fs s) !! n = Some i -> is_temp n = true.
Proof.
  intros Hinv Hw Hp Hn. destruct (is_temp n) eqn:E; [done|].
  destruct (bi_visible _ _ Hinv n i Hn E) as (x & Hx & Hxp). congruence.
Qed.

Lemma binv_create s l i t path :
  binv s l -> fs_data (b_fs s) !! i = None -> fs_names (b_fs s) !! t = None ->
  (forall j w, b_writers s !! j = Some w -> w_temp w <> t) -> is_temp t = true -> is_temp path = false ->
  binv (set_both (fs_create (b_fs s) t i) s i (MkWriter path t Writing Waiting true false)) (l ++ [Silent]).
Proof.
  intros [Hd Hn Hi Ht Hv Hr Htold Hq Hs] Hfr Hnm Hnew Htt Hpt.
  assert (Hwi : b_writers s !! i = None) by (apply eq_None_not_Some; rewrite <- Hd, Hfr; by intros [? ?]).
  assert (Hne : forall j x, b_writers s !! j = Some x -> j <> i) by congruence.
  split; cbn [set_both b_fs b_writers fs_create fs_names fs_data].
  - intros j. destruct (decide (j = i)) as [->|Hji]; [by rewrite !lookup_insert_eq|by rewrite !lookup_insert_ne].
  - intros j x E. eapply (writer_cases _ _ _ _ _ _ E); [by intros _ ->|eauto].
  - intros j k x y E1 E2 E. eapply (writer_cases _ _ _ _ _ _ E1); eapply (writer_cases _ _ _ _ _ _ E2);
      intros; subst; cbn in E; eauto; exfalso; by eapply Hnew; eauto.
  - intros n j E Htn. destruct (decide (n = t)) as [->|Hnt].
    + rewrite lookup_insert_eq in E. injection E as <-. eexists. by rewrite lookup_insert_eq.
    + rewrite lookup_insert_ne in E by done. destruct (Ht n j E Htn) as (x & Hx & ?). exists x.
      by rewrite lookup_insert_ne by (apply not_eq_sym; eauto).
  - intros n j E Htn. rewrite lookup_insert_ne in E by congruence. destruct (Hv n j E Htn) as (x & Hx & ?). exists x.
    by rewrite lookup_insert_ne by (apply not_eq_sym; eauto).
  - intros j x E Hwt. eapply (writer_cases _ _ _ _ _ _ E).
    + intros -> ->. cbn. by rewrite lookup_insert_eq.
    + intros Hji Ex. pose proof (Hr j x Ex Hwt) as Hrx. unfold ready in *. cbn.
      rewrite lookup_insert_ne by (apply not_eq_sym; eauto). done.
  - intros j x E. eapply (writer_cases _ _ _ _ _ _ E).
    + intros -> ->. unfold told. cbn. intros b. rewrite elem_of_app, list_elem_of_singleton. intros [Hin|[=]].
      apply Hq in Hin. rewrite Hwi in Hin. by destruct Hin.
    + intros Hji Ex. eapply told_silent; eauto. unfold fs_bytes. cbn. by rewrite lookup_insert_ne.
  - intros j b. rewrite elem_of_app, list_elem_of_singleton. intros [Hin|[=]].
    destruct (decide (j = i)) as [->|Hji]; [by rewrite lookup_insert_eq|rewrite lookup_insert_ne by done; eauto].
  - rewrite fold_event, <- Hs. apply (visible_new_data _ _ i).
    + intros n E. destruct (is_temp n) eqn:En; [done|]. destruct (Hv n i E En) as (x & Hx & _). congruence.
    + intros n En. cbn. by rewrite lookup_insert_ne by congruence.
    + intros j Hji. unfold fs_bytes. cbn. by rewrite lookup_insert_ne.
Qed.

Lemma binv_write s l i w q :
  binv s l -> b_writers s !! i = Some w -> w_phase w = Writing ->
  binv (MkBstate (fs_append (b_fs s) i q) (b_writers s)) (l ++ [Silent]).
Proof.
  intros Hinv Hw Hph. pose proof Hinv as [Hd Hn Hi Ht Hv Hr Htold Hq Hs].
  split; cbn [b_fs b_writers fs_append fs_names fs_data]; try done.
  - intros j. destruct (decide (j = i)) as [->|Hji]; [|by rewrite lookup_insert_ne].
    rewrite lookup_insert_eq, Hw. done.
  - intros j x E. eapply told_event; [by apply Htold|done|done| |done]. intros Hp. unfold fs_bytes. cbn.
    rewrite lookup_insert_ne; [done|]. intros ->. assert (x = w) as -> by congruence. by rewrite Hph in Hp.
  - intros j b. rewrite elem_of_app, list_elem_of_singleton. intros [Hin|[=]]; eauto.
  - rewrite fold_event, <- Hs. apply (visible_new_data _ _ i); [|done|].
    + intros n E. eapply unpublished_names; [done|done|by rewrite Hph|done].
    + intros j Hji. unfold fs_bytes. cbn. by rewrite lookup_insert_ne.
Qed.

Lemma binv_Remove s l n :
  binv s l -> is_temp n = false -> binv (MkBstate (fs_remove (b_fs s) n) (b_writers s)) (l ++ [Removed n]).
Proof.
  intros [Hd Hn Hi Ht Hv Hr Htold Hq Hs] Hnt. split; cbn [b_fs b_writers fs_remove fs_names fs_data]; try done.
  - intros m j [_ E]%lookup_delete_Some. auto.
  - intros m j [_ E]%lookup_delete_Some. eauto.
  - intros j x E Hwt. pose proof (Hr j x E Hwt) as Hrx. destruct (Hn j x E) as [Hxt _]. unfold ready in *. cbn.
    rewrite lookup_delete_ne by congruence. done.
  - intros j x E. eapply told_event; [by apply Htold|done|done|done|done].
  - intros j b. rewrite elem_of_app, list_elem_of_singleton. intros [Hin|[=]]; eauto.
  - rewrite fold_event, <- Hs. cbn. by rewrite dir_Remove_delete, visible_remove.
Qed.

Lemma binv_rename s l i w f :
  binv s l -> b_writers s !! i = Some w -> w_phase w = Closed -> fs_rename (b_fs s) (w_temp w) (w_path w) = Some f ->
  binv (set_both f s i (at_close w Renamed false))
    (l ++ [Published i (MkBlobWriter (w_path w) (fs_bytes (b_fs s) i))]).
Proof.
  intros Hinv Hw Hph Ef. pose proof Hinv as [Hd Hn Hi Ht Hv Hr Htold Hq Hs]. destruct (Hn i w Hw) as [Htt Hpt].
  assert (fs_names (b_fs s) !! w_temp w = Some i) as Hti.
  { unfold fs_rename in Ef. destruct (fs_names (b_fs s) !! w_temp w) as [k|] eqn:E; [|done].
    by rewrite (own_name s l i w k). }
  assert (f = MkFs (<[w_path w := i]> (delete (w_temp w) (fs_names (b_fs s)))) (fs_data (b_fs s))) as ->.
  { unfold fs_rename in Ef. rewrite Hti in Ef. by injection Ef. }
  split; cbn [set_both b_fs b_writers fs_names fs_data].
  - intros j. destruct (decide (j = i)) as [->|Hji]; [by rewrite lookup_insert_eq, Hd, Hw|by rewrite lookup_insert_ne].
  - intros j x E. eapply (writer_cases _ _ _ _ _ _ E); [by intros _ ->|eauto].
  - intros j k x y E1 E2 E. eapply (writer_cases _ _ _ _ _ _ E1); eapply (writer_cases _ _ _ _ _ _ E2);
      intros; subst; cbn in E; eauto.
  - intros n j E Htn. rewrite lookup_insert_ne in E by congruence. apply lookup_delete_Some in E as [Hne E].
    destruct (Ht n j E Htn) as (x & Hx & Ex & Hxp). exists x. rewrite lookup_insert_ne; [done|].
    intros ->. apply Hne. congruence.
  - intros n j E Htn. destruct (decide (n = w_path w)) as [->|Hnp].
    + rewrite lookup_insert_eq in E. injection E as <-. eexists. by rewrite lookup_insert_eq.
    + rewrite lookup_insert_ne in E by done. apply lookup_delete_Some in E as [_ E].
      destruct (Hv n j E Htn) as (x & Hx & Hxp). exists x. rewrite lookup_insert_ne; [done|].
      intros ->. assert (x = w) as -> by congruence. by rewrite Hph in Hxp.
  - intros j x E Hwt. eapply (writer_cases _ _ _ _ _ _ E); [by intros _ ->|]. intros Hji Ex.
    pose proof (Hr j x Ex Hwt) as Hrx. destruct (Hn j x Ex) as [Hxt _]. unfold ready in *. cbn.
    rewrite lookup_insert_ne, lookup_delete_ne; [done| |congruence]. intros E'. by apply Hji, (Hi j i x w).
  - intros j x E. eapply (writer_cases _ _ _ _ _ _ E).
    + intros -> ->. unfold told. cbn. apply elem_of_app. right. by left.
    + intros Hji Ex. eapply told_event; [by apply Htold|done|done|done|]. intros b [= E']. done.
  - intros j b. rewrite elem_of_app, list_elem_of_singleton. intros [Hin|[= -> _]]; [|by rewrite lookup_insert_eq].
    destruct (decide (j = i)) as [->|Hji]; [by rewrite lookup_insert_eq|rewrite lookup_insert_ne by done; eauto].
  - rewrite fold_event, <- Hs. cbn. by eapply visible_rename.
Qed.

(** A step of one writer that leaves the files alone. *)
Lemma binv_step_writer s l i w w' :
  binv s l -> b_writers s !! i = Some w -> w_path w' = w_path w -> w_temp w' = w_temp w ->
  published (w_phase w') = published (w_phase w) -> (pending (w_phase w) = true -> pending (w_phase w') = true) ->
  (w_wait w' = Waiting -> w_wait w = Waiting -> ready (b_fs s) i w -> ready (b_fs s) i w') ->
  (w_wait w' = Waiting -> w_wait w = Waiting) -> binv (set_writer s i w') (l ++ [Silent]).
Proof.
  intros Hinv Hw Ep Et Epub Hpd Hrd Hwt. apply (binv_move s l i w w' (b_fs s)); auto.
  intros Hw'. apply Hrd; auto. apply (bi_ready _ _ Hinv i w Hw). auto.
Qed.

Lemma binv_step s l e s' : binv s l -> bstep s e s' -> binv s' (l ++ [e]).
Proof.
  intros Hinv Hst. destruct Hst as [s i t path|s i w p q Hw Hph|s i w Hw|s i w Hw Hwt Hc|s i w Hw Hwt|s i w Hw Hwt
    |s i w Hw Hph Ho|s i w Hw Hph|s i w Hw Hph Ho|s i w Hw Hph|s i w f Hw Hph Ef|s i w Hw Hph|s i w Hw Hph|s i w ok Hw Hph|s n Hn].
  - by apply binv_create.
  - by apply (binv_write s l i w).
  - by apply (binv_step_writer s l i w).
  - by apply (binv_step_writer s l i w).
  - apply (binv_move s l i w); try done. by right.
  - by apply (binv_step_writer s l i w).
  - apply (binv_step_writer s l i w); try done; unfold ready; cbn; rewrite Hph; naive_solver.
  - apply (binv_step_writer s l i w); try done; unfold ready; cbn; rewrite Hph; naive_solver.
  - apply (binv_step_writer s l i w); try done; unfold ready; cbn; rewrite Hph; naive_solver.
  - apply (binv_step_writer s l i w); try done; unfold ready; cbn; rewrite Hph; naive_solver.
  - by apply binv_rename.
  - apply (binv_step_writer s l i w); try done; unfold ready; cbn; rewrite Hph; naive_solver.
  - apply (binv_step_writer s l i w); try done; unfold ready; cbn; rewrite Hph; naive_solver.
  - apply (binv_move s l i w); try done; [|by right]. cbn. rewrite Hph. by destruct ok.
  - by apply binv_Remove.
Qed.

Lemma bruns_binv l s : bruns empty_store l s -> binv s l.
Proof.
  intros Hr. remember empty_store as s0 eqn:E. induction Hr as [s|s l s1 e s2 Hr IH Hst]; subst.
  - apply binv_empty.
  - eapply binv_step; eauto.
Qed.

(** ** A close that is left alone *)
Lemma bruns_app s l1 s1 l2 s2 : bruns s l1 s1 -> bruns s1 l2 s2 -> bruns s (l1 ++ l2) s2.
Proof.
  intros H1 H2. revert H1. induction H2 as [s1|s1 l s2 e s3 H2 IH Hst]; intros H1; [by rewrite app_nil_r|].
  rewrite app_assoc. eapply bruns_snoc; eauto.
Qed.

Lemma bruns_cons s e s1 l s2 : bstep s e s1 -> bruns s1 l s2 -> bruns s (e :: l) s2.
Proof. intros Hst Hr. eapply (bruns_app s [e]); [|exact Hr]. eapply (bruns_snoc s []); [apply bruns_nil|done]. Qed.

Lemma close_completes s l i w :
  binv s l -> b_writers s !! i = Some w -> w_phase w = Writing -> w_wait w = Waiting ->
  exists s' w', bruns s [Silent; Silent; Published i (MkBlobWriter (w_path w) (fs_bytes (b_fs s) i)); Silent; Silent] s' /\
    b_writers s' !! i = Some w' /\ w_phase w' = Returned true.
Proof.
  intros Hinv Hw Hph Hwt. pose proof (bi_ready _ _ Hinv i w Hw Hwt) as Hr. unfold ready in Hr. rewrite Hph in Hr.
  destruct Hr as [Hn Ho]. eexists _, _. split; [|split].
  - eapply bruns_cons; [by apply (s_sync s i w)|].
    eapply bruns_cons; [apply s_close; [apply lookup_insert_eq|done|done]|].
    eapply bruns_cons.
    { refine (s_rename _ i (at_close (at_close w Synced true) Closed false) _ _ _ _); [apply lookup_insert_eq|done|]. unfold fs_rename. cbn. by rewrite Hn. }
    eapply bruns_cons; [apply s_nil; [apply lookup_insert_eq|done]|].
    eapply bruns_cons; [eapply s_deferred; [apply lookup_insert_eq|done]|]. apply bruns_nil.
  - apply lookup_insert_eq.
  - done.
Qed.


(** ** Witness

    A writer whose [Close] succeeds, after one that was cancelled between the
    [Sync] and the [Close] of its file. *)
Definition example_events : list event :=
  replicate 12 Silent ++ [Published 2 (MkBlobWriter "metadata.pb" [1; 2; 3]); Silent; Silent].

Tactic Notation "run_step" open_constr(step) := eapply bruns_cons; [eapply step; solve [vm_compute; reflexivity]|].

Lemma example_run : exists s, bruns empty_store example_events s.
Proof.
  enough (exists l s, bruns empty_store l s /\ l = example_events) as (l & s & Hs & ->) by eauto.
  eexists _, _. split.
  { eapply bruns_cons; [apply (s_Create _ 1 ".temp-1" "1.sparseblock"); done|].
    eapply bruns_cons.
    { apply (s_Create _ 2 ".temp-2" "metadata.pb"); try done. cbn [set_both b_writers empty_store].
      intros j w [[<- <-]|[_ E]]%lookup_insert_Some; [done|]. by apply lookup_empty_Some in E. }
    eapply bruns_cons; [eapply (s_Write _ 2 _ [1; 2; 3]); [vm_compute; reflexivity..|done]|].
    run_step (s_sync _ 1). run_step (s_cancel _ 1). run_step (s_wait_done _ 1). run_step (s_wait_remove _ 1).
    run_step (s_wait_close _ 1). run_step (s_close_fail _ 1). run_step (s_deferred _ 1). run_step (s_sync _ 2).
    run_step (s_close _ 2). run_step (s_rename _ 2). run_step (s_nil _ 2). run_step (s_deferred _ 2). apply bruns_nil. }
  vm_compute. reflexivity.
Qed.

