(* ===== verification/Metadata.v ===== *)
(** * Metadata

    [internal/metadata]: the list of the data files of a device, oldest first,
    that is saved whenever it changes, and [internal/block/metadata.go], which
    stores it as a blob. *)
From S2P Require Import Prelude BlockReader GoStd Storage.
From stdpp Require Import strings.
Local Open Scope Z_scope.

(** ** The messages [pb.Metadata] and [pb.DataFile]

    The fields [size], [first_block] and [last_block] of a data file are not
    used. *)
Inductive DataFileType := UNSPECIFIED | SPARSE_TABLE | WRITE_LOG.

#[export] Instance DataFileType_eq_dec : EqDecision DataFileType.
Proof. solve_decision. Defined.

Record DataFilePb := MkDataFilePb { dfp_Type : DataFileType; dfp_Name : string }.

#[export] Instance DataFilePb_eq_dec : EqDecision DataFilePb.
Proof. solve_decision. Defined.

Record Metadata := MkMetadata {
  md_BlockSize : Z;
  md_NumBlocks : Z;
  md_DataFiles : list DataFilePb;
}.

(** The protobuf codec. *)
Class MetadataCodec := {
  md_marshal : Metadata -> bytes + error;
  md_unmarshal : bytes -> Metadata + error;
}.

(** The fields fit the types of the message, the names are short and ASCII, and
    there are not too many of them for a message. *)
Definition name_fits (s : string) : bool :=
  (String.length s <? 256)%nat && forallb (fun a => (Ascii.nat_of_ascii a <? 128)%nat) (String.list_ascii_of_string s).

Definition md_fits (m : Metadata) : Prop :=
  0 <= md_BlockSize m < 2 ^ 32 /\ 0 <= md_NumBlocks m < 2 ^ 64 /\
  Z.of_nat (length (md_DataFiles m)) < 2 ^ 20 /\
  Forall (fun df => name_fits (dfp_Name df) = true) (md_DataFiles m).

Class MetadataCodecLaws `{!MetadataCodec} := {
  md_roundtrip m : md_fits m -> exists b, md_marshal m = inl b /\ md_unmarshal b = inl m;
}.

(** ** The operations *)
Definition NewMetadata (size : Z) : outcome Metadata :=
  if size <=? 0 then Panic else Ret (MkMetadata 0 0 []).

Definition NewMetadata_BlockStore (blockSize numBlocks : Z) : Metadata :=
  MkMetadata (u32 blockSize) numBlocks [].

Definition md_Size (m : Metadata) : Z := i64 (md_BlockSize m * i64 (md_NumBlocks m)).

Definition set_DataFiles (m : Metadata) (l : list DataFilePb) : Metadata :=
  MkMetadata (md_BlockSize m) (md_NumBlocks m) l.

Definition PushWriteLog (m : Metadata) (name : string) : Metadata :=
  set_DataFiles m (md_DataFiles m ++ [MkDataFilePb WRITE_LOG name]).

Definition PushSparseDataFile (m : Metadata) (name : string) : Metadata :=
  set_DataFiles m (md_DataFiles m ++ [MkDataFilePb SPARSE_TABLE name]).

(** The loops that look for the first entry with a type and a name; when there is
    none, an error is logged and nothing changes. *)
Definition RemoveWriteLog (m : Metadata) (name : string) : Metadata :=
  set_DataFiles m (delete_first (MkDataFilePb WRITE_LOG name) (md_DataFiles m)).

Definition RemoveSparseDataFile (m : Metadata) (name : string) : Metadata :=
  set_DataFiles m (delete_first (MkDataFilePb SPARSE_TABLE name) (md_DataFiles m)).

Fixpoint replace_first (old new : DataFilePb) (l : list DataFilePb) : list DataFilePb :=
  match l with
  | [] => []
  | df :: l' => if bool_decide (df = old) then new :: l' else df :: replace_first old new l'
  end.

Definition CompactWriteLog (m : Metadata) (writeLogName sparseFileName : string) : Metadata :=
  set_DataFiles m (replace_first (MkDataFilePb WRITE_LOG writeLogName)
                     (MkDataFilePb SPARSE_TABLE sparseFileName) (md_DataFiles m)).

(** [mDataFile.Type] panics on an unrecognised type. *)
Definition mdf_Type (df : DataFilePb) : outcome DataFileType :=
  match dfp_Type df with UNSPECIFIED => Panic | t => Ret t end.

Definition ListDataFiles (m : Metadata) : list DataFilePb := md_DataFiles m.

Definition PrependReaderFiles (m : Metadata) (fs : list string) : Metadata :=
  set_DataFiles m ((MkDataFilePb SPARSE_TABLE <$> fs) ++ filter (fun e => dfp_Name e ∉ fs) (md_DataFiles m)).

(** ** The store *)
Section store.
Context `{!MetadataCodec}.

Definition metadataBlobName : string := "metadata.pb".

Definition LoadFromReader (buf : bytes) : Metadata + error := md_unmarshal buf.

Definition StoreToWriter (w : blobWriter) (m : Metadata) : blobWriter + error :=
  match md_marshal m with
  | inr err => inr err
  | inl buf => inl (blob_Write w buf)
  end.

(** [BlobMetadataStore.Load] and [Store] *)
Definition bms_Load (d : directory) : Metadata + error :=
  match bs_Open d metadataBlobName with
  | inr err => inr err
  | inl (f, _) => LoadFromReader (f_bytes f)
  end.

Definition bms_Store (d : directory) (m : Metadata) : directory * option error :=
  match StoreToWriter (bs_Create metadataBlobName) m with
  | inr err => (d, Some err)
  | inl w => (blob_Close d w, None)
  end.

Definition LoadMetadata (d : directory) : Metadata + error := bms_Load d.
Definition md_Save (d : directory) (m : Metadata) : directory * option error := bms_Store d m.

Definition SaveNoError (d : directory) (m : Metadata) : outcome directory :=
  let '(d, err) := md_Save d m in
  match err with Some _ => Panic | None => Ret d end.
End store.

(** ** Lemmas *)
Section lemmas.
Context `{!MetadataCodec} `{!MetadataCodecLaws}.

(** Saving replaces the blob of the metadata, from which it is loaded again. *)
Lemma SaveNoError_ok d m :
  md_fits m -> exists b, SaveNoError d m = Ret (<[metadataBlobName := b]> d) /\
    forall d', d' !! metadataBlobName = Some b -> LoadMetadata d' = inl m.
Proof.
  intros (b & E1 & E2)%md_roundtrip. exists b. unfold SaveNoError, md_Save, bms_Store, StoreToWriter. rewrite E1.
  cbn. split; [done|]. intros d' Hd. unfold LoadMetadata, bms_Load, bs_Open, openFileReader. rewrite Hd. cbn.
  by unfold LoadFromReader.
Qed.

Lemma replace_first_app old new l1 l2 :
  old ∉ l1 -> replace_first old new (l1 ++ old :: l2) = l1 ++ new :: l2.
Proof.
  induction l1 as [|x l1 IH]; intros Hn; cbn.
  - by rewrite bool_decide_eq_true_2.
  - apply not_elem_of_cons in Hn as [Hx Hn]. rewrite bool_decide_eq_false_2 by congruence. by rewrite IH.
Qed.

Lemma delete_first_absent {A} `{!EqDecision A} (x : A) (l : list A) : x ∉ l -> delete_first x l = l.
Proof.
  induction l as [|y l IH]; intros Hn; [done|]. apply not_elem_of_cons in Hn as [Hx Hn]. cbn.
  rewrite bool_decide_eq_false_2 by congruence. by rewrite IH.
Qed.
End lemmas.
