(* ===== verification/Decimal.v ===== *)
(** * Decimal numbers in file names

    The parts of [strconv], [strings] and [fmt] that [internal/block/block_file.go]
    uses to name files: [FormatUint], [ParseUint], the first part of a [Split] at
    dots, and the verb [%08d]. *)
From S2P Require Import Prelude.
From Stdlib Require Import Ascii.
From stdpp Require Import strings.
Local Open Scope Z_scope.

Definition digit (d : Z) : Ascii.ascii := Ascii.ascii_of_nat (Z.to_nat (48 + d)).

Definition digit_value (a : Ascii.ascii) : option Z :=
  let x := Z.of_nat (Ascii.nat_of_ascii a) in
  if (48 <=? x) && (x <=? 57) then Some (x - 48) else None.

Fixpoint format_go (fuel : nat) (n : Z) (acc : string) : string :=
  match fuel with
  | O => acc
  | S fuel =>
      let acc := String (digit (n mod 10)) acc in
      if n <? 10 then acc else format_go fuel (n / 10) acc
  end.

(** [strconv.FormatUint(n, 10)]; a [uint64] has at most 20 digits. *)
Definition FormatUint (n : Z) : string := format_go 20 n "".

Fixpoint parse_go (acc : Z) (s : string) : option Z :=
  match s with
  | EmptyString => Some acc
  | String a s => d ← digit_value a; parse_go (acc * 10 + d) s
  end.

(** [strconv.ParseUint(s, 10, 64)]; [None] is its error. *)
Definition ParseUint (s : string) : option Z :=
  if bool_decide (s = "") then None
  else n ← parse_go 0 s; if n <? 2 ^ 64 then Some n else None.

(** [strings.Split(s, ".")[0]] *)
Fixpoint split_dot (s : string) : string :=
  match s with
  | EmptyString => ""
  | String a s => if bool_decide (a = "."%char) then "" else String a (split_dot s)
  end.

(** [fmt.Sprintf("%08d", n)] for [n >= 0]. *)
Fixpoint pad_zeros (k : nat) (s : string) : string :=
  match k with O => s | S k => String "0" (pad_zeros k s) end.
Definition sprintf_08d (n : Z) : string :=
  let s := FormatUint n in pad_zeros (8 - String.length s) s.

(** ** Lemmas *)
Lemma digit_value_digit d : 0 <= d < 10 -> digit_value (digit d) = Some d.
Proof.
  intros Hd. unfold digit_value, digit. rewrite Ascii.nat_ascii_embedding by lia.
  rewrite Z2Nat.id by lia. rewrite !(proj2 (Z.leb_le _ _)) by lia. cbn. f_equal. lia.
Qed.

Lemma parse_format_go fuel n s :
  0 <= n < 10 ^ Z.of_nat fuel -> parse_go 0 (format_go fuel n s) = parse_go n s.
Proof.
  revert n s. induction fuel as [|fuel IH]; intros n s Hn; [assert (n = 0) as -> by (cbn in Hn; lia); done|].
  cbn [format_go]. pose proof (Z.mod_pos_bound n 10 ltac:(lia)) as Hm. pose proof (Z.div_mod n 10 ltac:(lia)) as Hdm.
  destruct (Z.ltb_spec n 10) as [Hl|Hl].
  - cbn [parse_go]. rewrite digit_value_digit by done. cbn. f_equal. rewrite Z.mod_small by lia. done.
  - rewrite IH.
    + cbn [parse_go]. rewrite digit_value_digit by done. cbn. f_equal. lia.
    + rewrite Nat2Z.inj_succ, Z.pow_succ_r in Hn by lia. split; [apply Z.div_pos; lia|].
      apply Z.div_lt_upper_bound; lia.
Qed.

Lemma format_go_nonempty fuel n s : format_go (S fuel) n s <> "".
Proof.
  revert n s. induction fuel as [|fuel IH]; intros n s; cbn [format_go]; destruct (n <? 10); try done. apply IH.
Qed.

Lemma ParseUint_Format n : 0 <= n < 2 ^ 64 -> ParseUint (FormatUint n) = Some n.
Proof.
  intros Hn. unfold ParseUint, FormatUint. rewrite bool_decide_eq_false_2 by apply format_go_nonempty.
  rewrite parse_format_go by lia. cbn. by rewrite (proj2 (Z.ltb_lt _ _)) by lia.
Qed.

(** Names of decimal digits. *)
Fixpoint all_chars (P : Ascii.ascii -> bool) (s : string) : bool :=
  match s with EmptyString => true | String a s => P a && all_chars P s end.

Definition is_digit (a : Ascii.ascii) : bool := bool_decide (is_Some (digit_value a)).

Lemma format_go_digits fuel n s :
  0 <= n -> all_chars is_digit (format_go fuel n s) = all_chars is_digit s.
Proof.
  revert n s. induction fuel as [|fuel IH]; intros n s Hn; [done|]. cbn [format_go].
  assert (is_digit (digit (n mod 10)) = true) as Hd.
  { unfold is_digit. rewrite digit_value_digit by (apply Z.mod_pos_bound; lia). by apply bool_decide_eq_true_2. }
  destruct (n <? 10); [|rewrite IH by (apply Z.div_pos; lia)]; cbn; by rewrite Hd.
Qed.

Lemma FormatUint_digits n : 0 <= n -> all_chars is_digit (FormatUint n) = true.
Proof. intros Hn. unfold FormatUint. by rewrite format_go_digits. Qed.

Lemma split_dot_digits s t : all_chars is_digit s = true -> split_dot (s +:+ String "." t) = s.
Proof.
  induction s as [|a s IH]; intros Hs; [done|]. cbn [all_chars] in Hs. apply andb_true_iff in Hs as [Ha Hs].
  change (String a s +:+ String "." t) with (String a (s +:+ String "." t)). cbn [split_dot].
  rewrite bool_decide_eq_false_2 by (by intros ->). by rewrite IH.
Qed.

Lemma length_format_go fuel n s :
  (String.length (format_go fuel n s) <= fuel + String.length s)%nat.
Proof.
  revert n s. induction fuel as [|fuel IH]; intros n s; [done|]. cbn [format_go]. destruct (n <? 10); [cbn; lia|].
  specialize (IH (n / 10) (String (digit (n mod 10)) s)). cbn in *. lia.
Qed.

(** ** Canonical numbers

    A number without a leading zero is the format of its value. *)
Lemma digit_value_inv a d : digit_value a = Some d -> 0 <= d < 10 /\ digit d = a.
Proof.
  unfold digit_value. destruct (_ && _) eqn:E; [|done]. intros [= <-].
  apply andb_true_iff in E as [H1'%Z.leb_le H2'%Z.leb_le]. split; [lia|]. unfold digit.
  replace (Z.to_nat _) with (Ascii.nat_of_ascii a) by lia. apply Ascii.ascii_nat_embedding.
Qed.

Lemma string_app_nil_r (s : string) : s +:+ "" = s.
Proof. induction s as [|a s IH]; [done|]. change (String a (s +:+ "") = String a s). by rewrite IH. Qed.

Lemma string_app_assoc (s t u : string) : (s +:+ t) +:+ u = s +:+ (t +:+ u).
Proof.
  induction s as [|a s IH]; [done|]. change (String a ((s +:+ t) +:+ u) = String a (s +:+ (t +:+ u))). by rewrite IH.
Qed.

Lemma format_parse_go s fuel n m acc :
  1 <= n -> parse_go n s = Some m -> format_go (String.length s + fuel) m acc = format_go fuel n (s +:+ acc).
Proof.
  revert fuel n. induction s as [|a s IH]; intros fuel n Hn; cbn [parse_go String.length]; [by intros [= ->]|].
  destruct (digit_value a) as [d|] eqn:Ed; cbn [mbind option_bind]; [|done]. intros E.
  apply digit_value_inv in Ed as [Hd <-]. rewrite plus_Sn_m, plus_n_Sm, (IH (S fuel) (n * 10 + d)) by (done || lia).
  cbn [format_go]. rewrite (proj2 (Z.ltb_ge _ 10)) by lia.
  rewrite Z.add_comm, Z.mod_add, Z.div_add, Z.mod_small, Z.div_small by lia. done.
Qed.

Lemma parse_go_bound s n m : 0 <= n -> parse_go n s = Some m -> n <= m < (n + 1) * 10 ^ Z.of_nat (String.length s).
Proof.
  revert n. induction s as [|a s IH]; intros n Hn; cbn [parse_go String.length]; [intros [= ->]; lia|].
  destruct (digit_value a) as [d|] eqn:Ed; cbn [mbind option_bind]; [|done]. intros E.
  apply digit_value_inv in Ed as [Hd _]. apply IH in E; [|lia]. rewrite Nat2Z.inj_succ, Z.pow_succ_r by lia. nia.
Qed.

Lemma format_go_fuel f g n acc :
  (0 < f)%nat -> (0 < g)%nat -> 0 <= n -> n < 10 ^ Z.of_nat f -> n < 10 ^ Z.of_nat g -> format_go f n acc = format_go g n acc.
Proof.
  revert g n acc. induction f as [|f IH]; intros g n acc Hf Hg Hn Hnf Hng; [lia|]. destruct g as [|g]; [lia|].
  cbn [format_go]. destruct (Z.ltb_spec n 10) as [Hl|Hl]; [done|].
  rewrite Nat2Z.inj_succ, Z.pow_succ_r in Hnf, Hng by lia.
  assert (0 < f)%nat by (destruct f; [cbn in Hnf|]; lia). assert (0 < g)%nat by (destruct g; [cbn in Hng|]; lia).
  apply IH; try done; [by apply Z.div_pos; lia|apply Z.div_lt_upper_bound; lia..].
Qed.

Lemma format_go_head f n acc : 0 < n < 10 ^ Z.of_nat f -> exists a s, format_go f n acc = String a s /\ a <> "0"%char.
Proof.
  revert n acc. induction f as [|f IH]; intros n acc Hn; [cbn in Hn; lia|]. cbn [format_go].
  rewrite Nat2Z.inj_succ, Z.pow_succ_r in Hn by lia. destruct (Z.ltb_spec n 10) as [Hl|Hl].
  - eexists _, _. split; [done|]. rewrite Z.mod_small by lia. intros E%(f_equal digit_value).
    change (digit_value "0") with (Some 0) in E. rewrite digit_value_digit in E by lia. injection E. lia.
  - apply IH. split; [|apply Z.div_lt_upper_bound; lia]. apply Z.div_str_pos. lia.
Qed.

Lemma FormatUint_head n : 0 < n < 2 ^ 64 -> exists a s, FormatUint n = String a s /\ a <> "0"%char.
Proof. intros Hn. apply format_go_head. lia. Qed.

Lemma Format_ParseUint a s n :
  a <> "0"%char -> ParseUint (String a s) = Some n -> 0 < n < 2 ^ 64 /\ FormatUint n = String a s.
Proof.
  intros Ha. unfold ParseUint. rewrite bool_decide_eq_false_2 by done. cbn [parse_go].
  destruct (digit_value a) as [d|] eqn:Ed; cbn [mbind option_bind]; [|done].
  destruct (parse_go _ s) as [m|] eqn:E; cbn [mbind option_bind]; [|done]. destruct (Z.ltb_spec m (2 ^ 64)) as [Hm|]; [|done].
  intros [= <-]. apply digit_value_inv in Ed as [Hd Hda].
  assert (d <> 0) by (intros ->; by apply Ha; rewrite <- Hda). cbn [Z.mul Z.add] in E.
  pose proof (parse_go_bound s d m ltac:(lia) E) as Hb. split; [lia|]. unfold FormatUint.
  rewrite (format_go_fuel 20 (String.length s + 1)); [|lia..|].
  - rewrite (format_parse_go s 1 d m) by (done || lia). cbn [format_go].
    rewrite (proj2 (Z.ltb_lt d 10)), Z.mod_small, Hda, string_app_nil_r by lia. done.
  - rewrite Nat2Z.inj_add, Z.pow_add_r by lia. change (10 ^ Z.of_nat 1) with 10. nia.
Qed.
