(* ===== verification/App.v ===== *)
(** * Command-line arguments

    [internal/app/logblock]: the device size and the NBD device of the command
    line, and the part of [cmd/logblock/main.go] that turns the size into the
    number of blocks of the device. *)
From S2P Require Import Prelude Decimal.
From Stdlib Require Import Ascii.
From stdpp Require Import strings.
Local Open Scope Z_scope.

(** ** [parse_size.go] *)

(** The longest prefix of digits, and the rest. *)
Fixpoint span_digits (s : string) : string * string :=
  match s with
  | EmptyString => ("", "")
  | String a s' => if is_digit a then let '(d, r) := span_digits s' in (String a d, r) else ("", s)
  end.

(** [sizePattern.FindStringSubmatch(str)]: the pattern has a group of digits that
    starts with a digit other than zero and an optional group of one of the
    letters M, G, T and P, up to the end. The result has the whole match and the
    two groups, the second empty when it did not take part, and is nil when there
    is no match. A letter is not a digit, so that the first group is the longest
    prefix of digits. *)
Definition FindStringSubmatch (str : string) : list string :=
  let '(d, r) := span_digits str in
  match d with
  | EmptyString => []
  | String a _ =>
      if bool_decide (a = "0"%char) then []
      else if bool_decide (r ∈ ["M"; "G"; "T"; "P"]) then [str; d; r]
      else if bool_decide (r = "") then [str; d; ""] else []
  end.

(** [size *= (1 << k)] *)
Definition scale_size (size : Z) (unit : string) : Z :=
  if bool_decide (unit = "M") then u64 (size * 2 ^ 20)
  else if bool_decide (unit = "G") then u64 (size * 2 ^ 30)
  else if bool_decide (unit = "T") then u64 (size * 2 ^ 40)
  else if bool_decide (unit = "P") then u64 (size * 2 ^ 50)
  else size.

(** [None] is [ErrInvalidSizeString]. *)
Definition ParseSizeString (str : string) : option Z :=
  if bool_decide (str = "0") then Some 0
  else
    match FindStringSubmatch str with
    | _ :: d :: rest =>
        size ← ParseUint d;
        match rest with [unit] => Some (scale_size size unit) | _ => Some size end
    | _ => None
    end.

(** ** [parse_nbd.go] *)
Definition nbdPrefix : string := "/dev/nbd".

Fixpoint cut_prefix (p s : string) : option string :=
  match p, s with
  | EmptyString, _ => Some s
  | String a p, String b s => if bool_decide (a = b) then cut_prefix p s else None
  | _, _ => None
  end.

(** [strconv.ParseUint(s, 10, 32)] *)
Definition ParseUint32 (s : string) : option Z := n ← ParseUint s; if n <? 2 ^ 32 then Some n else None.

Definition ParseNbdIndex (dev : string) : option Z := s ← cut_prefix nbdPrefix dev; ParseUint32 s.

(** ** [main.go] *)
Definition maxDeviceSize : Z := 16 * 2 ^ 40.
Definition blockSize : Z := 4096.

(** The value of the flag [-size]; [None] ends the program. *)
Definition device_size (sizeFlag : string) : option Z :=
  deviceSize ← (if bool_decide (sizeFlag = "") then Some 0 else ParseSizeString sizeFlag);
  if (0 <? deviceSize) && negb (deviceSize mod blockSize =? 0) then None
  else if maxDeviceSize <? deviceSize then None
  else Some deviceSize.

(** [NumBlocks] of the options of the device. *)
Definition num_blocks (sizeFlag : string) : option Z := s ← device_size sizeFlag; Some (s / blockSize).

Example parses :
  ParseSizeString <$> ["0"; "1"; "123456"; "12M"; "2G"; "345T"; "3P"; "12a3"; "01"; "0T"; "1 T"; "1Gb"; "1E"; " 1G"; ""] =
  [Some 0; Some 1; Some 123456; Some (12 * 2 ^ 20); Some (2 * 2 ^ 30); Some (345 * 2 ^ 40); Some (3 * 2 ^ 50);
   None; None; None; None; None; None; None; None].
Proof. vm_compute. reflexivity. Qed.

Example parses_nbd :
  ParseNbdIndex <$> [""; "/dev/nbd0"; "/dev/nbd7"; "/dev/nbd123"; "/dev/nbd"; "/dev/nbda"; "/dev/nbe"; "some/random/path"] =
  [None; Some 0; Some 7; Some 123; None; None; None; None].
Proof. vm_compute. reflexivity. Qed.

(** ** What is accepted *)
Lemma span_digits_app d r :
  all_chars is_digit d = true -> (forall a s, r = String a s -> is_digit a = false) -> span_digits (d +:+ r) = (d, r).
Proof.
  intros Hd Hr. induction d as [|a d IH].
  - change (span_digits r = ("", r)). destruct r as [|a s]; [done|]. cbn. by rewrite (Hr a s).
  - change (span_digits (String a (d +:+ r)) = (String a d, r)). cbn [all_chars] in Hd.
    apply andb_true_iff in Hd as [Ha Hd]. cbn [span_digits]. by rewrite Ha, IH.
Qed.

Lemma span_digits_inv s d r : span_digits s = (d, r) -> s = d +:+ r.
Proof.
  revert d r. induction s as [|a s IH]; intros d r; cbn [span_digits]; [by intros [= <- <-]|].
  destruct (is_digit a); [|by intros [= <- <-]].
  destruct (span_digits s) as [d' r']. intros [= <- <-]. change (String a s = String a (d' +:+ r')). f_equal. by apply IH.
Qed.

(** The units and the powers of two they stand for. *)
Definition size_units : list (string * Z) := [("", 0); ("M", 20); ("G", 30); ("T", 40); ("P", 50)].

Lemma size_units_cases (P : string -> Z -> Prop) u k :
  (u, k) ∈ size_units -> P "" 0 -> P "M" 20 -> P "G" 30 -> P "T" 40 -> P "P" 50 -> P u k.
Proof.
  intros Hu. unfold size_units in Hu. rewrite !elem_of_cons in Hu.
  destruct Hu as [[= -> ->]|[[= -> ->]|[[= -> ->]|[[= -> ->]|[[= -> ->]|Hu]]]]]; [done..|by apply elem_of_nil in Hu].
Qed.

Lemma scale_units u k n : (u, k) ∈ size_units -> 0 <= n < 2 ^ 64 -> scale_size n u = u64 (n * 2 ^ k).
Proof.
  intros Hu Hn. pattern u, k. apply (size_units_cases _ u k Hu); try done.
  change (n = u64 (n * 1)). by rewrite Z.mul_1_r, u64_small.
Qed.

Lemma unit_not_digit u k a s : (u, k) ∈ size_units -> u = String a s -> is_digit a = false.
Proof. intros Hu. pattern u, k. apply (size_units_cases _ u k Hu); [done|by intros [= <- _]..]. Qed.

Lemma submatch_format n u k :
  0 < n < 2 ^ 64 -> (u, k) ∈ size_units ->
  FindStringSubmatch (FormatUint n +:+ u) = [FormatUint n +:+ u; FormatUint n; u].
Proof.
  intros Hn Hu. unfold FindStringSubmatch.
  rewrite span_digits_app by (first [apply FormatUint_digits; lia|intros a s; by eapply unit_not_digit]).
  destruct (FormatUint_head n Hn) as (a & s & -> & Ha). rewrite (bool_decide_eq_false_2 (a = _)) by done.
  pattern u, k. by apply (size_units_cases _ u k Hu).
Qed.

Lemma submatch_inv str m d rest :
  FindStringSubmatch str = m :: d :: rest ->
  exists a s u k, d = String a s /\ a <> "0"%char /\ rest = [u] /\ (u, k) ∈ size_units /\ str = d +:+ u.
Proof.
  unfold FindStringSubmatch. destruct (span_digits str) as [d' r] eqn:E. apply span_digits_inv in E.
  destruct d' as [|a s]; [done|]. case_bool_decide as Ha; [done|].
  case_bool_decide as Hr; [|case_bool_decide as Hr'; [|done]]; intros [= <- <- <-]; subst str.
  - rewrite !elem_of_cons in Hr. exists a, s, r.
    destruct Hr as [-> |[-> |[-> |[-> |Hr]]]]; [| | | |by apply elem_of_nil in Hr]; eexists; repeat split; try done;
      unfold size_units; rewrite !elem_of_cons; eauto 6.
  - subst r. exists a, s, "", 0. repeat split; try done. by left.
Qed.

Lemma ParseSizeString_spec str v :
  ParseSizeString str = Some v <->
  (str = "0" /\ v = 0) \/
  exists n u k, 0 < n < 2 ^ 64 /\ (u, k) ∈ size_units /\ str = FormatUint n +:+ u /\ v = u64 (n * 2 ^ k).
Proof.
  split.
  - unfold ParseSizeString. case_bool_decide as H0; [intros [= <-]; by left|]. intros E. right.
    destruct (FindStringSubmatch str) as [|m [|d rest]] eqn:Em; [done..|].
    apply submatch_inv in Em as (a & s & u & k & -> & Ha & -> & Hu & ->).
    destruct (ParseUint (String a s)) as [n|] eqn:En; [|done]. cbn [mbind option_bind] in E. injection E as <-.
    apply Format_ParseUint in En as [Hn Ef]; [|done]. exists n, u, k. rewrite Ef. repeat split; try done; try lia.
    apply scale_units; [done|lia].
  - intros [[-> ->]|(n & u & k & Hn & Hu & -> & ->)]; [done|]. unfold ParseSizeString.
    rewrite bool_decide_eq_false_2.
    + rewrite (submatch_format n u k Hn Hu), ParseUint_Format by lia. cbn [mbind option_bind].
      by rewrite (scale_units u k) by (done || lia).
    + destruct (FormatUint_head n Hn) as (a & s & -> & Ha). intros [=]. done.
Qed.

Lemma device_size_spec str v :
  device_size str = Some v <->
  ((str = "" /\ v = 0) \/ ParseSizeString str = Some v) /\ exists k, v = k * blockSize /\ 0 <= k <= 2 ^ 32.
Proof.
  assert (Hflag : forall x, (if bool_decide (str = "") then Some 0 else ParseSizeString str) = Some x <->
    (str = "" /\ x = 0) \/ ParseSizeString str = Some x).
  { intros x. case_bool_decide as E; [subst str|]; split; naive_solver. }
  assert (Hpos : forall x, ParseSizeString str = Some x -> 0 <= x).
  { intros x [[_ ->]|(n & u & k & _ & _ & _ & ->)]%ParseSizeString_spec; [done|]. apply u64_range. }
  unfold device_size. rewrite bind_Some. setoid_rewrite Hflag. unfold maxDeviceSize, blockSize. split.
  - intros (x & Hx & E). destruct (_ && _) eqn:Ea; [done|].
    destruct (Z.ltb_spec (16 * 2 ^ 40) x) as [|Hle]; [done|]. injection E as ->. split; [done|].
    assert (0 <= v) by (destruct Hx as [[_ ->]|Hx]; [done|by apply Hpos]).
    exists (v / 4096). assert (v mod 4096 = 0) as Hm.
    { apply andb_false_iff in Ea as [Ea%Z.ltb_ge|Ea%negb_false_iff%Z.eqb_eq]; [|done].
      by replace v with 0 by lia. }
    pose proof (Z.div_mod v 4096 ltac:(lia)). lia.
  - intros (Hx & k & -> & Hk). exists (k * 4096). split; [done|]. rewrite Z.mod_mul, andb_false_r by done.
    by rewrite (proj2 (Z.ltb_ge _ _)) by lia.
Qed.

(** C17: the flag [-size] is accepted exactly if it is empty, ["0"], or a decimal
    number without leading zeros below 2^64 with an optional unit, whose product
    with the unit, modulo 2^64, is a multiple of the block size of at most 16 TiB;
    the number of blocks given to the device is that size in blocks, at most 2^32. *)
Theorem num_blocks_spec str k :
  num_blocks str = Some k <->
  ((str = "" \/ str = "0") /\ k = 0) \/
  exists n u e, 0 < n < 2 ^ 64 /\ (u, e) ∈ size_units /\ str = FormatUint n +:+ u /\
    u64 (n * 2 ^ e) = k * blockSize /\ 0 <= k <= 2 ^ 32.
Proof.
  unfold num_blocks. rewrite bind_Some. setoid_rewrite device_size_spec. split.
  - intros (v & (Hv & j & -> & Hj) & [= <-]). rewrite Z.div_mul by done.
    destruct Hv as [[-> Hv]|Hv]; [left; unfold blockSize in Hv; split; [by left|lia]|].
    apply ParseSizeString_spec in Hv as [[-> Hv]|(n & u & e & Hn & Hu & -> & Ev)].
    + left. unfold blockSize in Hv. split; [by right|lia].
    + right. exists n, u, e. done.
  - intros H. exists (k * blockSize). rewrite Z.div_mul by done. split; [|done].
    destruct H as [[Hs ->]|(n & u & e & Hn & Hu & -> & Ev & Hk)].
    + split; [|by exists 0]. destruct Hs as [-> | ->]; [by left|by right].
    + split; [|by exists k]. right. apply ParseSizeString_spec. right. by exists n, u, e.
Qed.

(** The product wraps around: 16 EiB and 1 MiB are taken for 1 MiB. *)
Example size_wraps : num_blocks "17592186044417M" = num_blocks "1M".
Proof. vm_compute. reflexivity. Qed.
