(* ===== verification/Device.v ===== *)
(** * The block device

    [internal/block/block_file.go] and [compaction.go]: the device composed of
    its write logs, its tables, the two trackers and the metadata. The operations
    run here one after the other; what happens when they interleave is the
    subject of [Tracker] and [TrackerWriter].

    The objects of the device, logs and tables, live in a heap, since the
    trackers, the block maps and the device share pointers to them. The storage
    is that of [Storage]; the contents of a log file that is open for writing are
    those its log has written. [w_past] records every state the storage has been
    in, to speak of a crash in the middle of an operation. *)
From S2P Require Import Prelude Radix Bits RangeMap ExtentRangeMap BlockReader StackedBlockReader BlockMap.
From S2P Require Import BlockMapTheorems GoStd Adaptor WalIndex WalFormat WalWriter WriteLog WriteLogState.
From S2P Require Import SparseBuilder SparseReader SparseBuildFrom WaitBarrier Tracker TrackerWriter.
From S2P Require Import DataFile Storage Metadata Decimal.
From Stdlib Require Uint63 PrimFloat.
From stdpp Require Import strings sorting.
Local Open Scope Z_scope.

(** ** Constants and options *)
Definition DefaultTargetTableSize : Z := 1024 * 1024 * 1024.
Definition MaxTableSize : Z := 64 * 1024 * 1024 * 1024.
Definition MinTableSize : Z := 1024 * 1024.
Definition MinBlockSize : Z := 512.
Definition MaxBlockSize : Z := 1024 * 1024.
Definition MaxBlocks : Z := Z.shiftl 1 48.
Definition sparseblockExt : string := ".sparseblock".

(** A Go [float64]; a conversion from a non-negative [int64]. *)
Abbreviation float64 := PrimFloat.float.
Definition float64_of (x : Z) : float64 := PrimFloat.of_uint63 (Uint63.of_Z x).
Definition DefaultMinTableUtilisation : float64 := PrimFloat.div PrimFloat.one PrimFloat.two.
Definition float_0_1 : float64 := PrimFloat.div PrimFloat.one (float64_of 10).
Definition float_0_9 : float64 := PrimFloat.div (float64_of 9) (float64_of 10).

Record BlockOptions := MkBlockOptions {
  o_BlockSize : Z;
  o_NumBlocks : Z;
  o_TargetTableSize : Z;
  o_MinTableUtilisation : float64;
}.

(** [util.SetDefaultIfZero] *)
Definition SetDefaultIfZero {V} (is_zero : V -> bool) (v defaultVal : V) : V :=
  if is_zero v then defaultVal else v.

(** [util.SliceLast] *)
Definition SliceLast {A} (l : list A) : outcome A := of_option (last l).

Section device.
Context {F : Type} `{!LogFile F} `{!LogFileLaws F} `{!Closer F} `{!WalCodec}.
Context {T : Type} `{!RadixTree item it_key T}.
Context {G : Type} `{!Closer G}.
Context `{!HeaderCodec} `{!TruncatedReader} `{!MetadataCodec}.
Context {M : Type} `{!RangeMap Z M} {BS : Type} `{!BitSet BS}.

(** A new file, a handle of an opened one, the numbers of [rand.Intn], and the
    order in which a [range] over a map visits it. *)
Context (newFile : F) (newHandle : G) (rnd : nat -> Z).
Context (map_order : gmap (option positive) Z -> list (option positive * Z)).

(** ** Objects *)
Inductive obj := OLog (l : WriteLog F T G) | OTable (d : DataFile G).

#[export] Instance obj_reader : BlockHoleReader obj := {
  ReadBlocks o := match o with OLog l => ReadBlocks l | OTable d => ReadBlocks d end;
  NextBlockData o := match o with OLog l => NextBlockData l | OTable d => NextBlockData d end;
  NextBlockHole o := match o with OLog l => NextBlockHole l | OTable d => NextBlockHole d end;
}.

Definition obj_name (o : obj) : string := match o with OLog l => wl_name l | OTable d => df_name d end.

Definition obj_Close (o : obj) : outcome (obj * option error) :=
  match o with
  | OLog l => '(l, err) ← wl_Close l; Ret (OLog l, err)
  | OTable d => '(d, err) ← df_Close d; Ret (OTable d, err)
  end.

(** The type assertions [w.( *WriteLog)] panic on a table. *)
Definition on_log {A} (o : obj) (f : WriteLog F T G -> outcome A) : outcome A :=
  match o with OLog l => f l | OTable _ => Panic end.

#[export] Instance obj_tracked : TrackedWriter obj := {
  tw_WriteBlocks o buf off := on_log o (fun l => r ← wl_WriteBlocks l buf off; let '(l, n, err) := r in Ret (OLog l, n, err));
  tw_Close o := on_log o (fun l => '(l, err) ← wl_Close l; Ret (OLog l, err));
  tw_Flush o := on_log o (fun l => let '(l, err) := wl_Flush l in Ret (OLog l, err));
  tw_CloseWriter o := on_log o (fun l => '(l, err) ← wl_CloseWriter l; Ret (OLog l, err));
  tw_Name := obj_name;
  tw_Written o := match o with OLog l => wl_Written l | OTable _ => 0 end;
}.

Abbreviation objects := (gmap positive obj).

(** A pointer reads as the object it points to. *)
Definition heap_reader (h : objects) : BlockHoleReader positive := {|
  ReadBlocks p buf off := o ← of_option (h !! p); ReadBlocks o buf off;
  NextBlockData p off := o ← of_option (h !! p); NextBlockData o off;
  NextBlockHole p off := o ← of_option (h !! p); NextBlockHole o off;
|}.

(** ** The storage *)
Inductive log_file := Stored (b : bytes) | Held (p : positive).

Record world := MkWorld {
  w_heap : objects;
  w_blobs : directory;
  w_logs : gmap string log_file;
  w_rand : nat;
  w_past : list (directory * directory);
}.

Definition file_bytes (h : objects) (f : log_file) : bytes :=
  match f with
  | Stored b => b
  | Held p => match h !! p with Some (OLog l) => wl_file l | _ => [] end
  end.

Definition log_dir (w : world) : directory := file_bytes (w_heap w) <$> w_logs w.

(** The blobs and the logs on the storage. *)
Definition disk_of (w : world) : directory * directory := (w_blobs w, log_dir w).

(** The state of the storage is recorded after each change. *)
Definition record (w : world) : world :=
  MkWorld (w_heap w) (w_blobs w) (w_logs w) (w_rand w) (w_past w ++ [disk_of w]).

Definition with_heap (w : world) (h : objects) : world :=
  MkWorld h (w_blobs w) (w_logs w) (w_rand w) (w_past w).
Definition with_blobs (w : world) (d : directory) : world :=
  record (MkWorld (w_heap w) d (w_logs w) (w_rand w) (w_past w)).
Definition with_logs (w : world) (h : objects) (l : gmap string log_file) : world :=
  record (MkWorld h (w_blobs w) l (w_rand w) (w_past w)).

(** A new object. *)
Definition alloc_obj (w : world) (o : obj) : world * positive :=
  let p := fresh (dom (w_heap w)) in (with_heap w (<[p := o]> (w_heap w)), p).

(** The storage after a crash: what the log files hold is all that is left of
    the logs. *)
Definition crashed (d : directory * directory) : world := MkWorld ∅ d.1 (Stored <$> d.2) 0 [].

(** ** The device *)
Record BlockFile := MkBlockFile {
  bf_TargetTableSize : Z;
  bf_MinTableUtilisation : float64;
  bf_numBlocks : Z;
  bf_blockSize : Z;
  bf_nextSeq : Z;
  bf_readerTracker : Tracker positive M BS;
  bf_writerTracker : Writer positive;
  bf_meta : Metadata;
}.

Definition set_nextSeq (bf : BlockFile) n := MkBlockFile (bf_TargetTableSize bf) (bf_MinTableUtilisation bf)
  (bf_numBlocks bf) (bf_blockSize bf) n (bf_readerTracker bf) (bf_writerTracker bf) (bf_meta bf).
Definition set_reader (bf : BlockFile) t := MkBlockFile (bf_TargetTableSize bf) (bf_MinTableUtilisation bf)
  (bf_numBlocks bf) (bf_blockSize bf) (bf_nextSeq bf) t (bf_writerTracker bf) (bf_meta bf).
Definition set_writer (bf : BlockFile) m := MkBlockFile (bf_TargetTableSize bf) (bf_MinTableUtilisation bf)
  (bf_numBlocks bf) (bf_blockSize bf) (bf_nextSeq bf) (bf_readerTracker bf) m (bf_meta bf).
Definition set_meta (bf : BlockFile) m := MkBlockFile (bf_TargetTableSize bf) (bf_MinTableUtilisation bf)
  (bf_numBlocks bf) (bf_blockSize bf) (bf_nextSeq bf) (bf_readerTracker bf) (bf_writerTracker bf) m.

Definition bf_Size (bf : BlockFile) : Z := i64 (bf_blockSize bf * bf_numBlocks bf).

(** [bf.meta.SaveNoError()] *)
Definition bf_Save (w : world) (bf : BlockFile) : outcome world :=
  d ← SaveNoError (w_blobs w) (bf_meta bf); Ret (with_blobs w d).

(** ** Files *)
Definition log_name (n : Z) : string := "wal-" +:+ sprintf_08d n.
Definition table_name (seq : Z) : string := FormatUint seq +:+ sparseblockExt.

Definition openTableFile (w : world) (bf : BlockFile) (name : string) : outcome (world * (positive + error)) :=
  match bs_Open (w_blobs w) name with
  | inr err => Ret (w, inr err)
  | inl (f, _) =>
      res ← NewSparseBlockFromReader f newHandle (bf_blockSize bf) (bf_Size bf) name;
      match res with
      | inr err => Ret (w, inr err)
      | inl df => let '(w, p) := alloc_obj w (OTable df) in Ret (w, inl p)
      end
  end.

Definition loadDataFile (w : world) (bf : BlockFile) (df : DataFilePb) : outcome (world * (positive + error)) :=
  let name := dfp_Name df in
  t ← mdf_Type df;
  match t with
  | WRITE_LOG =>
      match ls_Open (log_dir w) name with
      | inr err => Ret (w, inr err)
      | inl (lf, size) =>
          res ← NewWriteLogFromReader lf newHandle size (bf_blockSize bf) name;
          match res with
          | inr err => Ret (w, inr err)
          | inl wl => let '(w, p) := alloc_obj w (OLog wl) in Ret (w, inl p)
          end
      end
  | SPARSE_TABLE => openTableFile w bf name
  | UNSPECIFIED => Panic
  end.

Definition generateNextTableName (bf : BlockFile) : BlockFile * string :=
  (set_nextSeq bf (bf_nextSeq bf +u 1), table_name (bf_nextSeq bf)).

(** The loop ends when a name is not in use. *)
Fixpoint makeLogWriter (fuel : nat) (w : world) (bf : BlockFile) : outcome (world * positive) :=
  match fuel with
  | O => OutOfFuel
  | S fuel =>
      let name := log_name (rnd (w_rand w)) in
      let w := MkWorld (w_heap w) (w_blobs w) (w_logs w) (S (w_rand w)) (w_past w) in
      match ls_Create (log_dir w) name with
      | inr ErrExist => makeLogWriter fuel w bf
      | inr _ => Panic
      | inl _ =>
          let '(w, p) := alloc_obj w (OLog (NewWriteLogFromWriter newFile (bf_blockSize bf) name)) in
          Ret (with_logs w (w_heap w) (<[name := Held p]> (w_logs w)), p)
      end
  end.

(** ** [compaction.go] *)
Record compactInfo := MkCompactInfo { ci_df : positive; ci_liveBytes : Z }.

(** One entry of the loop over the live blocks: the tables of low utilisation. *)
Definition compact_candidate (h : objects) (blockSize : Z) (minUtilisation : float64) (e : option positive * Z) :
    outcome (option compactInfo) :=
  let '(r, blocks) := e in
  let live := i64 (blocks * blockSize) in
  match r with
  | None => Ret None
  | Some p =>
      match h !! p with
      | Some (OTable df) =>
          size ← df_DataSize df;
          let utilisation := PrimFloat.div (float64_of live) (float64_of size) in
          if PrimFloat.ltb minUtilisation utilisation then Ret None
          else if blocks =? 0 then Ret None
          else Ret (Some (MkCompactInfo p live))
      | _ => Ret None
      end
  end.

Fixpoint compact_candidates (h : objects) (blockSize : Z) (minUtilisation : float64)
    (l : list (option positive * Z)) : outcome (list compactInfo) :=
  match l with
  | [] => Ret []
  | e :: l =>
      c ← compact_candidate h blockSize minUtilisation e;
      cis ← compact_candidates h blockSize minUtilisation l;
      Ret match c with Some c => c :: cis | None => cis end
  end.

(** The loop that chooses tables until there are enough bytes. *)
Fixpoint choose_tables (cis : list compactInfo) (chosenTablesBytes maxCompactionBytes : Z) : list positive :=
  match cis with
  | [] => []
  | info :: cis =>
      let chosen := i64 (chosenTablesBytes + ci_liveBytes info) in
      ci_df info :: if maxCompactionBytes <? chosen then [] else choose_tables cis chosen maxCompactionBytes
  end.

Definition by_liveBytes (a b : compactInfo) : Prop := ci_liveBytes a <= ci_liveBytes b.

#[export] Instance by_liveBytes_dec a b : Decision (by_liveBytes a b).
Proof. unfold by_liveBytes. apply _. Defined.

Definition BuildCompactionReader (h : objects) (t : Tracker positive M BS) (blockSize : Z)
    (minUtilisation : float64) (maxCompactionBytes : Z) : outcome (option (BlockMap.Reader positive M BS)) :=
  liveBlocks ← cs_LiveBlocks t;
  cis ← compact_candidates h blockSize minUtilisation (map_order liveBlocks);
  if bool_decide (length cis = 0%nat) then Ret None
  else
    let cis := merge_sort by_liveBytes cis in
    r ← cs_LiveBytesReader t (choose_tables cis 0 maxCompactionBytes); Ret (Some r).

(** ** Rotation and compaction *)
Definition rotateNewWriteLog (fuel : nat) (w : world) (bf : BlockFile) : outcome (world * BlockFile) :=
  '(w, newWriteLog) ← makeLogWriter fuel w bf;
  let bf := set_reader bf (tk_PushWriter (bf_readerTracker bf) newWriteLog) in
  o ← of_option (w_heap w !! newWriteLog);
  let bf := set_meta bf (PushWriteLog (bf_meta bf) (obj_name o)) in
  w ← bf_Save w bf;
  r ← wt_PushNewLog (bf_writerTracker bf) (w_heap w) newWriteLog;
  let '(m, h, oldWriter) := r in
  let w := record (with_heap w h) in
  let bf := set_writer bf m in
  match oldWriter with
  | None => Ret (w, bf)
  | Some old =>
      let t := tk_PushReader (bf_readerTracker bf) old in
      let t := default t (tk_RemoveWriter t old) in
      Ret (w, set_reader bf t)
  end.

(** The merge loop of the reader tracker, run until nothing is pending. *)
Definition mergeReaders (w : world) (t : Tracker positive M BS) : outcome (Tracker positive M BS) :=
  let rs := tk_pendingReaders t in
  p ← push_all (BlockHoleReader0 := heap_reader (w_heap w)) (tk_primaryIndex t) (merge_order rs);
  Ret (merge_finish (set_primaryIndex t p) rs).

(** [StartCompaction] waits for the merge. A [nil] would make the caller wait for
    another compaction to finish. *)
Definition startCompaction (w : world) (t : Tracker positive M BS) : outcome (Tracker positive M BS) :=
  t ← (if bool_decide (tk_pendingReaders t = []) then Ret t else mergeReaders w t);
  match tk_StartCompaction t with Some (t, true) => Ret t | _ => OutOfFuel end.

(** The readers of [indexReader]: the compaction reader and the logs. *)
Definition compaction_sources (h : objects) (cr : option (BlockMap.Reader positive M BS)) :
    BlockHoleReader (option positive) :=
  let HR := heap_reader h in {|
  ReadBlocks r buf off := match r with
    | Some p => ReadBlocks p buf off
    | None => cr ← of_option cr; ReadBlocks cr buf off end;
  NextBlockData r off := match r with
    | Some p => NextBlockData p off
    | None => cr ← of_option cr; NextBlockData cr off end;
  NextBlockHole r off := match r with
    | Some p => NextBlockHole p off
    | None => cr ← of_option cr; NextBlockHole cr off end;
|}.

Definition compactToFile (w : world) (bf : BlockFile) {R} `{!BlockHoleReader R} (r : HoleReader R) :
    outcome (world * BlockFile * (string + error)) :=
  let '(bf, name) := generateNextTableName bf in
  let writeFile := bs_Create name in
  '(tbl, err) ← BuildFromReader (S (Z.to_nat (bf_numBlocks bf))) r (bf_blockSize bf) 0;
  match err with
  | Some err => Ret (w, bf, inr err)
  | None => Ret (with_blobs w (blob_Close (w_blobs w) (blob_Write writeFile tbl)), bf, inl name)
  end.

(** The loop over the readers of [removeUnusedTables]. *)
Fixpoint remove_unused (h : objects) (l : list (option positive * Z)) (t : Tracker positive M BS) (meta : Metadata)
    (unused : list positive) : outcome (Tracker positive M BS * Metadata * list positive) :=
  match l with
  | [] => Ret (t, meta, unused)
  | (r, live) :: l =>
      if 0 <? live then remove_unused h l t meta unused
      else
        r ← of_option r;
        t ← cs_RemoveUnusedReader t r;
        f ← of_option (h !! r);
        let meta := match f with
                    | OTable d => RemoveSparseDataFile meta (df_name d)
                    | OLog wl => RemoveWriteLog meta (wl_name wl)
                    end in
        remove_unused h l t meta (unused ++ [r])
  end.

(** The loop that closes and deletes the files. *)
Definition delete_file (w : world) (r : positive) : outcome world :=
  f ← of_option (w_heap w !! r);
  '(f, _) ← obj_Close f;
  let w := with_heap w (<[r := f]> (w_heap w)) in
  Ret match f with
      | OTable d => with_blobs w (dir_Remove (w_blobs w) (df_name d)).1
      | OLog wl => with_logs w (w_heap w) (delete (wl_name wl) (w_logs w))
      end.

Fixpoint delete_files (w : world) (unused : list positive) : outcome world :=
  match unused with
  | [] => Ret w
  | r :: unused => w ← delete_file w r; delete_files w unused
  end.

Definition removeUnusedTables (w : world) (bf : BlockFile) : outcome (world * BlockFile) :=
  liveBlocks ← cs_LiveBlocks (bf_readerTracker bf);
  r ← remove_unused (w_heap w) (map_order liveBlocks) (bf_readerTracker bf) (bf_meta bf) [];
  let '(t, meta, unused) := r in
  let bf := set_meta (set_reader bf t) meta in
  w ← (if bool_decide (unused = []) then Ret w else bf_Save w bf);
  w ← delete_files w unused;
  Ret (w, bf).

Definition compactPendingWriters (w : world) (bf : BlockFile) : outcome (world * BlockFile) :=
  t ← startCompaction w (bf_readerTracker bf);
  let bf := set_reader bf t in
  compactionReader ← BuildCompactionReader (w_heap w) t (bf_blockSize bf) (bf_MinTableUtilisation bf)
                       (bf_TargetTableSize bf);
  let HS := compaction_sources (w_heap w) compactionReader in
  let compactingWriters := wt_Pending (bf_writerTracker bf) in
  indexReader ← push_all (BlockMap.NewReader (bf_blockSize bf) (bf_numBlocks bf) : BlockMap.Reader (option positive) M BS)
                  (match compactionReader with Some _ => [None] | None => [] end ++ (Some <$> compactingWriters));
  _ ← LiveBlocks indexReader;
  r ← compactToFile w bf (NewHoleReader indexReader (bf_blockSize bf));
  let '(w, bf, res) := r in
  match res with
  | inr _ => Panic
  | inl compactedName =>
      '(w, res) ← openTableFile w bf compactedName;
      match res with
      | inr _ => Panic
      | inl df =>
          t ← cs_PushCompactedReader (HR := heap_reader (w_heap w)) (bf_readerTracker bf) df;
          let bf := set_reader bf t in
          let bf := set_writer bf (wt_RemovePending (bf_writerTracker bf) compactingWriters) in
          last ← SliceLast compactingWriters;
          o ← of_option (w_heap w !! last);
          let bf := set_meta bf (CompactWriteLog (bf_meta bf) (obj_name o) compactedName) in
          '(w, bf) ← removeUnusedTables w bf;
          Ret (w, set_reader bf (cs_Done (bf_readerTracker bf)))
      end
  end.

Definition compactWriter (fuel : nat) (w : world) (bf : BlockFile) : outcome (world * BlockFile) :=
  if wt_LogWritten (bf_writerTracker bf) <? bf_TargetTableSize bf then Ret (w, bf)
  else
    '(w, bf) ← rotateNewWriteLog fuel w bf;
    compactPendingWriters w bf.

(** ** The operations of the device *)
Definition bf_ReadBlocks (w : world) (bf : BlockFile) (buf : bytes) (index : Z) :
    outcome (bytes * Z * option error) :=
  tk_ReadBlocks (HR := heap_reader (w_heap w)) (bf_readerTracker bf) buf index.

(** The last component tells whether a compaction has been requested. *)
Definition bf_WriteBlocks (w : world) (bf : BlockFile) (buf : bytes) (index : Z) :
    outcome (world * BlockFile * Z * option error * bool) :=
  r ← wt_WriteBlocks (bf_writerTracker bf) (w_heap w) buf index;
  let '(m, h, n, err) := r in
  Ret (record (with_heap w h), set_writer bf m, n, err, bf_TargetTableSize bf <? wt_LogWritten m).

Definition bf_Flush (w : world) (bf : BlockFile) : outcome (world * option error) :=
  '(h, err) ← wt_Flush (bf_writerTracker bf) (w_heap w); Ret (with_heap w h, err).

Fixpoint remove_logs (w : world) (names : list string) : world :=
  match names with
  | [] => w
  | l :: names => remove_logs (with_logs w (w_heap w) (delete l (w_logs w))) names
  end.

Definition bf_Close (w : world) (bf : BlockFile) : outcome (world * BlockFile * option error) :=
  r ← wt_Close (bf_writerTracker bf) (w_heap w);
  let '(m, h, emptyLogs, err) := r in
  let w := record (with_heap w h) in
  let bf := set_writer bf m in
  if bool_decide (emptyLogs = []) then Ret (w, bf, err)
  else
    let bf := set_meta bf (fold_left RemoveWriteLog emptyLogs (bf_meta bf)) in
    w ← bf_Save w bf;
    Ret (remove_logs w emptyLogs, bf, err).

(** ** Opening the device *)

(** The loop over the data files. *)
Fixpoint load_files (w : world) (bf : BlockFile) (dfs : list DataFilePb) : outcome (world * (BlockFile + error)) :=
  match dfs with
  | [] => Ret (w, inl bf)
  | df :: dfs =>
      t ← mdf_Type df;
      '(w, res) ← loadDataFile w bf df;
      match res with
      | inr err => Ret (w, inr err)
      | inl f =>
          let bf := set_reader bf (tk_PushReader (bf_readerTracker bf) f) in
          match t with
          | WRITE_LOG => load_files w (set_writer bf (wt_PushPending (bf_writerTracker bf) f)) dfs
          | _ =>
              let bf := match ParseUint (split_dot (dfp_Name df)) with
                        | Some seq => if bf_nextSeq bf <=? seq then set_nextSeq bf (seq +u 1) else bf
                        | None => bf
                        end in
              load_files w bf dfs
          end
      end
  end.

Definition OpenBlockFileWithOptions (fuel : nat) (w : world) (opts : BlockOptions) :
    outcome (world * (BlockFile + error)) :=
  if (o_BlockSize opts <? MinBlockSize) || (MaxBlockSize <? o_BlockSize opts) then Ret (w, inr ErrInvalidOption)
  else if (o_NumBlocks opts <? 0) || (MaxBlocks <? o_NumBlocks opts) then Ret (w, inr ErrInvalidOption)
  else
    let target := SetDefaultIfZero (fun x => x =? 0) (o_TargetTableSize opts) DefaultTargetTableSize in
    if (target <? MinTableSize) || (MaxTableSize <? target) then Ret (w, inr ErrInvalidOption)
    else
      let util := SetDefaultIfZero (PrimFloat.eqb PrimFloat.zero) (o_MinTableUtilisation opts) DefaultMinTableUtilisation in
      if PrimFloat.ltb util float_0_1 || PrimFloat.ltb float_0_9 util then Ret (w, inr ErrInvalidOption)
      else
        let meta := match LoadMetadata (w_blobs w) with
                    | inl m => inl m
                    | inr ErrNotExist =>
                        if o_NumBlocks opts =? 0 then inr ErrInvalidOption
                        else if o_BlockSize opts =? 0 then inr ErrInvalidOption
                        else inl (NewMetadata_BlockStore (o_BlockSize opts) (u64 (o_NumBlocks opts)))
                    | inr err => inr err
                    end in
        match meta with
        | inr err => Ret (w, inr err)
        | inl meta =>
            let numBlocks := i64 (md_NumBlocks meta) in
            let blockSize := md_BlockSize meta in
            let bf := MkBlockFile target util numBlocks blockSize 1 (NewTracker blockSize numBlocks)
                        (NewWriterTracker blockSize) meta in
            '(w, res) ← load_files w bf (ListDataFiles meta);
            match res with
            | inr err => Ret (w, inr err)
            | inl bf =>
                '(w, newWriteLog) ← makeLogWriter fuel w bf;
                o ← of_option (w_heap w !! newWriteLog);
                let bf := set_meta bf (PushWriteLog (bf_meta bf) (obj_name o)) in
                w ← bf_Save w bf;
                let bf := set_reader bf (tk_PushWriter (bf_readerTracker bf) newWriteLog) in
                r ← wt_PushNewLog (bf_writerTracker bf) (w_heap w) newWriteLog;
                let '(m, h, _) := r in
                Ret (record (with_heap w h), inl (set_writer bf m))
            end
        end.
End device.
Arguments obj F T G : clear implicits.
Arguments world F T G : clear implicits.
Arguments BlockFile M BS : clear implicits.
