(* ===== verification/DeviceInv.v ===== *)
(** * The invariant of the device

    What holds of a device between its operations: the pointers of its tables,
    of the logs that wait to be compacted and of the active log; what each of
    them serves and has on the storage; and how the trackers and the metadata
    list them. Reads, writes and flushes are shown to keep it. *)
From S2P Require Import Prelude Radix Bits RangeMap ExtentRangeMap BlockReader StackedBlockReader BlockMap.
From S2P Require Import BlockMapTheorems GoStd Adaptor WalIndex WalFormat WalWriter WalTheorems WriteLog WriteLogState.
From S2P Require Import SparseBuilder SparseReader SparseBuildFrom WaitBarrier Tracker TrackerWriter.
From S2P Require Import DataFile Storage Metadata Decimal Device.
From stdpp Require Import strings functions list.
Local Open Scope Z_scope.

(** ** Names *)
Lemma table_name_seq s : 0 <= s < 2 ^ 64 -> ParseUint (split_dot (table_name s)) = Some s.
Proof.
  intros Hs. unfold table_name, sparseblockExt. rewrite split_dot_digits by (apply FormatUint_digits; lia).
  by apply ParseUint_Format.
Qed.

Lemma table_name_inj s t : 0 <= s < 2 ^ 64 -> 0 <= t < 2 ^ 64 -> table_name s = table_name t -> s = t.
Proof. intros Hs Ht E. apply table_name_seq in Hs, Ht. congruence. Qed.

Lemma table_name_not_metadata s : 0 <= s < 2 ^ 64 -> table_name s <> metadataBlobName.
Proof. intros Hs E. apply table_name_seq in Hs. rewrite E in Hs. vm_compute in Hs. discriminate. Qed.

(** Saving the metadata changes no table. *)
Lemma metadata_not_table (blobs : directory) b s :
  0 <= s < 2 ^ 64 -> <[metadataBlobName := b]> blobs !! table_name s = blobs !! table_name s.
Proof. intros Hs. apply lookup_insert_ne. intros E. by apply (table_name_not_metadata s). Qed.

Lemma string_length_app s t : String.length (s +:+ t) = (String.length s + String.length t)%nat.
Proof. induction s as [|a s IH]; [done|]. change (S (String.length (s +:+ t)) = S (String.length s + String.length t)%nat). by rewrite IH. Qed.

Definition ascii_char (a : Ascii.ascii) : bool := (Ascii.nat_of_ascii a <? 128)%nat.

Lemma ascii_app s t :
  forallb ascii_char (String.list_ascii_of_string (s +:+ t)) =
  forallb ascii_char (String.list_ascii_of_string s) && forallb ascii_char (String.list_ascii_of_string t).
Proof.
  induction s as [|a s IH]; [done|]. change (String a s +:+ t) with (String a (s +:+ t)).
  cbn [String.list_ascii_of_string forallb]. by rewrite IH, andb_assoc.
Qed.

Lemma ascii_format_go fuel n s :
  forallb ascii_char (String.list_ascii_of_string s) = true ->
  forallb ascii_char (String.list_ascii_of_string (format_go fuel n s)) = true.
Proof.
  revert n s. induction fuel as [|fuel IH]; intros n s Hs; [done|]. cbn [format_go].
  assert (forallb ascii_char (String.list_ascii_of_string (String (digit (n mod 10)) s)) = true) as Hc.
  { cbn. rewrite Hs, andb_true_r. unfold ascii_char, digit. pose proof (Z.mod_pos_bound n 10 ltac:(lia)).
    rewrite Ascii.nat_ascii_embedding by lia. apply Nat.leb_le. lia. }
  destruct (n <? 10); [done|]. by apply IH.
Qed.

Lemma pad_zeros_fits k s :
  String.length (pad_zeros k s) = (k + String.length s)%nat /\
  forallb ascii_char (String.list_ascii_of_string (pad_zeros k s)) =
    forallb ascii_char (String.list_ascii_of_string s).
Proof. induction k as [|k [IH1 IH2]]; [done|]. cbn. by rewrite IH1, IH2. Qed.

Lemma name_fits_intro s : (String.length s < 256)%nat ->
  forallb ascii_char (String.list_ascii_of_string s) = true -> name_fits s = true.
Proof. intros Hl Ha. unfold name_fits. apply andb_true_iff. split; [by apply Nat.ltb_lt|done]. Qed.

Lemma table_name_fits s : name_fits (table_name s) = true.
Proof.
  unfold table_name, FormatUint. pose proof (length_format_go 20 s "") as Hl. apply name_fits_intro.
  - rewrite string_length_app. unfold sparseblockExt. change (String.length ".sparseblock") with 12%nat. change (String.length "") with 0%nat in Hl. lia.
  - rewrite ascii_app, ascii_format_go by done. done.
Qed.

Lemma log_name_fits n : name_fits (log_name n) = true.
Proof.
  unfold log_name, sprintf_08d, FormatUint. pose proof (length_format_go 20 n "") as Hl.
  destruct (pad_zeros_fits (8 - String.length (format_go 20 n "")) (format_go 20 n "")) as [H1 H2].
  apply name_fits_intro.
  - rewrite string_length_app, H1. cbn [String.length] in *. lia.
  - rewrite ascii_app, H2, ascii_format_go by done. done.
Qed.

(** ** Contents and lists of readers *)
Lemma top_owner_ext {R} (C D : R -> content) l k :
  (forall r, r ∈ l -> C r = D r) -> top_owner C l k = top_owner D l k.
Proof.
  induction l as [|r l IH]; intros HCD; [done|]. cbn. rewrite HCD by (by left).
  by rewrite IH by (intros; apply HCD; by right).
Qed.

Lemma fmap_insert_notin {A B} `{!EqDecision A} (f : A -> B) a b (l : list A) :
  (a ∉ l) -> (<[a := b]> f) <$> l = f <$> l.
Proof. intros Ha. apply list_fmap_ext. intros i x Hx. apply fn_lookup_insert_ne. intros ->. by apply Ha, (list_elem_of_lookup_2 _ i). Qed.

(** The overlay with a block written to its top. *)
Lemma overlay_write bs c cs w k :
  overlay (write_content bs c w :: cs) k = write_content bs (overlay (c :: cs)) w k.
Proof. cbn. unfold write_content. by case_bool_decide. Qed.

Section invariant.
Context {F : Type} `{!LogFile F} `{!LogFileLaws F} `{!Closer F} `{!CloserLaws F} `{!WalCodec} `{!WalCodecLaws}.
Context {T : Type} `{!RadixTree item it_key T} `{!RadixTreeLaws item it_key T}.
Context {G : Type} `{!Closer G}.
Context `{!HeaderCodec} `{!HeaderCodecLaws} `{!TruncatedReader} `{!TruncatedReaderLaws}.
Context `{!MetadataCodec} `{!MetadataCodecLaws}.
Context {M : Type} `{!RangeMap Z M} `{!RangeMapLaws Z M} {BS : Type} `{!BitSet BS} `{!BitSetLaws BS}.
Context (bs nb : Z) (Hbs : 512 <= bs <= 1024 * 1024) (Hnb : 0 < nb < 2 ^ 28).
Implicit Types (h : gmap positive (obj F T G)) (blobs : directory) (logs : gmap string log_file).
Implicit Types (w : world F T G) (bf : BlockFile M BS) (C : positive -> content) (N : positive -> string).

(** ** Files *)

(** A table: its object and its blob. *)
Definition table_at h blobs (p : positive) (name : string) (c : content) : Prop :=
  exists d b, h !! p = Some (OTable d) /\ df_name d = name /\ is_Some (df_sf d) /\ reader_ok bs nb d c /\
    blobs !! name = Some b /\ table_loads bs nb b c.

(** A log: its object, which writes the file or has been opened from it. *)
Definition log_at h logs (open : bool) (p : positive) (name : string) (c : content) : Prop :=
  exists l ws, h !! p = Some (OLog l) /\ wl_name l = name /\ c = writes_content bs ws /\
    (log_state bs nb ws open l /\ logs !! name = Some (Held p) \/
     open = false /\ exists b, logs !! name = Some (Stored b) /\ file_opens (F := F) (T := T) (G := G) bs nb b ws /\
                               log_opened bs nb b ws l).

(** The tables [ts], the logs [ls] that take no more writes, and the active log
    [a]: their names [N] and contents [C]. *)
Record files h blobs logs (seq : Z) (ts ls : list positive) (a : positive) N C : Prop := {
  fl_table p : p ∈ ts -> table_at h blobs p (N p) (C p);
  fl_log p : p ∈ ls -> log_at h logs false p (N p) (C p);
  fl_active : log_at h logs true a (N a) (C a);
  fl_NoDup : NoDup (ts ++ ls ++ [a]);
  fl_tnames : NoDup (N <$> ts);
  fl_lnames : NoDup (N <$> ls ++ [a]);
  fl_seq p : p ∈ ts -> exists s, N p = table_name s /\ 1 <= s < seq;
  fl_fits p : p ∈ ls ++ [a] -> name_fits (N p) = true;
  fl_bound : 1 <= seq <= 2 ^ 63;
}.

(** The metadata lists the tables and then the logs. *)
Definition entries N (ts ls : list positive) : list DataFilePb :=
  (MkDataFilePb SPARSE_TABLE <$> (N <$> ts)) ++ (MkDataFilePb WRITE_LOG <$> (N <$> ls)).

Definition meta_of N (ts ls : list positive) : Metadata := MkMetadata bs nb (entries N ts ls).

(** An index of the readers [l], the last on top. *)
Record index_of C (r : BlockMap.Reader positive M BS) (l : list positive) : Prop := {
  ix_wf : bm_wf bs nb r;
  ix_rs : rs r = l;
  ix_owner k : owner r k = top_owner C (reverse l) k;
}.

Record tracker_ok (t : Tracker positive M BS) (a : positive) (idx pend : list positive) C : Prop := {
  to_sizes : tk_blockSize t = bs /\ tk_numBlocks t = nb;
  to_stack : tk_readerStack t = RefReader a :: (RefReader <$> reverse pend) ++ [RefPrimary];
  to_writers : tk_writers t = [a];
  to_pending : tk_pendingReaders t = reverse pend;
  to_idle : tk_compactionState t = false;
  to_index : index_of C (tk_primaryIndex t) idx;
}.

(** Something has been written to the active log when the count is not zero. *)
Record writers_ok (m : TrackerWriter.Writer positive) (ls : list positive) (a : positive) C : Prop := {
  wts_active : wt_activeWriter m = Some a;
  wts_pending : wt_pendingWriters m = ls;
  wts_count : wt_writeCount m <> 0 -> exists k, is_Some (C a k);
}.

Record dev_inv w bf (ts ls : list positive) (a : positive) N C : Prop := {
  dv_sizes : bf_blockSize bf = bs /\ bf_numBlocks bf = nb;
  dv_target : 0 < bf_TargetTableSize bf;
  dv_files : files (w_heap w) (w_blobs w) (w_logs w) (bf_nextSeq bf) ts ls a N C;
  dv_meta : bf_meta bf = meta_of N ts (ls ++ [a]);
  dv_saved : LoadMetadata (w_blobs w) = inl (bf_meta bf);
  dv_tracker : exists idx pend, idx ++ pend = ts ++ ls /\ tracker_ok (bf_readerTracker bf) a idx pend C;
  dv_writer : writers_ok (bf_writerTracker bf) ls a C;
}.

(** What the device serves. *)
Definition layers C (ts ls : list positive) (a : positive) : content := overlay (C <$> a :: reverse (ts ++ ls)).

Definition device w bf (c : content) : Prop :=
  exists ts ls a N C, dev_inv w bf ts ls a N C /\ forall k, c k = layers C ts ls a k.

(** ** Readers *)
Lemma pointer_reads h p (o : obj F T G) c :
  h !! p = Some o -> reader_ok bs nb o c -> reader_ok (BlockHoleReader0 := heap_reader h) bs nb p c.
Proof.
  intros Hp [Hz Hr Hd Hh Hrd]. split; [done|done| | |]; cbn [ReadBlocks NextBlockData NextBlockHole heap_reader];
    by rewrite Hp.
Qed.

Lemma table_reads h blobs p name c : table_at h blobs p name c -> reader_ok (BlockHoleReader0 := heap_reader h) bs nb p c.
Proof. intros (d & b & Hp & _ & _ & [Hz Hr Hd Hh Hrd] & _). apply (pointer_reads _ _ _ _ Hp). by split. Qed.

Lemma log_reads h logs o p name c : log_at h logs o p name c -> reader_ok (BlockHoleReader0 := heap_reader h) bs nb p c.
Proof.
  intros (l & ws & Hp & _ & -> & [[Hl _]|(_ & b & _ & _ & Hl)]); apply (pointer_reads _ _ _ _ Hp).
  - apply log_state_reads in Hl; [|lia..|nia]. destruct Hl as [Hz Hr Hd Hh Hrd]. by split.
  - apply lop_reads in Hl. destruct Hl as [Hz Hr Hd Hh Hrd]. by split.
Qed.

Lemma files_read h blobs logs seq ts ls a N C p :
  files h blobs logs seq ts ls a N C -> p ∈ ts ++ ls ++ [a] -> reader_ok (BlockHoleReader0 := heap_reader h) bs nb p (C p).
Proof.
  intros Hf. rewrite !elem_of_app, list_elem_of_singleton. intros [Hp|[Hp| ->]].
  - eapply table_reads, (fl_table _ _ _ _ _ _ _ _ _ Hf p Hp).
  - eapply log_reads, (fl_log _ _ _ _ _ _ _ _ _ Hf p Hp).
  - eapply log_reads, (fl_active _ _ _ _ _ _ _ _ _ Hf).
Qed.

(** The index serves the readers it lists, the last on top. *)
Lemma index_reads_as h C r l :
  index_of C r l -> (forall p, p ∈ l -> reader_ok (BlockHoleReader0 := heap_reader h) bs nb p (C p)) ->
  reader_ok (BlockHoleReader0 := blockmap_reader (BlockHoleReader0 := heap_reader h)) bs nb r (overlay (C <$> reverse l)).
Proof.
  intros [Hwf Hrs Ho] Hl.
  apply (reader_ok_ext bs nb r (bm_content C r)).
  - intros k. unfold bm_content. by rewrite Ho, top_owner_content.
  - apply bm_reader_ok; [lia..|done| |].
    + intros k br. rewrite Ho. intros (_ & ?)%top_owner_Some. done.
    + intros br. rewrite Hrs. apply Hl.
Qed.

(** ** Reading *)
Lemma filled_ext (c d : content) buf off m :
  (forall k, c k = d k) -> filled bs (image bs c) buf off m = filled bs (image bs d) buf off m.
Proof. intros Hcd. unfold filled. f_equal. apply read_image_ext. intros k _. unfold image. by rewrite Hcd. Qed.

Lemma overlay_single c k : overlay [c] k = c k.
Proof. cbn. by destruct (c k). Qed.

Lemma stack_layers C (a : positive) idx pend k :
  overlay (C a :: (C <$> reverse pend) ++ [overlay (C <$> reverse idx)]) k =
  overlay (C <$> a :: reverse (idx ++ pend)) k.
Proof.
  rewrite reverse_app, fmap_cons, fmap_app. cbn [overlay]. destruct (C a k); [done|].
  rewrite !overlay_app. destruct (overlay (C <$> reverse pend) k); [done|]. apply overlay_single.
Qed.

(** ** Files are apart *)
Lemma files_apart h blobs logs seq ts ls a N C :
  files h blobs logs seq ts ls a N C -> NoDup (ts ++ ls) /\ (a ∉ ts ++ ls).
Proof.
  intros Hf. pose proof (fl_NoDup _ _ _ _ _ _ _ _ _ Hf) as Hnd. rewrite app_assoc in Hnd.
  apply NoDup_app in Hnd as (Hnd & Hd & _). split; [done|]. intros Ha. apply (Hd a Ha). by left.
Qed.

Lemma files_alloc h blobs logs seq ts ls a N C p :
  files h blobs logs seq ts ls a N C -> p ∈ ts ++ ls ++ [a] -> is_Some (h !! p).
Proof.
  intros Hf [Hp|[Hp| ->%list_elem_of_singleton]%elem_of_app]%elem_of_app.
  - destruct (fl_table _ _ _ _ _ _ _ _ _ Hf p Hp) as (x & y & -> & _). eauto.
  - destruct (fl_log _ _ _ _ _ _ _ _ _ Hf p Hp) as (x & y & -> & _). eauto.
  - destruct (fl_active _ _ _ _ _ _ _ _ _ Hf) as (x & y & -> & _). eauto.
Qed.

Lemma files_fresh h blobs logs seq ts ls a N C p :
  files h blobs logs seq ts ls a N C -> h !! p = None -> p ∉ ts ++ ls ++ [a].
Proof. intros Hf Hn Hp. destruct (files_alloc _ _ _ _ _ _ _ _ _ p Hf Hp). congruence. Qed.

Lemma files_metadata h blobs logs seq ts ls a N C (blobs' : directory) b p :
  files h blobs logs seq ts ls a N C -> p ∈ ts -> <[metadataBlobName := b]> blobs' !! N p = blobs' !! N p.
Proof.
  clear Hbs Hnb. intros Hf Hp. pose proof (fl_bound _ _ _ _ _ _ _ _ _ Hf).
  destruct (fl_seq _ _ _ _ _ _ _ _ _ Hf p Hp) as (s & -> & Hs). apply metadata_not_table. lia.
Qed.

(** What holds of the names that a save of the metadata needs. *)
Lemma files_tnamed h blobs logs seq ts ls a N C p :
  files h blobs logs seq ts ls a N C -> p ∈ ts -> exists s, N p = table_name s.
Proof. intros Hf Hp. destruct (fl_seq _ _ _ _ _ _ _ _ _ Hf p Hp) as (s & ? & _). eauto. Qed.

Lemma device_sized w bf c : device w bf c -> blocks_sized bs c.
Proof.
  intros (ts & ls & a & N & C & Hi & Hc) k b. rewrite Hc. apply overlay_sized.
  apply Forall_forall. intros c0 Hc0. apply list_elem_of_fmap in Hc0 as (p & -> & Hp).
  eapply (ok_sized (BlockHoleReader0 := heap_reader (w_heap w))), files_read; [apply (dv_files _ _ _ _ _ _ _ Hi)|].
  apply elem_of_cons in Hp as [->|Hp]; [|rewrite elem_of_reverse in Hp]; rewrite !elem_of_app, list_elem_of_singleton in *; tauto.
Qed.

Lemma device_reads w bf c buf off n :
  device w bf c -> 0 <= off -> 0 <= n -> len buf = n * bs ->
  let m := Z.max 0 (Z.min n (nb - off)) in
  bf_ReadBlocks w bf buf off = Ret (filled bs (image bs c) buf off m, m, if m <? n then Some EOF else None).
Proof.
  intros (ts & ls & a & N & C & [_ _ Hf _ _ (idx & pend & Hip & [[Hs1 Hs2] Hst _ _ _ Hix]) _] & Hc) Hoff Hn Hl m.
  unfold bf_ReadBlocks, tk_ReadBlocks, tk_ReadFrom, sbr_ReadBlocks. rewrite Hst, Hs1, Hs2. cbn -[fmap filled].
  rewrite Hl, aligned by lia. cbn -[fmap filled].
  assert (Hin : forall p, p ∈ a :: idx ++ pend -> reader_ok (BlockHoleReader0 := heap_reader (w_heap w)) bs nb p (C p)).
  { intros p Hp. eapply files_read; [exact Hf|]. rewrite app_assoc, <- Hip, elem_of_app, list_elem_of_singleton.
    apply elem_of_cons in Hp as [?|?]; auto. }
  rewrite (readBlocksFrom_ok bs nb ltac:(lia) ltac:(lia) _
    (C a :: (C <$> reverse pend) ++ [overlay (C <$> reverse idx)]) buf off n); [|..|done|done|done].
  - do 3 f_equal. apply filled_ext. intros k. rewrite Hc. unfold layers. rewrite <- Hip. apply stack_layers.
  - rewrite fmap_cons, fmap_app. constructor.
    + destruct (Hin a) as [Hz Hr Hd Hh Hrd]; [by left|]. by split.
    + apply Forall2_app.
      * rewrite <- list_fmap_compose. apply Forall2_fmap, Forall_Forall2_diag, Forall_forall. intros p Hp%elem_of_reverse.
        destruct (Hin p) as [Hz Hr Hd Hh Hrd]; [set_solver|]. by split.
      * constructor; [|constructor].
        destruct (index_reads_as (w_heap w) C _ idx Hix) as [Hz Hr Hd Hh Hrd]; [intros; apply Hin; set_solver|].
        by split.
  - done.
Qed.

(** ** Changing one log *)
Lemma table_at_other h blobs p name c q x :
  p <> q -> table_at h blobs p name c -> table_at (<[q := x]> h) blobs p name c.
Proof. intros Hne (d & b & Hp & Hrest). exists d, b. by rewrite lookup_insert_ne. Qed.

Lemma log_at_other h logs o p name c q x :
  p <> q -> log_at h logs o p name c -> log_at (<[q := x]> h) logs o p name c.
Proof. intros Hne (l & ws & Hp & Hrest). exists l, ws. by rewrite lookup_insert_ne. Qed.

Lemma files_set h blobs logs seq ts ls a N C q x C' :
  files h blobs logs seq ts ls a N C -> q ∈ ls ++ [a] ->
  log_at (<[q := x]> h) logs (bool_decide (q = a)) q (N q) (C' q) -> (forall p, p <> q -> C' p = C p) ->
  files (<[q := x]> h) blobs logs seq ts ls a N C'.
Proof.
  intros [Ht Hl Ha Hnd Htn Hln Hsq Hft Hsb] Hq Hx HC. pose proof Hnd as (_ & Hdis & Hnd2)%NoDup_app.
  split; try done.
  - intros p Hp. assert (p <> q) by (intros ->; by apply (Hdis q)). rewrite HC by done. by apply table_at_other, Ht.
  - intros p Hp. destruct (decide (p = q)) as [->|Hne].
    + rewrite bool_decide_eq_false_2 in Hx; [done|]. intros ->.
      apply NoDup_app in Hnd2 as (_ & Hd & _). apply (Hd a Hp). by left.
    + rewrite HC by done. by apply log_at_other, Hl.
  - destruct (decide (a = q)) as [<-|Hne].
    + by rewrite bool_decide_eq_true_2 in Hx.
    + rewrite HC by done. by apply log_at_other.
Qed.

Lemma index_of_ext C C' r l : index_of C r l -> (forall p, p ∈ l -> C' p = C p) -> index_of C' r l.
Proof.
  intros [Hwf Hrs Ho] HC. split; [done|done|]. intros k. rewrite Ho. apply top_owner_ext.
  intros p Hp. rewrite elem_of_reverse in Hp. by rewrite HC.
Qed.

Lemma tracker_ok_ext C C' t a idx pend :
  tracker_ok t a idx pend C -> (forall p, p ∈ idx ++ pend -> C' p = C p) -> tracker_ok t a idx pend C'.
Proof.
  intros [Hs Hst Hw Hp Hi Hix] HC. split; try done. eapply index_of_ext; [done|]. intros p Hin. apply HC. set_solver.
Qed.

(** ** Writing *)
Lemma log_at_write h logs a name c buf off :
  log_at h logs true a name c -> write_ok bs nb (off, buf) ->
  exists l l', h !! a = Some (OLog l) /\ wl_WriteBlocks l buf off = Ret (l', len buf / bs, None) /\
    log_at (<[a := OLog l']> h) logs true a name (write_content bs c (off, buf)).
Proof.
  intros (l & ws & Hl & <- & -> & [[Hst Hh]|[? _]]) Hw; [|done].
  destruct (log_state_write bs nb ltac:(lia) ltac:(nia) ws l off buf Hst Hw) as (l' & E & Hst' & Hn & _).
  exists l, l'. split; [done|]. split; [done|]. exists l', (ws ++ [(off, buf)]). rewrite lookup_insert_eq.
  split; [done|]. split; [done|]. split; [|by left]. unfold writes_content. by rewrite fold_left_app.
Qed.

Lemma write_count_pos off buf : write_ok bs nb (off, buf) -> 0 < len buf / bs.
Proof. intros (n & Hn & Hl & _). cbn in Hl. rewrite Hl, Z.div_mul by lia. done. Qed.

Lemma write_content_some c off buf : write_ok bs nb (off, buf) -> is_Some (write_content bs c (off, buf) off).
Proof.
  intros Hw%write_count_pos. unfold write_content. cbn. rewrite bool_decide_eq_true_2 by lia. by eexists.
Qed.

(** The device after a write that the active log [l] took and became [l']. *)
Lemma dev_inv_write w bf ts ls a N C l l' buf off :
  dev_inv w bf ts ls a N C -> write_ok bs nb (off, buf) ->
  w_heap w !! a = Some (OLog l) -> wl_WriteBlocks l buf off = Ret (l', len buf / bs, None) ->
  log_at (<[a := OLog l']> (w_heap w)) (w_logs w) true a (N a) (write_content bs (C a) (off, buf)) ->
  exists w' bf' b, bf_WriteBlocks w bf buf off = Ret (w', bf', len buf / bs, None, b) /\
    w_heap w' = <[a := OLog l']> (w_heap w) /\
    dev_inv w' bf' ts ls a N (<[a := write_content bs (C a) (off, buf)]> C).
Proof.
  intros [Hsz Htg Hf Hm Hsv (idx & pend & Hip & Htk) [Ha Hp Hct]] Hw Hl E Hat.
  unfold bf_WriteBlocks, wt_WriteBlocks, call, write_call. rewrite Ha, Hl. cbn [of_option mbind outcome_bind].
  cbn [tw_WriteBlocks obj_tracked on_log]. rewrite E. cbn [mbind outcome_bind].
  do 3 eexists. split; [done|]. split; [done|]. set (C' := <[a := write_content bs (C a) (off, buf)]> C).
  assert (HCa : C' a = write_content bs (C a) (off, buf)) by apply fn_lookup_insert.
  assert (HCn : forall p, p <> a -> C' p = C p) by (intros p Hne; by apply fn_lookup_insert_ne).
  assert (Hnot : forall p, p ∈ ts ++ ls -> p <> a).
  { intros p Hin ->. by apply (files_apart _ _ _ _ _ _ _ _ _ Hf) in Hin. }
  split; try done.
  - eapply files_set; [exact Hf|apply elem_of_app; right; by left| |done]. rewrite bool_decide_eq_true_2 by done. by rewrite HCa.
  - exists idx, pend. split; [done|]. eapply tracker_ok_ext; [exact Htk|]. intros p Hin. rewrite Hip in Hin.
    apply HCn. auto.
  - cbn [set_writer bf_writerTracker]. unfold count_write. rewrite (proj2 (Z.ltb_lt _ _)) by (by apply (write_count_pos off)).
    split; [done|done|]. intros _. exists off. rewrite HCa. by apply write_content_some.
Qed.

(** Only the active log has changed. *)
Lemma layers_active C ts ls (a : positive) c k :
  (a ∉ ts ++ ls) -> layers (<[a := c]> C) ts ls a k = overlay (c :: (C <$> reverse (ts ++ ls))) k.
Proof.
  intros Hn. unfold layers. rewrite fmap_cons, fn_lookup_insert, fmap_insert_notin; [done|]. by rewrite elem_of_reverse.
Qed.

Lemma layers_write C ts ls (a : positive) c x k :
  (a ∉ ts ++ ls) ->
  layers (<[a := write_content bs c x]> C) ts ls a k = write_content bs (layers (<[a := c]> C) ts ls a) x k.
Proof.
  intros Hn. rewrite layers_active, overlay_write by done. unfold write_content. case_bool_decide; [done|].
  by rewrite layers_active.
Qed.

Lemma write_content_ext (c d : content) x k : c k = d k -> write_content bs c x k = write_content bs d x k.
Proof. intros E. unfold write_content. by case_bool_decide. Qed.

Lemma device_writes w bf c buf off :
  device w bf c -> write_ok bs nb (off, buf) ->
  exists w' bf' b, bf_WriteBlocks w bf buf off = Ret (w', bf', len buf / bs, None, b) /\
    device w' bf' (write_content bs c (off, buf)).
Proof.
  intros (ts & ls & a & N & C & Hi & Hc) Hw. pose proof (dv_files _ _ _ _ _ _ _ Hi) as Hf.
  destruct (log_at_write _ _ _ _ _ buf off (fl_active _ _ _ _ _ _ _ _ _ Hf) Hw) as (l & l' & Hl & E & Hat).
  destruct (dev_inv_write w bf ts ls a N C l l' buf off) as (w' & bf' & b & -> & _ & Hi'); [done..|].
  exists w', bf', b. split; [done|]. exists ts, ls, a, N, (<[a := write_content bs (C a) (off, buf)]> C). split; [done|].
  intros k. rewrite layers_write by (by apply (files_apart _ _ _ _ _ _ _ _ _ Hf)). apply write_content_ext.
  rewrite Hc, layers_active; [done|]. by apply (files_apart _ _ _ _ _ _ _ _ _ Hf).
Qed.

(** ** Flushing *)
Lemma log_opened_handle b ws (l : WriteLog F T G) r c c' :
  wl_src l = inr (r, c) -> log_opened bs nb b ws l -> log_opened bs nb b ws (wl_set_src l (inr (r, c'))).
Proof.
  intros E [[Hz Hr Hd Hh Hrd] Hw _]. destruct l as [src bs' name size]. cbn in *. subst src.
  split; [by split|done|by do 2 eexists].
Qed.

Lemma log_at_flush h logs o p name c :
  log_at h logs o p name c ->
  exists l l' err, h !! p = Some (OLog l) /\ wl_Flush l = (l', err) /\ log_at (<[p := OLog l']> h) logs o p name c.
Proof.
  intros (l & ws & Hl & <- & -> & Hst). destruct (wl_Flush l) as [l' err] eqn:E. exists l, l', err.
  split; [done|]. split; [done|]. exists l', ws. rewrite lookup_insert_eq. split; [done|].
  destruct Hst as [[Hst Hh]|(-> & b & Hb & Ho & Hop)].
  - destruct (log_state_flush bs nb ws o l l' err Hst E) as (Hst' & Hn & _). split; [done|]. split; [done|]. by left.
  - pose proof (lop_src _ _ _ _ _ Hop) as (r & g & Er). unfold wl_Flush in E. rewrite Er in E.
    destruct c_Flush as [flush|]; [destruct (flush g) as [g' e]|]; injection E as <- <-.
    + split; [done|]. split; [done|]. right. split; [done|]. exists b. split; [done|]. split; [done|].
      by apply (log_opened_handle _ _ _ _ g).
    + split; [done|]. split; [done|]. right. eauto.
Qed.

Lemma flush_all_ok blobs logs seq ts ls a N C qs : forall h,
  files h blobs logs seq ts ls a N C -> (forall q, q ∈ qs -> q ∈ ls ++ [a]) ->
  exists h', flush_all h qs = Ret h' /\ files h' blobs logs seq ts ls a N C /\ forall p, (p ∉ qs) -> h' !! p = h !! p.
Proof.
  induction qs as [|q qs IH]; intros h Hf Hq; cbn [flush_all]; [eauto|].
  assert (Hin : q ∈ ls ++ [a]) by (apply Hq; by left).
  assert (Hat : log_at h logs (bool_decide (q = a)) q (N q) (C q)).
  { case_bool_decide as Hqa; [subst q; apply Hf|]. apply (fl_log _ _ _ _ _ _ _ _ _ Hf).
    apply elem_of_app in Hin as [?|?%list_elem_of_singleton]; done. }
  destruct (log_at_flush _ _ _ _ _ _ Hat) as (l & l' & err & Hl & E & Hat'). unfold call. rewrite Hl.
  cbn [of_option mbind outcome_bind tw_Flush obj_tracked on_log]. rewrite E. cbn [mbind outcome_bind].
  destruct (IH (<[q := OLog l']> h)) as (h' & E' & Hf' & Hs); [by eapply files_set|intros; apply Hq; by right|].
  exists h'. split; [done|]. split; [done|]. intros p [Hne Hp]%not_elem_of_cons. by rewrite Hs, lookup_insert_ne.
Qed.

Lemma device_flushes w bf c :
  device w bf c -> exists w', bf_Flush w bf = Ret (w', None) /\ device w' bf c.
Proof.
  intros (ts & ls & a & N & C & [Hsz Htg Hf Hm Hsv Htk [Ha Hp Hct]] & Hc).
  destruct (flush_all_ok _ _ _ _ _ _ _ _ (ls ++ [a]) _ Hf) as (h' & E & Hf' & _); [done|].
  unfold bf_Flush, wt_Flush, flush_list. rewrite Ha, Hp, E. cbn [mbind outcome_bind].
  eexists. split; [done|]. exists ts, ls, a, N, C. split; [|done]. by split.
Qed.
End invariant.

#[export] Hint Resolve fl_tnames fl_lnames fl_fits files_tnamed files_alloc files_fresh files_metadata files_read : logblock.
