(* ===== verification/DeviceDisk.v ===== *)
(** * The device on the storage

    What the storage holds of a device: the metadata, the tables and the logs it
    lists, and the contents they describe. A device whose active log does not end
    like a closed one leaves a storage that describes its contents, and from a storage
    that describes a device [OpenBlockFileWithOptions] returns a device with the
    contents described; the storage describes them at every moment of it. *)
From S2P Require Import Prelude Radix Bits RangeMap ExtentRangeMap BlockReader StackedBlockReader BlockMap.
From S2P Require Import BlockMapTheorems GoStd Adaptor WalIndex WalFormat WalWriter WalTheorems WriteLog WriteLogState.
From S2P Require Import SparseBuilder SparseReader SparseBuildFrom WaitBarrier Tracker TrackerWriter.
From S2P Require Import DataFile Storage Metadata Decimal Device DeviceInv.
From Stdlib Require PrimFloat.
From stdpp Require Import strings functions list.
Local Open Scope Z_scope.

Lemma fun_of_list {A B} `{!EqDecision A} (b : B) (l : list A) (xs : list B) :
  NoDup l -> length l = length xs -> exists f : A -> B, f <$> l = xs.
Proof.
  intros Hnd. revert xs. induction Hnd as [|x l Hx Hnd IH]; intros [|y xs] E; try done; [by exists (fun _ => b)|].
  destruct (IH xs) as [f Hf]; [by injection E|]. exists (<[x := y]> f).
  rewrite fmap_cons, fn_lookup_insert, fmap_insert_notin by done. by rewrite Hf.
Qed.

Lemma LoadMetadata_same `{!MetadataCodec} (d d' : directory) :
  d !! metadataBlobName = d' !! metadataBlobName -> LoadMetadata d = LoadMetadata d'.
Proof. intros E. unfold LoadMetadata, bms_Load, bs_Open, openFileReader. by rewrite E. Qed.

Section disk.
Context {F : Type} `{!LogFile F} `{!LogFileLaws F} `{!Closer F} `{!CloserLaws F} `{!WalCodec} `{!WalCodecLaws}.
Context {T : Type} `{!RadixTree item it_key T} `{!RadixTreeLaws item it_key T}.
Context {G : Type} `{!Closer G}.
Context `{!HeaderCodec} `{!HeaderCodecLaws} `{!TruncatedReader} `{!TruncatedReaderLaws}.
Context `{!MetadataCodec} `{!MetadataCodecLaws}.
Context {M : Type} `{!RangeMap Z M} `{!RangeMapLaws Z M} {BS : Type} `{!BitSet BS} `{!BitSetLaws BS}.
Context (bs nb : Z) (Hbs : 512 <= bs <= 1024 * 1024) (Hnb : 0 < nb < 2 ^ 28).
Implicit Types (h : gmap positive (obj F T G)) (blobs dir : directory) (logs : gmap string log_file).
Implicit Types (w : world F T G) (bf : BlockFile M BS) (C : positive -> content) (N : positive -> string).
Implicit Types (d : directory * directory) (c : content) (ts ls : list (string * content)).

(** ** A storage that describes a device *)
Definition table_on blobs (name : string) c : Prop :=
  exists b, blobs !! name = Some b /\ table_loads bs nb b c.

Definition log_on dir (name : string) c : Prop :=
  exists b ws, dir !! name = Some b /\ file_opens (F := F) (T := T) (G := G) bs nb b ws /\ c = writes_content bs ws.

(** The tables [ts] and the logs [ls], by name and contents. *)
Record stored d ts ls : Prop := {
  st_tables f : f ∈ ts -> table_on d.1 f.1 f.2;
  st_logs f : f ∈ ls -> log_on d.2 f.1 f.2;
  st_seq f : f ∈ ts -> exists s, f.1 = table_name s /\ 1 <= s < 2 ^ 63;
  st_fits f : f ∈ ls -> name_fits f.1 = true;
  st_tnames : NoDup ts.*1;
  st_lnames : NoDup ls.*1;
  st_few : Z.of_nat (length ts + length ls) <= 2 ^ 15 + 2;
}.

Definition listed (ts ls : list string) : Metadata :=
  MkMetadata bs nb ((MkDataFilePb SPARSE_TABLE <$> ts) ++ (MkDataFilePb WRITE_LOG <$> ls)).

Definition described d c : Prop :=
  exists ts ls, LoadMetadata d.1 = inl (listed ts.*1 ls.*1) /\ stored d ts ls /\
    forall k, c k = overlay (reverse (ts ++ ls).*2) k.

(** A device that has never been opened. *)
Definition blank d c : Prop := LoadMetadata d.1 = inr ErrNotExist /\ forall k, c k = None.

Definition recoverable d c : Prop := blank d c \/ described d c.

(** The states of the storage that an operation goes through. *)
Definition passes (P : directory * directory -> Prop) w w' : Prop :=
  exists l, w_past w' = w_past w ++ l /\ Forall P l.

Lemma passes_refl P w w' : w_past w' = w_past w -> passes P w w'.
Proof. intros E. exists []. by rewrite app_nil_r. Qed.

Lemma passes_trans P w1 w2 w3 : passes P w1 w2 -> passes P w2 w3 -> passes P w1 w3.
Proof.
  intros (l1 & E1 & HP1) (l2 & E2 & HP2). exists (l1 ++ l2). split; [by rewrite E2, E1, app_assoc|]. by apply Forall_app.
Qed.

Lemma passes_record P w : P (disk_of w) -> passes P w (record w).
Proof. intros HP. exists [disk_of w]. split; [done|]. by apply Forall_singleton. Qed.

Lemma listed_fits (ts ls : list string) :
  (forall f, f ∈ ts -> exists s, f = table_name s) -> (forall f, f ∈ ls -> name_fits f = true) ->
  Z.of_nat (length ts + length ls) < 2 ^ 20 -> md_fits (listed ts ls).
Proof.
  intros Ht Hl Hlen. split; [cbn; lia|]. split; [cbn; lia|]. cbn [listed md_DataFiles]. split.
  - rewrite length_app, !length_fmap. lia.
  - apply Forall_app. split; apply Forall_fmap, Forall_forall; cbn.
    + intros f (s & ->)%Ht. apply table_name_fits.
    + done.
Qed.

(** Larger heaps. *)
Lemma table_at_mono h h' blobs p name c : h ⊆ h' -> table_at bs nb h blobs p name c -> table_at bs nb h' blobs p name c.
Proof. intros Hh (x & b & Hp & Hrest). exists x, b. split; [by eapply lookup_weaken|done]. Qed.

Lemma log_at_mono h h' logs o p name c : h ⊆ h' -> log_at bs nb h logs o p name c -> log_at bs nb h' logs o p name c.
Proof. intros Hh (l & ws & Hp & Hrest). exists l, ws. split; [by eapply lookup_weaken|done]. Qed.

(** What a device leaves on the storage. *)
Lemma table_at_on h blobs p name c : table_at bs nb h blobs p name c -> table_on blobs name c.
Proof. intros (x & b & _ & _ & _ & _ & Hb). by exists b. Qed.

Lemma log_at_on h logs o p name c :
  log_at bs nb h logs o p name c -> (o = true -> no_footer (file_bytes h (Held p))) ->
  log_on (file_bytes h <$> logs) name c.
Proof.
  intros (l & ws & Hp & <- & -> & [[Hst Hh]|(-> & b & Hb & Ho & _)]) Hnf.
  - exists (wl_file l), ws. rewrite lookup_fmap, Hh. cbn in *. rewrite Hp in *. split; [done|]. split; [|done].
    apply (log_state_opens bs nb ltac:(lia) ltac:(lia) ltac:(nia) ws o); done.
  - exists b, ws. by rewrite lookup_fmap, Hb.
Qed.

Lemma described_of blobs dir (pts pls : list positive) N C c :
  LoadMetadata blobs = inl (meta_of bs nb N pts pls) ->
  (forall p, p ∈ pts -> table_on blobs (N p) (C p)) -> (forall p, p ∈ pls -> log_on dir (N p) (C p)) ->
  (forall p, p ∈ pts -> exists s, N p = table_name s /\ 1 <= s < 2 ^ 63) ->
  (forall p, p ∈ pls -> name_fits (N p) = true) ->
  NoDup (N <$> pts) -> NoDup (N <$> pls) -> Z.of_nat (length pts + length pls) <= 2 ^ 15 + 2 ->
  (forall k, c k = overlay (C <$> reverse (pts ++ pls)) k) ->
  described (blobs, dir) c.
Proof.
  intros Hm Ht Hl Hs Hf Hn1 Hn2 Hlen Hc. set (g := fun p => (N p, C p)).
  assert (H1st : forall l : list positive, (g <$> l).*1 = N <$> l) by (intros l; by rewrite <- list_fmap_compose).
  assert (H2nd : forall l : list positive, (g <$> l).*2 = C <$> l) by (intros l; by rewrite <- list_fmap_compose).
  exists (g <$> pts), (g <$> pls). rewrite !H1st. split; [done|]. split.
  - split; rewrite ?H1st, ?length_fmap; try done.
    + by intros f (p & -> & Hp)%list_elem_of_fmap; apply Ht.
    + by intros f (p & -> & Hp)%list_elem_of_fmap; apply Hl.
    + by intros f (p & -> & Hp)%list_elem_of_fmap; apply Hs.
    + by intros f (p & -> & Hp)%list_elem_of_fmap; apply Hf.
  - intros k. rewrite Hc, <- fmap_app, H2nd. by rewrite fmap_reverse.
Qed.

(** The file of the active log. *)
Definition active_file w bf : bytes :=
  match wt_activeWriter (bf_writerTracker bf) with Some a => file_bytes (w_heap w) (Held a) | None => [] end.

(** There is room for more files. *)
Definition room bf : Prop :=
  Z.of_nat (length (md_DataFiles (bf_meta bf))) < 2 ^ 15 /\ bf_nextSeq bf < 2 ^ 63.

Lemma entries_length N (pts pls : list positive) : length (entries N pts pls) = (length pts + length pls)%nat.
Proof. unfold entries. by rewrite length_app, !length_fmap. Qed.

Lemma files_described h blobs logs seq (pts pls : list positive) a N C c :
  files bs nb h blobs logs seq pts pls a N C -> LoadMetadata blobs = inl (meta_of bs nb N pts (pls ++ [a])) ->
  no_footer (file_bytes h (Held a)) -> Z.of_nat (length pts + length (pls ++ [a])) <= 2 ^ 15 + 2 ->
  (forall k, c k = layers C pts pls a k) -> described (blobs, file_bytes h <$> logs) c.
Proof.
  intros [Ht Hl Ha Hnd Htn Hln Hsq Hft Hsb] Hm Hnf Hlen Hc.
  apply (described_of _ _ pts (pls ++ [a]) N C); try done.
  - intros p Hp. eapply table_at_on, Ht, Hp.
  - intros p [Hp| ->%list_elem_of_singleton]%elem_of_app.
    + eapply log_at_on; [by apply Hl|done].
    + by eapply log_at_on.
  - intros p Hp. destruct (Hsq p Hp) as (s & ? & ?). exists s. split; [done|lia].
  - intros k. rewrite Hc. unfold layers. by rewrite app_assoc, reverse_snoc.
Qed.

Lemma device_described w bf c :
  device bs nb w bf c -> Z.of_nat (length (md_DataFiles (bf_meta bf))) <= 2 ^ 15 + 2 -> no_footer (active_file w bf) ->
  described (disk_of w) c.
Proof.
  intros (pts & pls & a & N & C & [_ _ Hf Hm Hsv _ [Ha _ _]] & Hc) Hlen Hnf.
  unfold active_file in Hnf. rewrite Ha in Hnf. rewrite Hm in Hsv, Hlen. cbn in Hlen. rewrite entries_length in Hlen.
  by eapply files_described.
Qed.

(** ** The metadata *)
Lemma table_at_blobs h blobs blobs' p name c :
  blobs' !! name = blobs !! name -> table_at bs nb h blobs p name c -> table_at bs nb h blobs' p name c.
Proof. intros E (x & b & Hrest). exists x, b. by rewrite E. Qed.

(** Saving the metadata. *)
Lemma save_ok w bf N (pts pls : list positive) :
  bf_meta bf = meta_of bs nb N pts pls ->
  (forall p, p ∈ pts -> exists s, N p = table_name s) -> (forall p, p ∈ pls -> name_fits (N p) = true) ->
  Z.of_nat (length pts + length pls) < 2 ^ 20 ->
  exists b, bf_Save w bf = Ret (with_blobs w (<[metadataBlobName := b]> (w_blobs w))) /\
    forall blobs, blobs !! metadataBlobName = Some b -> LoadMetadata blobs = inl (meta_of bs nb N pts pls).
Proof.
  intros Hm Ht Hl Hlen. destruct (SaveNoError_ok (w_blobs w) (bf_meta bf)) as (b & E & Hb).
  - rewrite Hm. apply (listed_fits (N <$> pts) (N <$> pls)).
    + by intros f (p & -> & Hp)%list_elem_of_fmap; apply Ht.
    + by intros f (p & -> & Hp)%list_elem_of_fmap; apply Hl.
    + rewrite !length_fmap. done.
  - exists b. unfold bf_Save. rewrite E. split; [done|]. intros blobs ?%Hb. by rewrite <- Hm.
Qed.

Lemma push_entry N (pts pls : list positive) p name :
  (p ∉ pts ++ pls) ->
  PushWriteLog (meta_of bs nb N pts pls) name = meta_of bs nb (<[p := name]> N) pts (pls ++ [p]).
Proof.
  intros Hp. unfold PushWriteLog, set_DataFiles, meta_of, entries. cbn. f_equal.
  rewrite !fmap_app, <- app_assoc. cbn. rewrite fn_lookup_insert, !fmap_insert_notin by set_solver. done.
Qed.

(** ** Removing entries of the metadata *)
Lemma entries_NoDup N (pts pls : list positive) :
  NoDup (N <$> pts) -> NoDup (N <$> pls) -> NoDup (entries N pts pls).
Proof.
  intros Ht Hl. apply NoDup_app. split; [|split].
  - apply NoDup_fmap_2; [by intros ?? [=]|done].
  - intros e (n & -> & _)%list_elem_of_fmap (n' & [=] & _)%list_elem_of_fmap.
  - apply NoDup_fmap_2; [by intros ?? [=]|done].
Qed.

Lemma NoDup_fmap_inj {A B} (f : A -> B) (l : list A) x y : NoDup (f <$> l) -> x ∈ l -> y ∈ l -> f x = f y -> x = y.
Proof.
  intros Hnd [i Hi]%list_elem_of_lookup_1 [j Hj]%list_elem_of_lookup_1 E.
  assert (i = j) as ->; [|congruence]. eapply (NoDup_lookup _ i j (f x) Hnd); rewrite list_lookup_fmap; [by rewrite Hi|].
  by rewrite Hj, E.
Qed.

Lemma filter_entry N ty (l : list positive) q :
  NoDup (N <$> l) -> q ∈ l ->
  filter (fun e => e <> MkDataFilePb ty (N q)) (MkDataFilePb ty <$> (N <$> l)) =
  MkDataFilePb ty <$> (N <$> filter (fun p => p <> q) l).
Proof.
  intros Hnd Hq. rewrite !filter_fmap. do 2 f_equal. apply Prelude.filter_ext. intros p Hp. split.
  - by intros Hne ->.
  - intros Hne [= E]. by apply Hne, (NoDup_fmap_inj N l).
Qed.

Lemma filter_entry_other N ty ty' (l : list positive) name :
  ty <> ty' -> filter (fun e => e <> MkDataFilePb ty name) (MkDataFilePb ty' <$> (N <$> l)) = MkDataFilePb ty' <$> (N <$> l).
Proof. intros Hne. apply Prelude.filter_all. intros e (n & -> & _)%list_elem_of_fmap [=]. by subst. Qed.

Lemma remove_log_entry N (pts pls : list positive) q :
  NoDup (N <$> pts) -> NoDup (N <$> pls) -> q ∈ pls ->
  RemoveWriteLog (meta_of bs nb N pts pls) (N q) = meta_of bs nb N pts (filter (fun p => p <> q) pls).
Proof.
  intros Ht Hl Hq. unfold RemoveWriteLog, set_DataFiles, meta_of. cbn. f_equal.
  rewrite delete_first_filter by (by apply entries_NoDup). unfold entries.
  by rewrite filter_app, filter_entry, filter_entry_other.
Qed.

Lemma remove_table_entry N (pts pls : list positive) q :
  NoDup (N <$> pts) -> NoDup (N <$> pls) -> q ∈ pts ->
  RemoveSparseDataFile (meta_of bs nb N pts pls) (N q) = meta_of bs nb N (filter (fun p => p <> q) pts) pls.
Proof.
  intros Ht Hl Hq. unfold RemoveSparseDataFile, set_DataFiles, meta_of. cbn. f_equal.
  rewrite delete_first_filter by (by apply entries_NoDup). unfold entries.
  by rewrite filter_app, filter_entry, filter_entry_other.
Qed.

Lemma NoDup_fmap_filter {A B} (f : A -> B) (P : A -> Prop) `{!forall x, Decision (P x)} (l : list A) :
  NoDup (f <$> l) -> NoDup (f <$> filter P l).
Proof. intros Hnd. eapply sublist_NoDup; [exact Hnd|]. apply fmap_sublist, sublist_filter. Qed.

Lemma remove_log_entries N (pts : list positive) E : forall pls : list positive,
  NoDup (N <$> pts) -> NoDup (N <$> pls) -> NoDup E -> (forall q, q ∈ E -> q ∈ pls) ->
  fold_left RemoveWriteLog (N <$> E) (meta_of bs nb N pts pls) = meta_of bs nb N pts (filter (fun p => p ∉ E) pls).
Proof.
  induction E as [|q E IH]; intros pls Ht Hl Hnd HE.
  { cbn [fold_left fmap list_fmap]. f_equal. symmetry. apply Prelude.filter_all. by intros p _ ?%elem_of_nil. }
  apply NoDup_cons in Hnd as [Hq Hnd]. rewrite fmap_cons. cbn [fold_left].
  rewrite remove_log_entry by (done || (apply HE; by left)). rewrite IH; [|done|by apply NoDup_fmap_filter|done|].
  - f_equal. rewrite list_filter_filter. apply Prelude.filter_ext. intros p _. rewrite elem_of_cons. tauto.
  - intros p Hp. apply list_elem_of_filter. split; [by intros ->|]. apply HE. by right.
Qed.

Context (newFile : F) (newHandle : G) (rnd : nat -> Z).
Context (Hnew : io_reliable newFile /\ io_out newFile = []).

(** ** Creating a log *)
Definition names_left (fuel : nat) w : Prop :=
  exists i, (i < fuel)%nat /\ w_logs w !! log_name (rnd (w_rand w + i)) = None.

(** The world with a new log. *)
Record created w w' (p : positive) (name : string) : Prop := {
  cr_fresh : w_heap w !! p = None;
  cr_heap : w_heap w' = <[p := OLog (NewWriteLogFromWriter newFile bs name)]> (w_heap w);
  cr_blobs : w_blobs w' = w_blobs w;
  cr_unused : w_logs w !! name = None;
  cr_logs : w_logs w' = <[name := Held p]> (w_logs w);
  cr_fits : name_fits name = true;
  cr_past : w_past w' = w_past w ++ [disk_of w'];
}.

Lemma makeLogWriter_ok fuel : forall w bf,
  bf_blockSize bf = bs -> names_left fuel w ->
  exists w' p name, makeLogWriter newFile rnd fuel w bf = Ret (w', p) /\ created w w' p name.
Proof.
  induction fuel as [|fuel IH]; intros w bf Hs (i & Hi & Hn); [lia|]. cbn [makeLogWriter].
  unfold ls_Create, log_dir. cbn [w_heap w_logs]. rewrite lookup_fmap.
  destruct (w_logs w !! log_name (rnd (w_rand w))) as [f|] eqn:El; cbn -[log_name].
  - destruct i as [|i]; [rewrite Nat.add_0_r in Hn; congruence|].
    destruct (IH (MkWorld (w_heap w) (w_blobs w) (w_logs w) (S (w_rand w)) (w_past w)) bf Hs) as (w' & p & name & E & Hcr).
    { exists i. split; [lia|]. cbn -[log_name]. by rewrite <- Nat.add_succ_r. }
    exists w', p, name. split; [done|]. destruct Hcr. by split.
  - rewrite Hs. do 3 eexists. split; [done|]. split; cbn -[log_name]; try done; [|apply log_name_fits].
    apply not_elem_of_dom, is_fresh.
Qed.

Lemma created_grows w w' p name : created w w' p name -> w_heap w ⊆ w_heap w'.
Proof. intros [Hfr -> _ _ _ _ _]. by apply insert_subseteq. Qed.

Lemma log_at_created w w' p name o q n c :
  created w w' p name -> log_at bs nb (w_heap w) (w_logs w) o q n c ->
  log_at bs nb (w_heap w') (w_logs w') o q n c /\ n <> name.
Proof.
  intros Hcr Hat. assert (Hne : n <> name).
  { intros ->. destruct Hat as (l & ws & _ & _ & _ & [[_ Hl]|(_ & b & Hl & _)]); by rewrite (cr_unused _ _ _ _ Hcr) in Hl. }
  split; [|done]. eapply log_at_mono; [by eapply created_grows|]. destruct Hat as (l & ws & Hq & Hn & Hc & Hl).
  exists l, ws. split; [done|]. split; [done|]. split; [done|].
  rewrite (cr_logs _ _ _ _ Hcr), lookup_insert_ne by done. done.
Qed.

Lemma created_log_at w w' p name :
  created w w' p name -> log_at bs nb (w_heap w') (w_logs w') true p name (fun _ => None).
Proof.
  intros [_ Hh _ _ Hl _ _]. exists (NewWriteLogFromWriter newFile bs name), []. rewrite Hh, lookup_insert_eq.
  split; [done|]. split; [done|]. split; [done|]. left. split; [|by rewrite Hl, lookup_insert_eq].
  apply log_state_new; apply Hnew.
Qed.

(** ** Loading the files *)

(** The device while its files are loaded. *)
Definition loaded (pend : list positive) : Tracker positive M BS :=
  buildReaderStack (MkTracker bs nb [] (BlockMap.NewReader bs nb) (reverse pend) [] false).

Definition opening target util seq (pend pls : list positive) meta : BlockFile M BS :=
  MkBlockFile target util nb bs seq (loaded pend) (MkWriter bs None 0 pls) meta.

Lemma loaded_push pend p : tk_PushReader (loaded pend) p = loaded (pend ++ [p]).
Proof. unfold loaded. by rewrite reverse_snoc. Qed.

Lemma device_size : i64 (bs * nb) = nb * bs.
Proof. rewrite i64_small by nia. lia. Qed.

Lemma alloc_obj_fresh w (o : obj F T G) :
  exists p, alloc_obj w o = (with_heap w (<[p := o]> (w_heap w)), p) /\ w_heap w !! p = None.
Proof. eexists. split; [done|]. apply not_elem_of_dom, is_fresh. Qed.

Lemma load_table w target util seq pend pls meta f rest :
  table_on (w_blobs w) f.1 f.2 -> (exists s, f.1 = table_name s /\ 1 <= s < 2 ^ 63) -> 1 <= seq <= 2 ^ 63 ->
  exists p df seq', load_files newHandle w (opening target util seq pend pls meta) (MkDataFilePb SPARSE_TABLE f.1 :: rest) =
      load_files newHandle (with_heap w (<[p := OTable df]> (w_heap w))) (opening target util seq' (pend ++ [p]) pls meta) rest /\
    w_heap w !! p = None /\ seq <= seq' <= 2 ^ 63 /\ (exists s, f.1 = table_name s /\ 1 <= s < seq') /\
    table_at bs nb (<[p := OTable df]> (w_heap w)) (w_blobs w) p f.1 f.2.
Proof.
  intros (b & Hb & Hload) (s & Hs & Hsr) Hseq. cbn [load_files mdf_Type dfp_Type mbind outcome_bind].
  unfold loadDataFile. cbn [mdf_Type dfp_Type dfp_Name mbind outcome_bind]. unfold openTableFile, bs_Open, openFileReader.
  rewrite Hb. unfold bf_Size. cbn [bf_blockSize bf_numBlocks opening]. rewrite device_size.
  destruct (NewSparseBlockFromReader_ok bs nb ltac:(lia) ltac:(lia) b f.2 newHandle f.1 Hload) as (df & E & Hok & Hn & Hsf).
  rewrite E. cbn [mbind outcome_bind]. destruct (alloc_obj_fresh w (OTable df)) as (p & -> & Hfr). cbn [mbind outcome_bind].
  assert (ParseUint (split_dot f.1) = Some s) as -> by (rewrite Hs; apply table_name_seq; lia).
  change (bf_readerTracker (opening target util seq pend pls meta)) with (loaded pend).
  exists p, df, (if seq <=? s then s + 1 else seq). rewrite loaded_push. split; [|split; [done|]].
  - change (bf_nextSeq (set_reader (opening target util seq pend pls meta) (loaded (pend ++ [p])))) with seq.
    destruct (seq <=? s); [|done]. by rewrite u64_small by lia.
  - split; [destruct (Z.leb_spec seq s); lia|]. split; [exists s; split; [done|]; destruct (Z.leb_spec seq s); lia|].
    exists df, b. by rewrite lookup_insert_eq.
Qed.

Lemma load_tables target util pls meta rest ts : forall w seq pend,
  (forall f, f ∈ ts -> table_on (w_blobs w) f.1 f.2) -> (forall f, f ∈ ts -> exists s, f.1 = table_name s /\ 1 <= s < 2 ^ 63) ->
  1 <= seq <= 2 ^ 63 ->
  exists h ps seq', load_files newHandle w (opening target util seq pend pls meta) ((MkDataFilePb SPARSE_TABLE <$> ts.*1) ++ rest) =
      load_files newHandle (with_heap w h) (opening target util seq' (pend ++ ps) pls meta) rest /\
    w_heap w ⊆ h /\ NoDup ps /\ (forall p, p ∈ ps -> w_heap w !! p = None) /\ seq <= seq' <= 2 ^ 63 /\
    Forall2 (fun p f => table_at bs nb h (w_blobs w) p f.1 f.2 /\ exists s, f.1 = table_name s /\ 1 <= s < seq') ps ts.
Proof.
  induction ts as [|f ts IH]; intros w seq pend Ht Hs Hseq.
  { exists (w_heap w), [], seq. rewrite app_nil_r. split; [by destruct w|]. split; [done|]. split; [constructor|].
    split; [by intros p ?%elem_of_nil|]. split; [lia|constructor]. }
  destruct (load_table w target util seq pend pls meta f ((MkDataFilePb SPARSE_TABLE <$> ts.*1) ++ rest))
    as (p & df & seq1 & E1 & Hfr & Hq1 & Hsf & Hat); [apply Ht; by left|apply Hs; by left|done|].
  destruct (IH (with_heap w (<[p := OTable df]> (w_heap w))) seq1 (pend ++ [p])) as (h & ps & seq2 & E2 & Hsub & Hnd & Hnew' & Hq2 & Hall);
    [intros; apply Ht; by right|intros; apply Hs; by right|lia|].
  cbn [w_heap with_heap w_blobs] in *. exists h, (p :: ps), seq2. split; [|split; [|split; [|split; [|split; [lia|]]]]].
  - rewrite fmap_cons, fmap_cons. cbn [app]. rewrite E1, E2. by rewrite <- app_assoc.
  - transitivity (<[p := OTable df]> (w_heap w)); [by apply insert_subseteq|done].
  - constructor; [|done]. intros Hp%Hnew'. by rewrite lookup_insert_eq in Hp.
  - intros q [->|Hq]%elem_of_cons; [done|]. apply Hnew' in Hq. by apply lookup_insert_None in Hq as [? _].
  - constructor; [|done]. split; [by eapply table_at_mono|]. destruct Hsf as (s & ? & ?). exists s. split; [done|lia].
Qed.

Lemma log_dir_stored h dir : file_bytes h <$> (Stored <$> dir) = dir.
Proof. rewrite <- map_fmap_compose. by apply map_fmap_id. Qed.

Lemma load_log w dir target util seq pend pls meta f rest :
  w_logs w = Stored <$> dir -> log_on dir f.1 f.2 ->
  exists p l, load_files newHandle w (opening target util seq pend pls meta) (MkDataFilePb WRITE_LOG f.1 :: rest) =
      load_files newHandle (with_heap w (<[p := OLog l]> (w_heap w))) (opening target util seq (pend ++ [p]) (pls ++ [p]) meta) rest /\
    w_heap w !! p = None /\ log_at bs nb (<[p := OLog l]> (w_heap w)) (w_logs w) false p f.1 f.2.
Proof.
  intros Hlogs (b & ws & Hb & Hop & Hc). cbn [load_files mdf_Type dfp_Type mbind outcome_bind].
  unfold loadDataFile. cbn [mdf_Type dfp_Type dfp_Name mbind outcome_bind]. unfold ls_Open, openFileReader, log_dir.
  rewrite Hlogs, log_dir_stored, Hb. pose proof Hop as (_ & _ & Hopen).
  destruct (Hopen newHandle f.1) as (l & E & Hl & Hn). change (bf_blockSize (opening target util seq pend pls meta)) with bs.
  rewrite E. cbn [mbind outcome_bind]. destruct (alloc_obj_fresh w (OLog l)) as (p & -> & Hfr). cbn [mbind outcome_bind].
  change (bf_readerTracker (opening target util seq pend pls meta)) with (loaded pend). rewrite loaded_push.
  exists p, l. split; [done|]. split; [done|]. exists l, ws. rewrite lookup_insert_eq. split; [done|]. split; [done|].
  split; [done|]. right. split; [done|]. exists b. by rewrite lookup_fmap, Hb.
Qed.

Lemma load_logs dir target util meta seq ls : forall w pend pls,
  w_logs w = Stored <$> dir -> (forall f, f ∈ ls -> log_on dir f.1 f.2) ->
  exists h ps, load_files newHandle w (opening target util seq pend pls meta) (MkDataFilePb WRITE_LOG <$> ls.*1) =
      Ret (with_heap w h, inl (opening target util seq (pend ++ ps) (pls ++ ps) meta)) /\
    w_heap w ⊆ h /\ NoDup ps /\ (forall p, p ∈ ps -> w_heap w !! p = None) /\
    Forall2 (fun p f => log_at bs nb h (w_logs w) false p f.1 f.2) ps ls.
Proof.
  induction ls as [|f ls IH]; intros w pend pls Hlogs Hl.
  { exists (w_heap w), []. rewrite !app_nil_r. split; [by destruct w|]. split; [done|]. split; [constructor|].
    split; [by intros p ?%elem_of_nil|constructor]. }
  destruct (load_log w dir target util seq pend pls meta f (MkDataFilePb WRITE_LOG <$> ls.*1))
    as (p & l & E1 & Hfr & Hat); [done|apply Hl; by left|].
  destruct (IH (with_heap w (<[p := OLog l]> (w_heap w))) (pend ++ [p]) (pls ++ [p])) as (h & ps & E2 & Hsub & Hnd & Hnew' & Hall);
    [done|intros; apply Hl; by right|].
  cbn [w_heap with_heap w_logs] in *. exists h, (p :: ps). split; [|split; [|split; [|split]]].
  - rewrite fmap_cons, fmap_cons, E1, E2. by rewrite <- !app_assoc.
  - transitivity (<[p := OLog l]> (w_heap w)); [by apply insert_subseteq|done].
  - constructor; [|done]. intros Hp%Hnew'. by rewrite lookup_insert_eq in Hp.
  - intros q [->|Hq]%elem_of_cons; [done|]. apply Hnew' in Hq. by apply lookup_insert_None in Hq as [? _].
  - constructor; [|done]. by eapply log_at_mono.
Qed.

(** ** Opening the device *)
Definition valid_options (o : BlockOptions) : bool :=
  let target := SetDefaultIfZero (fun x => x =? 0) (o_TargetTableSize o) DefaultTargetTableSize in
  let util := SetDefaultIfZero (PrimFloat.eqb PrimFloat.zero) (o_MinTableUtilisation o) DefaultMinTableUtilisation in
  negb ((o_BlockSize o <? MinBlockSize) || (MaxBlockSize <? o_BlockSize o)) &&
  negb ((o_NumBlocks o <? 0) || (Device.MaxBlocks <? o_NumBlocks o)) &&
  negb ((target <? MinTableSize) || (MaxTableSize <? target)) &&
  negb (PrimFloat.ltb util float_0_1 || PrimFloat.ltb float_0_9 util).

Definition opts_ok (o : BlockOptions) : Prop :=
  valid_options o = true /\ o_BlockSize o = bs /\ o_NumBlocks o = nb.

(** Loading all the files of a storage. *)
Lemma load_stored d ts ls target util meta k past :
  stored d ts ls ->
  exists h pts pls seq N C,
    load_files newHandle (MkWorld ∅ d.1 (Stored <$> d.2) k past) (opening target util 1 [] [] meta)
      (md_DataFiles (listed ts.*1 ls.*1)) =
      Ret (MkWorld h d.1 (Stored <$> d.2) k past, inl (opening target util seq (pts ++ pls) pls meta)) /\
    1 <= seq <= 2 ^ 63 /\ NoDup (pts ++ pls) /\ N <$> pts = ts.*1 /\ N <$> pls = ls.*1 /\
    C <$> pts = ts.*2 /\ C <$> pls = ls.*2 /\
    (forall p, p ∈ pts -> table_at bs nb h d.1 p (N p) (C p) /\ exists s, N p = table_name s /\ 1 <= s < seq) /\
    (forall p, p ∈ pls -> log_at bs nb h (Stored <$> d.2) false p (N p) (C p)).
Proof.
  intros [Ht Hl Hs Hft Hn1 Hn2 _]. set (w := MkWorld ∅ d.1 (Stored <$> d.2) k past : world F T G).
  destruct (load_tables target util [] meta (MkDataFilePb WRITE_LOG <$> ls.*1) ts w 1 []) as
    (h1 & pts & seq & E1 & Hs1 & Hd1 & Hf1 & Hq & Ha1); [done|done|lia|].
  destruct (load_logs d.2 target util meta seq ls (with_heap w h1) pts []) as (h & pls & E2 & Hs2 & Hd2 & Hf2 & Ha2); [done|done|].
  cbn [w_heap with_heap w_blobs w_logs w] in *.
  assert (Hdis : forall p, p ∈ pts -> (p ∉ pls)).
  { intros p [i Hi]%list_elem_of_lookup_1 Hp%Hf2. destruct (Forall2_lookup_l _ _ _ _ _ Ha1 Hi) as (f & _ & (x & b & Hx & _) & _). congruence. }
  assert (Hnd : NoDup (pts ++ pls)) by (by apply NoDup_app).
  assert (Hlen : length (pts ++ pls) = length (ts ++ ls)).
  { rewrite !length_app. f_equal; by eapply Forall2_length. }
  destruct (fun_of_list "" (pts ++ pls) (ts ++ ls).*1 Hnd) as [N HN]; [by rewrite length_fmap|].
  destruct (fun_of_list (fun _ => None) (pts ++ pls) (ts ++ ls).*2 Hnd) as [C HC]; [by rewrite length_fmap|].
  rewrite !fmap_app in HN. rewrite (fmap_app C), (fmap_app snd) in HC. apply app_inj_1 in HN as [HN1 HN2]; [|rewrite !length_fmap; by eapply Forall2_length].
  apply app_inj_1 in HC as [HC1 HC2]; [|rewrite !length_fmap; by eapply Forall2_length].
  assert (Hnc : forall (ps : list positive) fs i p f, N <$> ps = fs.*1 -> C <$> ps = fs.*2 -> ps !! i = Some p ->
    fs !! i = Some f -> N p = f.1 /\ C p = f.2).
  { intros ps fs i p f EN EC Hp Hf. apply (f_equal (fun l => l !! i)) in EN, EC.
    rewrite !list_lookup_fmap, Hp, Hf in EN. rewrite !list_lookup_fmap, Hp, Hf in EC. cbn in *.
    split; congruence. }
  exists h, pts, pls, seq, N, C. split; [|split; [done|]].
  { cbn [listed md_DataFiles]. etransitivity; [exact E1|]. exact E2. }
  do 5 (split; [done|]). split.
  - intros p [i Hi]%list_elem_of_lookup_1. destruct (Forall2_lookup_l _ _ _ _ _ Ha1 Hi) as (f & Hf & Hat & Hsq).
    destruct (Hnc _ _ _ _ _ HN1 HC1 Hi Hf) as [-> ->]. split; [by eapply table_at_mono|done].
  - intros p [i Hi]%list_elem_of_lookup_1. destruct (Forall2_lookup_l _ _ _ _ _ Ha2 Hi) as (f & Hf & Hat).
    by destruct (Hnc _ _ _ _ _ HN2 HC2 Hi Hf) as [-> ->].
Qed.

(** The new log becomes the active one. *)
Lemma files_created w w' p name blobs seq (pts pls : list positive) N C :
  created w w' p name ->
  (forall q, q ∈ pts -> table_at bs nb (w_heap w) (w_blobs w) q (N q) (C q)) ->
  (forall q, q ∈ pls -> log_at bs nb (w_heap w) (w_logs w) false q (N q) (C q)) ->
  NoDup (pts ++ pls) -> NoDup (N <$> pts) -> NoDup (N <$> pls) ->
  (forall q, q ∈ pts -> exists s, N q = table_name s /\ 1 <= s < seq) ->
  (forall q, q ∈ pls -> name_fits (N q) = true) -> 1 <= seq <= 2 ^ 63 ->
  (forall q, q ∈ pts -> blobs !! N q = w_blobs w !! N q) ->
  (p ∉ pts ++ pls) /\
  files bs nb (w_heap w') blobs (w_logs w') seq pts pls p (<[p := name]> N) (<[p := fun _ => None]> C).
Proof.
  intros Hcr Ht Hl Hnd Hn1 Hn2 Hsq Hft Hsb Hbl.
  assert (Hp : p ∉ pts ++ pls).
  { pose proof (cr_fresh _ _ _ _ Hcr) as Hfr. intros [Hp|Hp]%elem_of_app.
    - destruct (Ht p Hp) as (x & b & Hx & _). congruence.
    - destruct (Hl p Hp) as (l & ws & Hx & _). congruence. }
  split; [done|].
  assert (HN : forall q, q ∈ pts ++ pls -> (<[p := name]> N) q = N q) by (intros q Hq; apply fn_lookup_insert_ne; by intros ->).
  assert (HC : forall q, q ∈ pts ++ pls -> (<[p := fun _ => None]> C) q = C q) by (intros q Hq; apply fn_lookup_insert_ne; by intros ->).
  pose proof (created_grows _ _ _ _ Hcr) as Hgr. split.
  - intros q Hq. rewrite HN, HC by set_solver. eapply table_at_blobs; [by apply Hbl|]. eapply table_at_mono; [done|]. auto.
  - intros q Hq. rewrite HN, HC by set_solver. eapply log_at_created; [done|]. auto.
  - rewrite !fn_lookup_insert. by eapply created_log_at.
  - rewrite app_assoc. apply NoDup_app. split; [done|]. split; [|apply NoDup_singleton]. set_solver.
  - rewrite fmap_insert_notin by set_solver. done.
  - rewrite fmap_app, fmap_insert_notin by set_solver. cbn. rewrite fn_lookup_insert. apply NoDup_app.
    split; [done|]. split; [|apply NoDup_singleton].
    intros n (q & -> & Hq)%list_elem_of_fmap. rewrite list_elem_of_singleton.
    eapply (log_at_created _ _ _ _ _ q); [done|]. auto.
  - intros q Hq. rewrite HN by set_solver. auto.
  - intros q [Hq| ->%list_elem_of_singleton]%elem_of_app.
    + rewrite HN by set_solver. auto.
    + rewrite fn_lookup_insert. apply Hcr.
  - done.
Qed.

(** A storage of which every log is known by its bytes. *)
Lemma stored_disk d k past h : disk_of (MkWorld h d.1 (Stored <$> d.2) k past : world F T G) = d.
Proof. unfold disk_of, log_dir. cbn. rewrite log_dir_stored. by destruct d. Qed.

(** The rest of [OpenBlockFileWithOptions], from the metadata on. *)
Definition open_with (fuel : nat) w target util meta : outcome (world F T G * (BlockFile M BS + error)) :=
  '(w, res) ← load_files newHandle w (opening target util 1 [] [] meta) (ListDataFiles meta);
  match res with
  | inr err => Ret (w, inr err)
  | inl bf =>
      '(w, newWriteLog) ← makeLogWriter newFile rnd fuel w bf;
      o ← of_option (w_heap w !! newWriteLog);
      let bf := set_meta bf (PushWriteLog (bf_meta bf) (obj_name o)) in
      w ← bf_Save w bf;
      let bf := set_reader bf (tk_PushWriter (bf_readerTracker bf) newWriteLog) in
      r ← wt_PushNewLog (bf_writerTracker bf) (w_heap w) newWriteLog;
      let '(m, h, _) := r in Ret (record (with_heap w h), inl (set_writer bf m))
  end.

Lemma open_is_open_with fuel d o meta :
  opts_ok o -> md_BlockSize meta = bs -> md_NumBlocks meta = nb ->
  (LoadMetadata d.1 = inl meta \/ LoadMetadata d.1 = inr ErrNotExist /\ meta = listed [] []) ->
  exists target util, 0 < target /\
    OpenBlockFileWithOptions newFile newHandle rnd fuel (crashed d) o = open_with fuel (crashed d) target util meta.
Proof.
  intros (Hv & Ho1 & Ho2) Hmb Hmn Hload.
  exists (SetDefaultIfZero (fun x => x =? 0) (o_TargetTableSize o) DefaultTargetTableSize).
  exists (SetDefaultIfZero (PrimFloat.eqb PrimFloat.zero) (o_MinTableUtilisation o) DefaultMinTableUtilisation).
  unfold valid_options in Hv. rewrite !andb_true_iff, !negb_true_iff in Hv. destruct Hv as (((Hv1 & Hv2) & Hv3) & Hv4).
  split.
  { apply orb_false_iff in Hv3 as [Hv3%Z.ltb_ge _]. unfold MinTableSize in Hv3. lia. }
  unfold OpenBlockFileWithOptions. rewrite Hv1, Hv2, Hv3, Hv4, Ho1, Ho2. change (w_blobs (crashed d)) with d.1.
  assert (NewMetadata_BlockStore bs (u64 nb) = listed [] []) as Hnew0.
  { unfold NewMetadata_BlockStore, listed. by rewrite u32_small, u64_small by lia. }
  rewrite (proj2 (Z.eqb_neq nb 0)), (proj2 (Z.eqb_neq bs 0)), Hnew0 by lia.
  assert (i64 (md_NumBlocks meta) = nb) as Hmn' by (rewrite Hmn, i64_small; lia).
  destruct Hload as [->|[-> ->]]; cbv zeta; rewrite Hmn', Hmb; reflexivity.
Qed.

Lemma recoverable_grows d d' c :
  d'.1 = d.1 -> (forall n b, d.2 !! n = Some b -> d'.2 !! n = Some b) -> recoverable d c -> recoverable d' c.
Proof.
  intros E1 E2 [[Hb Hc]|(ts & ls & Hm & [Ht Hl Hs Hf Hn1 Hn2 Hfew] & Hc)]; [left; by split; [rewrite E1|]|right].
  exists ts, ls. split; [by rewrite E1|]. split; [|done]. split; try done; [by rewrite E1|].
  intros f Hin. destruct (Hl f Hin) as (b & ws & Hb & Hop). exists b, ws. split; [by apply E2|done].
Qed.

Lemma created_disk w w' p name n b :
  created w w' p name -> log_dir w !! n = Some b -> (forall q, w_logs w !! n <> Some (Held q)) ->
  log_dir w' !! n = Some b.
Proof.
  intros Hcr. unfold log_dir. rewrite (cr_logs _ _ _ _ Hcr), !lookup_fmap. intros (f & Hf & ->)%fmap_Some Hnh.
  rewrite lookup_insert_ne; [|intros ->; by rewrite (cr_unused _ _ _ _ Hcr) in Hf]. rewrite Hf.
  destruct f as [b|q]; [done|]. by destruct (Hnh q).
Qed.

Lemma new_tracker_ok C (a : positive) pend :
  tracker_ok bs nb (tk_PushWriter (loaded pend) a) a [] pend C.
Proof.
  split; try done. split; [by apply NewReader_wf; lia|done|]. intros k. apply NewReader_owner.
Qed.

(** A new log adds nothing to what the device serves. *)
Lemma layers_new_log C (pts pls : list positive) p k :
  (p ∉ pts ++ pls) -> layers (<[p := fun _ => None]> C) pts pls p k = overlay (C <$> reverse (pts ++ pls)) k.
Proof.
  intros Hp. unfold layers. rewrite fmap_cons, fn_lookup_insert. cbn [overlay].
  by rewrite fmap_insert_notin by (by rewrite elem_of_reverse).
Qed.

Lemma created_empty w w' p name : created w w' p name -> file_bytes (w_heap w') (Held p) = [].
Proof.
  intros Hcr. cbn [file_bytes]. rewrite (cr_heap _ _ _ _ Hcr), lookup_insert_eq. unfold wl_file. cbn. by destruct Hnew as [_ ->].
Qed.

(** Creating a log loses nothing of a storage. *)
Lemma created_recoverable d h k past w' p name c :
  created (MkWorld h d.1 (Stored <$> d.2) k past) w' p name -> recoverable d c -> recoverable (disk_of w') c.
Proof.
  intros Hcr Hrec. apply (recoverable_grows d); [apply (cr_blobs _ _ _ _ Hcr)| |done].
  intros n b Hb. apply (created_disk _ w' p name n b Hcr).
  - unfold log_dir. cbn [w_heap w_logs]. by rewrite log_dir_stored.
  - intros q. cbn [w_logs]. rewrite lookup_fmap. by destruct (d.2 !! n).
Qed.

Lemma open_stored fuel d ts ls target util c :
  stored d ts ls -> 0 < target -> names_left fuel (crashed d) ->
  (forall k, c k = overlay (reverse (ts ++ ls).*2) k) ->
  exists w bf, open_with fuel (crashed d) target util (listed ts.*1 ls.*1) = Ret (w, inl bf) /\
    device bs nb w bf c /\ active_file w bf = [] /\
    (recoverable d c -> Z.of_nat (length ts + length ls) <= 2 ^ 15 -> passes (fun d => recoverable d c) (crashed d) w).
Proof.
  intros Hst Htg Hleft Hc.
  destruct (load_stored d ts ls target util (listed ts.*1 ls.*1) 0 [] Hst) as
    (h & pts & pls & seq & N & C & E & Hseq & Hnd & HN1 & HN2 & HC1 & HC2 & Hta & Hla).
  unfold open_with. change (ListDataFiles (listed ts.*1 ls.*1)) with (md_DataFiles (listed ts.*1 ls.*1)).
  unfold crashed. rewrite E. cbn [mbind outcome_bind]. set (w := MkWorld h d.1 (Stored <$> d.2) 0 [] : world F T G).
  destruct (makeLogWriter_ok fuel w (opening target util seq (pts ++ pls) pls (listed ts.*1 ls.*1))) as
    (w1 & p & name & Em & Hcr); [done|done|]. rewrite Em. cbn [mbind outcome_bind].
  assert (w_heap w1 !! p = Some (OLog (NewWriteLogFromWriter newFile bs name))) as ->.
  { by rewrite (cr_heap _ _ _ _ Hcr), lookup_insert_eq. }
  cbn [of_option mbind outcome_bind obj_name]. change (wl_name (NewWriteLogFromWriter newFile bs name)) with name.
  assert (listed ts.*1 ls.*1 = meta_of bs nb N pts pls) as Hmeta by (unfold listed, meta_of, entries; by rewrite HN1, HN2).
  assert (Hfit : forall q, q ∈ pls -> name_fits (N q) = true).
  { intros q Hq. assert (N q ∈ ls.*1) as Hin by (rewrite <- HN2; apply list_elem_of_fmap; eauto).
    apply list_elem_of_fmap in Hin as (f & -> & Hf). by apply (st_fits _ _ _ Hst). }
  assert (Hlen : (length pts + length pls = length ts + length ls)%nat).
  { apply (f_equal length) in HN1, HN2. rewrite !length_fmap in HN1, HN2. lia. }
  pose proof (st_few _ _ _ Hst) as Hfew.
  set (N' := <[p := name]> N). set (C' := <[p := fun _ => None]> C : positive -> content).
  set (bf1 := set_meta _ _).
  assert (Hfc : forall blobs, (forall q, q ∈ pts -> blobs !! N q = w_blobs w !! N q) ->
    (p ∉ pts ++ pls) /\ files bs nb (w_heap w1) blobs (w_logs w1) seq pts pls p N' C').
  { intros blobs Hbl. apply (files_created w w1 p name blobs seq pts pls N C Hcr); try done;
      first [by rewrite HN1; apply Hst|by rewrite HN2; apply Hst|intros q Hq; by apply Hta]. }
  destruct (Hfc (w_blobs w1)) as [Hp Hf0]; [intros q _; by rewrite (cr_blobs _ _ _ _ Hcr)|].
  destruct (save_ok w1 bf1 N' pts (pls ++ [p])) as (b & Es & Hload).
  { unfold bf1. cbn [set_meta bf_meta opening]. rewrite Hmeta. by apply push_entry. }
  { eauto with logblock. }
  { eauto with logblock. }
  { rewrite length_app. cbn. lia. }
  rewrite Es. cbn [mbind outcome_bind]. set (blobs2 := <[metadataBlobName := b]> (w_blobs w1)).
  destruct (Hfc blobs2) as [_ Hfiles].
  { intros q Hq. destruct (Hta q Hq) as [_ (s & -> & Hs)]. unfold blobs2.
    by rewrite metadata_not_table, (cr_blobs _ _ _ _ Hcr) by lia. }
  unfold wt_PushNewLog, push_swap. cbn [bf_writerTracker set_reader bf1 set_meta opening wt_activeWriter set_active
    mbind outcome_bind]. do 2 eexists. split; [done|].
  match goal with |- device _ _ ?w3 ?bf3 _ /\ _ => set (wf := w3); set (bff := bf3) end.
  assert (Hdev : device bs nb wf bff c).
  { exists pts, pls, p, N', C'. split.
    - split; try done.
      + cbn [bff set_writer bf_meta set_reader bf1 set_meta opening]. rewrite Hmeta. by apply push_entry.
      + cbn [bff set_writer bf_meta set_reader bf1 set_meta opening]. rewrite Hmeta, (push_entry _ _ _ p) by done.
        apply Hload. cbn. apply lookup_insert_eq.
      + exists [], (pts ++ pls). split; [done|]. apply new_tracker_ok.
    - intros k. rewrite Hc. unfold C'. rewrite layers_new_log by done.
      by rewrite (fmap_reverse C), (fmap_app C), HC1, HC2, <- (fmap_app snd). }
  assert (Hempty : active_file wf bff = []) by (by apply (created_empty w w1 p name)).
  split; [done|]. split; [done|]. intros Hrec Hfew'.
  assert (Hfin : described (disk_of wf) c).
  { apply (device_described wf bff c Hdev).
    - cbn [bff set_writer bf_meta set_reader bf1 set_meta opening]. rewrite Hmeta, (push_entry _ _ _ p) by done.
      cbn. rewrite entries_length, length_app. cbn. lia.
    - by rewrite Hempty. }
  exists [disk_of w1; disk_of wf; disk_of wf]. split; [cbn; by rewrite (cr_past _ _ _ _ Hcr)|].
  repeat (constructor; [first [by right|by eapply created_recoverable]|]). constructor.
Qed.

Lemma recoverable_opens fuel d c o :
  recoverable d c -> opts_ok o -> names_left fuel (crashed d) ->
  exists w bf, OpenBlockFileWithOptions newFile newHandle rnd fuel (crashed d) o = Ret (w, inl bf) /\
    device bs nb w bf c /\ active_file w bf = [].
Proof.
  intros Hrec Ho Hleft.
  assert (exists ts ls, stored d ts ls /\ (forall k, c k = overlay (reverse (ts ++ ls).*2) k) /\
    (LoadMetadata d.1 = inl (listed ts.*1 ls.*1) \/ LoadMetadata d.1 = inr ErrNotExist /\ listed ts.*1 ls.*1 = listed [] []))
    as (ts & ls & Hst & Hc & Hm).
  { destruct Hrec as [[Hm Hc]|(ts & ls & Hm & Hst & Hc)]; [|by eauto 10].
    exists [], []. split; [|by eauto]. split; try (by intros f ?%elem_of_nil); [constructor|constructor|cbn; lia]. }
  destruct (open_is_open_with fuel d o (listed ts.*1 ls.*1)) as (target & util & Ht & ->); [done|done|done|done|].
  destruct (open_stored fuel d ts ls target util c) as (w & bf & E & Hdev & Hempty & _); eauto 6.
Qed.
End disk.
