(* ===== verification/DeviceClose.v ===== *)
(** * Closing the device

    [BlockFile.Close]: the logs are closed, those to which nothing was written
    are dropped from the metadata and deleted. At every moment the storage
    describes the contents of the device. *)
From S2P Require Import Prelude Radix Bits RangeMap ExtentRangeMap BlockReader StackedBlockReader BlockMap.
From S2P Require Import BlockMapTheorems GoStd Adaptor WalIndex WalFormat WalWriter WalTheorems WriteLog WriteLogState.
From S2P Require Import SparseBuilder SparseReader SparseBuildFrom WaitBarrier Tracker TrackerWriter.
From S2P Require Import DataFile Storage Metadata Decimal Device DeviceInv DeviceDisk.
From stdpp Require Import strings functions list.
Local Open Scope Z_scope.

Section close.
Context {F : Type} `{!LogFile F} `{!LogFileLaws F} `{!Closer F} `{!CloserLaws F} `{!WalCodec} `{!WalCodecLaws}.
Context {T : Type} `{!RadixTree item it_key T} `{!RadixTreeLaws item it_key T}.
Context {G : Type} `{!Closer G}.
Context `{!HeaderCodec} `{!HeaderCodecLaws} `{!TruncatedReader} `{!TruncatedReaderLaws}.
Context `{!MetadataCodec} `{!MetadataCodecLaws}.
Context {M : Type} `{!RangeMap Z M} `{!RangeMapLaws Z M} {BS : Type} `{!BitSet BS} `{!BitSetLaws BS}.
Context (bs nb : Z) (Hbs : 512 <= bs <= 1024 * 1024) (Hnb : 0 < nb < 2 ^ 28).
Implicit Types (h : gmap positive (obj F T G)) (blobs dir : directory) (logs : gmap string log_file).
Implicit Types (w : world F T G) (bf : BlockFile M BS) (C : positive -> content) (N : positive -> string).
Implicit Types (d : directory * directory) (c : content) (qs pts pls : list positive).

Abbreviation desc := (described (F := F) (T := T) (G := G) bs nb).

(** The active log can be closed. *)
Definition log_closable h (p : positive) : Prop :=
  match h !! p with Some (OLog l) => closable l | _ => True end.

Definition active_closable w bf : Prop :=
  match wt_activeWriter (bf_writerTracker bf) with Some a => log_closable (w_heap w) a | None => True end.

(** A log that has been closed, of which only the file matters. *)
Definition closed_at h logs (p : positive) (name : string) c : Prop :=
  (exists f, logs !! name = Some f /\ forall q, f = Held q -> q = p) /\
  log_on (F := F) (T := T) (G := G) bs nb (file_bytes h <$> logs) name c.

Lemma closed_at_other h logs p name c q x :
  p <> q -> closed_at h logs p name c -> closed_at (<[q := x]> h) logs p name c.
Proof.
  intros Hne [(f & Hf & Hh) (b & ws & Hb & Hrest)]. split; [eauto|]. exists b, ws. split; [|done].
  rewrite lookup_fmap, Hf in *. cbn in *. rewrite <- Hb. f_equal. destruct f as [b'|r]; [done|]. cbn.
  rewrite lookup_insert_ne; [done|]. rewrite (Hh r) by done. done.
Qed.

Lemma log_at_close h logs o p name c :
  log_at bs nb h logs o p name c -> (o = true -> log_closable h p) ->
  exists l l' err, h !! p = Some (OLog l) /\ wl_name l = name /\ wl_Close l = Ret (l', err) /\ wl_name l' = name /\
    (wl_Written l' = 0 -> forall k, c k = None) /\ closed_at (<[p := OLog l']> h) logs p name c.
Proof.
  intros (l & ws & Hp & <- & -> & Hst) Hc. unfold log_closable in Hc. rewrite Hp in Hc.
  destruct Hst as [[Hst Hh]|(-> & b & Hb & Hop & Hl)].
  - pose proof Hst as (Hws & _).
    destruct (log_state_Close bs nb ltac:(lia) ltac:(nia) ws o l Hst Hc) as (l' & err & E & Hn & Hw & wr & f & Hs & Hf).
    exists l, l', err. do 4 (split; [done|]). split; [by intros ->%Hw|]. split; [exists (Held p); by split; [|intros q [=]]|].
    exists (io_out f), ws. rewrite lookup_fmap, Hh. cbn. rewrite lookup_insert_eq, Hf. split; [done|]. split; [|done].
    by apply (writer_state_opens bs nb ltac:(lia) ltac:(lia) ltac:(nia) ws false wr).
  - pose proof Hl as [_ Hw (r & g & Er)]. exists l. unfold wl_Close. rewrite Er. destruct (c_Close g) as [g' e].
    do 2 eexists. do 4 (split; [done|]). split.
    + intros Hz. assert (Hz' : len b = 0) by (rewrite <- Hw; unfold wl_Written in *; rewrite Er; done).
      apply len_0_nil in Hz'. destruct Hop as (_ & Hemp & _). by rewrite Hemp.
    + split; [exists (Stored b); by split|]. exists b, ws. by rewrite lookup_fmap, Hb.
Qed.

Lemma close_all_ok logs N C a qs : forall h acc,
  NoDup qs -> (forall q, q ∈ qs -> log_at bs nb h logs (bool_decide (q = a)) q (N q) (C q)) ->
  (a ∈ qs -> log_closable h a) ->
  exists h' E, close_all h qs acc = Ret (h', acc ++ (N <$> E)) /\ E `sublist_of` qs /\
    (forall q, q ∈ E -> forall k, C q k = None) /\
    (forall q, q ∈ qs -> closed_at h' logs q (N q) (C q)) /\ (forall p, (p ∉ qs) -> h' !! p = h !! p).
Proof.
  induction qs as [|q qs IH]; intros h acc Hnd Hat Hcl; cbn [close_all].
  { exists h, []. rewrite app_nil_r. split; [done|]. split; [constructor|]. split; [by intros q ?%elem_of_nil|].
    by split; [intros q ?%elem_of_nil|]. }
  apply NoDup_cons in Hnd as [Hq Hnd].
  destruct (log_at_close h logs (bool_decide (q = a)) q (N q) (C q)) as (l & l' & err & Hl & Hn & Ec & _ & Hz & Hc);
    [apply Hat; by left|intros ->%bool_decide_eq_true; apply Hcl; by left|].
  unfold close_one, call. rewrite Hl. cbn [of_option mbind outcome_bind tw_Name tw_Close obj_tracked obj_name on_log].
  rewrite Ec. cbn [mbind outcome_bind]. rewrite lookup_insert_eq. cbn [of_option mbind outcome_bind tw_Written obj_tracked].
  set (h1 := <[q := OLog l']> h). match goal with |- context [close_all _ qs ?x] => set (acc1 := x) end.
  destruct (IH h1 acc1 Hnd) as (h' & E & Er & Hsub & HE & Hca & Hrest).
  { intros p Hp. apply log_at_other; [by intros ->|]. apply Hat. by right. }
  { intros Ha. unfold log_closable, h1. rewrite lookup_insert_ne by (by intros ->). apply Hcl. by right. }
  exists h', (if wl_Written l' =? 0 then q :: E else E). split; [|split; [|split; [|split]]].
  - rewrite Er. unfold acc1. rewrite Hn. destruct (wl_Written l' =? 0); [|done]. by rewrite fmap_cons, <- app_assoc.
  - destruct (wl_Written l' =? 0); by constructor.
  - destruct (Z.eqb_spec (wl_Written l') 0); [|done]. intros p [->|Hp]%elem_of_cons; auto.
  - intros p [->|Hp]%elem_of_cons; [|auto]. destruct Hc as [Hf (b & ws & Hb & Hop)]. split; [done|].
    exists b, ws. split; [|done]. rewrite <- Hb. destruct Hf as (f & Hf & Hh). rewrite !lookup_fmap, Hf. cbn. f_equal.
    destruct f as [b'|r]; [done|]. cbn. by rewrite Hrest by (by rewrite (Hh r)).
  - intros p Hp. rewrite Hrest by set_solver. apply lookup_insert_ne. set_solver.
Qed.

(** Deleting logs that are not listed any more. *)
Lemma remove_logs_ok (P : directory * directory -> Prop) (gone : list string) names : forall w,
  (forall n, n ∈ names -> n ∈ gone) ->
  (forall w', w_heap w' = w_heap w -> w_blobs w' = w_blobs w ->
     (forall n, (n ∉ gone) -> w_logs w' !! n = w_logs w !! n) -> P (disk_of w')) ->
  passes P w (remove_logs w names) /\ P (disk_of (remove_logs w names)).
Proof.
  induction names as [|n names IH]; intros w Hn HP; cbn [remove_logs].
  { split; [by apply passes_refl|]. by apply HP. }
  set (w1 := with_logs w (w_heap w) (delete n (w_logs w))).
  assert (Hsame : forall m, (m ∉ gone) -> w_logs w1 !! m = w_logs w !! m).
  { intros m Hm. cbn. apply lookup_delete_ne. intros ->. apply Hm, Hn. by left. }
  destruct (IH w1) as [Hp Hd].
  - intros m Hm. apply Hn. by right.
  - intros w' E1 E2 E3. apply HP; [done|done|]. intros m Hm. by rewrite E3, Hsame.
  - split; [|done]. eapply passes_trans; [|exact Hp]. exists [disk_of w1]. split; [done|]. apply Forall_singleton.
    by apply HP.
Qed.

(** The storage when the logs have been closed: all of them, or those in which
    something was written. *)
Lemma closed_described h blobs0 logs0 seq pts pls a N C c (E : list positive) blobs dir :
  files bs nb h blobs0 logs0 seq pts pls a N C -> (forall p, p ∈ pts -> blobs !! N p = blobs0 !! N p) ->
  LoadMetadata blobs = inl (meta_of bs nb N pts (filter (fun p => p ∉ E) (pls ++ [a]))) ->
  (forall q, q ∈ E -> forall k, C q k = None) ->
  (forall q, q ∈ pls ++ [a] -> (q ∉ E) -> log_on (F := F) (T := T) (G := G) bs nb dir (N q) (C q)) ->
  Z.of_nat (length pts + length (pls ++ [a])) <= 2 ^ 15 + 2 ->
  (forall k, c k = layers C pts pls a k) -> desc (blobs, dir) c.
Proof.
  intros [Ht Hl Ha Hnd Htn Hln Hsq Hft Hsb] Hbl Hm HE Hon Hlen Hc.
  apply (described_of bs nb _ _ pts (filter (fun p => p ∉ E) (pls ++ [a])) N C); try done.
  - intros p Hp. eapply table_at_on, table_at_blobs; [by apply Hbl|]. by apply Ht.
  - intros p [Hp1 Hp2]%list_elem_of_filter. auto.
  - intros p Hp. destruct (Hsq p Hp) as (s & ? & ?). exists s. split; [done|lia].
  - intros p [_ Hp]%list_elem_of_filter. auto.
  - by apply NoDup_fmap_filter.
  - pose proof (length_filter (fun p => p ∉ E) (pls ++ [a])). lia.
  - intros k. rewrite Hc. unfold layers. rewrite <- reverse_snoc, <- app_assoc.
    generalize (pls ++ [a]) as l. intros l. rewrite !reverse_app, !fmap_app, !overlay_app.
    assert (overlay (C <$> reverse l) k = overlay (C <$> reverse (filter (fun p => p ∉ E) l)) k) as ->; [|done].
    clear -HE. induction l as [|q l IH]; [done|]. rewrite filter_cons, !reverse_cons, fmap_app, overlay_app, IH.
    case_decide as Hq; [by rewrite reverse_cons, fmap_app, overlay_app|].
    change (C <$> [q]) with [C q]. rewrite overlay_single, (HE q Hq). by case_match.
Qed.

Lemma close_swap_ok m pls (a : positive) C : writers_ok m pls a C -> wt_pendingWriters (close_swap m) = pls ++ [a].
Proof. intros [Ha Hp _]. unfold close_swap. rewrite Ha. cbn. by rewrite Hp. Qed.

(** The result of closing the logs. *)
Lemma device_close_logs w bf c :
  device bs nb w bf c -> active_closable w bf ->
  exists h' E pts pls a N C,
    close_all (w_heap w) (wt_pendingWriters (close_swap (bf_writerTracker bf))) [] = Ret (h', N <$> E) /\
    E `sublist_of` pls ++ [a] /\ (forall q, q ∈ E -> forall k, C q k = None) /\
    (forall q, q ∈ pls ++ [a] -> log_on (F := F) (T := T) (G := G) bs nb (file_bytes h' <$> w_logs w) (N q) (C q)) /\
    files bs nb (w_heap w) (w_blobs w) (w_logs w) (bf_nextSeq bf) pts pls a N C /\
    bf_meta bf = meta_of bs nb N pts (pls ++ [a]) /\ LoadMetadata (w_blobs w) = inl (bf_meta bf) /\
    forall k, c k = layers C pts pls a k.
Proof.
  intros (pts & pls & a & N & C & [_ _ Hf Hm Hsv _ Hw] & Hc) Hcl. rewrite (close_swap_ok _ _ _ _ Hw).
  unfold active_closable in Hcl. rewrite (wts_active _ _ _ _ Hw) in Hcl.
  pose proof (fl_NoDup _ _ _ _ _ _ _ _ _ _ _ Hf) as (_ & _ & Hnd)%NoDup_app.
  destruct (close_all_ok (w_logs w) N C a (pls ++ [a]) (w_heap w) []) as (h' & E & Er & Hsub & HE & Hca & _); [done| |done|].
  - intros q Hq. case_bool_decide as Hqa; [subst q; apply Hf|]. apply (fl_log _ _ _ _ _ _ _ _ _ _ _ Hf).
    apply elem_of_app in Hq as [?|?%list_elem_of_singleton]; done.
  - exists h', E, pts, pls, a, N, C. do 3 (split; [done|]). split; [|done]. intros q Hq. by apply Hca.
Qed.

Lemma device_closes w bf c :
  device bs nb w bf c -> active_closable w bf -> Z.of_nat (length (md_DataFiles (bf_meta bf))) <= 2 ^ 15 + 2 ->
  exists w' bf', bf_Close w bf = Ret (w', bf', None) /\ desc (disk_of w') c /\ passes (fun d => desc d c) w w'.
Proof.
  intros Hdev Hcl Hlen.
  destruct (device_close_logs w bf c Hdev Hcl) as (h' & E & pts & pls & a & N & C & Er & Hsub & HE & Hon & Hf & Hm & Hsv & Hc).
  rewrite Hm in Hlen, Hsv. cbn in Hlen. rewrite entries_length in Hlen.
  unfold bf_Close, wt_Close. rewrite Er. cbn [mbind outcome_bind]. set (w1 := record (with_heap w h')).
  assert (Hd1 : desc (disk_of w1) c).
  { apply (closed_described _ _ _ _ _ _ _ _ _ c [] _ _ Hf); try done; [|by intros q ?%elem_of_nil|by auto].
    by rewrite Prelude.filter_all by (by intros ? _ ?%elem_of_nil). }
  assert (Hp1 : passes (fun d => desc d c) w w1).
  { exists [disk_of w1]. split; [done|]. by apply Forall_singleton. }
  case_bool_decide as Hemp; [by do 2 eexists|].
  set (pls' := filter (fun p => p ∉ E) (pls ++ [a])). set (bf1 := set_meta _ _).
  assert (HEin : forall q, q ∈ E -> q ∈ pls ++ [a]) by (intros q; by apply sublist_subseteq).
  assert (HndE : NoDup E).
  { eapply sublist_NoDup; [|exact Hsub]. by pose proof (fl_NoDup _ _ _ _ _ _ _ _ _ _ _ Hf) as (_ & _ & ?)%NoDup_app. }
  destruct (save_ok bs nb Hbs Hnb w1 bf1 N pts pls') as (b & Es & Hload).
  { unfold bf1. cbn [set_meta bf_meta set_writer]. rewrite Hm. by apply (remove_log_entries bs nb); try apply Hf. }
  { eauto with logblock. }
  { intros q [_ Hq]%list_elem_of_filter. eauto with logblock. }
  { unfold pls'. pose proof (length_filter (fun p => p ∉ E) (pls ++ [a])). lia. }
  rewrite Es. cbn [mbind outcome_bind]. set (blobs2 := <[metadataBlobName := b]> (w_blobs w1)).
  set (w2 := with_blobs w1 blobs2).
  assert (Hd2 : forall logs', (forall n, (n ∉ (N <$> E)) -> logs' !! n = w_logs w2 !! n) -> desc (blobs2, file_bytes h' <$> logs') c).
  { intros logs' Hlg. pose proof Hf as [_ _ _ _ _ Hln Hsq _ Hsb].
    apply (closed_described _ _ _ _ _ _ _ _ _ c E _ _ Hf); try done.
    - intros q Hq. by apply (files_metadata _ _ _ _ _ _ _ _ _ _ _ _ _ _ Hf).
    - apply Hload. apply lookup_insert_eq.
    - intros q Hq HqE. destruct (Hon q Hq) as (x & ws & Hx & Hop). exists x, ws. split; [|done]. rewrite <- Hx.
      rewrite !lookup_fmap, Hlg; [done|]. intros (q' & Hn & Hq')%list_elem_of_fmap.
      apply HqE. by rewrite (NoDup_fmap_inj N (pls ++ [a]) q q') by auto. }
  destruct (remove_logs_ok (fun d => desc d c) (N <$> E) (N <$> E) w2) as [Hp3 Hd3]; [done| |].
  { intros w' E1 E2 E3. unfold disk_of, log_dir. rewrite E1, E2. by apply Hd2. }
  do 2 eexists. split; [done|]. split; [done|].
  eapply passes_trans; [exact Hp1|]. eapply passes_trans; [|exact Hp3].
  exists [disk_of w2]. split; [done|]. apply Forall_singleton. by apply Hd2.
Qed.
End close.
