(* ===== verification/DeviceRotate.v ===== *)
(** * Rotating the write log

    [BlockFile.rotateNewWriteLog]: a new log becomes the active one, and the old
    one, closed for writing, joins the logs that wait to be compacted. The
    contents stay the same, on the device and on the storage at every moment. *)
From S2P Require Import Prelude Radix Bits RangeMap ExtentRangeMap BlockReader StackedBlockReader BlockMap.
From S2P Require Import BlockMapTheorems GoStd Adaptor WalIndex WalFormat WalWriter WalTheorems WriteLog WriteLogState.
From S2P Require Import SparseBuilder SparseReader SparseBuildFrom WaitBarrier Tracker TrackerWriter.
From S2P Require Import DataFile Storage Metadata Decimal Device DeviceInv DeviceDisk DeviceClose.
From stdpp Require Import strings functions list.
Local Open Scope Z_scope.

Section rotate.
Context {F : Type} `{!LogFile F} `{!LogFileLaws F} `{!Closer F} `{!CloserLaws F} `{!WalCodec} `{!WalCodecLaws}.
Context {T : Type} `{!RadixTree item it_key T} `{!RadixTreeLaws item it_key T}.
Context {G : Type} `{!Closer G}.
Context `{!HeaderCodec} `{!HeaderCodecLaws} `{!TruncatedReader} `{!TruncatedReaderLaws}.
Context `{!MetadataCodec} `{!MetadataCodecLaws}.
Context {M : Type} `{!RangeMap Z M} `{!RangeMapLaws Z M} {BS : Type} `{!BitSet BS} `{!BitSetLaws BS}.
Context (bs nb : Z) (Hbs : 512 <= bs <= 1024 * 1024) (Hnb : 0 < nb < 2 ^ 28).
Context (newFile : F) (rnd : nat -> Z) (Hnew : io_reliable newFile /\ io_out newFile = []).
Implicit Types (h : gmap positive (obj F T G)) (blobs dir : directory) (logs : gmap string log_file).
Implicit Types (w : world F T G) (bf : BlockFile M BS) (C : positive -> content) (N : positive -> string).
Implicit Types (d : directory * directory) (c : content) (pts pls : list positive).

Abbreviation desc := (described (F := F) (T := T) (G := G) bs nb).

Lemma log_at_CloseWriter h logs p name c :
  log_at bs nb h logs true p name c -> log_closable h p ->
  exists l l' err, h !! p = Some (OLog l) /\ wl_CloseWriter l = Ret (l', err) /\
    log_at bs nb (<[p := OLog l']> h) logs false p name c.
Proof.
  intros (l & ws & Hp & <- & -> & [[Hst Hh]|[? _]]) Hc; [|done]. unfold log_closable in Hc. rewrite Hp in Hc.
  destruct (log_state_CloseWriter bs nb ltac:(lia) ltac:(nia) ws true l Hst (fun _ => Hc)) as (l' & err & E & Hst' & Hn).
  exists l, l', err. split; [done|]. split; [done|]. exists l', ws. rewrite lookup_insert_eq. split; [done|].
  split; [done|]. split; [done|]. by left.
Qed.

(** The files after the rotation. *)
Lemma files_rotated w w1 p name blobs seq pts pls a N C l' :
  files bs nb (w_heap w) (w_blobs w) (w_logs w) seq pts pls a N C -> created bs newFile w w1 p name ->
  log_at bs nb (<[a := OLog l']> (w_heap w)) (w_logs w) false a (N a) (C a) ->
  (forall q, q ∈ pts -> blobs !! N q = w_blobs w !! N q) ->
  (p ∉ pts ++ pls ++ [a]) /\
  files bs nb (<[a := OLog l']> (w_heap w1)) blobs (w_logs w1) seq pts (pls ++ [a]) p
    (<[p := name]> N) (<[p := fun _ => None]> C).
Proof.
  intros [Ht Hl Ha Hnd Htn Hln Hsq Hft Hsb] Hcr Hcl Hbl.
  assert (Hpa : p <> a). { intros ->. destruct Ha as (l & ws & Hx & _). by rewrite (cr_fresh _ _ _ _ _ _ Hcr) in Hx. }
  set (w0 := with_heap w (<[a := OLog l']> (w_heap w))).
  set (h1 := <[p := OLog (NewWriteLogFromWriter newFile bs name)]> (w_heap w0)).
  set (w2 := with_logs w0 h1 (<[name := Held p]> (w_logs w))).
  assert (Hcr2 : created bs newFile w0 w2 p name).
  { split; try done; [|apply Hcr|apply Hcr]. cbn. rewrite lookup_insert_ne by done. apply Hcr. }
  assert (<[a := OLog l']> (w_heap w1) = w_heap w2) as ->.
  { rewrite (cr_heap _ _ _ _ _ _ Hcr). cbn. by apply insert_insert_ne. }
  assert (w_logs w1 = w_logs w2) as -> by apply Hcr.
  pose proof Hnd as (_ & Hdis & Hnd2)%NoDup_app. pose proof Hnd2 as (_ & Hdis2 & _)%NoDup_app.
  apply (files_created bs nb Hbs Hnb newFile Hnew w0 w2 p name); try done.
  - intros q Hq. apply table_at_other; [|by apply Ht]. intros ->. apply (Hdis a Hq). set_solver.
  - intros q [Hq| ->%list_elem_of_singleton]%elem_of_app; [|done]. apply log_at_other; [|by apply Hl].
    intros ->. apply (Hdis2 a Hq). by left.
Qed.

(** The storage between the creation of the log and its use. *)
Lemma created_logs_on w w1 p name seq pts pls a N C q :
  files bs nb (w_heap w) (w_blobs w) (w_logs w) seq pts pls a N C -> created bs newFile w w1 p name ->
  no_footer (file_bytes (w_heap w) (Held a)) -> q ∈ pls ++ [a] ->
  log_on (F := F) (T := T) (G := G) bs nb (log_dir w1) (N q) (C q).
Proof.
  intros [Ht Hl Ha Hnd Htn Hln Hsq Hft Hsb] Hcr Hnf [Hq| ->%list_elem_of_singleton]%elem_of_app.
  - eapply (log_at_on bs nb Hbs Hnb); [eapply log_at_created; [exact Hcr|by apply Hl]|done].
  - eapply (log_at_on bs nb Hbs Hnb).
    + eapply log_at_created; done.
    + intros _. cbn in *. destruct Ha as (l & ws & Hx & _). rewrite (cr_heap _ _ _ _ _ _ Hcr), lookup_insert_ne; [done|].
      intros <-. by rewrite (cr_fresh _ _ _ _ _ _ Hcr) in Hx.
Qed.

Lemma created_new_on w w1 p name :
  created bs newFile w w1 p name -> log_on (F := F) (T := T) (G := G) bs nb (log_dir w1) name (fun _ => None).
Proof.
  intros Hcr. eapply (log_at_on bs nb Hbs Hnb); [by eapply (created_log_at bs nb newFile Hnew)|]. intros _. cbn.
  rewrite (cr_heap _ _ _ _ _ _ Hcr), lookup_insert_eq. unfold wl_file. cbn. by destruct Hnew as [_ ->].
Qed.

(** The metadata lists the logs without the new one, or with it. *)
Lemma created_described w w1 p name seq pts pls a N C D c blobs dir :
  files bs nb (w_heap w) (w_blobs w) (w_logs w) seq pts pls a N C -> created bs newFile w w1 p name ->
  (forall q, q ∈ pts -> D q = C q) ->
  (forall q, q ∈ pls ++ [a] -> log_on (F := F) (T := T) (G := G) bs nb dir (N q) (D q)) ->
  log_on (F := F) (T := T) (G := G) bs nb dir name (fun _ => None) -> (p ∉ pts ++ pls ++ [a]) ->
  Z.of_nat (length pts + length (pls ++ [a])) <= 2 ^ 15 + 1 -> (forall k, c k = layers D pts pls a k) ->
  (forall q, q ∈ pts -> blobs !! N q = w_blobs w !! N q) ->
  (LoadMetadata blobs = inl (meta_of bs nb N pts (pls ++ [a])) \/
   LoadMetadata blobs = inl (meta_of bs nb (<[p := name]> N) pts ((pls ++ [a]) ++ [p]))) ->
  desc (blobs, dir) c.
Proof.
  intros Hf Hcr HD Hlon Hnew_on Hp Hlen Hc Hbl Hm. pose proof Hf as [Ht Hl Ha Hnd Htn Hln Hsq Hft Hsb].
  assert (Hsq' : forall q, q ∈ pts -> exists s, N q = table_name s /\ 1 <= s < 2 ^ 63).
  { intros q Hq. destruct (Hsq q Hq) as (s & ? & ?). exists s. split; [done|lia]. }
  assert (Hton : forall q, q ∈ pts -> table_on bs nb blobs (N q) (D q)).
  { intros q Hq. rewrite HD by done. eapply table_at_on, table_at_blobs; [by apply Hbl|]. by apply Ht. }
  destruct Hm as [Hm|Hm].
  - apply (described_of bs nb _ _ pts (pls ++ [a]) N D); try done; [lia|].
    intros k. rewrite Hc. unfold layers. by rewrite app_assoc, reverse_snoc.
  - assert (HN : forall q, q ∈ pts ++ pls ++ [a] -> (<[p := name]> N) q = N q) by (intros q Hq; apply fn_lookup_insert_ne; by intros ->).
    assert (HC : forall q, q ∈ pts ++ pls ++ [a] -> (<[p := fun _ => None]> D) q = D q) by (intros q Hq; apply fn_lookup_insert_ne; by intros ->).
    apply (described_of bs nb _ _ pts ((pls ++ [a]) ++ [p]) (<[p := name]> N) (<[p := fun _ => None]> D)); [done|..].
    + intros q Hq. rewrite HN, HC by set_solver. auto.
    + intros q [Hq| ->%list_elem_of_singleton]%elem_of_app.
      * rewrite HN, HC by set_solver. by apply Hlon.
      * by rewrite !fn_lookup_insert.
    + intros q Hq. rewrite HN by set_solver. auto.
    + intros q [Hq| ->%list_elem_of_singleton]%elem_of_app.
      * rewrite HN by set_solver. auto.
      * rewrite fn_lookup_insert. apply Hcr.
    + by rewrite fmap_insert_notin by set_solver.
    + rewrite fmap_app, fmap_insert_notin by set_solver. change ((<[p := name]> N) <$> [p]) with [(<[p := name]> N) p].
      rewrite fn_lookup_insert. apply NoDup_app. split; [done|]. split; [|apply NoDup_singleton].
      intros n (q & -> & Hq)%list_elem_of_fmap. rewrite list_elem_of_singleton.
      apply elem_of_app in Hq as [Hq| ->%list_elem_of_singleton].
      * eapply (log_at_created _ _ _ _ _ _ _ _ q); [done|]. by apply Hl.
      * by eapply (log_at_created _ _ _ _ _ _ _ _ a).
    + rewrite (length_app (pls ++ [a])). cbn. lia.
    + intros k. rewrite Hc. unfold layers. rewrite app_assoc, reverse_snoc, (fmap_cons (<[p := _]> D)), fn_lookup_insert. cbn [overlay].
      rewrite fmap_insert_notin by (by rewrite elem_of_reverse). by rewrite app_assoc, reverse_snoc.
Qed.

(** Whatever opens in the place of the active log, before it is closed. *)
Lemma created_cut w w1 p name seq pts pls a N C c' blobs b ws :
  files bs nb (w_heap w) (w_blobs w) (w_logs w) seq pts pls a N C -> created bs newFile w w1 p name ->
  (p ∉ pts ++ pls ++ [a]) -> Z.of_nat (length pts + length (pls ++ [a])) <= 2 ^ 15 + 1 ->
  (forall q, q ∈ pts -> blobs !! N q = w_blobs w !! N q) ->
  (LoadMetadata blobs = inl (meta_of bs nb N pts (pls ++ [a])) \/
   LoadMetadata blobs = inl (meta_of bs nb (<[p := name]> N) pts ((pls ++ [a]) ++ [p]))) ->
  file_opens (F := F) (T := T) (G := G) bs nb b ws ->
  (forall k, c' k = layers (<[a := writes_content bs ws]> C) pts pls a k) ->
  desc (blobs, <[N a := b]> (log_dir w1)) c'.
Proof.
  intros Hf Hcr Hp Hlen Hbl Hm Hb Hc'. pose proof (files_apart _ _ _ _ _ _ _ _ _ _ _ Hf) as [_ Hna].
  pose proof (fl_lnames _ _ _ _ _ _ _ _ _ _ _ Hf) as Hln. rewrite fmap_app in Hln. apply NoDup_app in Hln as (_ & Hd & _).
  apply (created_described w w1 p name seq pts pls a N C (<[a := writes_content bs ws]> C)); try done.
  - intros q Hq. apply fn_lookup_insert_ne. intros <-. set_solver.
  - intros q [Hq| ->%list_elem_of_singleton]%elem_of_app.
    + rewrite fn_lookup_insert_ne by (intros <-; set_solver).
      destruct (log_at_created bs nb newFile w w1 p name false q (N q) (C q) Hcr) as [Hat _]; [by apply Hf|].
      destruct (log_at_on bs nb Hbs Hnb _ _ _ _ _ _ Hat) as (b0 & ws0 & Hb0 & Ho0); [done|]. exists b0, ws0.
      rewrite lookup_insert_ne; [done|]. intros E. apply (Hd (N q)); [apply list_elem_of_fmap; eauto|]. rewrite <- E. by left.
    + exists b, ws. rewrite lookup_insert_eq, fn_lookup_insert. done.
  - destruct (log_at_created bs nb newFile w w1 p name true a (N a) (C a) Hcr) as [_ Hne]; [apply Hf|].
    destruct (created_new_on w w1 p name Hcr) as (b0 & ws0 & Hb0 & Ho0). exists b0, ws0. by rewrite lookup_insert_ne.
Qed.

(** The storage with the new log, before and after the metadata lists it. *)
Lemma created_disks w w1 p name seq pts pls a N C c blobs2 :
  files bs nb (w_heap w) (w_blobs w) (w_logs w) seq pts pls a N C -> created bs newFile w w1 p name ->
  (p ∉ pts ++ pls ++ [a]) -> Z.of_nat (length pts + length (pls ++ [a])) <= 2 ^ 15 + 1 ->
  (forall k, c k = layers C pts pls a k) -> LoadMetadata (w_blobs w) = inl (meta_of bs nb N pts (pls ++ [a])) ->
  (forall q, q ∈ pts -> blobs2 !! N q = w_blobs w !! N q) ->
  LoadMetadata blobs2 = inl (meta_of bs nb (<[p := name]> N) pts ((pls ++ [a]) ++ [p])) ->
  forall d, d ∈ [disk_of w1; (blobs2, log_dir w1)] ->
  (no_footer (file_bytes (w_heap w) (Held a)) -> desc d c) /\
  forall b ws c', file_opens (F := F) (T := T) (G := G) bs nb b ws ->
    (forall k, c' k = layers (<[a := writes_content bs ws]> C) pts pls a k) -> desc (d.1, <[N a := b]> d.2) c'.
Proof.
  intros Hf Hcr Hp Hlen Hc Hm0 Hbl2 Hm2 d Hd.
  assert (exists blobs, d = (blobs, log_dir w1) /\ (forall q, q ∈ pts -> blobs !! N q = w_blobs w !! N q) /\
    (LoadMetadata blobs = inl (meta_of bs nb N pts (pls ++ [a])) \/
     LoadMetadata blobs = inl (meta_of bs nb (<[p := name]> N) pts ((pls ++ [a]) ++ [p])))) as (blobs & -> & Hbl & Hm).
  { apply elem_of_cons in Hd as [->|Hd]; [|apply list_elem_of_singleton in Hd as ->; exists blobs2; auto].
    exists (w_blobs w1). split; [done|]. rewrite (cr_blobs _ _ _ _ _ _ Hcr). auto. }
  split.
  - intros Hnf. apply (created_described w w1 p name seq pts pls a N C C c); try done.
    + intros q. by eapply created_logs_on.
    + by eapply created_new_on.
  - intros b ws c' Hb Hc'. by eapply created_cut.
Qed.

(** The reader tracker: the new writer is pushed, the old one becomes a reader. *)
Definition rotate_tracker (t : Tracker positive M BS) (a p : positive) : Tracker positive M BS :=
  let t := tk_PushReader (tk_PushWriter t p) a in default t (tk_RemoveWriter t a).

Lemma rotate_tracker_ok t a p idx pend C C' :
  tracker_ok bs nb t a idx pend C -> p <> a -> (forall q, q ∈ idx -> C' q = C q) ->
  tracker_ok bs nb (rotate_tracker t a p) p idx (pend ++ [a]) C'.
Proof.
  intros [Hsz Hst Hw Hp Hi Hix] Hne HC. destruct t as [b n st ix pd wr cs]. cbn in *. subst wr pd.
  unfold rotate_tracker, tk_RemoveWriter. cbn [tk_PushReader tk_PushWriter buildReaderStack set_pendingReaders set_writers
    tk_writers tk_pendingReaders]. rewrite bool_decide_eq_true_2 by set_solver. cbn [default delete_first].
  rewrite bool_decide_eq_false_2, bool_decide_eq_true_2 by done.
  split; cbn; try done; rewrite ?reverse_snoc; try done. by eapply index_of_ext.
Qed.

(** The device that lists the new log, and the world and the device in the end. *)
Definition listing bf (p : positive) (name : string) : BlockFile M BS :=
  set_meta (set_reader bf (tk_PushWriter (bf_readerTracker bf) p)) (PushWriteLog (bf_meta bf) name).

Definition rotated_world w1 (b : bytes) (a : positive) (l' : WriteLog F T G) : world F T G :=
  record (with_heap (with_blobs w1 (<[metadataBlobName := b]> (w_blobs w1))) (<[a := OLog l']> (w_heap w1))).

Definition rotated bf (p a : positive) (name : string) : BlockFile M BS :=
  let m := set_active (bf_writerTracker bf) (Some p) in
  set_reader (set_writer (listing bf p name) (set_count (set_pending m (wt_pendingWriters m ++ [a])) 0))
    (rotate_tracker (bf_readerTracker bf) a p).

Lemma rotate_run fuel w bf w1 p name a l l' err b :
  makeLogWriter newFile rnd fuel w bf = Ret (w1, p) -> created bs newFile w w1 p name -> p <> a ->
  wt_activeWriter (bf_writerTracker bf) = Some a -> w_heap w !! a = Some (OLog l) -> wl_CloseWriter l = Ret (l', err) ->
  bf_Save w1 (listing bf p name) = Ret (with_blobs w1 (<[metadataBlobName := b]> (w_blobs w1))) ->
  rotateNewWriteLog newFile rnd fuel w bf = Ret (rotated_world w1 b a l', rotated bf p a name).
Proof.
  intros Em Hcr Hpa Ha Hl Ecl Es.
  assert (Hla : w_heap w1 !! a = Some (OLog l)) by (by rewrite (cr_heap _ _ _ _ _ _ Hcr), lookup_insert_ne).
  unfold rotateNewWriteLog. rewrite Em. cbn [mbind outcome_bind].
  assert (w_heap w1 !! p = Some (OLog (NewWriteLogFromWriter newFile bs name))) as -> by (by rewrite (cr_heap _ _ _ _ _ _ Hcr), lookup_insert_eq).
  cbn [of_option mbind outcome_bind obj_name]. change (wl_name (NewWriteLogFromWriter newFile bs name)) with name.
  change (set_meta _ _) with (listing bf p name). rewrite Es. cbn [mbind outcome_bind].
  unfold wt_PushNewLog, push_swap, call. cbn [bf_writerTracker listing set_meta set_reader with_blobs record w_heap].
  rewrite Ha, Hla. cbn [of_option mbind outcome_bind tw_CloseWriter obj_tracked on_log]. by rewrite Ecl.
Qed.

Lemma rotate_ok fuel w bf pts pls a N C c :
  dev_inv bs nb w bf pts pls a N C -> (forall k, c k = layers C pts pls a k) -> room bf ->
  names_left rnd fuel w -> active_closable w bf ->
  exists w' bf' p N' C', rotateNewWriteLog newFile rnd fuel w bf = Ret (w', bf') /\
    dev_inv bs nb w' bf' pts (pls ++ [a]) p N' C' /\ (forall k, c k = layers C' pts (pls ++ [a]) p k) /\
    C' a = C a /\ bf_nextSeq bf' = bf_nextSeq bf /\ file_bytes (w_heap w') (Held p) = [] /\
    length (md_DataFiles (bf_meta bf')) = S (length (md_DataFiles (bf_meta bf))) /\
    (no_footer (active_file w bf) -> passes (fun d => desc d c) w w') /\
    exists d1 d2 d3, w_past w' = w_past w ++ [d1; d2; d3] /\ forall b ws c' d,
      file_opens (F := F) (T := T) (G := G) bs nb b ws -> (forall k, c' k = layers (<[a := writes_content bs ws]> C) pts pls a k) ->
      d ∈ [d1; d2] -> desc (d.1, <[N a := b]> d.2) c'.
Proof.
  intros [[Hsz1 Hsz2] Htg Hf Hm Hsv (idx & pend & Hip & Htk) Hw] Hc [Hfew Hseq] Hleft Hcl.
  unfold active_closable in Hcl. unfold active_file. pose proof Hw as [Ha Hp _]. rewrite Ha in *.
  rewrite Hm in Hfew. cbn in Hfew. rewrite entries_length in Hfew.
  destruct (makeLogWriter_ok bs newFile rnd fuel w bf Hsz1 Hleft) as (w1 & p & name & Em & Hcr).
  destruct (log_at_CloseWriter _ _ _ _ _ (fl_active _ _ _ _ _ _ _ _ _ _ _ Hf) Hcl) as (l & l' & err & Hl & Ecl & Hat).
  destruct (files_rotated w w1 p name (w_blobs w) _ pts pls a N C l' Hf Hcr Hat) as [Hpn Hf0]; [done|].
  assert (Hpa : p <> a) by set_solver.
  set (N' := <[p := name]> N). set (C' := <[p := fun _ => None]> C : positive -> content).
  assert (Hm1 : bf_meta (listing bf p name) = meta_of bs nb N' pts ((pls ++ [a]) ++ [p])).
  { unfold listing. cbn [set_meta bf_meta set_reader]. rewrite Hm. by apply push_entry. }
  assert (HC : forall q, q ∈ pts ++ pls ++ [a] -> C' q = C q) by (intros q Hq; apply fn_lookup_insert_ne; by intros ->).
  destruct (save_ok bs nb Hbs Hnb w1 (listing bf p name) N' pts ((pls ++ [a]) ++ [p]) Hm1) as (b & Es & Hload).
  { eauto with logblock. }
  { eauto with logblock. }
  { rewrite (length_app (pls ++ [a])). cbn. lia. }
  rewrite (rotate_run fuel w bf w1 p name a l l' err b) by done.
  set (blobs2 := <[metadataBlobName := b]> (w_blobs w1)) in *.
  assert (Hbl : forall q, q ∈ pts -> blobs2 !! N q = w_blobs w !! N q).
  { intros q Hq. unfold blobs2. by rewrite (files_metadata _ _ _ _ _ _ _ _ _ _ _ _ _ _ Hf), (cr_blobs _ _ _ _ _ _ Hcr). }
  destruct (files_rotated w w1 p name blobs2 _ pts pls a N C l' Hf Hcr Hat Hbl) as [_ Hf'].
  set (w2 := with_blobs w1 blobs2). set (w3 := rotated_world w1 b a l'). set (bf3 := rotated bf p a name).
  exists w3, bf3, p, N', C'. split; [done|].
  assert (Hlay : forall k, c k = layers C' pts (pls ++ [a]) p k).
  { intros k. rewrite Hc. unfold C'. rewrite layers_new_log by done. unfold layers. by rewrite (app_assoc pts pls), reverse_snoc. }
  assert (Hdev : dev_inv bs nb w3 bf3 pts (pls ++ [a]) p N' C').
  { split; [done|done|exact Hf'|exact Hm1| | |].
    - etransitivity; [apply Hload, lookup_insert_eq|]. by rewrite <- Hm1.
    - exists idx, (pend ++ [a]). split; [by rewrite app_assoc, Hip, <- app_assoc|].
      eapply rotate_tracker_ok; [exact Htk|done|]. intros q Hq. apply HC. rewrite app_assoc, <- Hip. set_solver.
    - split; [done|cbn; by rewrite Hp|done]. }
  assert (Hempty : file_bytes (w_heap w3) (Held p) = []).
  { change (file_bytes (<[a := OLog l']> (w_heap w1)) (Held p) = []). cbn [file_bytes].
    rewrite lookup_insert_ne by done. by apply (created_empty bs newFile Hnew w w1 p name). }
  assert (Hlen3 : length (md_DataFiles (bf_meta bf3)) = S (length (md_DataFiles (bf_meta bf)))).
  { change (bf_meta bf3) with (bf_meta (listing bf p name)). rewrite Hm1, Hm. cbn. rewrite !entries_length, !length_app. cbn. lia. }
  split; [done|]. split; [done|]. split; [apply HC; set_solver|]. split; [done|]. split; [done|]. split; [done|].
  assert (Hpast : w_past w3 = w_past w ++ [disk_of w1; disk_of w2; disk_of w3]) by (cbn; by rewrite (cr_past _ _ _ _ _ _ Hcr), <- !app_assoc).
  pose proof (created_disks w w1 p name (bf_nextSeq bf) pts pls a N C c blobs2 Hf Hcr Hpn ltac:(lia) Hc
    ltac:(by rewrite Hsv, Hm) Hbl (Hload blobs2 (lookup_insert_eq _ _ _))) as Hdisks.
  split.
  - intros Hnf. exists [disk_of w1; disk_of w2; disk_of w3]. split; [done|]. constructor; [|constructor; [|constructor; [|constructor]]].
    + apply Hdisks; [by left|done].
    + apply Hdisks; [by right; left|done].
    + apply (device_described bs nb Hbs Hnb w3 bf3 c); [by exists pts, (pls ++ [a]), p, N', C'| |].
      * rewrite Hlen3, Hm. cbn. rewrite entries_length. lia.
      * change (active_file w3 bf3) with (file_bytes (w_heap w3) (Held p)). by rewrite Hempty.
  - exists (disk_of w1), (disk_of w2), (disk_of w3). split; [done|]. intros b0 ws c' d Hb Hc' Hd.
    destruct (Hdisks d Hd) as [_ Hcut]. by apply (Hcut b0 ws c').
Qed.
End rotate.
