(* ===== verification/DeviceCompact.v ===== *)
(** * Compaction

    [BlockFile.compactPendingWriters] and [compaction.go]: the logs that wait to
    be compacted and the live blocks of tables of low utilisation are written to
    a new table, which replaces them. The contents stay the same, on the device
    and on the storage at every moment. *)
From S2P Require Import Prelude Radix Bits RangeMap ExtentRangeMap BlockReader StackedBlockReader BlockMap BlockMapLive.
From S2P Require Import BlockMapTheorems GoStd Adaptor WalIndex WalFormat WalWriter WalTheorems WriteLog WriteLogState.
From S2P Require Import SparseBuilder SparseReader SparseBuildFrom WaitBarrier Tracker TrackerWriter.
From S2P Require Import DataFile Storage Metadata Decimal Device DeviceInv DeviceDisk DeviceClose.
From Stdlib Require PrimFloat.
From stdpp Require Import strings functions sorting list.
Local Open Scope Z_scope.

(** ** Lists *)
Lemma top_owner_filter {R} `{!EqDecision R} (C : R -> content) (U l : list R) k :
  (forall r, r ∈ U -> top_owner C l k <> Some r) -> top_owner C (filter (fun r => r ∉ U) l) k = top_owner C l k.
Proof.
  induction l as [|r l IH]; intros HU; [done|]. rewrite filter_cons. cbn [top_owner] in *. case_bool_decide as Hr.
  - rewrite decide_True; [cbn; by rewrite bool_decide_eq_true_2|]. intros Hin. by apply (HU r).
  - case_decide; cbn; [rewrite bool_decide_eq_false_2 by done|]; by apply IH.
Qed.

Lemma filter_reverse {A} (P : A -> Prop) `{!forall x, Decision (P x)} (l : list A) :
  filter P (reverse l) = reverse (filter P l).
Proof.
  induction l as [|x l IH]; [done|]. rewrite reverse_cons, filter_app, IH, !filter_cons.
  case_decide; [by rewrite reverse_cons|by rewrite app_nil_r].
Qed.

Section compact.
Context {F : Type} `{!LogFile F} `{!LogFileLaws F} `{!Closer F} `{!CloserLaws F} `{!WalCodec} `{!WalCodecLaws}.
Context {T : Type} `{!RadixTree item it_key T} `{!RadixTreeLaws item it_key T}.
Context {G : Type} `{!Closer G}.
Context `{!HeaderCodec} `{!HeaderCodecLaws} `{!TruncatedReader} `{!TruncatedReaderLaws}.
Context `{!MetadataCodec} `{!MetadataCodecLaws}.
Context {M : Type} `{!RangeMap Z M} `{!RangeMapLaws Z M} {BS : Type} `{!BitSet BS} `{!BitSetLaws BS}.
Context (bs nb : Z) (Hbs : 512 <= bs <= 1024 * 1024) (Hnb : 0 < nb < 2 ^ 28).
Implicit Types (h : gmap positive (obj F T G)) (blobs dir : directory) (logs : gmap string log_file).
Implicit Types (w : world F T G) (bf : BlockFile M BS) (C : positive -> content) (N : positive -> string).
Implicit Types (d : directory * directory) (c : content) (pts pls : list positive) (r : BlockMap.Reader positive M BS).

Abbreviation desc := (described (F := F) (T := T) (G := G) bs nb).
Abbreviation reads h := (reader_ok (BlockHoleReader0 := heap_reader h) bs nb).

(** ** The start: everything is indexed *)
Definition compacting r (a : positive) : Tracker positive M BS :=
  MkTracker bs nb [RefReader a; RefPrimary] r [] [a] true.

Lemma start_ok w t a idx pend C :
  tracker_ok bs nb t a idx pend C -> NoDup (idx ++ pend) -> Z.of_nat (length (idx ++ pend)) <= 65535 ->
  (forall p, p ∈ idx ++ pend -> reads (w_heap w) p (C p)) ->
  exists r, startCompaction w t = Ret (compacting r a) /\ index_of bs nb C r (idx ++ pend).
Proof.
  intros [[Hz1 Hz2] Hst Hw Hp Hi [Hwf Hrs Ho]] Hnd Hlen Hrd. destruct t as [z n st ix pd wr cs]. cbn in *. subst.
  unfold startCompaction. cbn [tk_pendingReaders]. destruct (decide (pend = [])) as [->|Hne].
  { rewrite app_nil_r, reverse_nil, bool_decide_eq_true_2 by done. cbn. exists ix. split; [done|]. by split. }
  rewrite bool_decide_eq_false_2 by (intros E; apply Hne; rewrite <- (reverse_involutive pend), E; done). unfold mergeReaders. cbn [tk_pendingReaders tk_primaryIndex].
  unfold merge_order. rewrite reverse_involutive.
  destruct (push_all_ok (BlockHoleReader0 := heap_reader (w_heap w)) bs nb ltac:(lia) ltac:(lia) C pend ix) as
    (r & -> & Hwf' & Hrs' & Ho'); [done|done|done| |].
  { apply Forall_forall. intros p Hin. apply Hrd. set_solver. }
  cbn [mbind outcome_bind]. unfold merge_finish. cbn [set_primaryIndex tk_pendingReaders].
  rewrite Prelude.filter_none by (by intros x Hx Hn). exists r. split; [done|]. split; [done|done|].
  intros k. by rewrite Ho', Ho, reverse_app, top_owner_app.
Qed.

(** ** Choosing tables *)
Definition kinds h pts pls : Prop :=
  (forall p, p ∈ pts -> exists x, h !! p = Some (OTable x) /\ is_Some (df_sf x)) /\
  (forall p, p ∈ pls -> exists l, h !! p = Some (OLog l)).

Lemma compact_candidates_ok h u pts pls l :
  kinds h pts pls -> NoDup l.*1 -> (forall e, e ∈ l -> exists p, p ∈ pts ++ pls /\ e.1 = Some p) ->
  exists cis, compact_candidates h bs u l = Ret cis /\ NoDup (ci_df <$> cis) /\
    forall p, p ∈ ci_df <$> cis -> p ∈ pts /\ Some p ∈ l.*1.
Proof.
  intros [Ht Hl]. induction l as [|[key n] l IH]; intros Hnd He; cbn [compact_candidates].
  { exists []. split; [done|]. split; [constructor|]. by intros p ?%elem_of_nil. }
  apply NoDup_cons in Hnd as [Hkey Hnd].
  destruct IH as (cis & -> & Hndc & Hin); [done|intros; apply He; by right|].
  destruct (He (key, n)) as (p & Hp & [= ->]); [by left|]. unfold compact_candidate.
  assert (Hkeep : exists cis0, Ret cis = Ret cis0 /\ NoDup (ci_df <$> cis0) /\
    forall q, q ∈ ci_df <$> cis0 -> q ∈ pts /\ Some q ∈ ((Some p, n) :: l).*1).
  { exists cis. split; [done|]. split; [done|]. intros q [? ?]%Hin. split; [done|]. by right. }
  apply elem_of_app in Hp as [Hp|Hp].
  - destruct (Ht p Hp) as (x & -> & [sf Hsf]). unfold df_DataSize. rewrite Hsf. cbn [of_option mbind outcome_bind].
    destruct (PrimFloat.ltb _ _); [done|]. destruct (n =? 0); [done|]. cbn [mbind outcome_bind].
    eexists. split; [done|]. rewrite fmap_cons. cbn [ci_df]. split.
    + constructor; [|done]. by intros [_ ?]%Hin.
    + intros q [->|Hq]%elem_of_cons; [split; [done|by left]|]. apply Hin in Hq as [? ?]. split; [done|]. by right.
  - destruct (Hl p Hp) as (x & ->). done.
Qed.

Lemma choose_tables_take cis a b : exists n, choose_tables cis a b = take n (ci_df <$> cis).
Proof.
  revert a. induction cis as [|ci cis IH]; intros a; [by exists 0%nat|]. cbn [choose_tables].
  destruct (_ <? _); [by exists 1%nat|]. destruct (IH (i64 (a + ci_liveBytes ci))) as [n ->]. by exists (S n).
Qed.

(** The reader of the chosen tables [sel], if there is one. *)
Definition chosen r (sel : list positive) (cr : option (BlockMap.Reader positive M BS)) : Prop :=
  match cr with
  | None => sel = []
  | Some r' => bm_wf bs nb r' /\ rs r' = sel /\ forall k p, owner r' k = Some p <-> owner r k = Some p /\ p ∈ sel
  end.

Section order.
Context (map_order : gmap (option positive) Z -> list (option positive * Z)).
Context (Horder : forall m, map_order m ≡ₚ map_to_list m).

Lemma live_map C r l :
  index_of bs nb C r l ->
  exists lb, GetLiveBlocks r = Ret lb /\ NoDup (map_order lb).*1 /\
    forall e, e ∈ map_order lb <-> exists p, p ∈ l /\ e = (Some p, live_count nb r p).
Proof.
  intros [Hwf Hrs _]. destruct (GetLiveBlocks_ok bs nb ltac:(lia) r Hwf) as (lb & E & Hlb). exists lb.
  split; [done|]. split.
  - rewrite (Horder lb). apply NoDup_fst_map_to_list.
  - intros [key n]. rewrite (Horder lb), elem_of_map_to_list, Hlb, Hrs. destruct key as [p|].
    + case_bool_decide as Hp; [|by split; [|intros (q & Hq & [= -> _])]].
      split; [intros [= <-]; eauto|]. by intros (q & _ & [= -> ->]).
    + by split; [|intros (q & _ & [=])].
Qed.

Lemma BuildCompactionReader_ok h C r a pts pls u max :
  kinds h pts pls -> index_of bs nb C r (pts ++ pls) ->
  exists sel cr, BuildCompactionReader map_order h (compacting r a) bs u max = Ret cr /\
    NoDup sel /\ (forall p, p ∈ sel -> p ∈ pts) /\ chosen r sel cr.
Proof.
  intros Hk Hix. destruct (live_map C r _ Hix) as (lb & E & Hnd & Hlb). unfold BuildCompactionReader, cs_LiveBlocks.
  cbn [compacting tk_primaryIndex]. rewrite E. cbn [mbind outcome_bind].
  destruct (compact_candidates_ok h u pts pls (map_order lb) Hk Hnd) as (cis & -> & Hndc & Hin).
  { intros e (p & Hp & ->)%Hlb. by exists p. }
  cbn [mbind outcome_bind]. case_bool_decide as Hemp.
  { exists [], None. split; [done|]. split; [constructor|]. by split; [intros p ?%elem_of_nil|]. }
  destruct (choose_tables_take (merge_sort by_liveBytes cis) 0 max) as [n En]. rewrite En.
  set (sel := take n _).
  assert (Hperm : ci_df <$> merge_sort by_liveBytes cis ≡ₚ ci_df <$> cis) by (by rewrite merge_sort_Permutation).
  assert (Hsel : forall p, p ∈ sel -> p ∈ pts).
  { intros p Hp. apply Hin. rewrite <- Hperm. by eapply subseteq_take. }
  assert (Hnds : NoDup sel).
  { eapply sublist_NoDup; [|apply sublist_take]. by rewrite Hperm. }
  destruct (ReaderForLiveBytes_ok bs nb ltac:(lia) ltac:(lia) r sel) as (r' & Er & Hwf & Hrs & Ho); [apply Hix|done| |].
  { apply Forall_forall. intros p Hp. rewrite (ix_rs _ _ _ _ _ Hix). apply elem_of_app. left. auto. }
  unfold cs_LiveBytesReader. cbn [compacting tk_primaryIndex]. rewrite Er. cbn [mbind outcome_bind].
  exists sel, (Some r'). by split.
Qed.
End order.

(** ** Building the table *)

(** The live blocks of the chosen tables. *)
Definition live_of C (cr : option (BlockMap.Reader positive M BS)) : content :=
  match cr with Some r' => bm_content C r' | None => fun _ => None end.

Lemma live_of_ok C r pts pls sel cr k :
  index_of bs nb C r (pts ++ pls) -> chosen r sel cr -> live_of C cr k = live_content C (pts ++ pls) sel k.
Proof.
  intros [_ _ Ho] Hch. unfold live_content. rewrite <- fmap_reverse, top_owner_content, <- Ho.
  destruct cr as [r'|]; cbn in Hch.
  - destruct Hch as (_ & _ & Hch). unfold live_of, bm_content. destruct (owner r k) as [p|] eqn:Ep.
    + case_bool_decide as Hp; [by rewrite (proj2 (Hch k p))|].
      destruct (owner r' k) as [q|] eqn:Eq; [|done]. apply Hch in Eq as [? ?]. congruence.
    + destruct (owner r' k) as [q|] eqn:Eq; [|done]. apply Hch in Eq as [? ?]. congruence.
  - subst sel. cbn. by destruct (owner r k).
Qed.

(** What is read for the new table. *)
Definition sources (cr : option (BlockMap.Reader positive M BS)) pls : list (option positive) :=
  match cr with Some _ => [None] | None => [] end ++ (Some <$> pls).

Definition source_content C (cr : option (BlockMap.Reader positive M BS)) (q : option positive) : content :=
  match q with Some p => C p | None => live_of C cr end.

Lemma sources_content C cr pls k :
  overlay (source_content C cr <$> reverse (sources cr pls)) k = compacted_content C pls (live_of C cr) k.
Proof.
  unfold sources, compacted_content. rewrite reverse_app, fmap_app, !overlay_app.
  assert (source_content C cr <$> reverse (Some <$> pls) = reverse (C <$> pls)) as ->
    by (by rewrite fmap_reverse, <- list_fmap_compose).
  destruct (overlay (reverse (C <$> pls)) k) as [b|]; [done|]. rewrite overlay_single. destruct cr; [apply overlay_single|done].
Qed.

Lemma sources_read h C r sel cr pts pls q :
  chosen r sel cr -> index_of bs nb C r (pts ++ pls) -> (forall p, p ∈ sel -> p ∈ pts) ->
  (forall p, p ∈ pts ++ pls -> reads h p (C p)) -> q ∈ sources cr pls ->
  reader_ok (BlockHoleReader0 := compaction_sources h cr) bs nb q (source_content C cr q).
Proof.
  intros Hch Hix Hsel Hrd Hq. unfold sources in Hq. apply elem_of_app in Hq as [Hq|(p & -> & Hp)%list_elem_of_fmap].
  - destruct cr as [r'|]; [|by apply elem_of_nil in Hq]. apply list_elem_of_singleton in Hq as ->. destruct Hch as (Hwf & Hrs & Ho).
    destruct (bm_reader_ok (BlockHoleReader0 := heap_reader h) bs nb C r') as [Hz Hr Hd Hh Hrr]; [lia|lia|done| | |by split].
    + intros k p [Hk _]%Ho. rewrite (ix_owner _ _ _ _ _ Hix) in Hk. by apply top_owner_Some in Hk as [_ ?].
    + intros p. rewrite Hrs. intros Hp. apply Hrd, elem_of_app. left. auto.
  - destruct (Hrd p) as [Hz Hr Hd Hh Hrr]; [set_solver|]. by split.
Qed.

Lemma build_table h C r sel cr pts pls :
  chosen r sel cr -> index_of bs nb C r (pts ++ pls) -> (forall p, p ∈ sel -> p ∈ pts) ->
  (forall p, p ∈ pts ++ pls -> reads h p (C p)) -> NoDup (pts ++ pls) -> Z.of_nat (length (pts ++ pls)) < 65535 ->
  (exists k, is_Some (compacted_content C pls (live_of C cr) k)) ->
  let HS : BlockHoleReader (option positive) := compaction_sources h cr in
  exists (ir : BlockMap.Reader (option positive) M BS) n tbl,
    push_all (BlockMap.NewReader bs nb) (sources cr pls) = Ret ir /\ LiveBlocks ir = Ret n /\
    BuildFromReader (S (Z.to_nat nb)) (NewHoleReader ir bs) bs 0 = Ret (tbl, None) /\
    table_loads bs nb tbl (compacted_content C pls (live_of C cr)).
Proof.
  intros Hch Hix Hsel Hrd Hnd Hlen [k0 Hk0] HS. set (K := compacted_content C pls (live_of C cr)).
  assert (Hall : Forall (fun q => reader_ok bs nb q (source_content C cr q)) (sources cr pls)).
  { apply Forall_forall. intros q Hq. by eapply (sources_read h C r sel cr pts pls). }
  destruct (push_all_ok bs nb ltac:(lia) ltac:(lia) (source_content C cr) (sources cr pls)
              (BlockMap.NewReader bs nb : BlockMap.Reader (option positive) M BS)) as (ir & E & Hwf & Hrs & Ho);
    [by apply NewReader_wf; lia| | |done|].
  { cbn [rs BlockMap.NewReader app]. apply NoDup_app. split; [destruct cr; repeat constructor; set_solver|]. split.
    - intros q Hq (p & -> & _)%list_elem_of_fmap. destruct cr; set_solver.
    - apply NoDup_fmap_2; [by intros ?? [=]|]. by apply NoDup_app in Hnd as (_ & _ & ?). }
  { cbn [rs BlockMap.NewReader app]. unfold sources. rewrite length_app, length_fmap. rewrite length_app in Hlen.
    destruct cr; cbn; lia. }
  assert (Hir : reader_ok bs nb ir K).
  { assert (Hown : forall k, owner ir k = top_owner (source_content C cr) (reverse (sources cr pls)) k).
    { intros k. rewrite Ho, NewReader_owner. by destruct (top_owner _ _ _). }
    apply (reader_ok_ext bs nb ir (bm_content (source_content C cr) ir)).
    - intros k. unfold bm_content. by rewrite Hown, <- top_owner_content, sources_content.
    - apply bm_reader_ok; [lia|lia|done| |].
      + intros k q. rewrite Hown. by intros (_ & ?)%top_owner_Some.
      + intros q. rewrite Hrs. cbn [rs BlockMap.NewReader app]. rewrite Forall_forall in Hall. apply Hall. }
  exists ir. eexists.
  destruct (build_from_reader_ok bs nb ltac:(lia) ltac:(lia) ltac:(unfold MaxInt64; nia) (NewHoleReader ir bs) K
              (hole_adaptor_contract bs nb ltac:(lia) ir K Hir) (S (Z.to_nat nb)) false) as (tbl & sf & Eb & El & Hok & Est).
  { lia. }
  { unfold block_count. split.
    - destruct (filter _ _) as [|x l'] eqn:Ef; [|cbn; lia]. exfalso.
      assert (k0 ∈ filter (fun k => is_Some (K k)) (seqZ 0 nb)) as Hin; [|by rewrite Ef in Hin; apply elem_of_nil in Hin].
      apply list_elem_of_filter. split; [done|]. apply elem_of_seqZ. by apply (ok_range _ _ _ _ Hir).
    - pose proof (length_filter (fun k => is_Some (K k)) (seqZ 0 nb)) as Hl. rewrite length_seqZ in Hl. lia. }
  exists tbl. split; [done|]. split; [by apply (LiveBlocks_ok bs nb); [lia|]|]. split; [done|]. by exists sf.
Qed.

(** ** The index with the new table *)
Lemma index_push h C r l p c :
  index_of bs nb C r l -> (p ∉ l) -> Z.of_nat (length l) < 65535 -> reads h p c ->
  exists r', PushReader (BlockHoleReader0 := heap_reader h) r p = Ret r' /\ index_of bs nb (<[p := c]> C) r' (l ++ [p]) /\
    forall k, owner r' k = if bool_decide (is_Some (c k)) then Some p else owner r k.
Proof.
  intros [Hwf Hrs Ho] Hp Hlen Hrd.
  destruct (PushReader_ok (BlockHoleReader0 := heap_reader h) bs nb ltac:(lia) ltac:(lia) r p c) as (r' & E & Hwf' & Hrs' & Ho');
    [done|by rewrite Hrs|by rewrite Hrs|done|].
  exists r'. split; [done|]. split; [|done]. split; [done|by rewrite Hrs', Hrs|]. intros k. rewrite Ho', Ho, reverse_snoc. cbn.
  rewrite fn_lookup_insert. case_bool_decide; [done|]. apply top_owner_ext. intros q Hq. rewrite elem_of_reverse in Hq.
  symmetry. apply fn_lookup_insert_ne. by intros ->.
Qed.

(** Readers that own no block. *)
Definition unused_in r (U l : list positive) : Prop :=
  NoDup U /\ forall p, p ∈ U <-> p ∈ l /\ forall k, owner r k <> Some p.

Lemma index_remove C r l U :
  index_of bs nb C r l -> unused_in r U l ->
  exists r', remove_all r U = Ret r' /\ index_of bs nb C r' (filter (fun p => p ∉ U) l) /\ forall k, owner r' k = owner r k.
Proof.
  intros [Hwf Hrs Ho] [Hnd HU].
  destruct (remove_all_ok bs nb ltac:(lia) ltac:(lia) C U r) as
    (r' & E & Hwf' & Hrs' & Ho'); [done|done| |].
  { apply Forall_forall. intros p Hp. rewrite Hrs. by apply HU. }
  exists r'. split; [done|]. split; [|done]. split; [done|by rewrite Hrs', Hrs|]. intros k. rewrite Ho', Ho.
  rewrite <- filter_reverse. symmetry. apply top_owner_filter. intros p Hp. rewrite <- Ho. by apply HU.
Qed.

(** With the new table on top, no log owns a block; the table owns one. *)
Section replaced.
Context (C : positive -> content) (r r2 : BlockMap.Reader positive M BS) (sel pts pls : list positive) (cr : option (BlockMap.Reader positive M BS)) (p : positive).
Context (Hix : index_of bs nb C r (pts ++ pls)) (Hch : chosen r sel cr).
Let K : content := compacted_content C pls (live_of C cr).
Context (Ho2 : forall k, owner r2 k = if bool_decide (is_Some (K k)) then Some p else owner r k).
Context (Hp : p ∉ pts ++ pls).

Lemma replaced_sound k b : K k = Some b -> overlay (C <$> reverse (pts ++ pls)) k = Some b.
Proof.
  intros Hk. rewrite fmap_reverse. eapply compacted_sound; [|exact Hk]. intros j. by eapply live_of_ok.
Qed.

Lemma replaced_logs q k : q ∈ pls -> owner r2 k <> Some q.
Proof.
  intros Hq. rewrite Ho2. case_bool_decide as Hk; [intros [= ->]; set_solver|]. intros Hown. apply Hk.
  rewrite (ix_owner _ _ _ _ _ Hix) in Hown. eapply (compacted_covers _ _ _ sel); [|exact Hown|set_solver].
  intros j. by eapply live_of_ok.
Qed.

Lemma replaced_table : (exists k, is_Some (K k)) -> exists k, owner r2 k = Some p.
Proof. intros [k Hk]. exists k. by rewrite Ho2, bool_decide_eq_true_2. Qed.

(** What is left of the readers, and what they serve. *)
Lemma replaced_left (U : list positive) :
  unused_in r2 U ((pts ++ pls) ++ [p]) -> (exists k, is_Some (K k)) ->
  filter (fun q => q ∉ U) ((pts ++ pls) ++ [p]) = filter (fun q => q ∉ U) pts ++ [p].
Proof.
  intros [_ HU] Hne. rewrite !filter_app. rewrite (Prelude.filter_none _ pls), app_nil_r.
  - f_equal. apply Prelude.filter_all. intros q ->%list_elem_of_singleton [_ Hn]%HU.
    destruct (replaced_table Hne) as [k Hk]. by apply (Hn k).
  - intros q Hq Hn. apply Hn, HU. split; [set_solver|]. intros k. by apply replaced_logs.
Qed.

Lemma replaced_layers (U : list positive) (a : positive) k :
  unused_in r2 U ((pts ++ pls) ++ [p]) -> (exists k, is_Some (K k)) -> a <> p ->
  index_of bs nb (<[p := K]> C) r2 ((pts ++ pls) ++ [p]) ->
  layers (<[p := K]> C) (filter (fun q => q ∉ U) pts ++ [p]) [] a k = layers C pts pls a k.
Proof.
  intros HU Hne Hap Hix2. unfold layers. rewrite !fmap_cons, fn_lookup_insert_ne by done. cbn [overlay].
  destruct (C a k); [done|]. rewrite app_nil_r, <- replaced_left by done. destruct HU as [_ HU].
  rewrite <- filter_reverse, top_owner_content, top_owner_filter.
  2:{ intros q Hq. rewrite <- (ix_owner _ _ _ _ _ Hix2). by apply HU. }
  rewrite <- (ix_owner _ _ _ _ _ Hix2), Ho2. case_bool_decide as Hk.
  - destruct Hk as [b Hb]. cbn. rewrite fn_lookup_insert, Hb. symmetry. by apply replaced_sound.
  - rewrite top_owner_content, <- (ix_owner _ _ _ _ _ Hix). destruct (owner r k) as [q|] eqn:Eq; [|done]. cbn.
    rewrite fn_lookup_insert_ne; [done|]. intros ->.
    rewrite (ix_owner _ _ _ _ _ Hix) in Eq. apply top_owner_Some in Eq as [Eq _]. by rewrite elem_of_reverse in Eq.
Qed.
End replaced.
End compact.
