(* ===== verification/DeviceReplace.v ===== *)
(** * Replacing files

    The end of a compaction, [BlockFile.removeUnusedTables]: the readers that own
    no block of the index are removed from the index and from the metadata, and
    then closed and deleted. *)
From S2P Require Import Prelude Radix Bits RangeMap ExtentRangeMap BlockReader StackedBlockReader BlockMap BlockMapLive.
From S2P Require Import BlockMapTheorems GoStd Adaptor WalIndex WalFormat WalWriter WalTheorems WriteLog WriteLogState.
From S2P Require Import SparseBuilder SparseReader SparseBuildFrom WaitBarrier Tracker TrackerWriter.
From S2P Require Import DataFile Storage Metadata Decimal Device DeviceInv DeviceDisk DeviceClose DeviceCompact.
From stdpp Require Import strings functions sorting list.
Local Open Scope Z_scope.

(** The readers of a list of live blocks that have none. *)
Definition dead {A} (l : list (option A * Z)) : list A := omap (fun e => if 0 <? e.2 then None else e.1) l.

Lemma elem_of_dead {A} (l : list (option A * Z)) p : p ∈ dead l <-> exists n, (Some p, n) ∈ l /\ n <= 0.
Proof.
  unfold dead. rewrite list_elem_of_omap. split.
  - intros ([key n] & Hin & E). cbn in E. destruct (Z.ltb_spec 0 n); [done|]. subst. eauto.
  - intros (n & Hin & Hn). exists (Some p, n). split; [done|]. cbn. by rewrite (proj2 (Z.ltb_ge _ _)).
Qed.

Lemma dead_NoDup {A} (l : list (option A * Z)) : NoDup l.*1 -> NoDup (dead l).
Proof.
  induction l as [|[key n] l IH]; intros Hnd; [constructor|]. apply NoDup_cons in Hnd as [Hkey Hnd]. cbn.
  destruct (0 <? n); [by apply IH|]. destruct key as [p|]; [|by apply IH]. constructor; [|by apply IH].
  intros (m & Hin & _)%elem_of_dead. apply Hkey, list_elem_of_fmap. by exists (Some p, m).
Qed.

Lemma fold_delete {A} `{!EqDecision A} (xs es : list A) :
  NoDup es -> fold_left (fun es x => delete_first x es) xs es = filter (fun e => e ∉ xs) es.
Proof.
  revert es. induction xs as [|x xs IH]; intros es Hnd; cbn.
  { symmetry. apply Prelude.filter_all. by intros e _ ?%elem_of_nil. }
  rewrite delete_first_filter, IH by (done || by apply NoDup_filter). rewrite list_filter_filter.
  apply Prelude.filter_ext. intros e _. rewrite elem_of_cons. tauto.
Qed.

Section replace.
Context {F : Type} `{!LogFile F} `{!LogFileLaws F} `{!Closer F} `{!CloserLaws F} `{!WalCodec} `{!WalCodecLaws}.
Context {T : Type} `{!RadixTree item it_key T} `{!RadixTreeLaws item it_key T}.
Context {G : Type} `{!Closer G}.
Context `{!HeaderCodec} `{!HeaderCodecLaws} `{!TruncatedReader} `{!TruncatedReaderLaws}.
Context `{!MetadataCodec} `{!MetadataCodecLaws}.
Context {M : Type} `{!RangeMap Z M} `{!RangeMapLaws Z M} {BS : Type} `{!BitSet BS} `{!BitSetLaws BS}.
Context (bs nb : Z) (Hbs : 512 <= bs <= 1024 * 1024) (Hnb : 0 < nb < 2 ^ 28).
Implicit Types (h : gmap positive (obj F T G)) (blobs dir : directory) (logs : gmap string log_file).
Implicit Types (w : world F T G) (bf : BlockFile M BS) (C : positive -> content) (N : positive -> string).
Implicit Types (d : directory * directory) (c : content) (pts pls U : list positive) (r : BlockMap.Reader positive M BS).

Abbreviation desc := (described (F := F) (T := T) (G := G) bs nb).

(** ** The index and the metadata *)
Definition file_entry h (p : positive) : DataFilePb :=
  match h !! p with
  | Some (OTable x) => MkDataFilePb SPARSE_TABLE (df_name x)
  | Some (OLog l) => MkDataFilePb WRITE_LOG (wl_name l)
  | None => MkDataFilePb UNSPECIFIED ""
  end.

Lemma remove_unused_ok h l : forall (t : Tracker positive M BS) meta unused r',
  (forall e, e ∈ l -> exists p, e.1 = Some p /\ is_Some (h !! p)) ->
  remove_all (tk_primaryIndex t) (dead l) = Ret r' ->
  remove_unused h l t meta unused =
  Ret (set_primaryIndex t r',
       set_DataFiles meta (fold_left (fun es x => delete_first x es) (file_entry h <$> dead l) (md_DataFiles meta)),
       unused ++ dead l).
Proof.
  induction l as [|[key n] l IH]; intros t meta unused r' He Hr.
  { cbn in *. injection Hr as <-. rewrite app_nil_r. by destruct t, meta. }
  destruct (He (key, n)) as (p & [= ->] & [o Ho]); [by left|]. cbn [remove_unused]. cbn [dead omap list_omap fst snd] in *.
  destruct (0 <? n) eqn:En; [apply IH; [intros; apply He; by right|done]|].
  cbn [remove_all] in Hr. apply bind_Ret in Hr as (r1 & Er & Hr).
  cbn [of_option mbind outcome_bind]. unfold cs_RemoveUnusedReader. rewrite Er. cbn [mbind outcome_bind].
  rewrite Ho. cbn [of_option mbind outcome_bind]. rewrite (IH _ _ _ r'); [|intros; apply He; by right|done].
  rewrite fmap_cons, <- app_assoc. cbn [fold_left].
  assert (file_entry h p = match o with OTable x => MkDataFilePb SPARSE_TABLE (df_name x)
    | OLog wl => MkDataFilePb WRITE_LOG (wl_name wl) end) as -> by (unfold file_entry; by rewrite Ho).
  by destruct o as [wl|x].
Qed.

(** The metadata of a compaction: the entry of the last log becomes that of the
    table, and the entries of the unused files go. *)
Lemma compact_entries h N pts pls0 last a p name U :
  NoDup (N <$> pts) -> NoDup (N <$> (pls0 ++ [last]) ++ [a]) -> (p ∉ pts ++ (pls0 ++ [last]) ++ [a]) ->
  (name ∉ N <$> pts) -> (a ∉ U) -> (p ∉ U) ->
  (forall q, q ∈ U -> q ∈ pts ++ (pls0 ++ [last])) -> (forall q, q ∈ pls0 -> q ∈ U) ->
  (forall q, q ∈ pts -> file_entry h q = MkDataFilePb SPARSE_TABLE (N q)) ->
  (forall q, q ∈ pls0 ++ [last] -> file_entry h q = MkDataFilePb WRITE_LOG (N q)) ->
  filter (fun e => e ∉ file_entry h <$> U)
    (md_DataFiles (CompactWriteLog (meta_of bs nb N pts ((pls0 ++ [last]) ++ [a])) (N last) name)) =
  entries (<[p := name]> N) (filter (fun q => q ∉ U) pts ++ [p]) [a] /\
  NoDup (md_DataFiles (CompactWriteLog (meta_of bs nb N pts ((pls0 ++ [last]) ++ [a])) (N last) name)).
Proof.
  intros Hn1 Hn2 Hp Hname Ha HpU HU Hpls Het Hel.
  set (es := md_DataFiles _).
  assert (es = (MkDataFilePb SPARSE_TABLE <$> (N <$> pts)) ++ (MkDataFilePb WRITE_LOG <$> (N <$> pls0)) ++
               [MkDataFilePb SPARSE_TABLE name; MkDataFilePb WRITE_LOG (N a)]) as ->.
  { unfold es, CompactWriteLog, meta_of, entries. cbn [md_DataFiles set_DataFiles]. rewrite !fmap_app, !app_assoc.
    change (MkDataFilePb WRITE_LOG <$> (N <$> [last])) with [MkDataFilePb WRITE_LOG (N last)].
    rewrite <- (app_assoc _ [MkDataFilePb WRITE_LOG (N last)]). cbn [app]. rewrite replace_first_app; [done|].
    rewrite elem_of_app. intros [(n & [=] & _)%list_elem_of_fmap|(n & [= <-] & (q & E & Hq)%list_elem_of_fmap)%list_elem_of_fmap].
    assert (last = q) as -> by (eapply (NoDup_fmap_inj N _ _ _ Hn2); [set_solver|set_solver|done]).
    rewrite !fmap_app in Hn2. apply NoDup_app in Hn2 as [(_ & Hd & _)%NoDup_app _]. apply (Hd (N q)); [|by left].
    apply list_elem_of_fmap. eauto. }
  assert (Hkept : forall q, q ∈ pts -> (q ∉ U) -> MkDataFilePb SPARSE_TABLE (N q) ∉ (file_entry h <$> U)).
  { intros q Hq HqU (u & E & Hu)%list_elem_of_fmap. pose proof (HU u Hu) as [Hut|Hul]%elem_of_app.
    - rewrite Het in E by done. injection E as E. by rewrite (NoDup_fmap_inj N pts q u) in HqU by done.
    - by rewrite Hel in E by done. }
  split.
  - rewrite !filter_app, !filter_fmap. rewrite (Prelude.filter_ext _ (fun q => q ∉ U) pts); last first.
    { intros q Hq. split; [|by auto]. intros Hn HqU. apply Hn, list_elem_of_fmap. exists q. by rewrite Het. }
    rewrite (Prelude.filter_none _ pls0); last first.
    { intros q Hq Hn. apply Hn, list_elem_of_fmap. exists q. rewrite Hel by set_solver. auto. }
    rewrite (Prelude.filter_all _ [MkDataFilePb SPARSE_TABLE name; _]); last first.
    { intros e He (u & -> & Hu)%list_elem_of_fmap. pose proof (HU u Hu) as [Hut|Hul]%elem_of_app.
      - rewrite Het in He by done. apply elem_of_cons in He as [[= E]|[[=]|?%elem_of_nil]%elem_of_cons]; [|done].
        apply Hname, list_elem_of_fmap. eauto.
      - rewrite Hel in He by done. apply elem_of_cons in He as [[=]|[[= E]|?%elem_of_nil]%elem_of_cons]; [|done].
        by rewrite (NoDup_fmap_inj N _ u a Hn2) in Hu by (done || set_solver). }
    unfold entries. rewrite !(fmap_app (<[p := name]> N)), fmap_app, <- app_assoc. f_equal.
    + rewrite fmap_insert_notin; [done|]. intros [_ Hq]%list_elem_of_filter. set_solver.
    + cbn. rewrite fn_lookup_insert, fn_lookup_insert_ne; [done|]. set_solver.
  - rewrite !fmap_app in Hn2. apply NoDup_app in Hn2 as ((Hn2 & _ & _)%NoDup_app & Hd & _).
    apply NoDup_app. split; [by apply NoDup_fmap_2; [intros ?? [=]|]|]. split; [|apply NoDup_app; split; [by apply NoDup_fmap_2; [intros ?? [=]|]|split]].
    + intros e (n & -> & Hn)%list_elem_of_fmap [(m & [=] & _)%list_elem_of_fmap|[[= ->]|[[=]|?%elem_of_nil]%elem_of_cons]%elem_of_cons]%elem_of_app; done.
    + intros e (n & -> & Hn)%list_elem_of_fmap [[=]|[[= ->]|?%elem_of_nil]%elem_of_cons]%elem_of_cons; [|done].
      apply (Hd (N a)); [set_solver|by left].
    + constructor; [|apply NoDup_singleton]. by intros [=]%list_elem_of_singleton.
Qed.

(** ** Deleting the files *)
Definition deletable h (tn ln : list string) (p : positive) : Prop :=
  (exists x, h !! p = Some (OTable x) /\ is_Some (df_sf x) /\ df_name x ∈ tn) \/
  (exists l l' err, h !! p = Some (OLog l) /\ wl_Close l = Ret (l', err) /\ wl_name l' ∈ ln).

(** Nothing has changed but the objects [U] and the files named. *)
Record same_but (U : list positive) (tn ln : list string) w w' : Prop := {
  sb_heap p : (p ∉ U) -> w_heap w' !! p = w_heap w !! p;
  sb_blobs n : (n ∉ tn) -> w_blobs w' !! n = w_blobs w !! n;
  sb_logs n : (n ∉ ln) -> w_logs w' !! n = w_logs w !! n;
}.

Lemma same_but_refl U tn ln w : same_but U tn ln w w.
Proof. by split. Qed.

Lemma same_but_trans U tn ln w1 w2 w3 : same_but U tn ln w1 w2 -> same_but U tn ln w2 w3 -> same_but U tn ln w1 w3.
Proof. intros [Ha1 Hb1 Hc1] [Ha2 Hb2 Hc2]. split; intros x Hx; [by rewrite Ha2, Ha1|by rewrite Hb2, Hb1|by rewrite Hc2, Hc1]. Qed.

Lemma dir_Remove_other dir n m : m <> n -> (dir_Remove dir n).1 !! m = dir !! m.
Proof. intros Hne. unfold dir_Remove. destruct (dir !! n); [|done]. by apply lookup_delete_ne. Qed.

Lemma delete_file_ok w p (U : list positive) tn ln :
  deletable (w_heap w) tn ln p -> p ∈ U ->
  exists w', delete_file w p = Ret w' /\ same_but U tn ln w w' /\ w_past w' = w_past w ++ [disk_of w'] /\
    (forall q, q <> p -> w_heap w' !! q = w_heap w !! q).
Proof.
  intros Hd Hp. unfold delete_file. destruct Hd as [(x & Hx & [sf Hsf] & Hn)|(l & l' & err & Hl & Ec & Hn)].
  - rewrite Hx. cbn [of_option mbind outcome_bind obj_Close]. unfold df_Close. rewrite Hsf. cbn [of_option mbind outcome_bind].
    destruct (c_Close (df_closer x)) as [g e]. cbn [mbind outcome_bind]. eexists. split; [done|].
    split; [split; cbn [with_blobs with_heap record w_heap w_blobs w_logs df_name]|split; [done|]].
    + intros q Hq. apply lookup_insert_ne. by intros ->.
    + intros n Hn'. apply dir_Remove_other. by intros ->.
    + done.
    + intros q Hq. by apply lookup_insert_ne.
  - rewrite Hl. cbn [of_option mbind outcome_bind obj_Close]. rewrite Ec. cbn [mbind outcome_bind].
    eexists. split; [done|]. split; [split; cbn [with_logs with_heap record w_heap w_blobs w_logs]|split; [done|]].
    + intros q Hq. apply lookup_insert_ne. by intros ->.
    + done.
    + intros n Hn'. apply lookup_delete_ne. by intros <-.
    + intros q Hq. by apply lookup_insert_ne.
Qed.

Lemma delete_files_ok (P : directory * directory -> Prop) tn ln (U0 U : list positive) : forall w,
  NoDup U -> (forall p, p ∈ U -> p ∈ U0 /\ deletable (w_heap w) tn ln p) ->
  (forall w', same_but U0 tn ln w w' -> P (disk_of w')) ->
  exists w', delete_files w U = Ret w' /\ same_but U0 tn ln w w' /\ passes P w w'.
Proof.
  induction U as [|p U IH]; intros w Hnd Hd HP; cbn [delete_files].
  { exists w. split; [done|]. split; [apply same_but_refl|]. by apply passes_refl. }
  apply NoDup_cons in Hnd as [Hp Hnd]. destruct (Hd p) as [Hp0 Hpd]; [by left|].
  destruct (delete_file_ok w p U0 tn ln Hpd Hp0) as (w1 & -> & Hsb1 & Hpast & Hother). cbn [mbind outcome_bind].
  destruct (IH w1 Hnd) as (w2 & E & Hsb2 & Hps).
  - intros q Hq. destruct (Hd q) as [Hq0 Hqd]; [by right|]. split; [done|]. unfold deletable.
    rewrite Hother; [done|]. by intros ->.
  - intros w' Hsb. apply HP. by eapply same_but_trans.
  - exists w2. split; [done|]. split; [by eapply same_but_trans|]. eapply passes_trans; [|exact Hps].
    exists [disk_of w1]. split; [done|]. apply Forall_singleton. by apply HP.
Qed.

(** ** The files that are left *)
Section left.
Context (w : world F T G) (seq : Z) (pts pls : list positive) (a p : positive) (N : positive -> string).
Context (C : positive -> content) (K : content) (U : list positive).
Context (Hf : files bs nb (w_heap w) (w_blobs w) (w_logs w) seq pts pls a N C) (Hseq : seq < 2 ^ 63).
Context (Hnew : table_at bs nb (w_heap w) (w_blobs w) p (table_name seq) K).
Context (Hp : p ∉ pts ++ pls ++ [a]) (HpU : p ∉ U) (HaU : a ∉ U).
Context (HU : forall q, q ∈ U -> q ∈ pts ++ pls).

Let left : list positive := filter (fun q => q ∉ U) pts ++ [p].
Let N2 : positive -> string := <[p := table_name seq]> N.
Let C2 : positive -> content := <[p := K]> C.
Let tn : list string := N <$> filter (fun q => q ∈ U) pts.
Let ln : list string := N <$> pls.

Lemma new_name : (table_name seq ∉ N <$> pts).
Proof.
  pose proof (fl_bound _ _ _ _ _ _ _ _ _ _ _ Hf). intros (q & E & Hq)%list_elem_of_fmap.
  destruct (fl_seq _ _ _ _ _ _ _ _ _ _ _ Hf q Hq) as (s & Es & Hs). rewrite Es in E.
  apply table_name_inj in E; lia.
Qed.

Lemma left_N q : q ∈ pts ++ pls ++ [a] -> N2 q = N q.
Proof. intros Hq. apply fn_lookup_insert_ne. by intros ->. Qed.
Lemma left_C q : q ∈ pts ++ pls ++ [a] -> C2 q = C q.
Proof. intros Hq. apply fn_lookup_insert_ne. by intros ->. Qed.

Lemma left_names q : q ∈ pts -> (q ∉ U) -> (N q ∉ tn).
Proof.
  intros Hq HqU (u & E & [Hu Hup]%list_elem_of_filter)%list_elem_of_fmap.
  by rewrite (NoDup_fmap_inj N pts q u (fl_tnames _ _ _ _ _ _ _ _ _ _ _ Hf)) in HqU.
Qed.

Lemma left_active : (N a ∉ ln).
Proof.
  intros (q & E & Hq)%list_elem_of_fmap. pose proof (fl_NoDup _ _ _ _ _ _ _ _ _ _ _ Hf) as (_ & _ & (_ & Hd & _)%NoDup_app)%NoDup_app.
  apply (Hd q Hq). rewrite (NoDup_fmap_inj N (pls ++ [a]) q a (fl_lnames _ _ _ _ _ _ _ _ _ _ _ Hf)) by (done || set_solver).
  by left.
Qed.

(** The same files, with the metadata saved and the unused ones deleted. *)
Lemma left_files b w' :
  same_but U tn ln (with_blobs w (<[metadataBlobName := b]> (w_blobs w))) w' ->
  files bs nb (w_heap w') (w_blobs w') (w_logs w') (seq + 1) left [] a N2 C2.
Proof.
  intros [Hsh Hsb Hsl]. cbn [with_blobs record w_heap w_blobs w_logs] in *. pose proof Hf as [Ht Hl Ha Hnd Htn Hln Hsq Hft Hbd].
  assert (Htab : forall q name x, (q ∉ U) -> (name ∉ tn) -> (exists s, name = table_name s /\ 1 <= s <= seq) ->
    table_at bs nb (w_heap w) (w_blobs w) q name x -> table_at bs nb (w_heap w') (w_blobs w') q name x).
  { intros q name x Hq Hn (s & -> & Hs) (df & y & Hdf & E1 & E2 & E3 & Hy & Hload). exists df, y.
    rewrite Hsh, Hsb by done. by rewrite metadata_not_table by lia. }
  assert (Hleft : forall q, q ∈ left -> q = p \/ q ∈ pts /\ (q ∉ U)).
  { intros q [[? ?]%list_elem_of_filter| ->%list_elem_of_singleton]%elem_of_app; auto. }
  split.
  - intros q [->|[Hq HqU]]%Hleft.
    + unfold N2, C2. rewrite !fn_lookup_insert. apply Htab; [done| |exists seq; split; [done|lia]|done].
      intros (u & E & [_ Hu]%list_elem_of_filter)%list_elem_of_fmap. apply new_name. rewrite E. apply list_elem_of_fmap. eauto.
    + rewrite left_N, left_C by set_solver. apply Htab; [done|by apply left_names| |by apply Ht].
      destruct (Hsq q Hq) as (s & ? & ?). exists s. split; [done|lia].
  - by intros q ?%elem_of_nil.
  - rewrite left_N, left_C by set_solver. destruct Ha as (l & ws & Hx & E1 & E2 & Hst). exists l, ws.
    rewrite Hsh by done. rewrite Hsl by apply left_active. done.
  - cbn [app]. apply NoDup_app. split; [apply NoDup_app; split; [|split]|split].
    + apply NoDup_filter. by apply NoDup_app in Hnd as [? _].
    + intros q [_ Hq]%list_elem_of_filter ->%list_elem_of_singleton. set_solver.
    + apply NoDup_singleton.
    + intros q [->|[Hq _]]%Hleft ->%list_elem_of_singleton; [set_solver|].
      apply NoDup_app in Hnd as (_ & Hd & _). apply (Hd a Hq). set_solver.
    + apply NoDup_singleton.
  - unfold left. rewrite fmap_app, (list_fmap_ext N2 N); last first.
    { intros i q [_ Hq]%list_elem_of_lookup_2%list_elem_of_filter. apply left_N. set_solver. }
    change (N2 <$> [p]) with [N2 p]. unfold N2. rewrite fn_lookup_insert. apply NoDup_app. split; [by apply NoDup_fmap_filter|].
    split; [|apply NoDup_singleton]. intros n (q & -> & [_ Hq]%list_elem_of_filter)%list_elem_of_fmap E%list_elem_of_singleton.
    apply new_name. rewrite <- E. apply list_elem_of_fmap. eauto.
  - apply NoDup_singleton.
  - intros q [->|[Hq _]]%Hleft.
    + unfold N2. rewrite fn_lookup_insert. exists seq. split; [done|lia].
    + rewrite left_N by set_solver. destruct (Hsq q Hq) as (s & ? & ?). exists s. split; [done|lia].
  - cbn [app]. intros q ->%list_elem_of_singleton. rewrite left_N by set_solver. apply Hft. set_solver.
  - lia.
Qed.

Lemma left_deletable q : q ∈ U -> deletable (w_heap w) tn ln q.
Proof.
  intros Hq. pose proof Hf as [Ht Hl _ _ _ _ _ _ _]. destruct (proj1 (elem_of_app _ _ _) (HU q Hq)) as [Hqt|Hql].
  - left. destruct (Ht q Hqt) as (x & y & Hx & <- & Hsf & _). exists x. split; [done|]. split; [done|].
    destruct (Ht q Hqt) as (x' & y' & Hx' & E & _). rewrite Hx in Hx'. injection Hx' as <-. rewrite E.
    apply list_elem_of_fmap. exists q. split; [done|]. by apply list_elem_of_filter.
  - right. destruct (log_at_close bs nb Hbs Hnb _ _ _ _ _ _ (Hl q Hql)) as (l & l' & err & Hx & _ & Ec & Hn & _); [done|].
    exists l, l', err. split; [done|]. split; [done|]. rewrite Hn. apply list_elem_of_fmap. eauto.
Qed.
End left.
End replace.
