(* ===== verification/DeviceCompaction.v ===== *)
(** * A compaction of the device

    [BlockFile.compactWriter] from end to end: the rotation, the new table, the
    removal of what it replaces. The device has the same contents afterwards, and
    every state of the storage on the way describes them. *)
From S2P Require Import Prelude Radix Bits RangeMap ExtentRangeMap BlockReader StackedBlockReader BlockMap BlockMapLive.
From S2P Require Import BlockMapTheorems GoStd Adaptor WalIndex WalFormat WalWriter WalTheorems WriteLog WriteLogState.
From S2P Require Import SparseBuilder SparseReader SparseBuildFrom WaitBarrier Tracker TrackerWriter.
From S2P Require Import DataFile Storage Metadata Decimal Device DeviceInv DeviceDisk DeviceClose.
From S2P Require Import DeviceRotate DeviceCompact DeviceReplace.
From stdpp Require Import strings functions sorting list.
Local Open Scope Z_scope.

Section compaction.
Context {F : Type} `{!LogFile F} `{!LogFileLaws F} `{!Closer F} `{!CloserLaws F} `{!WalCodec} `{!WalCodecLaws}.
Context {T : Type} `{!RadixTree item it_key T} `{!RadixTreeLaws item it_key T}.
Context {G : Type} `{!Closer G}.
Context `{!HeaderCodec} `{!HeaderCodecLaws} `{!TruncatedReader} `{!TruncatedReaderLaws}.
Context `{!MetadataCodec} `{!MetadataCodecLaws}.
Context {M : Type} `{!RangeMap Z M} `{!RangeMapLaws Z M} {BS : Type} `{!BitSet BS} `{!BitSetLaws BS}.
Context (bs nb : Z) (Hbs : 512 <= bs <= 1024 * 1024) (Hnb : 0 < nb < 2 ^ 28).
Context (map_order : gmap (option positive) Z -> list (option positive * Z)).
Context (Horder : forall m, map_order m ≡ₚ map_to_list m).
Implicit Types (h : gmap positive (obj F T G)) (blobs dir : directory) (logs : gmap string log_file).
Implicit Types (w : world F T G) (bf : BlockFile M BS) (C : positive -> content) (N : positive -> string).
Implicit Types (d : directory * directory) (c : content) (pts pls U : list positive) (r : BlockMap.Reader positive M BS).

Abbreviation desc := (described (F := F) (T := T) (G := G) bs nb).

(** The readers that [GetLiveBlocks] reports as dead own no block. *)
Lemma dead_unused C r l :
  index_of bs nb C r l ->
  exists lb, GetLiveBlocks r = Ret lb /\ (forall e, e ∈ map_order lb -> exists p, p ∈ l /\ e.1 = Some p) /\
    unused_in r (dead (map_order lb)) l.
Proof.
  intros Hix. destruct (live_map bs nb Hnb map_order Horder C r l Hix) as (lb & E & Hnd & Hlb). exists lb.
  split; [done|]. split; [intros e (p & Hp & ->)%Hlb; by exists p|]. split; [by apply dead_NoDup|].
  intros p. rewrite elem_of_dead. assert (Hz : live_count nb r p = 0 <-> forall k, owner r k <> Some p).
  { apply (live_count_0 bs nb). apply Hix. }
  assert (0 <= live_count nb r p) by (unfold live_count; lia). split.
  - intros (n & (q & Hq & [= <- ->])%Hlb & Hn). split; [done|]. apply Hz. lia.
  - intros [Hp Hown]. exists (live_count nb r p). split; [apply Hlb; eauto|]. apply Hz in Hown. lia.
Qed.

Section finish.
Context (w : world F T G) (bf : BlockFile M BS) (pts pls0 : list positive) (lst a p : positive) (seq : Z).
Context (N : positive -> string) (C : positive -> content) (K : content) (r : BlockMap.Reader positive M BS) (c : content).
Let pls : list positive := pls0 ++ [lst].
Let N2 : positive -> string := <[p := table_name seq]> N.
Let C2 : positive -> content := <[p := K]> C.
Context (Hf : files bs nb (w_heap w) (w_blobs w) (w_logs w) seq pts pls a N C) (Hseq : seq < 2 ^ 63).
Context (Hnew : table_at bs nb (w_heap w) (w_blobs w) p (table_name seq) K) (Hp : p ∉ pts ++ pls ++ [a]).
Context (Htk : bf_readerTracker bf = compacting bs nb r a).
Context (Hmeta : bf_meta bf = CompactWriteLog (meta_of bs nb N pts (pls ++ [a])) (N lst) (table_name seq)).
Context (Hix : index_of bs nb C2 r ((pts ++ pls) ++ [p])) (Hlogs : forall q k, q ∈ pls -> owner r k <> Some q).
Context (Hown : exists k, owner r k = Some p) (Hnf : no_footer (file_bytes (w_heap w) (Held a))).
Context (Hlen : Z.of_nat (length pts + length pls) <= 2 ^ 15).
Context (Hc : forall U, unused_in r U ((pts ++ pls) ++ [p]) ->
  forall k, c k = layers C2 (filter (fun q => q ∉ U) pts ++ [p]) [] a k).

Lemma finish_entry : (forall q, q ∈ pts -> file_entry (w_heap w) q = MkDataFilePb SPARSE_TABLE (N q)) /\
  (forall q, q ∈ pls -> file_entry (w_heap w) q = MkDataFilePb WRITE_LOG (N q)).
Proof.
  split; intros q Hq; unfold file_entry.
  - destruct (fl_table _ _ _ _ _ _ _ _ _ _ _ Hf q Hq) as (x & y & -> & -> & _). done.
  - destruct (fl_log _ _ _ _ _ _ _ _ _ _ _ Hf q Hq) as (x & y & -> & -> & _). done.
Qed.

Lemma finish_objects q : q ∈ (pts ++ pls) ++ [p] -> is_Some (w_heap w !! q).
Proof.
  intros [[Hq|Hq]%elem_of_app| ->%list_elem_of_singleton]%elem_of_app.
  - eapply files_alloc; [exact Hf|]. apply elem_of_app. by left.
  - eapply files_alloc; [exact Hf|]. apply elem_of_app. right. apply elem_of_app. by left.
  - destruct Hnew as (x & y & -> & _). eauto.
Qed.

(** The readers without a live block: all the logs, neither the new table nor the
    active log. *)
Lemma finish_unused U : unused_in r U ((pts ++ pls) ++ [p]) ->
  (p ∉ U) /\ (forall q, q ∈ pls -> q ∈ U) /\ (forall q, q ∈ U -> q ∈ pts ++ pls) /\ (a ∉ U) /\
  filter (fun q => q ∉ U) ((pts ++ pls) ++ [p]) = filter (fun q => q ∉ U) pts ++ [p].
Proof.
  intros [_ HinU].
  assert (HpU : p ∉ U) by (destruct Hown as [k Hk]; by intros [_ Hn]%HinU; apply (Hn k)).
  assert (HplsU : forall q, q ∈ pls -> q ∈ U) by (intros q Hq; apply HinU; split; [set_solver|auto]).
  assert (HUin : forall q, q ∈ U -> q ∈ pts ++ pls).
  { intros q Hq. pose proof Hq as [[Hin| ->%list_elem_of_singleton]%elem_of_app _]%HinU; done. }
  split; [done|]. split; [done|]. split; [done|]. split.
  { intros Ha%HUin. by apply (files_apart _ _ _ _ _ _ _ _ _ _ _ Hf) in Ha. }
  rewrite !filter_app, (Prelude.filter_none _ pls), app_nil_r by (intros q Hq Hn; by apply Hn, HplsU).
  f_equal. apply Prelude.filter_all. by intros q ->%list_elem_of_singleton.
Qed.

Lemma removeUnusedTables_ok :
  exists w' r' left, removeUnusedTables map_order w bf =
      Ret (w', set_meta (set_reader bf (compacting bs nb r' a)) (meta_of bs nb N2 left [a])) /\
    index_of bs nb C2 r' left /\ files bs nb (w_heap w') (w_blobs w') (w_logs w') (seq + 1) left [] a N2 C2 /\
    LoadMetadata (w_blobs w') = inl (meta_of bs nb N2 left [a]) /\
    (forall k, c k = layers C2 left [] a k) /\ w_heap w' !! a = w_heap w !! a /\ passes (fun d => desc d c) w w'.
Proof.
  destruct (dead_unused C2 r _ Hix) as (lb & Elb & Hkeys & HU). set (U := dead (map_order lb)) in *.
  pose proof HU as [HndU HinU]. set (left := filter (fun q => q ∉ U) pts ++ [p]).
  destruct (finish_unused U HU) as (HpU & HplsU & HUin & HaU & Hleft).
  destruct (index_remove bs nb Hbs Hnb C2 r _ U Hix HU) as (r' & Er & Hix' & _).
  rewrite Hleft in Hix'. unfold removeUnusedTables, cs_LiveBlocks. rewrite Htk. cbn [tk_primaryIndex compacting].
  rewrite Elb. cbn [mbind outcome_bind]. rewrite (remove_unused_ok _ _ _ _ _ r'); [|by intros e (q & Hq & ->)%Hkeys; eauto using finish_objects|done].
  cbn [mbind outcome_bind app]. rewrite Hmeta.
  destruct (compact_entries bs nb Hbs Hnb (w_heap w) N pts pls0 lst a p (table_name seq) U) as [Hent HndE];
    [apply Hf|apply Hf|done|by eapply new_name|done|done|done|by intros; apply HplsU, elem_of_app; left|apply finish_entry|apply finish_entry|].
  change (pls0 ++ [lst]) with pls in Hent, HndE. rewrite fold_delete by done.
  rewrite (Prelude.filter_ext _ (fun e => e ∉ file_entry (w_heap w) <$> U)), Hent by done. fold U left N2.
  change (set_DataFiles _ (entries N2 left [a])) with (meta_of bs nb N2 left [a]).
  rewrite bool_decide_eq_false_2; last first.
  { intros E. assert (lst ∈ U) as Hl by (apply HplsU, elem_of_app; right; by left). rewrite E in Hl. by apply elem_of_nil in Hl. }
  change (set_primaryIndex (compacting bs nb r a) r') with (compacting bs nb r' a). set (bf1 := set_meta _ _).
  assert (Hllen : (length left <= S (length pts))%nat).
  { unfold left. rewrite length_app. cbn. pose proof (length_filter (fun q => q ∉ U) pts). lia. }
  set (tn := N <$> filter (fun q => q ∈ U) pts). set (ln := N <$> pls).
  assert (Hfiles : forall b w', same_but U tn ln (with_blobs w (<[metadataBlobName := b]> (w_blobs w))) w' ->
    files bs nb (w_heap w') (w_blobs w') (w_logs w') (seq + 1) left [] a N2 C2).
  { intros b w' Hsb. by eapply (left_files (BS := BS) bs nb Hbs Hnb w seq pts pls a p N C K U). }
  destruct (save_ok bs nb Hbs Hnb w bf1 N2 left [a]) as (b & Es & Hload); [done|..].
  { intros q. apply (files_tnamed _ _ _ _ _ _ _ _ _ _ _ q (Hfiles [] _ (same_but_refl _ _ _ _))). }
  { intros q Hq. by apply (fl_fits _ _ _ _ _ _ _ _ _ _ _ (Hfiles [] _ (same_but_refl _ _ _ _))). }
  { cbn. lia. }
  rewrite Es. cbn [mbind outcome_bind]. set (w1 := with_blobs w (<[metadataBlobName := b]> (w_blobs w))).
  assert (Hsaved : forall w', same_but U tn ln w1 w' -> LoadMetadata (w_blobs w') = inl (meta_of bs nb N2 left [a])).
  { intros w' [_ Hsb _]. apply Hload. rewrite Hsb; [apply lookup_insert_eq|].
    intros (q & E & [_ Hq]%list_elem_of_filter)%list_elem_of_fmap. pose proof (fl_bound _ _ _ _ _ _ _ _ _ _ _ Hf).
    destruct (fl_seq _ _ _ _ _ _ _ _ _ _ _ Hf q Hq) as (s & Eq & Hs). rewrite Eq in E.
    by apply (table_name_not_metadata s); [lia|]. }
  assert (Hdesc : forall w', same_but U tn ln w1 w' -> desc (disk_of w') c).
  { intros w' Hsb. apply (files_described bs nb Hbs Hnb (w_heap w') (w_blobs w') (w_logs w') (seq + 1) left [] a N2 C2 c);
      [by eapply Hfiles|by apply Hsaved| |cbn; lia|by apply Hc].
    cbn. by rewrite (sb_heap _ _ _ _ _ Hsb a HaU). }
  destruct (delete_files_ok (fun d => desc d c) tn ln U U w1 HndU) as (w' & Ed & Hsb & Hps).
  { intros q Hq. split; [done|]. by apply (left_deletable bs nb Hbs Hnb w seq pts pls a N C U). }
  { done. }
  rewrite Ed. cbn [mbind outcome_bind]. exists w', r', left. split; [done|]. split; [done|].
  split; [by eapply Hfiles|]. split; [by apply Hsaved|]. split; [by apply Hc|].
  split; [by apply (sb_heap _ _ _ _ _ Hsb)|].
  eapply passes_trans; [|exact Hps]. exists [disk_of w1]. split; [done|]. apply Forall_singleton.
  apply Hdesc, same_but_refl.
Qed.
End finish.

(** ** From the logs to the new table *)
Context (newHandle : G).

Lemma files_mono h h' blobs blobs' logs seq pts pls a N C :
  files bs nb h blobs logs seq pts pls a N C -> h ⊆ h' -> (forall q, q ∈ pts -> blobs' !! N q = blobs !! N q) ->
  files bs nb h' blobs' logs seq pts pls a N C.
Proof.
  intros [Ht Hl Ha Hnd Htn Hln Hsq Hft Hbd] Hh Hb. split; try done.
  - intros q Hq. eapply table_at_blobs; [by apply Hb|]. eapply table_at_mono; [done|]. auto.
  - intros q Hq. eapply log_at_mono; [done|]. auto.
  - by eapply log_at_mono.
Qed.

Lemma files_new_blob h blobs logs seq pts pls a N C name b :
  files bs nb h blobs logs seq pts pls a N C -> (name ∉ (N <$> pts)) ->
  files bs nb h (<[name := b]> blobs) logs seq pts pls a N C.
Proof.
  intros Hf Hn. eapply files_mono; [exact Hf|done|]. intros q Hq. apply lookup_insert_ne. intros ->.
  apply Hn, list_elem_of_fmap. eauto.
Qed.

Lemma overlay_some (cs : list content) x k : x ∈ cs -> is_Some (x k) -> is_Some (overlay cs k).
Proof.
  induction cs as [|y cs IH]; [by intros ?%elem_of_nil|]. intros [->|Hin]%elem_of_cons Hk; cbn.
  - by destruct (y k).
  - destruct (y k); [by eexists|]. auto.
Qed.

Lemma compacted_some C pls live q k : q ∈ pls -> is_Some (C q k) -> is_Some (compacted_content C pls live k).
Proof.
  intros Hq Hk. unfold compacted_content. eapply overlay_some; [|exact Hk]. apply elem_of_app. left.
  rewrite elem_of_reverse. apply list_elem_of_fmap. eauto.
Qed.

(** The table is written, opened and pushed on the index. *)
Lemma table_opened w bf name (tbl : bytes) c :
  bf_blockSize bf = bs -> bf_numBlocks bf = nb -> table_loads bs nb tbl c -> w_blobs w !! name = Some tbl ->
  exists p df, openTableFile newHandle w bf name = Ret (with_heap w (<[p := OTable df]> (w_heap w)), inl p) /\
    w_heap w !! p = None /\ table_at bs nb (<[p := OTable df]> (w_heap w)) (w_blobs w) p name c.
Proof.
  intros Hs1 Hs2 Hload Hb. unfold openTableFile, bs_Open, openFileReader, bf_Size. rewrite Hb, Hs1, Hs2.
  rewrite (device_size bs nb Hbs Hnb).
  destruct (NewSparseBlockFromReader_ok bs nb ltac:(lia) ltac:(lia) tbl c newHandle name Hload) as (df & E & Hok & Hn & Hsf).
  rewrite E. cbn [mbind outcome_bind]. destruct (alloc_obj_fresh w (OTable df)) as (p & -> & Hfr).
  exists p, df. split; [done|]. split; [done|]. exists df, tbl. by rewrite lookup_insert_eq.
Qed.

Lemma compactToFile_ok {R} `{!BlockHoleReader R} w bf (src : HoleReader R) tbl :
  bf_blockSize bf = bs -> bf_numBlocks bf = nb -> 0 <= bf_nextSeq bf < 2 ^ 63 ->
  BuildFromReader (S (Z.to_nat nb)) src bs 0 = Ret (tbl, None) ->
  let name := table_name (bf_nextSeq bf) in
  compactToFile w bf src =
  Ret (with_blobs w (<[name := tbl]> (w_blobs w)), set_nextSeq bf (bf_nextSeq bf + 1), inl name).
Proof.
  intros Hs1 Hs2 Hseq Hb name. unfold compactToFile, generateNextTableName. cbn [bf_numBlocks bf_blockSize set_nextSeq].
  rewrite Hs1, Hs2, Hb. cbn [mbind outcome_bind]. by rewrite u64_small by lia.
Qed.

Lemma files_kinds h blobs logs seq pts pls a N C : files bs nb h blobs logs seq pts pls a N C -> kinds h pts pls.
Proof.
  intros Hf. split; intros q Hq.
  - destruct (fl_table _ _ _ _ _ _ _ _ _ _ _ Hf q Hq) as (x & y & Hx & _ & Hsf & _). eauto.
  - destruct (fl_log _ _ _ _ _ _ _ _ _ _ _ Hf q Hq) as (x & y & Hx & _). eauto.
Qed.

Lemma remove_pending_ok (m : TrackerWriter.Writer positive) pls a C :
  writers_ok m pls a C -> NoDup pls -> wt_RemovePending m pls = set_pending m [].
Proof.
  intros [_ Hp _] Hnd. unfold wt_RemovePending. rewrite Hp, fold_delete, Prelude.filter_none by (done || by intros x Hx Hn).
  done.
Qed.

(** A device after a compaction: every reader is a table of the index. *)
Lemma compacted_device w bf (left : list positive) a N C r c :
  bf_blockSize bf = bs /\ bf_numBlocks bf = nb -> 0 < bf_TargetTableSize bf ->
  files bs nb (w_heap w) (w_blobs w) (w_logs w) (bf_nextSeq bf) left [] a N C ->
  bf_meta bf = meta_of bs nb N left [a] -> LoadMetadata (w_blobs w) = inl (meta_of bs nb N left [a]) ->
  bf_readerTracker bf = cs_Done (compacting bs nb r a) -> index_of bs nb C r left -> writers_ok (bf_writerTracker bf) [] a C ->
  (forall k, c k = layers C left [] a k) -> device bs nb w bf c.
Proof.
  intros Hz Htg Hf Hm Hsv Ht Hix Hw Hc. exists left, [], a, N, C. split; [|done]. split; try done; [by rewrite Hm|].
  exists left, []. rewrite !app_nil_r. split; [done|]. rewrite Ht. by split.
Qed.

(** [compactPendingWriters] from the new table on: it is opened and pushed, and
    what it replaces is removed. *)
Definition replace_logs w bf (compactedName : string) (compactingWriters : list positive) : outcome (world F T G * BlockFile M BS) :=
  '(w, res) ← openTableFile newHandle w bf compactedName;
  match res with
  | inr _ => Panic
  | inl df =>
      t ← cs_PushCompactedReader (HR := heap_reader (w_heap w)) (bf_readerTracker bf) df;
      let bf := set_reader bf t in
      let bf := set_writer bf (wt_RemovePending (bf_writerTracker bf) compactingWriters) in
      last ← SliceLast compactingWriters;
      o ← of_option (w_heap w !! last);
      let bf := set_meta bf (CompactWriteLog (bf_meta bf) (obj_name o) compactedName) in
      '(w, bf) ← removeUnusedTables map_order w bf;
      Ret (w, set_reader bf (cs_Done (bf_readerTracker bf)))
  end.

Lemma replace_logs_ok w bf pts pls a N C c r sel cr tbl :
  dev_inv bs nb w bf pts pls a N C -> (forall k, c k = layers C pts pls a k) ->
  Z.of_nat (length pts + S (length pls)) <= 2 ^ 15 -> bf_nextSeq bf < 2 ^ 63 -> pls <> [] ->
  no_footer (file_bytes (w_heap w) (Held a)) ->
  index_of bs nb C r (pts ++ pls) -> NoDup sel -> (forall p, p ∈ sel -> p ∈ pts) -> chosen bs nb r sel cr ->
  (exists k, is_Some (compacted_content C pls (live_of C cr) k)) ->
  table_loads bs nb tbl (compacted_content C pls (live_of C cr)) ->
  let seq := bf_nextSeq bf in let name := table_name seq in
  let w2 := with_blobs w (<[name := tbl]> (w_blobs w)) in
  let bf2 := set_nextSeq (set_reader bf (compacting bs nb r a)) (seq + 1) in
  exists w' bf', replace_logs w2 bf2 name pls = Ret (w', bf') /\ device bs nb w' bf' c /\
    active_file w' bf' = file_bytes (w_heap w) (Held a) /\ passes (fun d => desc d c) w w'.
Proof.
  intros [[Hz1 Hz2] Htg Hf Hm Hsv _ [Ha Hp Hct]] Hc Hlen Hseq Hne Hnf Hix Hnds Hsel Hch HK Hload seq name w2 bf2.
  assert (exists pls0 lst, pls = pls0 ++ [lst]) as (pls0 & lst & Epls).
  { destruct (exists_last Hne) as (x & y & ->). eauto. }
  assert (Hnd : NoDup (pts ++ pls)) by (by apply (files_apart _ _ _ _ _ _ _ _ _ _ _ Hf)).
  pose proof (fl_bound _ _ _ _ _ _ _ _ _ _ _ Hf) as Hb1. set (K := compacted_content C pls (live_of C cr)) in *.
  unfold replace_logs.
  destruct (table_opened w2 bf2 name tbl K) as (p & df & -> & Hfr & Hat); [done|done|done|apply lookup_insert_eq|].
  set (w3 := with_heap w2 (<[p := OTable df]> (w_heap w2))). cbn [mbind outcome_bind].
  assert (Hname : name ∉ (N <$> pts)) by (by eapply new_name).
  assert (Hf2 : files bs nb (w_heap w2) (w_blobs w2) (w_logs w2) seq pts pls a N C) by (by apply files_new_blob).
  assert (Hf3 : files bs nb (w_heap w3) (w_blobs w3) (w_logs w3) seq pts pls a N C).
  { eapply files_mono; [exact Hf2|by apply insert_subseteq|done]. }
  assert (Hpn : p ∉ pts ++ pls ++ [a]) by (eapply (files_fresh bs nb); [exact Hf2|exact Hfr]).
  destruct (index_push bs nb Hbs Hnb (w_heap w3) C r (pts ++ pls) p K) as (r2 & Epc & Hix2 & Ho2);
    [done|rewrite app_assoc in Hpn; set_solver|rewrite length_app; lia|by eapply (table_reads bs nb)|].
  unfold cs_PushCompactedReader. cbn [bf2 bf_readerTracker set_nextSeq compacting tk_primaryIndex set_reader].
  rewrite Epc. cbn [mbind outcome_bind]. unfold SliceLast. rewrite Epls, last_snoc, <- Epls. cbn [of_option mbind outcome_bind].
  assert (exists o, w_heap w3 !! lst = Some o /\ obj_name o = N lst) as (o & -> & Hon).
  { destruct (fl_log _ _ _ _ _ _ _ _ _ _ _ Hf3 lst) as (l & ws & Hl & Hln & _); [rewrite Epls; set_solver|]. by exists (OLog l). }
  cbn [of_option mbind outcome_bind]. rewrite Hon.
  change (set_primaryIndex (compacting bs nb r a) r2) with (compacting bs nb r2 a). set (bf4 := set_meta _ _).
  assert (Hdead : forall q k, q ∈ pls -> owner r2 k <> Some q).
  { intros q k Hq. eapply (replaced_logs bs nb Hbs Hnb C r r2 sel pts pls cr p); try done. rewrite app_assoc in Hpn. set_solver. }
  destruct (removeUnusedTables_ok w3 bf4 pts pls0 lst a p seq N C K r2 c) as (w5 & r5 & left & Er & Hix5 & Hf5 & Hsv5 & Hc5 & Ha5 & Hps5);
    rewrite <- ?Epls; try done.
  { cbn. by rewrite Hm. }
  { by eapply replaced_table. }
  { cbn. rewrite lookup_insert_ne; [done|]. intros ->. set_solver. }
  { lia. }
  { intros U HU k. rewrite Hc. symmetry. eapply (replaced_layers bs nb Hbs Hnb C r r2 sel pts pls cr p); try done;
      [rewrite app_assoc in Hpn; set_solver|]. intros ->. set_solver. }
  rewrite Er. cbn [mbind outcome_bind]. do 2 eexists. split; [done|]. split; [|split].
  - eapply (compacted_device w5 _ left a (<[p := name]> N) (<[p := K]> C)); try done.
    cbn. rewrite (remove_pending_ok _ pls a C); [|done|by apply NoDup_app in Hnd as (_ & _ & ?)]. split; [done|done|].
    rewrite fn_lookup_insert_ne by (intros ->; set_solver). done.
  - unfold active_file. cbn. rewrite Ha, Ha5. cbn. by rewrite lookup_insert_ne by (intros ->; set_solver).
  - eapply passes_trans; [|exact Hps5]. exists [disk_of w2]. split; [done|]. apply Forall_singleton.
    apply (files_described bs nb Hbs Hnb (w_heap w2) (w_blobs w2) (w_logs w2) seq pts pls a N C c); try done.
    + rewrite <- Hm, <- Hsv. apply LoadMetadata_same. apply lookup_insert_ne. apply table_name_not_metadata. lia.
    + rewrite length_app. cbn. lia.
Qed.

Lemma compactPendingWriters_ok w bf pts pls a N C c :
  dev_inv bs nb w bf pts pls a N C -> (forall k, c k = layers C pts pls a k) ->
  Z.of_nat (length (md_DataFiles (bf_meta bf))) <= 2 ^ 15 -> bf_nextSeq bf < 2 ^ 63 ->
  (exists q k, q ∈ pls /\ is_Some (C q k)) -> no_footer (file_bytes (w_heap w) (Held a)) ->
  exists w' bf', compactPendingWriters newHandle map_order w bf = Ret (w', bf') /\ device bs nb w' bf' c /\
    active_file w' bf' = file_bytes (w_heap w) (Held a) /\ passes (fun d => desc d c) w w'.
Proof.
  intros Hinv Hc Hlen Hseq (q0 & k0 & Hq0 & Hk0) Hnf.
  pose proof Hinv as [[Hz1 Hz2] Htg Hf Hm Hsv (idx & pend & Hip & Htk) [Ha Hp Hct]].
  rewrite Hm in Hlen. cbn in Hlen. rewrite entries_length, length_app in Hlen. cbn in Hlen.
  assert (Hnd : NoDup (pts ++ pls)).
  { by apply (files_apart _ _ _ _ _ _ _ _ _ _ _ Hf). }
  assert (Hrd : forall p, p ∈ pts ++ pls -> reader_ok (BlockHoleReader0 := heap_reader (w_heap w)) bs nb p (C p)).
  { intros p Hin. eapply (files_read bs nb Hbs Hnb); [exact Hf|]. rewrite app_assoc. set_solver. }
  unfold compactPendingWriters.
  destruct (start_ok bs nb Hbs Hnb w _ a idx pend C Htk) as (r & -> & Hix);
    [by rewrite Hip|rewrite Hip, length_app; lia|by rewrite Hip|]. rewrite Hip in Hix.
  cbn [mbind outcome_bind]. cbn [bf_blockSize bf_numBlocks bf_MinTableUtilisation bf_TargetTableSize bf_writerTracker set_reader].
  rewrite Hz1, Hz2. unfold wt_Pending. rewrite Hp.
  destruct (BuildCompactionReader_ok bs nb Hbs Hnb map_order Horder (w_heap w) C r a pts pls (bf_MinTableUtilisation bf)
    (bf_TargetTableSize bf)) as (sel & cr & -> & Hnds & Hsel & Hch); [|done|].
  { by eapply files_kinds. }
  cbn [mbind outcome_bind]. set (K := compacted_content C pls (live_of C cr)).
  assert (HK : exists k, is_Some (K k)) by (exists k0; by eapply compacted_some).
  destruct (build_table bs nb Hbs Hnb (w_heap w) C r sel cr pts pls) as (ir & n & tbl & Epush & Elive & Ebuild & Hload);
    [done|done|done|done|done|rewrite length_app; lia|done|].
  change (match cr with Some _ => [None] | None => [] end ++ (Some <$> pls)) with (sources cr pls).
  rewrite Epush. cbn [mbind outcome_bind]. rewrite Elive. cbn [mbind outcome_bind].
  pose proof (fl_bound _ _ _ _ _ _ _ _ _ _ _ Hf) as Hb1.
  rewrite (compactToFile_ok w _ _ tbl) by (done || (cbn; lia)). cbn [mbind outcome_bind].
  apply (replace_logs_ok w bf pts pls a N C c r sel cr tbl); try done; [lia|]. intros ->. by apply elem_of_nil in Hq0.
Qed.

(** ** The whole of it *)
Context (newFile : F) (rnd : nat -> Z) (Hnew : io_reliable newFile /\ io_out newFile = []).

Lemma compactWriter_ok fuel w bf pts pls a N C c :
  dev_inv bs nb w bf pts pls a N C -> (forall k, c k = layers C pts pls a k) -> room bf -> names_left rnd fuel w -> active_closable w bf ->
  exists w' bf', compactWriter newFile newHandle rnd map_order fuel w bf = Ret (w', bf') /\ device bs nb w' bf' c /\
    (if wt_LogWritten (bf_writerTracker bf) <? bf_TargetTableSize bf then w' = w /\ bf' = bf else active_file w' bf' = []) /\
    (no_footer (active_file w bf) -> passes (fun d => desc d c) w w') /\
    exists l, w_past w' = w_past w ++ l /\ forall b ws c' d,
      file_opens (F := F) (T := T) (G := G) bs nb b ws -> (forall k, c' k = layers (<[a := writes_content bs ws]> C) pts pls a k) ->
      d ∈ take 2 l -> desc (d.1, <[N a := b]> d.2) c'.
Proof.
  intros Hinv Hc Hroom Hleft Hcl. unfold compactWriter.
  destruct (Z.ltb_spec (wt_LogWritten (bf_writerTracker bf)) (bf_TargetTableSize bf)) as [Hlt|Hge].
  { exists w, bf. split; [done|]. split; [by exists pts, pls, a, N, C|]. split; [done|]. split; [intros _; by apply passes_refl|].
    exists []. split; [by rewrite app_nil_r|]. by intros b ws c' d _ _ ?%elem_of_nil. }
  destruct (wts_count _ _ _ _ (dv_writer _ _ _ _ _ _ _ _ _ Hinv)) as [k Hk].
  { pose proof (dv_target _ _ _ _ _ _ _ _ _ Hinv). unfold wt_LogWritten in Hge. lia. }
  destruct (rotate_ok bs nb Hbs Hnb newFile rnd Hnew fuel w bf pts pls a N C c Hinv Hc Hroom Hleft Hcl) as
    (w1 & bf1 & p & N' & C' & -> & Hinv1 & Hc1 & HCa & Hsq & Hemp1 & Hlen1 & Hps1 & d1 & d2 & d3 & Hpast1 & Hcut).
  cbn [mbind outcome_bind]. destruct Hroom as [Hr1 Hr2].
  destruct (compactPendingWriters_ok w1 bf1 pts (pls ++ [a]) p N' C' c) as (w2 & bf2 & -> & Hdev & Hemp2 & Hps2); try done.
  - rewrite Hlen1. lia.
  - by rewrite Hsq.
  - exists a, k. rewrite HCa. split; [set_solver|done].
  - by rewrite Hemp1.
  - exists w2, bf2. split; [done|]. split; [done|]. split; [by rewrite Hemp2|].
    split; [intros Hnf; eapply passes_trans; [by apply Hps1|done]|]. destruct Hps2 as (l2 & Hpast2 & _).
    exists ([d1; d2; d3] ++ l2). split; [by rewrite Hpast2, Hpast1, app_assoc|done].
Qed.
End compaction.
