(* ===== verification/DeviceFlush.v ===== *)
(** * What a flush of the device makes durable

    [BlockFile.Flush] syncs the active log, and a rotation syncs the log that it
    closes; the tables and the metadata are synced when they are written. A loss
    of power therefore cuts only the file of the active log, and not below what
    has been synced of it. [durable] is a device of which all else is synced: it
    separates the contents at the last flush from the writes since. *)
From S2P Require Import Prelude Radix Bits RangeMap ExtentRangeMap BlockReader StackedBlockReader BlockMap.
From S2P Require Import BlockMapTheorems GoStd Adaptor WalIndex WalFormat WalWriter WalTheorems WriteLog WriteLogState WriteLogSync.
From S2P Require Import SparseBuilder SparseReader SparseBuildFrom WaitBarrier Tracker TrackerWriter.
From S2P Require Import DataFile Storage Metadata Decimal Device DeviceInv DeviceDisk.
From stdpp Require Import strings functions list.
Local Open Scope Z_scope.

Section flush.
Context {F : Type} `{!LogFile F} `{!LogFileLaws F} `{!Closer F} `{!CloserLaws F} `{!SyncFile F} `{!WalCodec} `{!WalCodecLaws}.
Context {T : Type} `{!RadixTree item it_key T} `{!RadixTreeLaws item it_key T}.
Context {G : Type} `{!Closer G}.
Context `{!HeaderCodec} `{!HeaderCodecLaws} `{!TruncatedReader} `{!TruncatedReaderLaws}.
Context `{!MetadataCodec} `{!MetadataCodecLaws}.
Context {M : Type} `{!RangeMap Z M} `{!RangeMapLaws Z M} {BS : Type} `{!BitSet BS} `{!BitSetLaws BS}.
Context (bs nb : Z) (Hbs : 512 <= bs <= 1024 * 1024) (Hnb : 0 < nb < 2 ^ 28).
Implicit Types (w : world F T G) (bf : BlockFile M BS) (C : positive -> content) (N : positive -> string).
Implicit Types (c f : content) (since : recent).

(** ** The storage after a loss of power *)

(** What is synced of the file of the active log, and its name. *)
Definition active_synced w bf : Z :=
  match wt_activeWriter (bf_writerTracker bf) with
  | Some a => match w_heap w !! a with Some (OLog l) => wl_synced l | _ => 0 end
  | None => 0
  end.

Definition active_name w bf : string :=
  default "" (a ← wt_activeWriter (bf_writerTracker bf); obj_name <$> w_heap w !! a).

(** The storage [d] with the first [k] bytes of the active log left. *)
Definition cut_active w bf (k : Z) (d : directory * directory) : directory * directory :=
  (d.1, <[active_name w bf := take (Z.to_nat k) (active_file w bf)]> d.2).

Definition power_cut w bf (k : Z) : directory * directory := cut_active w bf k (disk_of w).

(** ** A device and its last flush *)
Record durable_inv w bf c f since (ts ls : list positive) (a : positive) N C (l : WriteLog F T G) ws0 : Prop := {
  di_inv : dev_inv bs nb w bf ts ls a N C;
  di_content k : c k = layers C ts ls a k;
  di_log : w_heap w !! a = Some (OLog l);
  di_since : written_since bs nb ws0 since l;
  di_active : C a = writes_content bs (ws0 ++ since.*1);
  di_flushed k : f k = layers (<[a := writes_content bs ws0]> C) ts ls a k;
}.

Definition durable w bf c f since : Prop := exists ts ls a N C l ws0, durable_inv w bf c f since ts ls a N C l ws0.

Lemma durable_device w bf c f since : durable w bf c f since -> device bs nb w bf c.
Proof. intros (ts & ls & a & N & C & l & ws0 & Hd). exists ts, ls, a, N, C. split; apply Hd. Qed.

(** The object of the active log. *)
Lemma active_log w bf ts ls a N C :
  dev_inv bs nb w bf ts ls a N C ->
  exists l ws, w_heap w !! a = Some (OLog l) /\ wl_name l = N a /\ C a = writes_content bs ws /\
    log_state bs nb ws true l /\ w_logs w !! N a = Some (Held a).
Proof.
  intros Hi. destruct (fl_active _ _ _ _ _ _ _ _ _ _ _ (dv_files _ _ _ _ _ _ _ _ _ Hi)) as (l & ws & Hl & Hn & Hc & [[Hst Hh]|[? _]]); [|done].
  by exists l, ws.
Qed.

Lemma active_file_log w bf ts ls a N C l :
  dev_inv bs nb w bf ts ls a N C -> w_heap w !! a = Some (OLog l) ->
  active_file w bf = wl_file l /\ active_synced w bf = wl_synced l /\ active_name w bf = N a.
Proof.
  intros Hi Hl. destruct (active_log _ _ _ _ _ _ _ Hi) as (l' & ws & Hl' & Hn & _). rewrite Hl in Hl'. injection Hl' as <-.
  destruct (dv_writer _ _ _ _ _ _ _ _ _ Hi) as [Ha _ _]. unfold active_file, active_synced, active_name. rewrite Ha. cbn. by rewrite Hl.
Qed.

Lemma active_apart w bf ts ls a N C : dev_inv bs nb w bf ts ls a N C -> a ∉ ts ++ ls.
Proof. intros Hi. by apply (files_apart _ _ _ _ _ _ _ _ _ _ _ (dv_files _ _ _ _ _ _ _ _ _ Hi)). Qed.

Lemma layers_same C ts ls (a : positive) k : (a ∉ ts ++ ls) -> layers (<[a := C a]> C) ts ls a k = layers C ts ls a k.
Proof. intros Hn. by rewrite layers_active. Qed.

(** Nothing has been written to the active log yet. *)
Lemma durable_fresh w bf c : device bs nb w bf c -> active_file w bf = [] -> durable w bf c c [].
Proof.
  intros (ts & ls & a & N & C & Hi & Hc) He. destruct (active_log _ _ _ _ _ _ _ Hi) as (l & ws & Hl & _ & HC & Hst & _).
  destruct (active_file_log _ _ _ _ _ _ _ l Hi Hl) as (Hf & _). rewrite Hf in He.
  destruct (written_since_empty bs nb ws l Hst He) as [-> Hs]. exists ts, ls, a, N, C, l, []. split; try done.
  intros k. rewrite Hc, <- layers_same, HC; [done|]. by eapply active_apart.
Qed.

(** ** Writes and flushes *)
Lemma durable_writes w bf c f since buf off :
  durable w bf c f since -> write_ok bs nb (off, buf) ->
  exists w' bf' b, bf_WriteBlocks w bf buf off = Ret (w', bf', len buf / bs, None, b) /\
    durable w' bf' (write_content bs c (off, buf)) f (since ++ [(off, buf, len (active_file w' bf'))]).
Proof.
  intros (ts & ls & a & N & C & l & ws0 & [Hi Hc Hl Hs HC Hf]) Hw.
  destruct (active_log _ _ _ _ _ _ _ Hi) as (l0 & ws & Hl0 & Hn & _ & _ & Hh). rewrite Hl in Hl0. injection Hl0 as <-.
  destruct (written_since_write bs nb ltac:(lia) ltac:(nia) ws0 since l off buf Hs Hw) as (l' & E & Hn' & Hs').
  assert (Hnew : write_content bs (C a) (off, buf) = writes_content bs (ws0 ++ (since ++ [(off, buf, len (wl_file l'))]).*1)).
  { rewrite HC, fmap_app, app_assoc. unfold writes_content. by rewrite (fold_left_app _ (ws0 ++ _)). }
  destruct (dev_inv_write bs nb Hbs Hnb w bf ts ls a N C l l' buf off Hi Hw Hl E) as (w' & bf' & b & Ew & Hh' & Hi').
  { exists l'. eexists. rewrite lookup_insert_eq. split; [done|]. split; [by rewrite Hn'|]. split; [exact Hnew|].
    left. split; [apply Hs'|done]. }
  exists w', bf', b. split; [done|]. assert (Hl' : w_heap w' !! a = Some (OLog l')) by (by rewrite Hh', lookup_insert_eq).
  destruct (active_file_log _ _ _ _ _ _ _ l' Hi' Hl') as (-> & _). pose proof (active_apart _ _ _ _ _ _ _ Hi) as Hna.
  exists ts, ls, a, N, (<[a := write_content bs (C a) (off, buf)]> C), l', ws0. split; try done.
  - intros k. rewrite layers_write by done. apply write_content_ext. by rewrite Hc, layers_same.
  - by rewrite fn_lookup_insert.
  - intros k. rewrite Hf, !layers_active by done. by rewrite fmap_insert_notin by (by rewrite elem_of_reverse).
Qed.

Lemma flush_all_app (h : gmap positive (obj F T G)) xs ys : flush_all h (xs ++ ys) = (h ← flush_all h xs; flush_all h ys).
Proof.
  revert h. induction xs as [|x xs IH]; intros h; [done|]. cbn [app flush_all]. destruct (call h x tw_Flush) as [[h1 e]| |]; cbn; auto.
Qed.

Lemma durable_flushes w bf c f since :
  durable w bf c f since -> exists w', bf_Flush w bf = Ret (w', None) /\ durable w' bf c c [].
Proof.
  intros (ts & ls & a & N & C & l & ws0 & [Hi Hc Hl Hs HC Hf]). pose proof (active_apart _ _ _ _ _ _ _ Hi) as Hna.
  pose proof Hi as [Hsz Htg Hfi Hm Hsv Htk [Ha Hp Hct]].
  destruct (flush_all_ok bs nb _ _ _ _ _ _ _ _ (ls ++ [a]) _ Hfi) as (h' & E & Hf' & _); [done|].
  assert (exists l', h' !! a = Some (OLog l') /\ written_since bs nb (ws0 ++ since.*1) [] l') as (l' & Hl' & Hs').
  { destruct (flush_all_ok bs nb _ _ _ _ _ _ _ _ ls _ Hfi) as (h1 & E1 & _ & Hk1); [intros q Hq; set_solver|].
    rewrite flush_all_app, E1 in E. cbn [mbind outcome_bind flush_all] in E. unfold call in E.
    rewrite Hk1, Hl in E by set_solver. cbn [of_option mbind outcome_bind tw_Flush obj_tracked on_log] in E.
    destruct (wl_Flush l) as [l' e] eqn:Ef. injection E as <-. exists l'. split; [apply lookup_insert_eq|].
    by eapply (written_since_flush bs nb). }
  unfold bf_Flush, wt_Flush, flush_list. rewrite Ha, Hp, E. cbn [mbind outcome_bind]. eexists. split; [done|].
  exists ts, ls, a, N, C, l', (ws0 ++ since.*1). split; try done.
  - by rewrite app_nil_r.
  - intros k. by rewrite <- HC, layers_same.
Qed.

(** ** A loss of power *)
Lemma layers_writes C ts ls (a : positive) ws : forall c f k,
  (a ∉ ts ++ ls) -> (forall k, f k = layers (<[a := c]> C) ts ls a k) ->
  fold_left (write_content bs) ws f k = layers (<[a := fold_left (write_content bs) ws c]> C) ts ls a k.
Proof.
  induction ws as [|x ws IH]; intros c f k Hn Hf; [apply Hf|]. cbn [fold_left]. apply IH; [done|].
  intros j. rewrite layers_write by done. apply write_content_ext, Hf.
Qed.

Lemma durable_prefix w bf c f since k : durable w bf c f since -> survivors k since `prefix_of` since.*1.
Proof. intros (ts & ls & a & N & C & l & ws0 & Hd). eapply survivors_prefix, (wsi_sizes _ _ _ _ _ (di_since _ _ _ _ _ _ _ _ _ _ _ _ Hd)). Qed.

(** The cut log opens, and what the device then has. *)
Lemma durable_cut_opens w bf c f since ts ls a N C l ws0 k :
  durable_inv w bf c f since ts ls a N C l ws0 ->
  0 <= k <= len (active_file w bf) -> active_synced w bf <= k -> clean_cut k since ->
  no_footer (take (Z.to_nat k) (active_file w bf)) ->
  let ws := ws0 ++ survivors k since in
  file_opens (F := F) (T := T) (G := G) bs nb (take (Z.to_nat k) (active_file w bf)) ws /\
  forall j, fold_left (write_content bs) (survivors k since) f j = layers (<[a := writes_content bs ws]> C) ts ls a j.
Proof.
  intros [Hi Hc Hl Hs HC Hf] Hk Hsy Hcl Hnf ws. destruct (active_file_log _ _ _ _ _ _ _ l Hi Hl) as (Ef & Es & _).
  rewrite Ef, Es in *. split; [by apply (written_since_cut bs nb ltac:(lia) ltac:(lia) ltac:(nia))|].
  intros j. rewrite (layers_writes C ts ls a _ (writes_content bs ws0) f j (active_apart _ _ _ _ _ _ _ Hi) Hf).
  unfold writes_content, ws. by rewrite fold_left_app.
Qed.

Lemma durable_cut w bf c f since k :
  durable w bf c f since -> Z.of_nat (length (md_DataFiles (bf_meta bf))) <= 2 ^ 15 + 2 ->
  0 <= k <= len (active_file w bf) -> active_synced w bf <= k -> clean_cut k since ->
  no_footer (take (Z.to_nat k) (active_file w bf)) ->
  described (F := F) (T := T) (G := G) bs nb (power_cut w bf k) (fold_left (write_content bs) (survivors k since) f).
Proof.
  intros (ts & ls & a & N & C & l & ws0 & Hd) Hlen Hk Hsy Hcl Hnf.
  destruct (durable_cut_opens w bf c f since ts ls a N C l ws0 k Hd Hk Hsy Hcl Hnf) as [Hopens Hlay].
  pose proof (di_inv _ _ _ _ _ _ _ _ _ _ _ _ Hd) as Hi. pose proof (active_apart _ _ _ _ _ _ _ Hi) as Hna.
  destruct (active_file_log _ _ _ _ _ _ _ l Hi (di_log _ _ _ _ _ _ _ _ _ _ _ _ Hd)) as (_ & _ & En).
  unfold power_cut, cut_active. rewrite En. destruct Hi as [_ _ [Ht Hlg _ Hnd Htn Hln Hsq Hft Hsb] Hm Hsv _ _].
  rewrite Hm in Hsv, Hlen. cbn in Hlen. rewrite entries_length in Hlen.
  set (ws1 := ws0 ++ survivors k since) in *. set (C' := <[a := writes_content bs ws1]> C) in *.
  assert (HC' : forall p, p <> a -> C' p = C p) by (intros p Hp; by apply fn_lookup_insert_ne).
  apply (described_of bs nb _ _ ts (ls ++ [a]) N C'); try done.
  - intros p Hp. rewrite HC' by (intros ->; set_solver). eapply table_at_on, Ht, Hp.
  - intros p [Hp| ->%list_elem_of_singleton]%elem_of_app.
    + rewrite HC' by (intros ->; set_solver). destruct (log_at_on bs nb Hbs Hnb _ _ _ _ _ _ (Hlg p Hp)) as (b & ws & Hb & Ho); [done|].
      exists b, ws. rewrite lookup_insert_ne; [done|]. rewrite fmap_app in Hln. apply NoDup_app in Hln as (_ & Hdis & _).
      intros E. apply (Hdis (N p)); [apply list_elem_of_fmap; eauto|]. rewrite <- E. by left.
    + eexists _, ws1. rewrite lookup_insert_eq. split; [done|]. split; [done|]. by unfold C'; rewrite fn_lookup_insert.
  - intros p Hp. destruct (Hsq p Hp) as (s & ? & ?). exists s. split; [done|lia].
  - intros j. rewrite Hlay. unfold layers. by rewrite app_assoc, reverse_snoc.
Qed.
End flush.
