(* ===== verification/DeviceTheorems.v ===== *)
(** * What the device promises

    The device of [internal/block] as its users see it. The steps are its
    operations, the background compaction, closing and opening it again, and
    crashes: between two operations, and at any state the storage goes through
    during a compaction or while the device is closed. A crash of the process
    leaves all that was written to the storage; a loss of power, between two
    operations or during a compaction, leaves of the active log at least what was
    synced of it. In every
    reachable state reads return what was written, whatever happened in between,
    and every operation succeeds. *)
From S2P Require Import Prelude Radix Bits RangeMap ExtentRangeMap BlockReader StackedBlockReader BlockMap BlockMapLive.
From S2P Require Import BlockMapTheorems GoStd Adaptor WalIndex WalFormat WalWriter WalTheorems WriteLog WriteLogState WriteLogSync.
From S2P Require Import SparseBuilder SparseReader SparseBuildFrom WaitBarrier Tracker TrackerWriter.
From S2P Require Import DataFile Storage Metadata Decimal Device DeviceInv DeviceDisk DeviceClose.
From S2P Require Import DeviceRotate DeviceCompact DeviceReplace DeviceCompaction DeviceFlush.
From stdpp Require Import strings functions sorting list relations.
Local Open Scope Z_scope.

Section theorems.
Context {F : Type} `{!LogFile F} `{!LogFileLaws F} `{!Closer F} `{!CloserLaws F} `{!SyncFile F} `{!WalCodec} `{!WalCodecLaws}.
Context {T : Type} `{!RadixTree item it_key T} `{!RadixTreeLaws item it_key T}.
Context {G : Type} `{!Closer G}.
Context `{!HeaderCodec} `{!HeaderCodecLaws} `{!TruncatedReader} `{!TruncatedReaderLaws}.
Context `{!MetadataCodec} `{!MetadataCodecLaws}.
Context {M : Type} `{!RangeMap Z M} `{!RangeMapLaws Z M} {BS : Type} `{!BitSet BS} `{!BitSetLaws BS}.
Context (newFile : F) (newHandle : G) (rnd : nat -> Z) (fuel : nat).
Context (map_order : gmap (option positive) Z -> list (option positive * Z)) (opts : BlockOptions).

Abbreviation bs := (o_BlockSize opts).
Abbreviation nb := (o_NumBlocks opts).
Abbreviation Open := (OpenBlockFileWithOptions (F := F) (T := T) (M := M) (BS := BS) newFile newHandle rnd fuel).
Abbreviation Compact := (compactWriter (F := F) (T := T) (M := M) (BS := BS) newFile newHandle rnd map_order fuel).

(** A device, and the contents that its users expect. [ds_durable] has the
    contents at the last flush and the writes since; it is [None] after the device
    was opened from logs that may not have been synced, and until a compaction has
    replaced them: neither [Close] nor [Flush] of the device opened again syncs
    them. *)
Record dstate := MkDstate {
  ds_world : world F T G;
  ds_device : BlockFile M BS;
  ds_content : content;
  ds_durable : option (content * recent);
}.

(** What becomes of [ds_durable] in a write, a flush, a compaction and a crash of
    the process. *)
Definition durable_write (d : option (content * recent)) (x : Z * bytes) (w' : world F T G) (bf' : BlockFile M BS) :
    option (content * recent) :=
  '(f, since) ← d; Some (f, since ++ [(x, len (active_file w' bf'))]).

Definition durable_flush (d : option (content * recent)) (c : content) : option (content * recent) :=
  _ ← d; Some (c, []).

Definition durable_compact (d : option (content * recent)) (c : content) (bf : BlockFile M BS) :
    option (content * recent) :=
  if wt_LogWritten (bf_writerTracker bf) <? bf_TargetTableSize bf then d else Some (c, []).

Definition durable_crash (d : option (content * recent)) (c : content) : option (content * recent) :=
  match d with Some (_, []) => Some (c, []) | _ => None end.

(** The states of the storage during an operation. *)
Definition went_through (w w' : world F T G) (d : directory * directory) : Prop :=
  exists l, w_past w' = w_past w ++ l /\ d ∈ l.

Definition can_compact (s : dstate) : Prop :=
  room (ds_device s) /\ names_left rnd fuel (ds_world s) /\ active_closable (ds_world s) (ds_device s).

Definition can_close (s : dstate) : Prop :=
  room (ds_device s) /\ active_closable (ds_world s) (ds_device s).

(** The file of the active log does not end like a closed one. *)
Definition crash_safe (s : dstate) : Prop :=
  room (ds_device s) /\ no_footer (active_file (ds_world s) (ds_device s)).

(** Power is lost with [k] bytes of the active log on the storage: they do not end
    like a closed log, nor inside the offset field of an entry. *)
Definition power_safe (w : world F T G) (bf : BlockFile M BS) (since : recent) (k : Z) : Prop :=
  room bf /\ 0 <= k <= len (active_file w bf) /\ active_synced w bf <= k /\ clean_cut k since /\
  no_footer (take (Z.to_nat k) (active_file w bf)).

(** Power is lost at the state [d0] of the storage during a compaction, which
    leaves [d]. The first two changes are the creation of the new log and the
    metadata that lists it; the third is that the old log is closed and synced. *)
Definition power_during (w : world F T G) (bf : BlockFile M BS) (w1 : world F T G) (f : content) (since : recent) (k : Z)
    (c : content) (d0 d : directory * directory) (c' : content) : Prop :=
  exists l, w_past w1 = w_past w ++ l /\
    (d0 ∈ take 2 l /\ d = cut_active w bf k d0 /\ c' = fold_left (write_content bs) (survivors k since) f \/
     d0 ∈ drop 2 l /\ d = d0 /\ c' = c).

Definition can_open (d : directory * directory) : Prop :=
  names_left rnd fuel (crashed d : world F T G).

Inductive dev_step : dstate -> dstate -> Prop :=
  | step_write w bf c u buf off w' bf' n b :
      write_ok bs nb (off, buf) -> bf_WriteBlocks w bf buf off = Ret (w', bf', n, None, b) ->
      dev_step (MkDstate w bf c u)
               (MkDstate w' bf' (write_content bs c (off, buf)) (durable_write u (off, buf) w' bf'))
  | step_flush w bf c u w' err :
      bf_Flush w bf = Ret (w', err) -> dev_step (MkDstate w bf c u) (MkDstate w' bf c (durable_flush u c))
  | step_compact w bf c u w' bf' :
      can_compact (MkDstate w bf c u) -> Compact w bf = Ret (w', bf') ->
      dev_step (MkDstate w bf c u) (MkDstate w' bf' c (durable_compact u c bf))
  | step_reopen w bf c u w1 bf1 err w' bf' :
      can_close (MkDstate w bf c u) -> bf_Close w bf = Ret (w1, bf1, err) -> can_open (disk_of w1) ->
      Open (crashed (disk_of w1)) opts = Ret (w', inl bf') -> dev_step (MkDstate w bf c u) (MkDstate w' bf' c None)
  | step_crash w bf c u w' bf' :
      crash_safe (MkDstate w bf c u) -> can_open (disk_of w) ->
      Open (crashed (disk_of w)) opts = Ret (w', inl bf') ->
      dev_step (MkDstate w bf c u) (MkDstate w' bf' c (durable_crash u c))
  | step_crash_compact w bf c u w1 bf1 d w' bf' :
      can_compact (MkDstate w bf c u) -> crash_safe (MkDstate w bf c u) -> Compact w bf = Ret (w1, bf1) ->
      went_through w w1 d -> can_open d ->
      Open (crashed d) opts = Ret (w', inl bf') -> dev_step (MkDstate w bf c u) (MkDstate w' bf' c None)
  | step_crash_close w bf c u w1 bf1 err d w' bf' :
      can_close (MkDstate w bf c u) -> bf_Close w bf = Ret (w1, bf1, err) -> went_through w w1 d -> can_open d ->
      Open (crashed d) opts = Ret (w', inl bf') -> dev_step (MkDstate w bf c u) (MkDstate w' bf' c None)
  | step_power w bf c f since k w' bf' c' :
      power_safe w bf since k -> can_open (power_cut w bf k) ->
      Open (crashed (power_cut w bf k)) opts = Ret (w', inl bf') ->
      c' = fold_left (write_content bs) (survivors k since) f ->
      dev_step (MkDstate w bf c (Some (f, since))) (MkDstate w' bf' c' (Some (c', [])))
  | step_power_compact w bf c f since k w1 bf1 d0 d w' bf' c' :
      can_compact (MkDstate w bf c (Some (f, since))) -> crash_safe (MkDstate w bf c (Some (f, since))) ->
      power_safe w bf since k -> Compact w bf = Ret (w1, bf1) -> power_during w bf w1 f since k c d0 d c' -> can_open d ->
      Open (crashed d) opts = Ret (w', inl bf') ->
      dev_step (MkDstate w bf c (Some (f, since))) (MkDstate w' bf' c' (Some (c', []))).

(** Calls of [WriteBlocks] one after the other, with the length of the file of the
    active log after each. *)
Fixpoint write_all (w : world F T G) (bf : BlockFile M BS) (ws : list (Z * bytes)) (since : recent) :
    outcome (world F T G * BlockFile M BS * recent) :=
  match ws with
  | [] => Ret (w, bf, since)
  | (off, buf) :: ws =>
      r ← bf_WriteBlocks w bf buf off;
      let '(w, bf, _, err, _) := r in
      match err with
      | Some _ => Ret (w, bf, since)
      | None => write_all w bf ws (since ++ [(off, buf, len (active_file w bf))])
      end
  end.

(** A new device: opened on an empty storage. *)
Definition new_device (s : dstate) : Prop :=
  Open (crashed (∅, ∅)) opts = Ret (ds_world s, inl (ds_device s)) /\ ds_content s = (fun _ => None) /\
  ds_durable s = Some (fun _ => None, []).

Definition reachable (s : dstate) : Prop := exists s0, new_device s0 /\ rtc dev_step s0 s.

(** What the parameters of the model are supposed to be. *)
Record setting : Prop := {
  se_options : valid_options opts = true;
  se_blocks : 0 < nb < 2 ^ 28;
  se_file : io_reliable newFile /\ io_out newFile = [];
  se_order m : map_order m ≡ₚ map_to_list m;
  se_names : names_left rnd fuel (crashed (∅, ∅) : world F T G);
}.

(** ** Every step keeps the device *)
Context (Hset : setting).

Lemma options_bs : 512 <= bs <= 1024 * 1024.
Proof.
  pose proof (se_options Hset) as Hv. unfold valid_options in Hv. rewrite !andb_true_iff, !negb_true_iff in Hv.
  destruct Hv as (((Hv1 & _) & _) & _). apply orb_false_iff in Hv1 as [H1'%Z.ltb_ge H2'%Z.ltb_ge].
  unfold MinBlockSize, MaxBlockSize in *. lia.
Qed.

Abbreviation dev := (device (F := F) (T := T) (G := G) (M := M) (BS := BS) bs nb).
Abbreviation rec := (recoverable (F := F) (T := T) (G := G) bs nb).

(** What holds of a device and of what is durable of it. *)
Definition keeps (s : dstate) : Prop :=
  match ds_durable s with
  | Some (f, since) => durable bs nb (ds_world s) (ds_device s) (ds_content s) f since
  | None => dev (ds_world s) (ds_device s) (ds_content s)
  end.

Lemma keeps_device s : keeps s -> dev (ds_world s) (ds_device s) (ds_content s).
Proof. unfold keeps. destruct (ds_durable s) as [[f since]|]; [apply durable_device|done]. Qed.

Lemma keeps_fresh w bf c u : dev w bf c -> active_file w bf = [] -> u = Some (c, []) \/ u = None -> keeps (MkDstate w bf c u).
Proof. intros Hd He [->| ->]; [by apply durable_fresh|done]. Qed.

Lemma open_ok d c : rec d c -> can_open d ->
  exists w bf, Open (crashed d) opts = Ret (w, inl bf) /\ dev w bf c /\ active_file w bf = [].
Proof.
  intros Hr Hn. apply (recoverable_opens bs nb); [apply options_bs|apply Hset|apply Hset|done| |done].
  split; [apply Hset|done].
Qed.

Lemma open_empty : exists w bf, Open (crashed (∅, ∅)) opts = Ret (w, inl bf) /\ dev w bf (fun _ => None) /\ active_file w bf = [].
Proof. apply open_ok; [|apply Hset]. left. split; [|done]. reflexivity. Qed.

Lemma compact_steps w bf c u :
  keeps (MkDstate w bf c u) -> can_compact (MkDstate w bf c u) ->
  exists w' bf', Compact w bf = Ret (w', bf') /\ keeps (MkDstate w' bf' c (durable_compact u c bf)) /\
    (crash_safe (MkDstate w bf c u) -> forall d, went_through w w' d -> rec d c).
Proof.
  intros Hk (Hr & Hn & Hc). destruct (keeps_device _ Hk) as (pts & pls & a & N & C & Hinv & Hlay). cbn in Hinv, Hlay.
  destruct (compactWriter_ok bs nb options_bs (se_blocks Hset) map_order (se_order Hset) newHandle newFile rnd (se_file Hset)
    fuel w bf pts pls a N C c Hinv Hlay Hr Hn Hc) as (w' & bf' & E & Hd' & Hfresh & Hps & _).
  exists w', bf'. split; [done|]. split.
  { unfold durable_compact. destruct (wt_LogWritten _ <? _); [by destruct Hfresh as [-> ->]|]. apply keeps_fresh; auto. }
  intros [_ Hnf] d (l & El & Hl).
  destruct (Hps Hnf) as (l' & El' & Hall). rewrite El in El'. apply app_inv_head in El' as ->.
  rewrite Forall_forall in Hall. right. auto.
Qed.

Lemma close_steps w bf c u :
  dev w bf c -> can_close (MkDstate w bf c u) ->
  exists w' bf', bf_Close w bf = Ret (w', bf', None) /\ rec (disk_of w') c /\ forall d, went_through w w' d -> rec d c.
Proof.
  intros Hd ([Hr _] & Hc). destruct (device_closes bs nb options_bs (se_blocks Hset) w bf c Hd Hc) as (w' & bf' & E & Hdesc & Hps).
  { cbn in Hr. lia. }
  exists w', bf'. split; [done|]. split; [by right|]. intros d (l & El & Hl).
  destruct Hps as (l' & El' & Hall). rewrite El in El'. apply app_inv_head in El' as ->.
  rewrite Forall_forall in Hall. right. auto.
Qed.

Lemma crash_recovers w bf c u : dev w bf c -> crash_safe (MkDstate w bf c u) -> rec (disk_of w) c.
Proof.
  intros Hd [[Hr _] Hnf]. right. apply (device_described bs nb options_bs (se_blocks Hset) w bf c Hd); [|done].
  cbn in Hr. lia.
Qed.

Lemma power_recovers w bf c f since k :
  durable bs nb w bf c f since -> power_safe w bf since k ->
  rec (power_cut w bf k) (fold_left (write_content bs) (survivors k since) f).
Proof.
  intros Hd ([Hr _] & Hk & Hsy & Hcl & Hnf). right.
  apply (durable_cut bs nb options_bs (se_blocks Hset) w bf c f since k Hd); try done. cbn in Hr. lia.
Qed.

Lemma compact_power_recovers w bf c f since k w1 bf1 d0 d c' :
  durable bs nb w bf c f since -> can_compact (MkDstate w bf c (Some (f, since))) ->
  crash_safe (MkDstate w bf c (Some (f, since))) -> power_safe w bf since k -> Compact w bf = Ret (w1, bf1) ->
  power_during w bf w1 f since k c d0 d c' -> rec d c'.
Proof.
  intros Hd Hcc Hcs (_ & Hk & Hsy & Hcl & Hnf) E (l & El & [(Hd0 & -> & ->)|(Hd0 & -> & ->)]).
  - destruct Hd as (ts & ls & a & N & C & l0 & ws0 & Hd). destruct Hcc as (Hr & Hn & Hc).
    pose proof (di_inv _ _ _ _ _ _ _ _ _ _ _ _ _ _ Hd) as Hi.
    destruct (compactWriter_ok bs nb options_bs (se_blocks Hset) map_order (se_order Hset) newHandle newFile rnd (se_file Hset)
      fuel w bf ts ls a N C c Hi (di_content _ _ _ _ _ _ _ _ _ _ _ _ _ _ Hd) Hr Hn Hc) as (w' & bf' & E' & _ & _ & _ & l' & El' & Hcut).
    rewrite E in E'. injection E' as <- <-. rewrite El in El'. apply app_inv_head in El' as <-.
    destruct (durable_cut_opens bs nb options_bs (se_blocks Hset) w bf c f since ts ls a N C l0 ws0 k Hd Hk Hsy Hcl Hnf) as [Ho Hlay].
    destruct (active_file_log bs nb _ _ _ _ _ _ _ l0 Hi (di_log _ _ _ _ _ _ _ _ _ _ _ _ _ _ Hd)) as (_ & _ & En).
    right. unfold cut_active. rewrite En. by eapply Hcut.
  - destruct (compact_steps w bf c (Some (f, since)) Hd Hcc) as (w' & bf' & E' & _ & Hr). rewrite E in E'. injection E' as <- <-.
    apply Hr; [done|]. exists l. split; [done|]. rewrite <- (take_drop 2 l). set_solver.
Qed.

Lemma open_again d c w' bf' u :
  rec d c -> can_open d -> Open (crashed d) opts = Ret (w', inl bf') -> u = Some (c, []) \/ u = None ->
  keeps (MkDstate w' bf' c u).
Proof.
  intros Hr Hn E Hu. destruct (open_ok d c Hr Hn) as (w & bf & E' & Hd & He). rewrite E in E'. injection E' as -> ->.
  by apply keeps_fresh.
Qed.

Lemma keeps_write w bf c u buf off :
  keeps (MkDstate w bf c u) -> write_ok bs nb (off, buf) ->
  exists w' bf' b, bf_WriteBlocks w bf buf off = Ret (w', bf', len buf / bs, None, b) /\
    keeps (MkDstate w' bf' (write_content bs c (off, buf)) (durable_write u (off, buf) w' bf')).
Proof.
  intros Hk Hw. destruct u as [[f since]|].
  - apply (durable_writes bs nb options_bs (se_blocks Hset) w bf c f since buf off Hk Hw).
  - apply (device_writes bs nb options_bs (se_blocks Hset) w bf c buf off Hk Hw).
Qed.

Lemma keeps_flush w bf c u :
  keeps (MkDstate w bf c u) -> exists w', bf_Flush w bf = Ret (w', None) /\ keeps (MkDstate w' bf c (durable_flush u c)).
Proof.
  intros Hk. destruct u as [[f since]|].
  - apply (durable_flushes bs nb options_bs (se_blocks Hset) w bf c f since Hk).
  - apply (device_flushes bs nb w bf c Hk).
Qed.

Lemma dev_step_keeps s s' : dev_step s s' -> keeps s -> keeps s'.
Proof.
  intros Hst Hk. pose proof (keeps_device _ Hk) as Hd. revert Hk Hd.
  destruct Hst as [w bf c u buf off w' bf' n b Hw E|w bf c u w' err E|w bf c u w' bf' Hcc E|w bf c u w1 bf1 err w' bf' Hcc E Hn E'
         |w bf c u w' bf' Hcs Hn E|w bf c u w1 bf1 d w' bf' Hcc Hcs E Hthr Hn E'|w bf c u w1 bf1 err d w' bf' Hcc E Hthr Hn E'
         |w bf c f since k w' bf' c' Hps Hn E ->|w bf c f since k w1 bf1 d0 d w' bf' c' Hcc Hcs Hps E Hdur Hn E']; intros Hk Hd; cbn in Hd.
  - destruct (keeps_write w bf c u buf off Hk Hw) as (w2 & bf2 & b2 & E2 & Hk2). rewrite E in E2. by injection E2 as -> -> -> ->.
  - destruct (keeps_flush w bf c u Hk) as (w2 & E2 & Hk2). rewrite E in E2. by injection E2 as -> ->.
  - destruct (compact_steps w bf c u Hk Hcc) as (w2 & bf2 & E2 & Hk2 & _). rewrite E in E2. by injection E2 as -> ->.
  - destruct (close_steps w bf c u Hd Hcc) as (w2 & bf2 & E2 & Hr & _). rewrite E in E2. injection E2 as -> -> ->.
    eapply open_again; eauto.
  - eapply open_again; [by eapply crash_recovers|done|done|]. destruct u as [[f [|]]|]; cbn; auto.
  - destruct (compact_steps w bf c u Hk Hcc) as (w2 & bf2 & E2 & _ & Hr). rewrite E in E2. injection E2 as -> ->.
    eapply open_again; eauto.
  - destruct (close_steps w bf c u Hd Hcc) as (w2 & bf2 & E2 & _ & Hr). rewrite E in E2. injection E2 as -> -> ->.
    eapply open_again; eauto.
  - eapply open_again; [eapply power_recovers; [exact Hk|exact Hps]|done|done|by left].
  - eapply open_again; [|done|done|by left]. eapply compact_power_recovers; [exact Hk|exact Hcc|exact Hcs|exact Hps|exact E|exact Hdur].
Qed.

Lemma reachable_keeps s : reachable s -> keeps s.
Proof.
  intros (s0 & (E & Hc0 & Hu0) & Hrtc). eapply (rtc_invariant _ keeps); [| |exact Hrtc].
  - intros s1 s2 Hd Hst. by eapply dev_step_keeps.
  - destruct open_empty as (w & bf & E' & Hd & He). destruct s0 as [w0 bf0 c0 u0]. cbn in *. subst.
    rewrite E in E'. injection E' as -> ->. apply keeps_fresh; auto.
Qed.

Lemma reachable_device s : reachable s -> dev (ds_world s) (ds_device s) (ds_content s).
Proof. intros Hs. by apply keeps_device, reachable_keeps. Qed.



Lemma write_all_durable ws : forall w bf c f since,
  durable bs nb w bf c f since -> Forall (write_ok bs nb) ws ->
  exists w' bf' since', write_all w bf ws since = Ret (w', bf', since') /\ since'.*1 = since.*1 ++ ws /\
    durable bs nb w' bf' (fold_left (write_content bs) ws c) f since'.
Proof.
  induction ws as [|[off buf] ws IH]; intros w bf c f since Hd Hws; [exists w, bf, since; by rewrite app_nil_r|].
  apply Forall_cons in Hws as [Hw Hws].
  destruct (durable_writes bs nb options_bs (se_blocks Hset) w bf c f since buf off Hd Hw) as (w1 & bf1 & b & E & Hd1).
  cbn [write_all]. rewrite E. cbn [mbind outcome_bind]. destruct (IH _ _ _ _ _ Hd1 Hws) as (w2 & bf2 & since2 & E2 & Hs2 & Hd2).
  exists w2, bf2, since2. split; [done|]. split; [|done]. by rewrite Hs2, fmap_app, <- app_assoc.
Qed.

End theorems.
