(* ===== verification/ByteDevice.v ===== *)
(** * The device as a file of bytes

    What [cmd/logblock/main.go] hands to the NBD server:
    [adaptor.NewReadWriter(bf, blockSize)], a reader and writer of bytes over the
    block device. [BlockFile] has [Flush], so that it is a
    [flushableReadWriter]. *)
From S2P Require Import Prelude Radix Bits RangeMap ExtentRangeMap BlockReader StackedBlockReader BlockMap BlockMapLive.
From S2P Require Import GoStd Adaptor WalIndex WalFormat WalWriter WalTheorems WriteLog WriteLogState WriteLogSync.
From S2P Require Import SparseBuilder SparseReader SparseBuildFrom WaitBarrier Tracker TrackerWriter.
From S2P Require Import DataFile Storage Metadata Decimal Device DeviceInv DeviceDisk DeviceTheorems.
From stdpp Require Import strings functions sorting list relations.
Local Open Scope Z_scope.

(** ** Reading bytes through blocks *)
Section byte_reads.
Context (bs nb : Z) (Hbs : 0 < bs) (Hnb : 0 <= nb).

(** A block reader of the whole device. *)
Definition reads_image (rb : bytes -> Z -> outcome (bytes * Z * option error)) (c : content) : Prop :=
  forall buf off n, 0 <= off -> 0 <= n -> len buf = n * bs ->
  let m := Z.max 0 (Z.min n (nb - off)) in
  rb buf off = Ret (filled bs (image bs c) buf off m, m, if m <? n then Some EOF else None).

Definition block_aligned (off n : Z) : bool := (n mod bs =? 0) && (off mod bs =? 0).

(** The error of a read that returns [m] of [n] bytes. An unaligned read reports
    [io.EOF] only when it returns nothing. *)
Definition read_error (off n m : Z) : option error :=
  if block_aligned off n then if m <? n then Some EOF else None
  else if (m =? 0) && negb (n =? 0) then Some EOF else None.

Lemma filled_bytes c buf off m :
  blocks_sized bs c -> 0 <= m ->
  filled bs (image bs c) buf off m = read_bytes bs c (off * bs) (m * bs) ++ drop (Z.to_nat (m * bs)) buf.
Proof. intros Hs Hm. unfold filled. by rewrite read_image_bytes. Qed.

Lemma aligned_read_ok rb c p off :
  reads_image rb c -> blocks_sized bs c -> 0 <= off -> block_aligned off (len p) = true ->
  let m := Z.max 0 (Z.min (len p) (nb * bs - off)) in
  ar_ReadAt rb bs p off =
  Ret (read_bytes bs c off m ++ drop (Z.to_nat m) p, m, if m <? len p then Some EOF else None).
Proof.
  intros Hrb Hs Ho Ha m. unfold ar_ReadAt. rewrite (proj2 (Z.ltb_ge off 0)) by lia.
  rewrite <- negb_andb. unfold block_aligned in Ha. rewrite Ha. cbn [negb].
  apply andb_true_iff in Ha as [Hp%Z.eqb_eq Hq%Z.eqb_eq].
  pose proof (Z.div_mod (len p) bs ltac:(lia)) as Hlp. pose proof (Z.div_mod off bs ltac:(lia)) as Hoff.
  pose proof (len_nonneg p). rewrite Hp, Z.add_0_r in Hlp. rewrite Hq, Z.add_0_r in Hoff.
  pose proof (Z.div_pos off bs Ho Hbs). pose proof (Z.div_pos (len p) bs ltac:(lia) Hbs).
  rewrite (Hrb p (off / bs) (len p / bs)) by lia. cbn [mbind outcome_bind].
  set (k := Z.max 0 _). assert (Hk : k * bs = m) by (unfold k, m; nia).
  rewrite filled_bytes by (done || lia). rewrite Hk. replace (off / bs * bs) with off by lia.
  do 2 f_equal. destruct (Z.ltb_spec k (len p / bs)), (Z.ltb_spec m (len p)); try done; nia.
Qed.

(** What is left of a buffer of [K] bytes after [Next(d)]. *)
Lemma buffer_read_bytes c o K d p :
  0 <= K -> 0 <= d ->
  let m := Z.max 0 (Z.min (len p) (K - d)) in
  buffer_Read (buffer_Next (read_bytes bs c o K) d) p =
  (read_bytes bs c (o + d) m ++ drop (Z.to_nat m) p, m, if (m =? 0) && negb (len p =? 0) then Some EOF else None).
Proof.
  intros HK Hd m. pose proof (len_nonneg p). unfold buffer_Read, buffer_Next.
  assert (Hlen : len (drop (Z.to_nat d) (read_bytes bs c o K)) = Z.max 0 (K - d)).
  { unfold len, read_bytes. rewrite length_drop, length_fmap, length_seqZ. lia. }
  rewrite Hlen. destruct (Z.eqb_spec (len p) 0) as [H0|H0]; cbn [negb]; rewrite ?andb_false_r, ?andb_true_r.
  - assert (m = 0) as -> by lia. rewrite Z.min_l by lia. by rewrite H0.
  - destruct (Z.le_gt_cases K d) as [Hle|Hle].
    + assert (m = 0) as -> by lia. by rewrite Z.max_l by lia.
    + rewrite Z.max_r, (proj2 (Z.eqb_neq (K - d) 0)), (proj2 (Z.eqb_neq m 0)) by lia.
      replace (Z.min (len p) (K - d)) with m by lia. rewrite drop_read_bytes, take_read_bytes by lia. done.
Qed.

(** The bytes that the blocks of an unaligned read have of it. *)
Lemma read_span off n :
  0 <= off -> 0 <= n ->
  Z.max 0 (Z.min n (Z.max 0 (Z.min ((off + n + bs - 1) / bs - off / bs) (nb - off / bs)) * bs - off mod bs)) =
  Z.max 0 (Z.min n (nb * bs - off)).
Proof.
  intros Ho Hn. pose proof (Z.div_mod off bs ltac:(lia)). pose proof (Z.mod_pos_bound off bs Hbs).
  pose proof (Z.div_mod (off + n + bs - 1) bs ltac:(lia)).
  pose proof (Z.mod_pos_bound (off + n + bs - 1) bs Hbs).
  set (e := (off + n + bs - 1) / bs) in *. set (o := off / bs) in *.
  assert (off + n <= e * bs) by nia. destruct (Z.le_gt_cases nb o) as [Hle|Hle].
  - rewrite (Z.max_l 0 (Z.min (e - o) (nb - o))) by lia. assert (nb * bs <= o * bs) by nia. lia.
  - destruct (Z.le_gt_cases e nb) as [Hen|Hen].
    + assert (o <= e) by nia. assert (Z.max 0 (Z.min (e - o) (nb - o)) = e - o) as -> by lia.
      assert (e * bs <= nb * bs) by nia. lia.
    + assert (Z.max 0 (Z.min (e - o) (nb - o)) = nb - o) as -> by lia. assert (nb * bs - off = (nb - o) * bs - off mod bs) by lia. lia.
Qed.

Lemma unaligned_read_ok rb c p off :
  reads_image rb c -> blocks_sized bs c -> 0 <= off -> block_aligned off (len p) = false ->
  let m := Z.max 0 (Z.min (len p) (nb * bs - off)) in
  ar_ReadAt rb bs p off =
  Ret (read_bytes bs c off m ++ drop (Z.to_nat m) p, m, if (m =? 0) && negb (len p =? 0) then Some EOF else None).
Proof.
  intros Hrb Hs Ho Ha m. unfold ar_ReadAt. rewrite (proj2 (Z.ltb_ge off 0)) by lia.
  rewrite <- negb_andb. unfold block_aligned in Ha. rewrite Ha. cbn [negb].
  pose proof (Z.div_mod off bs ltac:(lia)) as Hoff. pose proof (Z.mod_pos_bound off bs Hbs).
  pose proof (len_nonneg p). pose proof (Z.div_pos off bs Ho Hbs).
  set (e := (off + len p + bs - 1) / bs). assert (He : off + len p <= e * bs).
  { pose proof (Z.div_mod (off + len p + bs - 1) bs ltac:(lia)).
    pose proof (Z.mod_pos_bound (off + len p + bs - 1) bs Hbs). unfold e. nia. }
  assert (Hn : 0 <= e - off / bs) by nia.
  rewrite (Hrb (zeros _) (off / bs) (e - off / bs)) by (first [lia|by rewrite len_zeros by nia]).
  cbn [mbind outcome_bind]. set (k := Z.max 0 _).
  assert (Hk : 0 <= k * bs <= (e - off / bs) * bs) by (unfold k; nia).
  rewrite filled_bytes by (done || lia).
  set (q := read_bytes bs c (off / bs * bs) (k * bs) ++ _).
  assert (Hsl : slice_to q (k * bs) = Ret (read_bytes bs c (off / bs * bs) (k * bs))).
  { unfold q. rewrite slice_to_ok.
    - by rewrite take_len_eq by (apply len_read_bytes; lia).
    - rewrite len_app, len_read_bytes by lia. pose proof (len_nonneg (drop (Z.to_nat (k * bs)) (zeros ((e - off / bs) * bs)))). lia. }
  assert (forall err : option error, err = None \/ err = Some EOF ->
    match err with
    | Some EOF | None => readBuffer ← slice_to q (k * bs); Ret (buffer_Read (buffer_Next readBuffer (off mod bs)) p)
    | Some e => Ret (p, 0, Some e)
    end = Ret (buffer_Read (buffer_Next (read_bytes bs c (off / bs * bs) (k * bs)) (off mod bs)) p)) as Hm.
  { intros err [-> | ->]; by rewrite Hsl. }
  rewrite Hm by (destruct (k <? e - off / bs); auto). rewrite buffer_read_bytes by lia.
  unfold k, e. rewrite read_span by lia. by replace (off / bs * bs + off mod bs) with off by lia.
Qed.

(** [Reader.ReadAt] over such a reader: the bytes of the device up to its end. *)
Lemma read_at_bytes rb c p off :
  reads_image rb c -> blocks_sized bs c -> 0 <= off ->
  let m := Z.max 0 (Z.min (len p) (nb * bs - off)) in
  ar_ReadAt rb bs p off = Ret (read_bytes bs c off m ++ drop (Z.to_nat m) p, m, read_error off (len p) m).
Proof.
  intros Hrb Hs Ho m. unfold read_error. destruct (block_aligned off (len p)) eqn:Ha.
  - by apply aligned_read_ok.
  - by apply unaligned_read_ok.
Qed.

(** The bytes a write leaves: its own, and the others as they were. *)
Lemma byte_at_write c o b n i :
  len b = n * bs -> 0 <= n ->
  byte_at bs (write_content bs c (o, b)) i =
  if bool_decide (o * bs <= i < o * bs + len b) then default 0 (b !! Z.to_nat (i - o * bs)) else byte_at bs c i.
Proof.
  intros Hl Hn. unfold byte_at, image, write_content. cbn [fst snd].
  pose proof (Z.div_mod i bs ltac:(lia)) as Hi. pose proof (Z.mod_pos_bound i bs Hbs) as Hmi.
  rewrite Hl, Z.div_mul by lia.
  rewrite (bool_decide_ext (o <= i / bs < o + n) (o * bs <= i < o * bs + n * bs)) by nia.
  case_bool_decide as Hin; [|done]. cbn [default from_option id].
  rewrite lookup_take_lt by lia. pose proof (Z.div_le_lower_bound i bs o Hbs ltac:(lia)).
  assert (0 <= (i / bs - o) * bs) by (apply Z.mul_nonneg_nonneg; lia).
  rewrite lookup_drop, <- Z2Nat.inj_add by lia. do 3 f_equal. lia.
Qed.
End byte_reads.

Section byte_device.
Context {F : Type} `{!LogFile F} `{!LogFileLaws F} `{!Closer F} `{!CloserLaws F} `{!SyncFile F} `{!WalCodec} `{!WalCodecLaws}.
Context {T : Type} `{!RadixTree item it_key T} `{!RadixTreeLaws item it_key T}.
Context {G : Type} `{!Closer G}.
Context `{!HeaderCodec} `{!HeaderCodecLaws} `{!TruncatedReader} `{!TruncatedReaderLaws}.
Context `{!MetadataCodec} `{!MetadataCodecLaws}.
Context {M : Type} `{!RangeMap Z M} `{!RangeMapLaws Z M} {BS : Type} `{!BitSet BS} `{!BitSetLaws BS}.

(** [readWriter.ReadAt], [WriteAt] and [Flush] over a [BlockFile]; the compaction
    that a write can request is a step of its own. *)
Definition rw_ReadAt (blockSize : Z) (w : world F T G) (bf : BlockFile M BS) (b : bytes) (off : Z) :
    outcome (bytes * Z * option error) :=
  ar_ReadAt (bf_ReadBlocks w bf) blockSize b off.

Definition rw_WriteBlocks (s : world F T G * BlockFile M BS) (buf : bytes) (index : Z) :
    outcome (world F T G * BlockFile M BS * Z * option error) :=
  r ← bf_WriteBlocks s.1 s.2 buf index;
  let '(w, bf, n, err, _) := r in Ret (w, bf, n, err).

Definition rw_WriteAt (blockSize : Z) (w : world F T G) (bf : BlockFile M BS) (b : bytes) (off : Z) :
    outcome (world F T G * BlockFile M BS * Z * option error) :=
  Adaptor.WriteAt rw_WriteBlocks blockSize (w, bf) b off.

Definition rw_Flush (w : world F T G) (bf : BlockFile M BS) : outcome (world F T G * option error) :=
  bf_Flush w bf.

Context (newFile : F) (newHandle : G) (rnd : nat -> Z) (fuel : nat).
Context (map_order : gmap (option positive) Z -> list (option positive * Z)) (opts : BlockOptions).

Abbreviation bs := (o_BlockSize opts).
Abbreviation nb := (o_NumBlocks opts).
Abbreviation reach := (reachable (F := F) (T := T) (G := G) (M := M) (BS := BS) newFile newHandle rnd fuel map_order opts).
Context (Hset : setting (F := F) (T := T) (G := G) newFile rnd fuel map_order opts).

Lemma reachable_reads s :
  reach s -> reads_image bs nb (bf_ReadBlocks (ds_world s) (ds_device s)) (ds_content s) /\ blocks_sized bs (ds_content s).
Proof.
  intros Hs. pose proof (reachable_device _ _ _ _ _ _ Hset s Hs) as Hd.
  pose proof (options_bs _ _ _ _ _ Hset) as Hbs. pose proof (se_blocks _ _ _ _ _ Hset) as Hnb.
  split; [|by eapply device_sized]. intros buf off n Ho Hn Hl. by apply device_reads.
Qed.

Lemma reach_write s buf off w' bf' n b :
  reach s -> write_ok bs nb (off, buf) -> bf_WriteBlocks (ds_world s) (ds_device s) buf off = Ret (w', bf', n, None, b) ->
  reach (MkDstate w' bf' (write_content bs (ds_content s) (off, buf)) (durable_write (ds_durable s) (off, buf) w' bf')).
Proof.
  intros (s0 & Hn & Hr) Hw E. exists s0. split; [done|]. eapply rtc_r; [exact Hr|]. destruct s. by eapply step_write.
Qed.

Lemma reach_flush s w' : reach s -> bf_Flush (ds_world s) (ds_device s) = Ret (w', None) ->
  reach (MkDstate w' (ds_device s) (ds_content s) (durable_flush (ds_durable s) (ds_content s))).
Proof.
  intros (s0 & Hn & Hr) E. exists s0. split; [done|]. eapply rtc_r; [exact Hr|]. destruct s. by eapply step_flush.
Qed.

(** C16: the bytes that the NBD server is given. In every reachable state of the
    device a [ReadAt] at any offset, aligned or not, returns the bytes of the
    device from there, as many as there are before its end, and the rest of the
    buffer as it was; an aligned read that passes the end reports [io.EOF], an
    unaligned one only if it returns no byte. A [WriteAt] of whole blocks inside
    the device succeeds and changes exactly the bytes it covers; one that is not
    aligned is refused and changes nothing. [Flush] succeeds and changes no byte. *)
Theorem byte_device_reads_writes s :
  reach s ->
  let w := ds_world s in let bf := ds_device s in let byte := byte_at bs (ds_content s) in
  (forall p off, 0 <= off -> off + len p + bs <= 2 ^ 63 ->
     let m := Z.max 0 (Z.min (len p) (nb * bs - off)) in
     rw_ReadAt bs w bf p off =
     Ret ((byte <$> seqZ off m) ++ drop (Z.to_nat m) p, m, read_error bs off (len p) m)) /\
  (forall b off, block_aligned bs off (len b) = true -> 0 < len b <= MaxWriteSize -> Forall is_byte b ->
     0 <= off -> off + len b <= nb * bs ->
     exists s', rw_WriteAt bs w bf b off = Ret (ds_world s', ds_device s', len b, None) /\ reach s' /\
       forall i, byte_at bs (ds_content s') i =
         if bool_decide (off <= i < off + len b) then default 0 (b !! Z.to_nat (i - off)) else byte i) /\
  (forall b off, 0 <= off -> block_aligned bs off (len b) = false ->
     exists err, rw_WriteAt bs w bf b off = Ret (w, bf, 0, Some err)) /\
  (exists w', rw_Flush w bf = Ret (w', None) /\ reach (MkDstate w' bf (ds_content s) (durable_flush (ds_durable s) (ds_content s)))).
Proof.
  intros Hs w bf byte. pose proof (options_bs _ _ _ _ _ Hset) as Hbs. pose proof (se_blocks _ _ _ _ _ Hset) as Hnb.
  pose proof (reachable_device _ _ _ _ _ _ Hset s Hs) as Hd.
  split; [|split; [|split]].
  - intros p off Ho _ m. destruct (reachable_reads s Hs) as [Hr Hz]. by apply read_at_bytes; [lia|lia| | |].
  - intros b off Ha Hl Hb Ho Hfit. apply andb_true_iff in Ha as [Hp Hq].
    unfold rw_WriteAt, Adaptor.WriteAt. rewrite (proj2 (Z.ltb_ge off 0)), Hp, Hq by lia. cbn [negb].
    apply Z.eqb_eq in Hp, Hq. pose proof (Z.div_mod (len b) bs ltac:(lia)) as Hlb.
    pose proof (Z.div_mod off bs ltac:(lia)) as Hoff. rewrite Hp in Hlb. rewrite Hq in Hoff.
    assert (Hw : write_ok bs nb (off / bs, b)).
    { exists (len b / bs). cbn [fst snd]. repeat split; try done; try lia; try nia. }
    destruct (device_writes bs nb Hbs Hnb _ _ _ b (off / bs) Hd Hw) as (w' & bf' & q & E & _).
    eexists (MkDstate w' bf' _ _). unfold rw_WriteBlocks. cbn [fst snd]. unfold w, bf. rewrite E. cbn [mbind outcome_bind].
    split; [cbn [ds_world ds_device]; do 3 f_equal; lia|]. split; [by eapply reach_write|]. cbn [ds_content].
    intros i. rewrite (byte_at_write bs ltac:(lia) _ _ b (len b / bs)) by lia.
    by replace (off / bs * bs) with off by lia.
  - intros b off Ho Ha. unfold rw_WriteAt, Adaptor.WriteAt. rewrite (proj2 (Z.ltb_ge off 0)) by lia.
    unfold block_aligned in Ha. destruct (len b mod bs =? 0); [|by eexists]. cbn [andb] in Ha. rewrite Ha. by eexists.
  - destruct (device_flushes bs nb _ _ _ Hd) as (w' & E & _). exists w'. split; [done|]. by apply reach_flush.
Qed.
End byte_device.
