(* ===== verification/DeviceExample.v ===== *)
(** * The device, run

    Parameters for which the device can be run: a codec for the metadata, a
    truncated reader and files in memory. On them a new device takes a write,
    compacts it into a table and loses power; these runs show that what the
    theorems on the device suppose can happen. *)
From S2P Require Import Prelude Radix Bits RangeMap ExtentRangeMap BlockReader StackedBlockReader BlockMap.
From S2P Require Import GoStd Adaptor WalIndex WalFormat WalWriter WalMem WalTheorems WriteLog WriteLogState WriteLogSync.
From S2P Require Import SparseBuilder SparseReader SparseTheorems Tracker TrackerWriter.
From S2P Require Import DataFile Storage Metadata Decimal Device DeviceInv DeviceDisk DeviceClose DeviceFlush DeviceTheorems ByteDevice.
From Stdlib Require PrimFloat.
From stdpp Require Import strings list relations.
Local Open Scope Z_scope.

(** ** Files and readers *)
(** A file in memory that counts the bytes synced. *)
Record sync_log := SyncLog { sl_log : mem_log; sl_synced : Z }.

Definition sl_write (w : sync_log) (r : mem_log * Z * option error) : sync_log * Z * option error :=
  let '(l, n, err) := r in (SyncLog l (sl_synced w), n, err).

Lemma sl_write_synced w r w' n err : sl_write w r = (w', n, err) -> sl_synced w' = sl_synced w.
Proof. destruct r as [[l m] e]. by intros [= <- _ _]. Qed.

#[local] Instance sync_writer : IoWriter sync_log := { io_Write w p := sl_write w (io_Write (sl_log w) p) }.

#[local] Instance sync_writer_laws : IoWriterLaws sync_log.
Proof.
  refine {| io_out w := io_out (sl_log w); io_reliable w := io_reliable (sl_log w) |}.
  - intros [l k] p w' n err. unfold io_Write, sync_writer, sl_write. cbn [sl_log].
    destruct (io_Write l p) as [[l' m] e] eqn:E. intros [= <- <- <-]. by apply io_Write_ok.
  - intros [l k] p w' n err Hr. unfold io_Write, sync_writer, sl_write. cbn [sl_log] in *.
    destruct (io_Write l p) as [[l' m] e] eqn:E. intros [= <- <- <-]. by apply (io_Write_reliable l p l' m).
Defined.

#[local] Instance sync_log_file : LogFile sync_log := {
  lf_WriteMany w ps := sl_write w (lf_WriteMany (sl_log w) ps);
  lf_ReadAt w := lf_ReadAt (sl_log w);
  lf_rf := true;
}.

#[local] Instance sync_log_laws : LogFileLaws sync_log.
Proof.
  refine {| lf_writer_laws := sync_writer_laws |}.
  - intros [l k] ps f' n err. unfold lf_WriteMany, sync_log_file, sl_write. cbn [sl_log].
    destruct (lf_WriteMany l ps) as [[l' m] e] eqn:E. intros [= <- <- <-].
    exact (lf_WriteMany_ok l ps l' m e E).
  - intros [l k] p off. exact (lf_ReadAt_ok l p off).
Defined.

#[local] Instance file_closer : Closer sync_log := {|
  c_Close f := (f, None);
  c_Flush := Some (fun f => (SyncLog (sl_log f) (len (ml_out (sl_log f))), None));
|}.
#[local] Instance handle_closer : Closer unit := {| c_Close _ := (tt, None); c_Flush := None |}.

#[local] Instance file_closer_laws : CloserLaws sync_log.
Proof. split; [by intros ??? [= <- _]|]. by intros ???? [= <-] [= <- _]. Qed.

#[local] Instance file_sync : SyncFile sync_log.
Proof.
  refine {| io_synced := sl_synced |}.
  - intros f p f' n err E. apply sl_write_synced in E. lia.
  - intros f ps f' n err E. apply sl_write_synced in E. lia.
  - eexists. split; [done|]. by intros f f' err [= <- _] _.
Defined.

#[local] Instance clipped_reader : TruncatedReader := {|
  tr_ReadAt ra size p off :=
    if off + len p <=? size then ra p off
    else
      let n := Z.max 0 (size - off) in
      r ← ra (take (Z.to_nat n) p) off;
      let '(q, m, err) := r in Ret (q ++ drop (Z.to_nat n) p, m, match err with Some e => Some e | None => Some EOF end);
|}.

#[local] Instance clipped_reader_laws : TruncatedReaderLaws.
Proof.
  split. intros ra size p off q err Ho Hs E He. exists err. split; [|done]. cbn. by rewrite (proj2 (Z.leb_le _ _)).
Qed.

(** ** A codec for the metadata *)
Definition type_code (t : DataFileType) : Z := match t with UNSPECIFIED => 0 | WRITE_LOG => 1 | SPARSE_TABLE => 2 end.
Definition type_of_code (x : Z) : DataFileType := if x =? 1 then WRITE_LOG else if x =? 2 then SPARSE_TABLE else UNSPECIFIED.

Definition put_name (s : string) : bytes := (fun a => Z.of_N (Ascii.N_of_ascii a)) <$> String.list_ascii_of_string s.
Definition get_name (b : bytes) : string := String.string_of_list_ascii ((fun x => Ascii.ascii_of_N (Z.to_N x)) <$> b).

Definition put_file (df : DataFilePb) : bytes :=
  type_code (dfp_Type df) :: Z.of_nat (String.length (dfp_Name df)) :: put_name (dfp_Name df).

Fixpoint get_files (fuel : nat) (b : bytes) : list DataFilePb :=
  match fuel, b with
  | S fuel, t :: n :: b =>
      MkDataFilePb (type_of_code t) (get_name (take (Z.to_nat n) b)) :: get_files fuel (drop (Z.to_nat n) b)
  | _, _ => []
  end.

#[local] Instance bytes_codec : MetadataCodec := {|
  md_marshal m := inl (le_put 4 (md_BlockSize m) ++ le_put 8 (md_NumBlocks m) ++ mjoin (put_file <$> md_DataFiles m));
  md_unmarshal b := inl (MkMetadata (le_get (take 4 b)) (le_get (take 8 (drop 4 b))) (get_files (length b) (drop 12 b)));
|}.

Lemma get_put_name s : get_name (put_name s) = s.
Proof.
  unfold get_name, put_name. rewrite <- list_fmap_compose.
  rewrite (list_fmap_ext _ id), list_fmap_id; [apply String.string_of_list_ascii_of_string|].
  intros i a _. cbn. by rewrite N2Z.id, Ascii.ascii_N_embedding.
Qed.

Lemma length_put_name s : length (put_name s) = String.length s.
Proof. unfold put_name. rewrite length_fmap. induction s as [|a s IH]; cbn; [done|]. by rewrite IH. Qed.

Lemma get_put_files dfs : forall fuel, (length dfs <= fuel)%nat -> get_files fuel (mjoin (put_file <$> dfs)) = dfs.
Proof.
  induction dfs as [|[t s] dfs IH]; intros fuel Hf; [by destruct fuel|]. destruct fuel as [|fuel]; [cbn in Hf; lia|].
  cbn [fmap list_fmap mjoin list_join put_file app dfp_Type dfp_Name get_files]. rewrite Nat2Z.id.
  rewrite take_app_length', drop_app_length' by (by rewrite length_put_name). rewrite get_put_name.
  f_equal; [by destruct t|]. apply IH. cbn in Hf. lia.
Qed.

#[local] Instance bytes_codec_laws : MetadataCodecLaws.
Proof.
  split. intros [b n dfs] (Hb & Hn & _). cbn in Hb, Hn. eexists. split; [done|].
  unfold md_unmarshal, bytes_codec. cbn [md_BlockSize md_NumBlocks md_DataFiles]. f_equal.
  set (rest := mjoin (put_file <$> dfs)).
  rewrite take_app_length', drop_app_length' by (by rewrite length_le_put).
  rewrite take_app_length' by (by rewrite length_le_put).
  replace (drop 12 (le_put 4 b ++ le_put 8 n ++ rest)) with rest.
  2:{ rewrite app_assoc, drop_app_length'; [done|]. by rewrite length_app, !length_le_put. }
  rewrite !le_get_put by (cbn; lia). unfold rest at 2; rewrite get_put_files; [done|]. rewrite !length_app.
  assert (length dfs <= length rest)%nat; [|lia]. unfold rest. clear. induction dfs as [|df dfs IH]; [done|].
  change (mjoin (put_file <$> df :: dfs)) with (put_file df ++ mjoin (put_file <$> dfs)).
  rewrite length_app. cbn [put_file length]. lia.
Qed.

(** ** A device

    Four blocks of 512 bytes; [rand.Intn] counts. *)
Definition example_opts : BlockOptions := MkBlockOptions 512 4 0 PrimFloat.zero.
Definition example_file : sync_log := SyncLog (MemLog [] []) 0.
Definition example_block : bytes := replicate 512 7.

Abbreviation tree := (list_tree it_key).
Abbreviation index_map := (ExtentRangeMap Z tree).
Abbreviation example_world := (world sync_log tree unit).
Abbreviation example_device := (BlockFile index_map fun_bits).

Definition no_device : example_world * example_device :=
  (crashed (∅, ∅), MkBlockFile 0 PrimFloat.zero 0 0 0 (NewTracker 0 0) (NewWriterTracker 0) (MkMetadata 0 0 [])).

Abbreviation Open := (OpenBlockFileWithOptions (F := sync_log) (T := tree) (M := index_map) (BS := fun_bits)
  example_file tt Z.of_nat 2).

(** A result without an error, and whether there is one. *)
Definition opened (o : outcome (example_world * (example_device + error))) : option (example_world * example_device) :=
  match o with Ret (w, inl bf) => Some (w, bf) | _ => None end.
Definition written (o : outcome (example_world * example_device * Z * option error * bool)) :
    option (example_world * example_device) :=
  match o with Ret (w, bf, _, None, _) => Some (w, bf) | _ => None end.
Definition is_some {A} (o : option A) : bool := match o with Some _ => true | None => false end.

Definition run_open (d : directory * directory) : example_world * example_device :=
  default no_device (opened (Open (crashed d) example_opts)).
Definition run_write (x : example_world * example_device) (buf : bytes) (off : Z) : example_world * example_device :=
  default no_device (written (bf_WriteBlocks x.1 x.2 buf off)).

Lemma run_open_ok d :
  is_some (opened (Open (crashed d) example_opts)) = true ->
  Open (crashed d) example_opts = Ret ((run_open d).1, inl (run_open d).2).
Proof. unfold run_open. by destruct (Open (crashed d) example_opts) as [[w [bf|e]]| |]. Qed.

Lemma run_write_ok x buf off :
  is_some (written (bf_WriteBlocks x.1 x.2 buf off)) = true ->
  exists n b, bf_WriteBlocks x.1 x.2 buf off = Ret ((run_write x buf off).1, (run_write x buf off).2, n, None, b).
Proof. unfold run_write. destruct (bf_WriteBlocks x.1 x.2 buf off) as [[[[[w bf] n] [e|]] b]| |]; eauto; done. Qed.

Abbreviation example_step := (dev_step (F := sync_log) (T := tree) (G := unit) (M := index_map) (BS := fun_bits)
  example_file tt Z.of_nat 2 map_to_list example_opts).
Abbreviation example_reachable := (reachable (F := sync_log) (T := tree) (G := unit) (M := index_map) (BS := fun_bits)
  example_file tt Z.of_nat 2 map_to_list example_opts).

(** A new device, a write to the second block, and the device opened again after
    a crash. *)
Definition example_new := run_open (∅, ∅).
Definition example_written := run_write example_new example_block 1.
Definition example_crashed := run_open (disk_of example_written.1).

Lemma example_setting : setting (F := sync_log) (T := tree) (G := unit) example_file Z.of_nat 2 map_to_list example_opts.
Proof. split; [by vm_compute|by vm_compute|done|done|]. exists 0%nat. split; [lia|]. by vm_compute. Qed.

Lemma example_write_ok : write_ok 512 4 (1, example_block).
Proof.
  exists 1. split; [lia|]. split; [by vm_compute|]. split; [by vm_compute|]. split; [cbn; lia|]. split; [cbn; lia|].
  apply Forall_replicate. by vm_compute.
Qed.

Definition example_content : content := write_content 512 (fun _ => None) (1, example_block).

Lemma example_write_reachable :
  example_reachable (MkDstate example_written.1 example_written.2 example_content
    (durable_write (Some (fun _ => None, [])) (1, example_block) example_written.1 example_written.2)).
Proof.
  exists (MkDstate example_new.1 example_new.2 (fun _ => None) (Some (fun _ => None, []))).
  split; [split; [apply run_open_ok; vm_compute; reflexivity|done]|]. apply rtc_once.
  destruct (run_write_ok example_new example_block 1) as (n & b & E); [vm_compute; reflexivity|].
  eapply step_write; [exact example_write_ok|exact E].
Qed.

(** What a crash needs, on a device that has taken the write. *)
Lemma example_crash_safe c u : crash_safe (MkDstate example_written.1 example_written.2 c u).
Proof.
  split; [split; vm_compute; reflexivity|]. cbn [ds_world ds_device]. unfold no_footer. apply (bool_decide_unpack _).
  vm_compute. exact I.
Qed.

Lemma example_can_open : can_open (F := sync_log) (T := tree) (G := unit) Z.of_nat 2 (disk_of example_written.1).
Proof. exists 1%nat. split; [lia|]. vm_compute. reflexivity. Qed.

Lemma example_crash_reachable :
  example_reachable (MkDstate example_crashed.1 example_crashed.2 example_content None).
Proof.
  destruct example_write_reachable as (s0 & Hnew & Hrtc). exists s0. split; [exact Hnew|].
  eapply rtc_r; [exact Hrtc|]. eapply step_crash; [apply example_crash_safe|exact example_can_open|].
  apply run_open_ok. vm_compute. reflexivity.
Qed.



(** ** A loss of power

    The device flushes the write, takes another one, to the first block, and loses
    power with 20 bytes of the entry on the storage. *)
Definition flushed (o : outcome (example_world * option error)) : option example_world :=
  match o with Ret (w, None) => Some w | _ => None end.
Definition example_flushed : example_world * example_device :=
  (default no_device.1 (flushed (bf_Flush example_written.1 example_written.2)), example_written.2).

Lemma example_flush_ok : bf_Flush example_written.1 example_written.2 = Ret (example_flushed.1, None).
Proof.
  assert (is_some (flushed (bf_Flush example_written.1 example_written.2)) = true) as H by (vm_compute; reflexivity).
  unfold example_flushed. cbn [fst]. by destruct (bf_Flush example_written.1 example_written.2) as [[w [e|]]| |].
Qed.

Definition example_later : bytes := replicate 512 9.
Definition example_more := run_write example_flushed example_later 0.
Definition example_cut : Z := len (active_file example_flushed.1 example_flushed.2) + 20.
Definition example_since : recent := [(0, example_later, len (active_file example_more.1 example_more.2))].

Lemma example_later_ok : write_ok 512 4 (0, example_later).
Proof.
  exists 1. split; [lia|]. split; [by vm_compute|]. split; [by vm_compute|]. split; [cbn; lia|]. split; [cbn; lia|].
  apply Forall_replicate. by vm_compute.
Qed.

Lemma example_more_ok :
  write_all example_flushed.1 example_written.2 [(0, example_later)] [] = Ret (example_more.1, example_more.2, example_since).
Proof.
  destruct (run_write_ok example_flushed example_later 0) as (n & b & E); [vm_compute; reflexivity|].
  cbn [write_all]. change example_written.2 with example_flushed.2. rewrite E. reflexivity.
Qed.

Lemma example_power_safe : power_safe example_more.1 example_more.2 example_since example_cut.
Proof.
  split; [split; vm_compute; reflexivity|]. split; [vm_compute; split; congruence|]. split; [vm_compute; congruence|]. split.
  - apply Forall_singleton. cbn [fst snd]. vm_compute. intros [? ?]. congruence.
  - unfold no_footer. apply (bool_decide_unpack _). vm_compute. exact I.
Qed.


(** ** A compaction

    The same device with a table size of one block: the write makes it compact
    the log into a table, from which the block is read. *)
Definition with_target (x : example_world * example_device) (n : Z) : example_world * example_device :=
  (x.1, MkBlockFile n (bf_MinTableUtilisation x.2) (bf_numBlocks x.2) (bf_blockSize x.2) (bf_nextSeq x.2)
          (bf_readerTracker x.2) (bf_writerTracker x.2) (bf_meta x.2)).

Example compaction_runs :
  match compactWriter example_file tt Z.of_nat map_to_list 2 example_written.1 (with_target example_written 512).2 with
  | Ret (w, bf) => Some (md_DataFiles (bf_meta bf), fst <$> map_to_list (w_blobs w), fst <$> map_to_list (w_logs w),
                         bf_ReadBlocks w bf (zeros 512) 1)
  | _ => None
  end =
  Some ([MkDataFilePb SPARSE_TABLE "1.sparseblock"; MkDataFilePb WRITE_LOG "wal-00000001"],
        ["metadata.pb"; "1.sparseblock"], ["wal-00000001"], Ret (example_block, 1, None)).
Proof. vm_compute. reflexivity. Qed.

(** An unaligned read across the start of the block that was written before the
    crash, and a write of whole blocks. *)
Lemma byte_device_reads_writes_witness :
  (exists err, rw_ReadAt 512 example_crashed.1 example_crashed.2 (zeros 4) 510 = Ret ([0; 0; 7; 7], 4, err)) /\
  exists w bf, rw_WriteAt 512 example_crashed.1 example_crashed.2 (replicate 1024 9) 512 = Ret (w, bf, 1024, None).
Proof.
  destruct (byte_device_reads_writes example_file tt Z.of_nat 2 map_to_list example_opts example_setting _
    example_crash_reachable) as (Hread & Hwrite & _).
  split.
  - eexists. etransitivity; [apply (Hread (zeros 4) 510); [lia|vm_compute; congruence]|]. vm_compute. reflexivity.
  - destruct (Hwrite (replicate 1024 9) 512) as (s' & E & _); [vm_compute; reflexivity|vm_compute; split; congruence| |lia|vm_compute; congruence|].
    + apply Forall_replicate. vm_compute. split; congruence.
    + eexists _, _. exact E.
Defined.
