(* ===== verification/Setup.v ===== *)
(** * Starting the program

    [cmd/logblock/main.go] up to the opening of the device: the arguments, the
    choice of the stores and the options of the device; and
    [internal/storage/cloud/blob.go], the store that forwards to the library
    [cloud-util]. That library is a parameter: its stores are values of a type [S]
    that can be compared, as interface values can. *)
From S2P Require Import Prelude BlockReader GoStd Decimal App SparseBuilder Device DeviceDisk.
From Stdlib Require PrimFloat.
From stdpp Require Import strings.
Local Open Scope Z_scope.

(** ** [internal/storage/cloud/blob.go] *)
Section cloud.
Context {S : Type} `{!EqDecision S}.

(** [bs] may be wrapped in caches; [baseBs] is not. *)
Record BlobStore := MkBlobStore { cs_bs : S; cs_baseBs : S }.

(** [OpenBlobStore], [cache.NewStagedBlobUploader] and [cache.NewBlockBlobCache]. *)
Record cloud_util := {
  cu_OpenBlobStore : string -> S + error;
  cu_NewStagedBlobUploader : S -> string -> S + error;
  cu_NewBlockBlobCache : S -> string -> Z -> S + error;
}.

(** A call with a result or an error. *)
Definition bind_sum {A B} (x : A + error) (f : A -> B + error) : B + error :=
  match x with inl a => f a | inr err => inr err end.

Definition NewBlobStore (cu : cloud_util) (url stagingDir cacheDir : string) (cacheSize : Z) : BlobStore + error :=
  bind_sum (cu_OpenBlobStore cu url) (fun baseBs =>
  bind_sum (if bool_decide (stagingDir <> "") then cu_NewStagedBlobUploader cu baseBs stagingDir else inl baseBs) (fun bs =>
  bind_sum (if bool_decide (cacheDir <> "") then cu_NewBlockBlobCache cu bs cacheDir cacheSize else inl bs) (fun bs =>
  inl (MkBlobStore bs baseBs)))).

Definition Base (s : BlobStore) : BlobStore :=
  if bool_decide (cs_bs s = cs_baseBs s) then s else MkBlobStore (cs_baseBs s) (cs_baseBs s).

(** [Open] and [Remove] are [Get] and [Delete] of the store; the writer of [Put]
    is cancelled when the context is done. *)
Context {St Rd Wr : Type} (cu_Get : S -> St -> string -> St * (Rd + error)) (cu_Put : S -> St -> string -> St * (Wr + error))
        (cu_Delete : S -> St -> string -> St * option error) (w_Cancel : Wr -> St -> St).

Definition cs_Open (s : BlobStore) (st : St) (name : string) : St * (Rd + error) := cu_Get (cs_bs s) st name.

(** The writer, and what the goroutine does when the context is done. *)
Definition cs_Create (s : BlobStore) (st : St) (name : string) : St * (Wr * (St -> St) + error) :=
  let '(st, w) := cu_Put (cs_bs s) st name in
  (st, bind_sum w (fun w => inl (w, w_Cancel w))).

Definition cs_Remove (s : BlobStore) (st : St) (name : string) : St * option error := cu_Delete (cs_bs s) st name.

(** The metadata bypasses the caches: [Base] of a store is the store that the
    library opened, whatever caches are over it, and has no caches of its own. *)
Lemma Base_uncached cu url stagingDir cacheDir cacheSize s :
  NewBlobStore cu url stagingDir cacheDir cacheSize = inl s ->
  cu_OpenBlobStore cu url = inl (cs_bs (Base s)) /\ Base (Base s) = Base s.
Proof.
  unfold NewBlobStore. destruct (cu_OpenBlobStore cu url) as [base|]; [cbn|done].
  destruct (if bool_decide (stagingDir <> "") then _ else _) as [b1|]; [cbn|done].
  destruct (if bool_decide (cacheDir <> "") then _ else _) as [b2|]; [cbn|done]. intros [= <-].
  unfold Base. cbn. case_bool_decide as E; cbn; [|by rewrite bool_decide_eq_true_2].
  by rewrite E, bool_decide_eq_true_2.
Qed.
End cloud.
Arguments BlobStore S : clear implicits.
Arguments cloud_util S : clear implicits.

(** ** [cmd/logblock/main.go] *)
Section main.
Context {S : Type} `{!EqDecision S} (cu : cloud_util S).

(** [filepath.Join] of the data directory and a name in it; whether [os.MkdirAll]
    succeeds is up to the file system. *)
Context (Join : string -> string -> string) (mkdir : string -> option error).

Inductive store := LocalStore (dir : string) | CloudStore (s : BlobStore S).

(** [NewBlobStore] and [NewLogStore] of [internal/storage/local/local.go]. *)
Definition local_NewBlobStore (dir : string) : store + error :=
  match mkdir dir with Some err => inr err | None => inl (LocalStore dir) end.
Definition local_NewLogStore (dir : string) : store + error :=
  match mkdir dir with Some err => inr err | None => inl (LocalStore dir) end.

Definition targetTableSize : Z := 1024 * 1024 * 1024.

(** The blob store and the store of the metadata; an error panics. *)
Definition main_stores (dataDir blobstoreFlag blobCacheSizeFlag : string) : outcome (store * store) :=
  if bool_decide (blobstoreFlag <> "") then
    match ParseSizeString blobCacheSizeFlag with
    | None => Panic
    | Some cacheSize =>
        match NewBlobStore cu blobstoreFlag (Join dataDir "staging") (Join dataDir "blob-cache") (i64 cacheSize) with
        | inr _ => Panic
        | inl cloudBs => Ret (CloudStore cloudBs, CloudStore (Base cloudBs))
        end
    end
  else
    match local_NewBlobStore (Join dataDir "blobs") with
    | inr _ => Panic
    | inl blobStore => Ret (blobStore, blobStore)
    end.

Definition main_options (numBlocks : Z) : BlockOptions :=
  MkBlockOptions App.blockSize numBlocks targetTableSize (PrimFloat.div PrimFloat.one (float64_of 2)).

(** What the program opens: the options, the stores of blobs, of metadata and of
    logs, and the NBD device, by index or by path. [None] is an exit with status
    1. *)
Record started := MkStarted {
  sd_opts : BlockOptions;
  sd_blobs : store;
  sd_meta : store;
  sd_logs : store;
  sd_nbd : Z + string;
}.

Definition main_setup (args : list string) (sizeFlag blobstoreFlag blobCacheSizeFlag : string) : outcome (option started) :=
  match args with
  | [nbdDev; dataDir] =>
      let nbd := match ParseNbdIndex nbdDev with Some i => inl i | None => inr nbdDev end in
      match num_blocks sizeFlag with
      | None => Ret None
      | Some n =>
          '(blobStore, metaBlobStore) ← main_stores dataDir blobstoreFlag blobCacheSizeFlag;
          match local_NewLogStore (Join dataDir "wal") with
          | inr _ => Panic
          | inl logSource => Ret (Some (MkStarted (main_options n) blobStore metaBlobStore logSource nbd))
          end
      end
  | _ => Ret None
  end.

(** The options of a program that starts are ones that [OpenBlockFileWithOptions]
    accepts. *)
Lemma started_options args sizeFlag blobstoreFlag blobCacheSizeFlag sd :
  main_setup args sizeFlag blobstoreFlag blobCacheSizeFlag = Ret (Some sd) ->
  valid_options (sd_opts sd) = true /\ 0 <= o_NumBlocks (sd_opts sd) <= 2 ^ 32.
Proof.
  unfold main_setup. destruct args as [|nbdDev [|dataDir [|? ?]]]; try done.
  destruct (num_blocks sizeFlag) as [n|] eqn:En; [|done]. intros ([b m] & _ & E)%bind_Ret.
  destruct (local_NewLogStore (Join dataDir "wal")); [|done]. injection E as <-. cbn [sd_opts main_options o_NumBlocks].
  assert (0 <= n <= 2 ^ 32) as Hn.
  { unfold num_blocks in En. apply bind_Some in En as (v & (_ & k & -> & Hk)%device_size_spec & [= <-]).
    by rewrite Z.div_mul. }
  split; [|done]. unfold valid_options. cbn [main_options o_BlockSize o_NumBlocks o_TargetTableSize o_MinTableUtilisation].
  assert ((n <? 0) || (Device.MaxBlocks <? n) = false) as ->; [|vm_compute; reflexivity].
  apply orb_false_iff. split; apply Z.ltb_ge; [lia|]. change Device.MaxBlocks with (2 ^ 48). lia.
Qed.
End main.

(** The program with the local stores, on two command lines. *)
Example main_setup_runs :
  let cu := {| cu_OpenBlobStore _ := inl tt; cu_NewStagedBlobUploader _ _ := inl tt; cu_NewBlockBlobCache _ _ _ := inl tt |} in
  let run size := main_setup cu (fun d n => d +:+ "/" +:+ n) (fun _ => None) ["/dev/nbd3"; "data"] size "" "8G" in
  run "1G" = Ret (Some (MkStarted (main_options 262144) (LocalStore "data/blobs") (LocalStore "data/blobs")
                          (LocalStore "data/wal") (inl 3))) /\
  run "1000" = Ret None.
Proof. vm_compute. split; reflexivity. Qed.
